(* ===== verification/_CoqProject ===== *)
-Q . S2P
Prelude.v
Bitops.v
DList.v
Buddy.v
RbTree.v
RbTreeProofs.v
RbErase.v
RbSpec.v
Vma.v
VmaTree.v
VmaOps.v
VmaFree.v
VmaSearch.v
VmaSpec.v
Pgtable.v
PgtableProofs.v
SocProofs.v
SocSpec.v
Gbn.v
GbnProofs.v
GbnSpec.v
Fpga.v
FpgaProofs.v
HostBoard.v
FpgaSpec.v
Hlist.v
Process.v
Session.v
Server.v
ServerProofs.v
ServerSpec.v
HashFamily.v
Rpc.v
RpcSpec.v
Peer.v
PeerProofs.v
PeerSpec.v
Monitor.v
MonitorProofs.v
MonitorSpec.v
Host.v
HostProofs.v
HostSpec.v
