(* ===== verification/Prelude.v ===== *)
(** * Clio: a verification development for the disaggregated-memory system

    Clio gives applications memory that lives on separate boards.  A _host_ runs
    the application and a library; a _board_ holds the memory, with a processor (the
    SoC) that manages addresses and an FPGA that serves accesses and the network; the
    _monitor_ gives out process ids and regions and introduces the nodes to each
    other.  Paths below are relative to src/.

    ** Files

    - Prelude: words, alignment, error values (include/uapi/compiler.h, err.h,
      page.h, vregion.h), shared lemmas, tactics and hints.
    - Bitops: bit searches and bitmaps (include/uapi/bitops.h, bitmap.h,
      host/lib/bitmap.c).  DList, Hlist, HashFamily: the lists of list.h and the
      tables of hashtable.h on stores of pointers.
    - Buddy: physical pages (board/soc/core/buddy.c).
    - RbTree, RbTreeProofs, RbErase, RbSpec: red-black trees (board/soc/core/rbtree.c).
    - Vma, VmaTree, VmaOps, VmaFree, VmaSearch, VmaSpec: the areas of a vRegion
      (board/soc/core/vm.c).
    - Pgtable, PgtableProofs, SocProofs, SocSpec: the FPGA page table, its shadow, and
      alloc_va and free_va (pgtable.c, shadow_pgtable.c, vm.c).
    - Gbn, GbnProofs, GbnSpec: the host's Go-Back-N transport (host/net/transport_gbn.c).
      Fpga, FpgaProofs, FpgaSpec: the board's (board/fpga/net_reliable).  HostBoard:
      the two against each other.
    - Process, Session: the tables of processes and sessions (sched.h, sched.c,
      session.c, main_monitor.c).
    - Server, ServerProofs, ServerSpec: the requests a board serves (handler.c, core.c,
      ctrl.c), on top of Pgtable, Process, Session and the set-up of Fpga.
    - Rpc, RpcSpec: the host's RPC transport (host/net/transport_rpc.c), on DList and
      Session.
    - Peer, PeerProofs, PeerSpec: known nodes and sessions of a host or the monitor
      (host/board.c, context.c, net/core.c, common.c and the sessions of api.c).
    - Monitor, MonitorProofs, MonitorSpec: host/main_monitor.c, on Process and Peer.
    - Host, HostProofs, HostSpec: the library of a host (contexts, regions, allocation,
      access, migration: host/core.h, context.c, api.c), on Peer; HostSpec runs it
      against the monitor of Monitor.

    The files without Proofs or Spec in their name hold definitions, which keep the
    names of the C functions; a prefix (mon_, peer_, host_, soc_) tells functions of
    the same name apart.  State is a record that is passed on, a pointer an index
    or an address into a store, a failure of the machine (a null pointer, BUG, an
    endless loop) [None], an error code the number the code returns.

    ** What is shown

    - Library code: searches, lists, buddy allocator and trees return and do what
      they are for, with the red-black and augmentation invariants.
    - Address spaces: areas, page-table entries and physical pages agree in every
      reachable state in which no bucket overflowed; allocation and release change
      exactly the pages of their range.
    - Board: every request is answered and keeps the parts consistent.
    - Transport: what is acknowledged was received, over a network that loses,
      duplicates and reorders; progress without loss.  Over RPC, the states that
      sessions share are counted and not used after they are freed.
    - Hosts and monitor: the ways to look up a node or a session agree in every
      reachable state; the monitor never gives an id or a region twice, answers
      every request for a region, and orders the steps of a migration.
    - A host against the monitor: every allocation ends with a new region and a session
      to its board, or an error; the branches in which the code suspects a bug of the
      monitor or of itself are never taken; writes carry the data of the caller.
    - Theorems that state what the code does where this is not what it should do:
      free_middle_page_fails, spare_page_handed_out_while_mapped,
      gbn_data_sent_at_most_once, ack_send_race_loses_timer, free_proc_keeps_entries,
      migration_keeps_board, rpc_state_not_per_board, and the reference that
      monitor_migration_correct shows is kept.

    ** Bounds

    Loops that are not structural take fuel, and the theorems show that the fuel they
    name suffices: the height of a tree for the searches in it, the number of nodes
    for a list, [chain_fuel] (more than the 1024 sessions and 128 boards) for a bucket
    of a node, NR_MAX_BOARDS steps for the rotation over the boards, NR_MAX_USER_PID
    for a bucket of processes or contexts, NR_VREGIONS for the regions of a context.
    The rotation really diverges when no memory board is in its range although one is
    counted ([find_board_repeat_diverges]).

    ** Not modelled

    - Concurrency: operations run one at a time, which the locks of the source
      provide for most; locks, threads and atomics are not in the state.
    - I/O: sockets, verbs, DMA, mapped device memory, ARP, argument parsing, printing,
      statistics.  Whether the network came up, an address was resolved, or how another
      node answers are arguments of the definitions.
    - Of host/api.c the answers to reads and writes, the variants that take a message
      buffer, pointer chasing, and the loop of legomem_migration over regions;
      api_kvs.c and api_mv.c, clients of the library; memory_model.c, which is switched
      off in config.h; transport_bypass.c, which only calls the raw network.
    - Memory that was freed is not handed out again: the allocators of processes and
      contexts return addresses of a list without repetitions.  The states of HostSpec
      do not include those after the host closes a session or migrates a region: both
      leave stale links in the tables of the regions.
    - Verilog, Scala and generated set-up code of the FPGA; lookup3.h, whose use is
      compiled out; inline assembly of bitops_x86.h; tests. *)

From Stdlib Require Export ZArith Lia Bool.
From stdpp Require Export base list numbers option gmap.

#[global] Open Scope Z_scope.

(** ** Machine words

    [unsigned long], [uint64_t] and pointers are integers of [0, 2^64); every
    operation of the C code that can leave that range is written with its
    wrap-around.  [int] and [unsigned int] are 32 bits wide. *)

Declare Scope word_scope.
Delimit Scope word_scope with word.

Definition BITS_PER_LONG : Z := 64.
Definition W64 : Z := 2 ^ 64.
Definition W32 : Z := 2 ^ 32.

(** Conversion to [unsigned long] and to [unsigned int]. *)
Definition wrap64 (x : Z) : Z := x mod 2 ^ 64.
Definition wrap32 (x : Z) : Z := x mod 2 ^ 32.

(** Conversion to the signed types, by two's complement. *)
Definition sint64 (x : Z) : Z := (x + 2 ^ 63) mod 2 ^ 64 - 2 ^ 63.
Definition sint32 (x : Z) : Z := (x + 2 ^ 31) mod 2 ^ 32 - 2 ^ 31.

(** Bitwise complement [~x] of an [unsigned long], and its largest value. *)
Definition not64 (x : Z) : Z := wrap64 (Z.lnot x).
Definition ULONG_MAX : Z := 2 ^ 64 - 1.

Notation "x +w y" := (wrap64 (x + y)) (at level 50, left associativity) : word_scope.
Notation "x -w y" := (wrap64 (x - y)) (at level 50, left associativity) : word_scope.
Notation "x *w y" := (wrap64 (x * y)) (at level 40, left associativity) : word_scope.
Notation "x <<w n" := (wrap64 (Z.shiftl x n)) (at level 45, left associativity) : word_scope.
Notation "x >>w n" := (Z.shiftr x n) (at level 45, left associativity) : word_scope.
Open Scope word_scope.

(** A value of type [unsigned long]. *)
Definition is_word (x : Z) : Prop := 0 <= x < 2 ^ 64.

#[export] Instance is_word_dec x : Decision (is_word x).
Proof. unfold is_word. apply _. Defined.

(** ** Tactics and hint databases

    [testbits] holds the rewrite rules that push [Z.testbit] through the
    operators; [words] the closure lemmas of [is_word]. *)

Create HintDb words.
Create Rewrite HintDb testbits.

(** Destructs the innermost boolean comparison of the goal and solves what is
    left by arithmetic. *)
Ltac case_bools :=
  repeat match goal with
  | |- context [?a <? ?b] => destruct (Z.ltb_spec a b)
  | |- context [?a <=? ?b] => destruct (Z.leb_spec a b)
  | |- context [?a =? ?b] => destruct (Z.eqb_spec a b)
  end.

(** Turns boolean hypotheses on [Z] into propositions. *)
Ltac zbool :=
  repeat match goal with
  | H : (_ && _)%bool = true |- _ => apply andb_true_iff in H as [? ?]
  | H : (_ || _)%bool = false |- _ => apply orb_false_iff in H as [? ?]
  | H : (_ <? _) = true |- _ => apply Z.ltb_lt in H
  | H : (_ <? _) = false |- _ => apply Z.ltb_ge in H
  | H : (_ <=? _) = true |- _ => apply Z.leb_le in H
  | H : (_ <=? _) = false |- _ => apply Z.leb_gt in H
  | H : (_ =? _) = true |- _ => apply Z.eqb_eq in H
  | H : (_ =? _) = false |- _ => apply Z.eqb_neq in H
  | H : negb _ = true |- _ => apply negb_true_iff in H
  | H : negb _ = false |- _ => apply negb_false_iff in H
  end.

(** Case analysis on every [if] and [match] scrutinee of a hypothesis. *)
Ltac case_hyp H :=
  repeat match type of H with
  | context [match ?x with _ => _ end] => destruct x eqn:?; try discriminate H
  end.

(** ** Words: testbit rules *)

Lemma testbit_wrap64 x i : 0 <= i -> Z.testbit (wrap64 x) i = (i <? 64) && Z.testbit x i.
Proof.
  intros Hi. unfold wrap64. destruct (Z.ltb_spec i 64).
  - now rewrite Z.mod_pow2_bits_low by lia.
  - now rewrite Z.mod_pow2_bits_high by lia.
Qed.

Lemma testbit_not64 x i : 0 <= i -> Z.testbit (not64 x) i = (i <? 64) && negb (Z.testbit x i).
Proof. intros Hi. unfold not64. rewrite testbit_wrap64, Z.lnot_spec; auto. Qed.

Lemma is_word_testbit x : is_word x -> forall i, 64 <= i -> Z.testbit x i = false.
Proof.
  intros [H0 H1] i Hi. destruct (Z.eq_dec x 0) as [->|Hx]; [apply Z.bits_0|].
  apply Z.bits_above_log2; [lia|]. apply Z.log2_lt_pow2; [lia|].
  eapply Z.lt_le_trans; [apply H1|]. apply Z.pow_le_mono_r; lia.
Qed.

Lemma testbit_is_word x : 0 <= x -> (forall i, 64 <= i -> Z.testbit x i = false) -> is_word x.
Proof.
  intros H0 Hb. assert (x = wrap64 x) as ->.
  { apply Z.bits_inj'. intros i Hi. rewrite testbit_wrap64 by lia.
    destruct (Z.ltb_spec i 64); cbn; auto. }
  unfold is_word, wrap64. apply Z.mod_pos_bound. lia.
Qed.

Lemma wrap64_small x : is_word x -> wrap64 x = x.
Proof. intros. apply Z.mod_small. auto. Qed.

Lemma wrap32_small x : 0 <= x < 2 ^ 32 -> wrap32 x = x.
Proof. apply Z.mod_small. Qed.

Lemma sint32_small x : - 2 ^ 31 <= x < 2 ^ 31 -> sint32 x = x.
Proof. intros. unfold sint32. rewrite Z.mod_small; lia. Qed.

Lemma wrap64_is_word x : is_word (wrap64 x).
Proof. unfold is_word, wrap64. apply Z.mod_pos_bound. lia. Qed.

Lemma not64_is_word x : is_word (not64 x).
Proof. apply wrap64_is_word. Qed.

Lemma land_is_word x y : is_word x -> 0 <= y -> is_word (Z.land x y).
Proof.
  intros Hx Hy. apply testbit_is_word; [apply Z.land_nonneg; left; apply Hx|].
  intros i Hi. rewrite Z.land_spec, (is_word_testbit x); auto.
Qed.

Lemma lor_is_word x y : is_word x -> is_word y -> is_word (Z.lor x y).
Proof.
  intros Hx Hy. apply testbit_is_word; [apply Z.lor_nonneg; split; [apply Hx|apply Hy]|].
  intros i Hi. rewrite Z.lor_spec, (is_word_testbit x), (is_word_testbit y); auto.
Qed.

Lemma lxor_is_word x y : is_word x -> is_word y -> is_word (Z.lxor x y).
Proof.
  intros Hx Hy. apply testbit_is_word; [apply Z.lxor_nonneg; split; intros _; [apply Hy|apply Hx]|].
  intros i Hi. rewrite Z.lxor_spec, (is_word_testbit x), (is_word_testbit y); auto.
Qed.

Lemma shiftr_is_word x n : is_word x -> 0 <= n -> is_word (Z.shiftr x n).
Proof.
  intros Hx Hn. apply testbit_is_word; [apply Z.shiftr_nonneg; apply Hx|].
  intros i Hi. rewrite Z.shiftr_spec by lia. apply is_word_testbit; auto; lia.
Qed.

#[export] Hint Resolve wrap64_is_word not64_is_word land_is_word lor_is_word lxor_is_word
  shiftr_is_word : words.

Lemma testbit_ulong_max i : 0 <= i -> Z.testbit ULONG_MAX i = (i <? 64).
Proof.
  intros Hi. change ULONG_MAX with (Z.pred (2 ^ 64)). rewrite <- Z.ones_equiv.
  now rewrite Z.testbit_ones_nonneg by lia.
Qed.

Lemma testbit_shiftl x n i :
  0 <= i -> 0 <= n -> Z.testbit (Z.shiftl x n) i = (n <=? i) && Z.testbit x (i - n).
Proof.
  intros. rewrite Z.shiftl_spec by lia. destruct (Z.leb_spec n i); cbn; auto.
  apply Z.testbit_neg_r. lia.
Qed.

Lemma testbit_one n : Z.testbit 1 n = (n =? 0).
Proof.
  destruct (Z.eqb_spec n 0) as [->|]; auto.
  destruct (Z.lt_ge_cases n 0); [now apply Z.testbit_neg_r|].
  change 1 with (2 ^ 0). apply Z.pow2_bits_false. lia.
Qed.

#[export] Hint Rewrite Z.land_spec Z.lor_spec Z.lxor_spec Z.ldiff_spec Z.bits_0 testbit_one : testbits.
#[export] Hint Rewrite testbit_wrap64 testbit_not64 testbit_ulong_max Z.shiftr_spec
  testbit_shiftl using lia : testbits.

(** Proves an equation between words bit by bit. *)
Ltac bitwise i :=
  apply Z.bits_inj'; intros i ?; autorewrite with testbits.

(** ** The arithmetic macros of uapi/compiler.h, at type [unsigned long] *)

Definition BIT_MASK (nr : Z) : Z := wrap64 (Z.shiftl 1 (nr mod BITS_PER_LONG)).
Definition BIT_WORD (nr : Z) : Z := nr / BITS_PER_LONG.
Definition round_mask (y : Z) : Z := wrap64 (y - 1).
Definition round_up (x y : Z) : Z := wrap64 (Z.lor (wrap64 (x - 1)) (round_mask y) + 1).
Definition round_down (x y : Z) : Z := Z.land x (not64 (round_mask y)).
Definition DIV_ROUND_UP (n d : Z) : Z := wrap64 (wrap64 (n + d) - 1) / d.
Definition ALIGN (x a : Z) : Z := Z.land (wrap64 (wrap64 (x + a) - 1)) (not64 (wrap64 (a - 1))).
Definition IS_ALIGNED (x a : Z) : bool := Z.land x (wrap64 (a - 1)) =? 0.
Definition ALIGN_MASK (x mask : Z) : Z := Z.land (wrap64 (x + mask)) (not64 mask).
Definition is_log2 (v : Z) : bool := Z.land v (wrap64 (v - 1)) =? 0.

(** ** Error values of uapi/err.h *)

Definition MAX_ERRNO : Z := 4095.
Definition IS_ERR_VALUE (x : Z) : bool := wrap64 (- MAX_ERRNO) <=? x.
Definition ERR_PTR (error : Z) : Z := wrap64 error.
Definition PTR_ERR (ptr : Z) : Z := sint64 ptr.
Definition IS_ERR (ptr : Z) : bool := IS_ERR_VALUE ptr.
Definition IS_ERR_OR_NULL (ptr : Z) : bool := (ptr =? 0) || IS_ERR_VALUE ptr.
Definition PTR_RET (ptr : Z) : Z := if IS_ERR ptr then sint32 (PTR_ERR ptr) else 0.

(** The errno values the code returns. *)
Definition EPERM : Z := 1.
Definition EIO : Z := 5.
Definition ENOMEM : Z := 12.
Definition EFAULT : Z := 14.
Definition EBUSY : Z := 16.
Definition EEXIST : Z := 17.
Definition ENODEV : Z := 19.
Definition EINVAL : Z := 22.

(** ** Pages (uapi/page.h) and vRegions (uapi/vregion.h) *)

Definition VIRTUAL_ADDR_SHIFT : Z := 50.
Definition PAGE_SHIFT : Z := 22.
Definition PAGE_SIZE : Z := 2 ^ 22.
Definition PAGE_MASK : Z := not64 (PAGE_SIZE - 1).
Definition PFN_ALIGN (x : Z) : Z := Z.land (wrap64 (x + (PAGE_SIZE - 1))) PAGE_MASK.
Definition PFN_UP (x : Z) : Z := Z.shiftr (wrap64 (wrap64 (x + PAGE_SIZE) - 1)) PAGE_SHIFT.
Definition PFN_DOWN (x : Z) : Z := Z.shiftr x PAGE_SHIFT.
Definition PFN_PHYS (x : Z) : Z := wrap64 (Z.shiftl x PAGE_SHIFT).
Definition PHYS_PFN (x : Z) : Z := Z.shiftr x PAGE_SHIFT.
Definition PAGE_ALIGN (addr : Z) : Z := ALIGN addr PAGE_SIZE.
Definition PAGE_ALIGNED (addr : Z) : bool := IS_ALIGNED addr PAGE_SIZE.
Definition NR_VIRTUAL_PAGES : Z := 2 ^ (VIRTUAL_ADDR_SHIFT - PAGE_SHIFT).

Definition VREGION_SIZE_SHIFT : Z := 30.
Definition VREGION_SIZE : Z := 2 ^ 30.
Definition NR_VREGIONS_SHIFT : Z := VIRTUAL_ADDR_SHIFT - VREGION_SIZE_SHIFT.
Definition NR_VREGIONS : Z := 2 ^ NR_VREGIONS_SHIFT.

(** ** Lemmas on masks and alignment *)

Lemma testbit_pow2_pred k i : 0 <= k -> 0 <= i -> Z.testbit (2 ^ k - 1) i = (i <? k).
Proof.
  intros. replace (2 ^ k - 1) with (Z.ones k) by (rewrite Z.ones_equiv; lia).
  now rewrite Z.testbit_ones_nonneg by lia.
Qed.
#[export] Hint Rewrite testbit_pow2_pred using lia : testbits.

Lemma pow2_pred_is_word k : 0 <= k <= 64 -> is_word (2 ^ k - 1).
Proof.
  intros. unfold is_word. assert (2 ^ k <= 2 ^ 64) by (apply Z.pow_le_mono_r; lia).
  assert (0 < 2 ^ k) by (apply Z.pow_pos_nonneg; lia). lia.
Qed.

(** Clearing the low [k] bits rounds down to a multiple of [2^k]. *)
Lemma land_not_mask x k :
  is_word x -> 0 <= k <= 64 -> Z.land x (not64 (2 ^ k - 1)) = x / 2 ^ k * 2 ^ k.
Proof.
  intros Hx Hk. rewrite <- Z.shiftr_div_pow2, <- Z.shiftl_mul_pow2 by lia.
  bitwise i. destruct (Z.leb_spec k i); cbn.
  - rewrite Z.shiftr_spec by lia. replace (i - k + k) with i by lia.
    destruct (Z.ltb_spec i 64), (Z.ltb_spec i k); try lia; cbn; rewrite ?andb_true_r; auto.
    now rewrite is_word_testbit by auto.
  - destruct (Z.ltb_spec i k); lia.
Qed.

Lemma land_pow2_pred x k : 0 <= k -> Z.land x (2 ^ k - 1) = x mod 2 ^ k.
Proof.
  intros. replace (2 ^ k - 1) with (Z.ones k) by (rewrite Z.ones_equiv; lia).
  now apply Z.land_ones.
Qed.

Lemma land_1 x : Z.land x 1 = x mod 2.
Proof. apply (land_pow2_pred x 1). lia. Qed.

Lemma round_down_spec x k :
  is_word x -> 0 <= k < 64 -> round_down x (2 ^ k) = x / 2 ^ k * 2 ^ k.
Proof.
  intros Hx Hk. unfold round_down, round_mask.
  rewrite wrap64_small by (apply pow2_pred_is_word; lia). apply land_not_mask; auto; lia.
Qed.

(** [ALIGN x 2^k] is the least multiple of [2^k] not below [x], as long as the
    addition does not wrap. *)
Lemma ALIGN_spec x k :
  0 <= x -> 0 <= k < 64 -> x + 2 ^ k - 1 < 2 ^ 64 ->
  ALIGN x (2 ^ k) = (x + 2 ^ k - 1) / 2 ^ k * 2 ^ k.
Proof.
  intros Hx Hk Hb. assert (0 < 2 ^ k) by (apply Z.pow_pos_nonneg; lia).
  assert (Hw : wrap64 (wrap64 (x + 2 ^ k) - 1) = x + 2 ^ k - 1).
  { unfold wrap64. rewrite Zminus_mod_idemp_l. apply Z.mod_small. lia. }
  unfold ALIGN. rewrite Hw, (wrap64_small (2 ^ k - 1)) by (apply pow2_pred_is_word; lia).
  apply land_not_mask; [unfold is_word|]; lia.
Qed.

Lemma PAGE_ALIGN_bounds x :
  0 <= x -> x + PAGE_SIZE - 1 < 2 ^ 64 ->
  x <= PAGE_ALIGN x < x + PAGE_SIZE /\ PAGE_ALIGN x mod PAGE_SIZE = 0.
Proof.
  intros. unfold PAGE_ALIGN. change PAGE_SIZE with (2 ^ 22) in *.
  rewrite ALIGN_spec by lia. split; [|apply Z_mod_mult].
  pose proof (Z.div_mod (x + 2 ^ 22 - 1) (2 ^ 22)). pose proof (Z.mod_pos_bound (x + 2 ^ 22 - 1) (2 ^ 22)).
  lia.
Qed.

(** Every negative errno, cast to [unsigned long], is an error value and
    converts back; no smaller value is. *)
Lemma IS_ERR_VALUE_spec x :
  is_word x -> IS_ERR_VALUE x = true <-> - MAX_ERRNO <= sint64 x < 0.
Proof.
  unfold is_word, IS_ERR_VALUE, sint64, wrap64, MAX_ERRNO. intros Hx.
  rewrite Z.leb_le. change ((- (4095)) mod 2 ^ 64) with (2 ^ 64 - 4095).
  destruct (Z.lt_ge_cases x (2 ^ 63)).
  - rewrite Z.mod_small; lia.
  - rewrite <- (Z_mod_plus_full _ (-1)), Z.mod_small; lia.
Qed.
