(* ===== verification/Bitops.v ===== *)
(** * Bit operations and bitmaps

    Models include/uapi/bitops.h and bitops_asm_generic.h (bit searches and
    single-bit updates), include/uapi/bitmap.h and host/lib/bitmap.c (bitmaps),
    include/uapi/log2.h and include/uapi/hash.h.  The session-id and pid
    allocators and the host's placement code are built on these routines.

    A bitmap is the array of [unsigned long] the code has: a list of words,
    indexed from 0.  Reading or writing outside the array is undefined in C; the
    model reads 0 and drops the write there, and every theorem bounds the bit
    numbers so that it does not happen.  [bm_bit] is the abstract view: the
    value of bit [i].  The theorems relate each routine to that view. *)

From S2P Require Import Prelude.

(** ** Arrays of words and their abstract view *)

Definition word_at (addr : list Z) (i : Z) : Z := nth (Z.to_nat i) addr 0.
Definition word_set (addr : list Z) (i v : Z) : list Z := <[Z.to_nat i := v]> addr.

Definition bm_bit (addr : list Z) (i : Z) : bool :=
  Z.testbit (word_at addr (i / BITS_PER_LONG)) (i mod BITS_PER_LONG).

Arguments word_at : simpl never.
Arguments word_set : simpl never.
Arguments bm_bit : simpl never.

(** A bitmap of at least [nbits] bits whose elements are words. *)
Definition bitmap_fits (addr : list Z) (nbits : Z) : Prop :=
  Forall is_word addr /\ 0 <= nbits <= 64 * Z.of_nat (length addr) /\ nbits <= 2 ^ 63.

(** [r] is the least index of [lo, hi) where [P] holds, and [hi] if there is none. *)
Definition is_first (P : Z -> bool) (lo hi r : Z) : Prop :=
  (forall j, lo <= j < r -> P j = false) /\ (r = hi \/ lo <= r < hi /\ P r = true).

(** [for (k = 0; k < lim; k++) s = body(k, s)] *)
Fixpoint for_upto {S : Type} (lim : nat) (body : Z -> S -> S) (s : S) : S :=
  match lim with
  | O => s
  | Datatypes.S n => body (Z.of_nat n) (for_upto n body s)
  end.

(** [for (k = 0; k < lim; k++) if (!f(k)) return 0; return 1] *)
Fixpoint all_upto (lim : nat) (f : Z -> bool) : bool :=
  match lim with
  | O => true
  | Datatypes.S n => all_upto n f && f (Z.of_nat n)
  end.

(** ** Single words *)

Fixpoint pos_ctz (p : positive) : Z :=
  match p with
  | xO p' => 1 + pos_ctz p'
  | _ => 0
  end.

(** [__builtin_ctzl] and [__builtin_clzl]: undefined on 0. *)
Definition builtin_ctzl (w : Z) : Z := match w with Zpos p => pos_ctz p | _ => 0 end.
Definition builtin_clzl (w : Z) : Z := 63 - Z.log2 w.
Definition builtin_clz (w : Z) : Z := 31 - Z.log2 w.

Definition __ffs (word : Z) : Z := builtin_ctzl word.
Definition __fls (word : Z) : Z := 64 - 1 - builtin_clzl word.
Definition fls (x : Z) : Z := if x =? 0 then 0 else 32 - builtin_clz x.
Definition ffz (x : Z) : Z := __ffs (not64 x).
Definition fls64 (x : Z) : Z := if x =? 0 then 0 else __fls x + 1.

Definition BITMAP_FIRST_WORD_MASK (start : Z) : Z :=
  wrap64 (Z.shiftl ULONG_MAX (Z.land start (BITS_PER_LONG - 1))).
Definition BITMAP_LAST_WORD_MASK (nbits : Z) : Z :=
  Z.shiftr ULONG_MAX (Z.land (wrap64 (- nbits)) (BITS_PER_LONG - 1)).
Definition BITS_TO_LONGS (nr : Z) : Z := DIV_ROUND_UP nr BITS_PER_LONG.

(** ** Bit searches (uapi/bitops.h) *)

(** The [while (!tmp)] loop of [_find_next_bit]; [fuel] bounds the number of
    words that are left. *)
Fixpoint find_next_loop (fuel : nat) (addr : list Z) (nbits invert start tmp : Z) : Z :=
  if tmp =? 0 then
    match fuel with
    | O => nbits
    | S fuel' =>
        let start := start +w BITS_PER_LONG in
        if nbits <=? start then nbits
        else find_next_loop fuel' addr nbits invert start
               (Z.lxor (word_at addr (start / BITS_PER_LONG)) invert)
    end
  else Z.min (start +w __ffs tmp) nbits.

Definition _find_next_bit (addr : list Z) (nbits start invert : Z) : Z :=
  if (nbits =? 0) || (nbits <=? start) then nbits
  else
    let tmp := Z.lxor (word_at addr (start / BITS_PER_LONG)) invert in
    let tmp := Z.land tmp (BITMAP_FIRST_WORD_MASK start) in
    let start := round_down start BITS_PER_LONG in
    find_next_loop (length addr) addr nbits invert start tmp.

Definition find_next_bit (addr : list Z) (size offset : Z) : Z :=
  _find_next_bit addr size offset 0.
Definition find_next_zero_bit (addr : list Z) (size offset : Z) : Z :=
  _find_next_bit addr size offset ULONG_MAX.

(** The [for] loops of [find_first_bit] and [find_first_zero_bit]: [skip] is
    the word that holds no candidate and [pick] the search inside a word. *)
Fixpoint find_first_loop (fuel : nat) (skip : Z) (pick : Z -> Z)
    (addr : list Z) (size idx : Z) : Z :=
  match fuel with
  | O => size
  | S fuel' =>
      if idx *w BITS_PER_LONG <? size then
        if word_at addr idx =? skip
        then find_first_loop fuel' skip pick addr size (idx +w 1)
        else Z.min (wrap64 (idx * BITS_PER_LONG + pick (word_at addr idx))) size
      else size
  end.

Definition find_first_bit (addr : list Z) (size : Z) : Z :=
  find_first_loop (S (length addr)) 0 __ffs addr size 0.
Definition find_first_zero_bit (addr : list Z) (size : Z) : Z :=
  find_first_loop (S (length addr)) ULONG_MAX ffz addr size 0.

(** The [do ... while (idx--)] loop of [find_last_bit]; [idx] counts down, so
    it is the recursion argument. *)
Fixpoint find_last_loop (idx : nat) (addr : list Z) (size val : Z) : Z :=
  let val := Z.land val (word_at addr (Z.of_nat idx)) in
  if negb (val =? 0) then wrap64 (Z.of_nat idx * BITS_PER_LONG + __fls val)
  else
    match idx with
    | O => size
    | S idx' => find_last_loop idx' addr size ULONG_MAX
    end.

Definition find_last_bit (addr : list Z) (size : Z) : Z :=
  if size =? 0 then size
  else find_last_loop (Z.to_nat ((size - 1) / BITS_PER_LONG)) addr size
         (BITMAP_LAST_WORD_MASK size).

(** ** Single-bit updates (uapi/bitops_asm_generic.h) *)

Definition __set_bit (nr : Z) (addr : list Z) : list Z :=
  word_set addr (BIT_WORD nr) (Z.lor (word_at addr (BIT_WORD nr)) (BIT_MASK nr)).
Definition __clear_bit (nr : Z) (addr : list Z) : list Z :=
  word_set addr (BIT_WORD nr) (Z.land (word_at addr (BIT_WORD nr)) (not64 (BIT_MASK nr))).
Definition __change_bit (nr : Z) (addr : list Z) : list Z :=
  word_set addr (BIT_WORD nr) (Z.lxor (word_at addr (BIT_WORD nr)) (BIT_MASK nr)).

Definition __test_and_set_bit (nr : Z) (addr : list Z) : bool * list Z :=
  let mask := BIT_MASK nr in
  let old := word_at addr (BIT_WORD nr) in
  (negb (Z.land old mask =? 0), word_set addr (BIT_WORD nr) (Z.lor old mask)).
Definition __test_and_clear_bit (nr : Z) (addr : list Z) : bool * list Z :=
  let mask := BIT_MASK nr in
  let old := word_at addr (BIT_WORD nr) in
  (negb (Z.land old mask =? 0), word_set addr (BIT_WORD nr) (Z.land old (not64 mask))).
Definition __test_and_change_bit (nr : Z) (addr : list Z) : bool * list Z :=
  let mask := BIT_MASK nr in
  let old := word_at addr (BIT_WORD nr) in
  (negb (Z.land old mask =? 0), word_set addr (BIT_WORD nr) (Z.lxor old mask)).

Definition test_bit (nr : Z) (addr : list Z) : bool :=
  negb (Z.land 1 (Z.shiftr (word_at addr (BIT_WORD nr)) (Z.land nr (BITS_PER_LONG - 1))) =? 0).

(** ** Bitmaps (host/lib/bitmap.c) *)

Definition __bitmap_equal (bitmap1 bitmap2 : list Z) (bits : Z) : bool :=
  let lim := bits / BITS_PER_LONG in
  all_upto (Z.to_nat lim) (fun k => word_at bitmap1 k =? word_at bitmap2 k) &&
  (if bits mod BITS_PER_LONG =? 0 then true
   else Z.land (Z.lxor (word_at bitmap1 lim) (word_at bitmap2 lim))
          (BITMAP_LAST_WORD_MASK bits) =? 0).

(** The loop shared by [bitmap_set] and [bitmap_clear]: [op] is the update of
    one word by a mask, [p] the index of the word the C pointer designates.
    [fuel] bounds the number of whole words. *)
Fixpoint bitmap_range_loop (fuel : nat) (op : Z -> Z -> Z) (map : list Z)
    (p size len bits mask : Z) : list Z :=
  match fuel with
  | O => map
  | S fuel' =>
      if 0 <=? len - bits then
        bitmap_range_loop fuel' op (word_set map p (op (word_at map p) mask))
          (p + 1) size (len - bits) BITS_PER_LONG ULONG_MAX
      else if negb (len =? 0) then
        word_set map p (op (word_at map p) (Z.land mask (BITMAP_LAST_WORD_MASK size)))
      else map
  end.

Definition bitmap_set (map : list Z) (start len : Z) : list Z :=
  bitmap_range_loop (S (S (length map))) Z.lor map (BIT_WORD start) (wrap32 (start + len)) len
    (BITS_PER_LONG - start mod BITS_PER_LONG) (BITMAP_FIRST_WORD_MASK start).

Definition bitmap_clear (map : list Z) (start len : Z) : list Z :=
  bitmap_range_loop (S (S (length map))) (fun w m => Z.land w (not64 m)) map (BIT_WORD start)
    (wrap32 (start + len)) len
    (BITS_PER_LONG - start mod BITS_PER_LONG) (BITMAP_FIRST_WORD_MASK start).

Inductive reg_op := REG_OP_ISFREE | REG_OP_ALLOC | REG_OP_RELEASE.

(** [__reg_op] returns its [ret] and the updated bitmap. *)
Definition __reg_op (bitmap : list Z) (pos order : Z) (op : reg_op) : Z * list Z :=
  let nbits_reg := Z.shiftl 1 order in
  let index := pos / BITS_PER_LONG in
  let offset := pos - index * BITS_PER_LONG in
  let nlongs_reg := BITS_TO_LONGS nbits_reg in
  let nbitsinlong := Z.min nbits_reg BITS_PER_LONG in
  let mask := wrap64 (Z.shiftl 1 (nbitsinlong - 1)) in
  let mask := wrap64 (mask + (mask - 1)) in
  let mask := mask <<w offset in
  match op with
  | REG_OP_ISFREE =>
      if all_upto (Z.to_nat nlongs_reg)
           (fun i => Z.land (word_at bitmap (index + i)) mask =? 0)
      then (1, bitmap) else (0, bitmap)
  | REG_OP_ALLOC =>
      (0, for_upto (Z.to_nat nlongs_reg)
            (fun i b => word_set b (index + i) (Z.lor (word_at b (index + i)) mask)) bitmap)
  | REG_OP_RELEASE =>
      (0, for_upto (Z.to_nat nlongs_reg)
            (fun i b => word_set b (index + i) (Z.land (word_at b (index + i)) (not64 mask)))
            bitmap)
  end.

(** The [for] loop of [bitmap_find_free_region]; [fuel] bounds the regions. *)
Fixpoint find_free_region_loop (fuel : nat) (bitmap : list Z) (bits order pos : Z) : Z * list Z :=
  match fuel with
  | O => (- ENOMEM, bitmap)
  | S fuel' =>
      let e := pos + Z.shiftl 1 order in
      if e <=? bits then
        if fst (__reg_op bitmap pos order REG_OP_ISFREE) =? 0
        then find_free_region_loop fuel' bitmap bits order e
        else (pos, snd (__reg_op bitmap pos order REG_OP_ALLOC))
      else (- ENOMEM, bitmap)
  end.

Definition bitmap_find_free_region (bitmap : list Z) (bits order : Z) : Z * list Z :=
  find_free_region_loop (S (Z.to_nat bits)) bitmap bits order 0.

Definition bitmap_release_region (bitmap : list Z) (pos order : Z) : list Z :=
  snd (__reg_op bitmap pos order REG_OP_RELEASE).

Definition bitmap_allocate_region (bitmap : list Z) (pos order : Z) : Z * list Z :=
  if fst (__reg_op bitmap pos order REG_OP_ISFREE) =? 0 then (- EBUSY, bitmap)
  else (0, snd (__reg_op bitmap pos order REG_OP_ALLOC)).

Definition __bitmap_intersects (bitmap1 bitmap2 : list Z) (bits : Z) : bool :=
  let lim := bits / BITS_PER_LONG in
  if all_upto (Z.to_nat lim) (fun k => Z.land (word_at bitmap1 k) (word_at bitmap2 k) =? 0) then
    if bits mod BITS_PER_LONG =? 0 then false
    else negb (Z.land (Z.land (word_at bitmap1 lim) (word_at bitmap2 lim))
                 (BITMAP_LAST_WORD_MASK bits) =? 0)
  else true.

(** The body shared by [__bitmap_and] and [__bitmap_andnot]: [f] combines two
    words; returns [result != 0] and the updated [dst]. *)
Definition bitmap_combine (f : Z -> Z -> Z) (dst bitmap1 bitmap2 : list Z) (bits : Z)
  : bool * list Z :=
  let lim := bits / BITS_PER_LONG in
  let '(result, dst) :=
    for_upto (Z.to_nat lim)
      (fun k '(result, dst) =>
         let v := f (word_at bitmap1 k) (word_at bitmap2 k) in
         (Z.lor result v, word_set dst k v)) (0, dst) in
  let '(result, dst) :=
    if bits mod BITS_PER_LONG =? 0 then (result, dst)
    else
      let v := Z.land (f (word_at bitmap1 lim) (word_at bitmap2 lim))
                 (BITMAP_LAST_WORD_MASK bits) in
      (Z.lor result v, word_set dst lim v) in
  (negb (result =? 0), dst).

Definition __bitmap_and := bitmap_combine Z.land.
Definition __bitmap_andnot := bitmap_combine (fun a b => Z.land a (not64 b)).

Definition __bitmap_subset (bitmap1 bitmap2 : list Z) (bits : Z) : bool :=
  let lim := bits / BITS_PER_LONG in
  all_upto (Z.to_nat lim)
    (fun k => Z.land (word_at bitmap1 k) (not64 (word_at bitmap2 k)) =? 0) &&
  (if bits mod BITS_PER_LONG =? 0 then true
   else Z.land (Z.land (word_at bitmap1 lim) (not64 (word_at bitmap2 lim)))
          (BITMAP_LAST_WORD_MASK bits) =? 0).

Definition __bitmap_or (dst bitmap1 bitmap2 : list Z) (bits : Z) : list Z :=
  for_upto (Z.to_nat (BITS_TO_LONGS bits))
    (fun k dst => word_set dst k (Z.lor (word_at bitmap1 k) (word_at bitmap2 k))) dst.

(** The [again:] loop of [bitmap_find_next_zero_area_off].  Every iteration
    moves [start] past a set bit below [size], so [fuel] = [size] + 1 is enough. *)
Fixpoint find_zero_area_loop (fuel : nat) (map : list Z)
    (size start nr align_mask align_offset : Z) : option Z :=
  match fuel with
  | O => None
  | S fuel' =>
      let index := find_next_zero_bit map size start in
      let index := ALIGN_MASK (index +w align_offset) align_mask -w align_offset in
      let e := index +w nr in
      if size <? e then Some e
      else
        let i := find_next_bit map e index in
        if i <? e
        then find_zero_area_loop fuel' map size (i +w 1) nr align_mask align_offset
        else Some index
  end.

Definition bitmap_find_next_zero_area_off (map : list Z)
    (size start nr align_mask align_offset : Z) : option Z :=
  find_zero_area_loop (S (Z.to_nat size)) map size start nr align_mask align_offset.
Definition bitmap_find_next_zero_area (map : list Z) (size start nr align_mask : Z) : option Z :=
  bitmap_find_next_zero_area_off map size start nr align_mask 0.

(** ** The inline wrappers of uapi/bitmap.h

    [const] is [__builtin_constant_p(nbits)]: whether the compiler knows
    [nbits], which selects the single-word fast path. *)

Definition small_const_nbits (const : bool) (nbits : Z) : bool :=
  const && (nbits <=? BITS_PER_LONG).

Definition bitmap_equal (const : bool) (src1 src2 : list Z) (nbits : Z) : bool :=
  if small_const_nbits const nbits then
    Z.land (Z.lxor (word_at src1 0) (word_at src2 0)) (BITMAP_LAST_WORD_MASK nbits) =? 0
  else __bitmap_equal src1 src2 nbits.

Definition bitmap_empty (const : bool) (src : list Z) (nbits : Z) : bool :=
  if small_const_nbits const nbits then
    Z.land (word_at src 0) (BITMAP_LAST_WORD_MASK nbits) =? 0
  else find_first_bit src nbits =? nbits.

Definition bitmap_full (const : bool) (src : list Z) (nbits : Z) : bool :=
  if small_const_nbits const nbits then
    Z.land (not64 (word_at src 0)) (BITMAP_LAST_WORD_MASK nbits) =? 0
  else find_first_zero_bit src nbits =? nbits.

Definition bitmap_zero (const : bool) (dst : list Z) (nbits : Z) : list Z :=
  if small_const_nbits const nbits then word_set dst 0 0
  else for_upto (Z.to_nat (BITS_TO_LONGS nbits)) (fun k d => word_set d k 0) dst.

Definition bitmap_fill (const : bool) (dst : list Z) (nbits : Z) : list Z :=
  let nlongs := BITS_TO_LONGS nbits in
  let dst :=
    if small_const_nbits const nbits then dst
    else for_upto (Z.to_nat (nlongs - 1)) (fun k d => word_set d k ULONG_MAX) dst in
  word_set dst (nlongs - 1) (BITMAP_LAST_WORD_MASK nbits).

Definition bitmap_copy (const : bool) (dst src : list Z) (nbits : Z) : list Z :=
  if small_const_nbits const nbits then word_set dst 0 (word_at src 0)
  else for_upto (Z.to_nat (BITS_TO_LONGS nbits)) (fun k d => word_set d k (word_at src k)) dst.

(** ** Logarithms and hashes (uapi/log2.h, uapi/hash.h) *)

Definition is_power_of_2 (n : Z) : bool :=
  negb (n =? 0) && (Z.land n (wrap64 (n - 1)) =? 0).

(** The cascade of tests of [ilog2], from bit [k] down to bit 0; [None] is the
    non-terminating [____ilog2_NaN]. *)
Fixpoint ilog2_from (k : nat) (n : Z) : option Z :=
  if negb (Z.land n (Z.shiftl 1 (Z.of_nat k)) =? 0) then Some (Z.of_nat k)
  else match k with O => None | S k' => ilog2_from k' n end.
Definition ilog2 (n : Z) : option Z := if n <? 1 then None else ilog2_from 63 n.

Definition GOLDEN_RATIO_32 : Z := 0x61C88647.
Definition GOLDEN_RATIO_64 : Z := 0x61C8864680B583EB.
Definition __hash_32 (val : Z) : Z := wrap32 (val * GOLDEN_RATIO_32).
Definition hash_32 (val bits : Z) : Z := Z.shiftr (__hash_32 val) (32 - bits).
Definition hash_64 (val bits : Z) : Z := wrap32 (Z.shiftr (val *w GOLDEN_RATIO_64) (64 - bits)).
Definition hash32_ptr (ptr : Z) : Z := wrap32 (Z.lxor ptr (Z.shiftr ptr 32)).

(** ** Lemmas on words *)

Lemma pos_ctz_spec p :
  0 <= pos_ctz p /\ Z.testbit (Zpos p) (pos_ctz p) = true /\
  forall j, 0 <= j < pos_ctz p -> Z.testbit (Zpos p) j = false.
Proof.
  induction p as [p IH|p IH|]; cbn [pos_ctz]; try (split_and!; [lia|reflexivity|lia]).
  destruct IH as (H0 & H1 & H2). split_and!; [lia| |].
  - replace (1 + pos_ctz p) with (Z.succ (pos_ctz p)) by lia.
    change (Zpos (xO p)) with (2 * Zpos p). now rewrite Z.double_bits_succ.
  - intros j Hj. change (Zpos (xO p)) with (2 * Zpos p).
    destruct (Z.eq_dec j 0) as [->|]; [apply Z.testbit_even_0|].
    replace j with (Z.succ (j - 1)) by lia. rewrite Z.double_bits_succ. apply H2. lia.
Qed.

Lemma testbit_ne0 w i : Z.testbit w i = true -> w <> 0.
Proof. intros H ->. now rewrite Z.bits_0 in H. Qed.

(** [__ffs] is the least set bit of a non-zero word. *)
Lemma ffs_spec w :
  is_word w -> w <> 0 ->
  0 <= __ffs w < 64 /\ Z.testbit w (__ffs w) = true /\
  forall j, 0 <= j < __ffs w -> Z.testbit w j = false.
Proof.
  intros Hw Hne. destruct w as [|p|p]; [lia| |unfold is_word in Hw; lia].
  destruct (pos_ctz_spec p) as (H0 & H1 & H2). cbn [__ffs builtin_ctzl].
  split_and!; auto. destruct (Z.lt_ge_cases (pos_ctz p) 64); auto.
  now rewrite is_word_testbit in H1.
Qed.

(** [__fls] is the greatest set bit of a non-zero word. *)
Lemma fls_spec w :
  is_word w -> w <> 0 ->
  0 <= __fls w < 64 /\ Z.testbit w (__fls w) = true /\
  forall j, __fls w < j -> Z.testbit w j = false.
Proof.
  intros [H0 H1] Hne. unfold __fls, builtin_clzl.
  replace (64 - 1 - (63 - Z.log2 w)) with (Z.log2 w) by lia. split_and!.
  - apply Z.log2_nonneg.
  - apply Z.log2_lt_pow2; lia.
  - apply Z.bit_log2. lia.
  - intros j Hj. apply Z.bits_above_log2; lia.
Qed.

Lemma zero_testbit w : is_word w -> w = 0 <-> forall i, 0 <= i < 64 -> Z.testbit w i = false.
Proof.
  intros Hw. split; [intros -> i _; apply Z.bits_0|]. intros Hb. apply Z.bits_inj'. intros i Hi.
  rewrite Z.bits_0. destruct (Z.lt_ge_cases i 64); [auto|now apply is_word_testbit].
Qed.

Lemma land_mod64 x : Z.land x (BITS_PER_LONG - 1) = x mod 64.
Proof. apply (land_pow2_pred x 6). lia. Qed.

Lemma testbit_first_mask s i :
  0 <= i -> Z.testbit (BITMAP_FIRST_WORD_MASK s) i = (i <? 64) && (s mod 64 <=? i).
Proof.
  intros Hi. unfold BITMAP_FIRST_WORD_MASK. rewrite land_mod64.
  pose proof (Z.mod_pos_bound s 64). rewrite testbit_wrap64, testbit_shiftl by lia.
  destruct (Z.leb_spec (s mod 64) i); [|cbn; reflexivity].
  rewrite testbit_ulong_max by lia. cbn. case_bools; cbn; auto; lia.
Qed.

Lemma testbit_last_mask n i :
  0 <= i -> Z.testbit (BITMAP_LAST_WORD_MASK n) i = (i <? 64 - (- n) mod 64).
Proof.
  intros Hi. unfold BITMAP_LAST_WORD_MASK. rewrite land_mod64. unfold wrap64.
  change (2 ^ 64) with (64 * 2 ^ 58). rewrite Z.rem_mul_r, (Z.mul_comm 64), Z_mod_plus_full by lia.
  rewrite Z.mod_mod by lia. pose proof (Z.mod_pos_bound (- n) 64).
  rewrite Z.shiftr_spec, testbit_ulong_max by lia. case_bools; auto; lia.
Qed.

Lemma first_mask_is_word s : is_word (BITMAP_FIRST_WORD_MASK s).
Proof. apply wrap64_is_word. Qed.
Lemma ulong_max_is_word : is_word ULONG_MAX.
Proof. unfold is_word, ULONG_MAX. lia. Qed.
Lemma last_mask_is_word n : is_word (BITMAP_LAST_WORD_MASK n).
Proof.
  unfold BITMAP_LAST_WORD_MASK. apply shiftr_is_word; [apply ulong_max_is_word|].
  rewrite land_mod64. apply Z.mod_pos_bound. lia.
Qed.
Lemma zero_is_word : is_word 0.
Proof. unfold is_word. lia. Qed.
Lemma is_word_nonneg x : is_word x -> 0 <= x.
Proof. unfold is_word. lia. Qed.
#[export] Hint Resolve first_mask_is_word last_mask_is_word ulong_max_is_word zero_is_word
  is_word_nonneg : words.
#[export] Hint Rewrite testbit_first_mask testbit_last_mask using lia : testbits.

(** ** Lemmas on arrays *)

Lemma word_at_is_word addr i : Forall is_word addr -> is_word (word_at addr i).
Proof.
  intros H. unfold word_at. destruct (nth_in_or_default (Z.to_nat i) addr 0) as [Hin| ->].
  - rewrite Forall_forall in H. apply H. now apply list_elem_of_In.
  - unfold is_word. lia.
Qed.
#[export] Hint Resolve word_at_is_word : words.

Lemma word_at_set addr i v j :
  0 <= i < Z.of_nat (length addr) -> 0 <= j ->
  word_at (word_set addr i v) j = if j =? i then v else word_at addr j.
Proof.
  intros Hi Hj. unfold word_at, word_set.
  destruct (Z.eqb_spec j i) as [->|Hne].
  - apply nth_lookup_Some with (d := 0). apply list_lookup_insert_eq. lia.
  - rewrite !nth_lookup, list_lookup_insert_ne; auto. lia.
Qed.

Lemma length_word_set addr i v : length (word_set addr i v) = length addr.
Proof. apply length_insert. Qed.

Lemma word_set_words addr i v :
  Forall is_word addr -> is_word v -> Forall is_word (word_set addr i v).
Proof. intros. now apply Forall_insert. Qed.
#[export] Hint Resolve word_set_words : words.

Lemma bm_bit_word addr q i :
  0 <= i < 64 -> bm_bit addr (64 * q + i) = Z.testbit (word_at addr q) i.
Proof.
  intros. unfold bm_bit, BITS_PER_LONG.
  replace ((64 * q + i) / 64) with q by (apply (Z.div_unique _ _ _ i); lia).
  replace ((64 * q + i) mod 64) with i by (apply (Z.mod_unique _ _ q); lia). reflexivity.
Qed.

(** The bits of an array with word [i] replaced. *)
Lemma bm_bit_set addr i v j :
  0 <= i < Z.of_nat (length addr) -> 0 <= j ->
  bm_bit (word_set addr i v) j = if j / 64 =? i then Z.testbit v (j mod 64) else bm_bit addr j.
Proof.
  intros Hi Hj. unfold bm_bit, BITS_PER_LONG. rewrite word_at_set; auto.
  - now destruct (j / 64 =? i).
  - apply Z.div_pos; lia.
Qed.

(** Splits a bit number into its word and its position in the word. *)
Ltac split_bit j q i :=
  let Hj := fresh in let Hi := fresh in
  pose proof (Z.div_mod j 64 ltac:(lia)) as Hj; pose proof (Z.mod_pos_bound j 64 ltac:(lia)) as Hi;
  set (q := j / 64) in *; set (i := j mod 64) in *; clearbody q i; subst j.

(** ** Bit searches *)

Definition invert_mask (inv : bool) : Z := if inv then ULONG_MAX else 0.

Lemma testbit_xor_invert w inv i :
  0 <= i < 64 -> Z.testbit (Z.lxor w (invert_mask inv)) i = xorb (Z.testbit w i) inv.
Proof.
  intros. rewrite Z.lxor_spec. f_equal. unfold invert_mask. destruct inv; [|apply Z.bits_0].
  rewrite testbit_ulong_max by lia. now apply Z.ltb_lt.
Qed.

Lemma invert_mask_is_word inv : is_word (invert_mask inv).
Proof. destruct inv; auto with words. Qed.
#[export] Hint Resolve invert_mask_is_word : words.

Lemma find_next_loop_spec fuel addr nbits inv s q tmp :
  bitmap_fits addr nbits -> 0 <= q -> 64 * q < nbits -> s < 64 * q + 64 ->
  (Z.of_nat (length addr) <= Z.of_nat fuel + q)%Z -> is_word tmp ->
  (forall i, 0 <= i < 64 ->
     Z.testbit tmp i = (s <=? 64 * q + i) && xorb (bm_bit addr (64 * q + i)) inv) ->
  (forall j, s <= j < 64 * q -> xorb (bm_bit addr j) inv = false) ->
  is_first (fun j => xorb (bm_bit addr j) inv) s nbits
    (find_next_loop fuel addr nbits (invert_mask inv) (64 * q) tmp).
Proof.
  intros (Hw & Hn & Hn'). revert q tmp. induction fuel as [|fuel IH];
    intros q tmp Hq Hqn Hs Hfuel Htmp Hbits Hbelow; cbn [find_next_loop]; [lia|].
  destruct (Z.eqb_spec tmp 0) as [->|Hne].
  - assert (Hz : forall j, s <= j < 64 * (q + 1) -> xorb (bm_bit addr j) inv = false).
    { intros j Hj. destruct (Z.lt_ge_cases j (64 * q)); [apply Hbelow; lia|].
      specialize (Hbits (j - 64 * q) ltac:(lia)). rewrite Z.bits_0 in Hbits.
      replace (64 * q + (j - 64 * q)) with j in Hbits by lia.
      destruct (Z.leb_spec s j); [symmetry; exact Hbits|lia]. }
    unfold BITS_PER_LONG. replace (64 * q + 64) with (64 * (q + 1)) by lia.
    rewrite wrap64_small by (unfold is_word; lia). rewrite (Z.mul_comm 64), Z.div_mul, Z.mul_comm by lia.
    case_bools; [split; [intros; apply Hz; lia|auto]|].
    apply IH; auto with words; try lia. intros i Hi. rewrite testbit_xor_invert by lia.
    rewrite bm_bit_word by lia. destruct (Z.leb_spec s (64 * (q + 1) + i)); auto; lia.
  - destruct (ffs_spec tmp Htmp Hne) as (Hr & Hset & Hlow).
    rewrite wrap64_small by (unfold is_word; lia). rewrite Hbits in Hset by lia.
    apply andb_true_iff in Hset as [Hge Hset]. apply Z.leb_le in Hge. split.
    + intros j Hj. destruct (Z.lt_ge_cases j (64 * q)); [apply Hbelow; lia|].
      specialize (Hlow (j - 64 * q) ltac:(lia)). rewrite Hbits in Hlow by lia.
      replace (64 * q + (j - 64 * q)) with j in Hlow by lia.
      destruct (Z.leb_spec s j); [exact Hlow|lia].
    + destruct (Z.lt_ge_cases (64 * q + __ffs tmp) nbits); [right|left]; [|lia].
      rewrite Z.min_l by lia. split; [lia|exact Hset].
Qed.

Lemma _find_next_bit_spec addr nbits start inv :
  bitmap_fits addr nbits -> 0 <= start ->
  is_first (fun j => xorb (bm_bit addr j) inv) start nbits
    (_find_next_bit addr nbits start (invert_mask inv)).
Proof.
  intros Hfit Hs. unfold _find_next_bit. destruct Hfit as (Hw & Hn & Hn').
  destruct (Z.eqb_spec nbits 0), (Z.leb_spec nbits start); cbn [orb];
    try (split; [intros; lia|auto]).
  assert (Hrd : round_down start BITS_PER_LONG = start / 64 * 64)
    by (apply (round_down_spec start 6); unfold is_word; lia).
  rewrite Hrd, Z.mul_comm. unfold BITS_PER_LONG.
  pose proof (Z.div_mod start 64 ltac:(lia)) as Hdm. pose proof (Z.mod_pos_bound start 64 ltac:(lia)) as Hm.
  apply find_next_loop_spec; try lia; [easy|auto with words|].
  intros i Hi. rewrite Z.land_spec, testbit_xor_invert, testbit_first_mask, <- bm_bit_word by lia.
  rewrite andb_comm. f_equal. case_bools; auto; lia.
Qed.

Lemma is_first_ext P Q lo hi r :
  (forall j, P j = Q j) -> is_first P lo hi r -> is_first Q lo hi r.
Proof. intros HPQ [H1 H2]. split; [intros; rewrite <- HPQ; auto|]. now rewrite <- HPQ. Qed.

(** The least index is unique, so the searches are determined by [is_first]. *)
Lemma is_first_unique P lo hi r r' :
  lo <= hi -> is_first P lo hi r -> is_first P lo hi r' -> r = r'.
Proof.
  intros Hle [H1 H2] [H3 H4].
  destruct (Z.lt_trichotomy r r') as [Hlt|[?|Hlt]]; auto; exfalso.
  - destruct H2 as [?|[? E]]; [lia|]. rewrite H3 in E; [discriminate|lia].
  - destruct H4 as [?|[? E]]; [lia|]. rewrite H1 in E; [discriminate|lia].
Qed.

Lemma find_next_bit_first addr size offset :
  bitmap_fits addr size -> 0 <= offset ->
  is_first (bm_bit addr) offset size (find_next_bit addr size offset).
Proof.
  intros H H0. eapply is_first_ext; [|apply (_find_next_bit_spec addr size offset false); auto].
  intros j. apply xorb_false_r.
Qed.

Lemma find_next_zero_bit_first addr size offset :
  bitmap_fits addr size -> 0 <= offset ->
  is_first (fun j => negb (bm_bit addr j)) offset size (find_next_zero_bit addr size offset).
Proof.
  intros H H0. eapply is_first_ext; [|apply (_find_next_bit_spec addr size offset true); auto].
  intros j. apply xorb_true_r.
Qed.

Lemma find_first_loop_spec fuel inv pick addr size idx :
  (forall w, is_word w -> pick w = __ffs (Z.lxor w (invert_mask inv))) ->
  bitmap_fits addr size -> 0 <= idx -> 64 * idx < 2 ^ 63 + 64 ->
  Z.of_nat (length addr) < Z.of_nat fuel + idx ->
  (forall j, 0 <= j < Z.min (64 * idx) size -> xorb (bm_bit addr j) inv = false) ->
  is_first (fun j => xorb (bm_bit addr j) inv) 0 size
    (find_first_loop fuel (invert_mask inv) pick addr size idx).
Proof.
  intros Hpick (Hw & Hn & Hn'). revert idx. induction fuel as [|fuel IH]; intros idx Hi Hb Hfuel Hlow;
    cbn [find_first_loop].
  { split; [intros; apply Hlow; lia|auto]. }
  unfold BITS_PER_LONG. rewrite wrap64_small by (unfold is_word; lia).
  destruct (Z.ltb_spec (idx * 64) size); [|split; [intros; apply Hlow; lia|auto]].
  assert (Hx : is_word (Z.lxor (word_at addr idx) (invert_mask inv))) by auto with words.
  assert (Hbit : forall i, 0 <= i < 64 ->
    Z.testbit (Z.lxor (word_at addr idx) (invert_mask inv)) i = xorb (bm_bit addr (64 * idx + i)) inv)
    by (intros; now rewrite bm_bit_word, testbit_xor_invert by lia).
  destruct (Z.eqb_spec (word_at addr idx) (invert_mask inv)) as [E|Hne].
  - rewrite wrap64_small by (unfold is_word; lia). apply IH; try lia. intros j Hj.
    destruct (Z.lt_ge_cases j (64 * idx)); [apply Hlow; lia|].
    replace j with (64 * idx + (j - 64 * idx)) by lia. rewrite <- Hbit by lia.
    now rewrite E, Z.lxor_nilpotent, Z.bits_0.
  - rewrite Hpick by auto with words. destruct (ffs_spec _ Hx) as (Hr & Hset & Hl); [now intros ?%Z.lxor_eq|].
    rewrite Hbit in Hset by lia. rewrite wrap64_small by (unfold is_word; lia). split.
    + intros j Hj. destruct (Z.lt_ge_cases j (64 * idx)); [apply Hlow; lia|].
      replace j with (64 * idx + (j - 64 * idx)) by lia. rewrite <- Hbit by lia. apply Hl. lia.
    + destruct (Z.lt_ge_cases (64 * idx + __ffs (Z.lxor (word_at addr idx) (invert_mask inv))) size);
        [right|left; lia]. rewrite Z.min_l, (Z.mul_comm idx) by lia. split; [lia|exact Hset].
Qed.

Lemma find_first_bit_first addr size :
  bitmap_fits addr size -> is_first (bm_bit addr) 0 size (find_first_bit addr size).
Proof.
  intros H. eapply is_first_ext; [intros j; apply xorb_false_r|].
  apply (find_first_loop_spec (S (length addr)) false); auto; try lia.
  intros w _. cbn. now rewrite Z.lxor_0_r.
Qed.

Lemma lxor_ulong_max w : is_word w -> Z.lxor w ULONG_MAX = not64 w.
Proof.
  intros Hw. bitwise i. destruct (Z.ltb_spec i 64); cbn; [apply xorb_true_r|].
  now rewrite (is_word_testbit w).
Qed.

Lemma find_first_zero_bit_first addr size :
  bitmap_fits addr size ->
  is_first (fun j => negb (bm_bit addr j)) 0 size (find_first_zero_bit addr size).
Proof.
  intros H. eapply is_first_ext; [intros j; apply xorb_true_r|].
  apply (find_first_loop_spec (S (length addr)) true); auto; try lia.
  intros w Hw. unfold ffz. cbn. now rewrite lxor_ulong_max.
Qed.

(** [r] is the greatest index below [size] where [P] holds, and [size] if there
    is none. *)
Definition is_last (P : Z -> bool) (size r : Z) : Prop :=
  r = size /\ (forall j, 0 <= j < size -> P j = false) \/
  0 <= r < size /\ P r = true /\ forall j, r < j < size -> P j = false.

(** One word of the search: [v] is word [n] with the bits from [size] on masked. *)
Lemma find_last_word addr size n v :
  bitmap_fits addr size -> 0 <= n -> 64 * n < size -> is_word v ->
  (forall i, 0 <= i < 64 -> Z.testbit v i = (64 * n + i <? size) && bm_bit addr (64 * n + i)) ->
  (forall j, 64 * n + 64 <= j < size -> bm_bit addr j = false) ->
  if v =? 0 then forall j, 64 * n <= j < size -> bm_bit addr j = false
  else is_last (bm_bit addr) size (wrap64 (n * BITS_PER_LONG + __fls v)).
Proof.
  intros (Hw & Hn & Hn') Hn0 Hns Hv Hvb Hhigh.
  assert (Hj : forall j, 64 * n <= j < size -> j < 64 * n + 64 ->
    Z.testbit v (j - 64 * n) = bm_bit addr j).
  { intros j ? ?. rewrite Hvb by lia. replace (64 * n + (j - 64 * n)) with j by lia.
    destruct (Z.ltb_spec j size); [reflexivity|lia]. }
  destruct (Z.eqb_spec v 0) as [->|E].
  - intros j ?. destruct (Z.lt_ge_cases j (64 * n + 64)); [|apply Hhigh; lia].
    rewrite <- Hj by lia. apply Z.bits_0.
  - destruct (fls_spec v Hv E) as (Hr & Hset & Hup). rewrite Hvb in Hset by lia.
    apply andb_true_iff in Hset as [Hlt%Z.ltb_lt Hset].
    unfold BITS_PER_LONG. rewrite wrap64_small, (Z.mul_comm n) by (unfold is_word; lia).
    right. split_and!; [lia|lia|exact Hset|]. intros j ?.
    destruct (Z.lt_ge_cases j (64 * n + 64)); [|apply Hhigh; lia].
    rewrite <- Hj by lia. apply Hup. lia.
Qed.

Lemma find_last_loop_eq idx addr size val :
  find_last_loop idx addr size val =
  let v := Z.land val (word_at addr (Z.of_nat idx)) in
  if v =? 0 then match idx with O => size | S i => find_last_loop i addr size ULONG_MAX end
  else wrap64 (Z.of_nat idx * BITS_PER_LONG + __fls v).
Proof. destruct idx; cbn; now destruct (_ =? 0). Qed.

Lemma find_last_loop_spec idx addr size val :
  bitmap_fits addr size -> 64 * Z.of_nat idx < size -> is_word val ->
  (forall i, 0 <= i < 64 -> Z.testbit val i = (64 * Z.of_nat idx + i <? size)) ->
  (forall j, 64 * Z.of_nat idx + 64 <= j < size -> bm_bit addr j = false) ->
  is_last (bm_bit addr) size (find_last_loop idx addr size val).
Proof.
  intros Hfit. destruct (Hfit) as (Hw & _). revert val.
  induction idx as [idx IH] using (well_founded_induction lt_wf); intros val Hidx Hval Hbits Hhigh.
  rewrite find_last_loop_eq. cbv zeta.
  pose proof (find_last_word addr size (Z.of_nat idx) (Z.land val (word_at addr (Z.of_nat idx)))
    Hfit ltac:(lia) Hidx ltac:(auto with words)) as Hword.
  lapply Hword; [clear Hword; intros Hword; specialize (Hword Hhigh)
    |intros; now rewrite Z.land_spec, Hbits, bm_bit_word by lia].
  destruct (_ =? 0); auto. destruct idx as [|idx].
  - left. auto.
  - apply IH; auto with words; try lia.
    + intros i Hi. rewrite testbit_ulong_max by lia. case_bools; auto; lia.
    + intros j Hj. apply Hword. lia.
Qed.

Lemma find_last_bit_last addr size :
  bitmap_fits addr size -> is_last (bm_bit addr) size (find_last_bit addr size).
Proof.
  intros Hfit. destruct (Hfit) as (Hw & Hn & Hn'). unfold find_last_bit.
  destruct (Z.eqb_spec size 0); [left; split; [auto|intros; lia]|]. unfold BITS_PER_LONG.
  pose proof (Z.div_mod (size - 1) 64 ltac:(lia)). pose proof (Z.mod_pos_bound (size - 1) 64 ltac:(lia)).
  assert (0 <= (size - 1) / 64) by (apply Z.div_pos; lia).
  apply find_last_loop_spec; auto with words; rewrite ?Z2Nat.id by lia; [lia| |lia].
  intros i Hi. rewrite testbit_last_mask by lia.
  replace ((- size) mod 64) with (63 - (size - 1) mod 64)
    by (apply (Z.mod_unique _ _ (- ((size - 1) / 64) - 1)); lia).
  case_bools; auto; lia.
Qed.

(** ** Single-bit updates *)

Lemma BIT_MASK_testbit nr i :
  0 <= i -> Z.testbit (BIT_MASK nr) i = (i =? nr mod 64).
Proof.
  intros Hi. unfold BIT_MASK. change BITS_PER_LONG with 64. pose proof (Z.mod_pos_bound nr 64).
  rewrite testbit_wrap64, testbit_shiftl, testbit_one by lia. case_bools; auto; lia.
Qed.

Lemma BIT_MASK_is_word nr : is_word (BIT_MASK nr).
Proof. apply wrap64_is_word. Qed.
#[export] Hint Resolve BIT_MASK_is_word : words.
#[export] Hint Rewrite BIT_MASK_testbit using lia : testbits.

(** One lemma for the three updates: [op] acts bitwise as [g]. *)
Lemma bm_bit_update (op : Z -> Z -> Z) (g : bool -> bool -> bool) nr addr j :
  (forall w m i, 0 <= i < 64 -> Z.testbit (op w m) i = g (Z.testbit w i) (Z.testbit m i)) ->
  (forall b, g b false = b) ->
  0 <= nr < 64 * Z.of_nat (length addr) -> 0 <= j ->
  bm_bit (word_set addr (BIT_WORD nr) (op (word_at addr (BIT_WORD nr)) (BIT_MASK nr))) j =
  if j =? nr then g (bm_bit addr j) true else bm_bit addr j.
Proof.
  intros Hop Hg Hnr Hj. unfold BIT_WORD, BITS_PER_LONG.
  assert (0 <= nr / 64) by (apply Z.div_pos; lia).
  assert (nr / 64 < Z.of_nat (length addr)) by (apply Z.div_lt_upper_bound; lia).
  rewrite bm_bit_set by lia. pose proof (Z.mod_pos_bound j 64). pose proof (Z.mod_pos_bound nr 64).
  pose proof (Z.div_mod j 64). pose proof (Z.div_mod nr 64).
  destruct (Z.eqb_spec (j / 64) (nr / 64)) as [E|E]; destruct (Z.eqb_spec j nr) as [->|Hne];
    try congruence; rewrite Hop, BIT_MASK_testbit by lia; unfold bm_bit, BITS_PER_LONG.
  - now rewrite Z.eqb_refl.
  - rewrite E. destruct (Z.eqb_spec (j mod 64) (nr mod 64)); [exfalso; lia|apply Hg].
Qed.

Lemma __set_bit_bit nr addr j :
  0 <= nr < 64 * Z.of_nat (length addr) -> 0 <= j ->
  bm_bit (__set_bit nr addr) j = (j =? nr) || bm_bit addr j.
Proof.
  intros. unfold __set_bit. rewrite (bm_bit_update Z.lor orb); auto using orb_false_r.
  - destruct (j =? nr); auto. apply orb_true_r.
  - intros. apply Z.lor_spec.
Qed.

Lemma __clear_bit_bit nr addr j :
  0 <= nr < 64 * Z.of_nat (length addr) -> 0 <= j ->
  bm_bit (__clear_bit nr addr) j = negb (j =? nr) && bm_bit addr j.
Proof.
  intros. unfold __clear_bit.
  rewrite (bm_bit_update (fun w m => Z.land w (not64 m)) (fun b m => b && negb m)); auto using andb_true_r.
  - destruct (j =? nr); auto. apply andb_false_r.
  - intros. rewrite Z.land_spec, testbit_not64 by lia. f_equal. case_bools; auto; lia.
Qed.

Lemma __change_bit_bit nr addr j :
  0 <= nr < 64 * Z.of_nat (length addr) -> 0 <= j ->
  bm_bit (__change_bit nr addr) j = xorb (j =? nr) (bm_bit addr j).
Proof.
  intros. unfold __change_bit. rewrite (bm_bit_update Z.lxor xorb); auto using xorb_false_r.
  intros. apply Z.lxor_spec.
Qed.

Lemma land_BIT_MASK w nr :
  is_word w -> negb (Z.land w (BIT_MASK nr) =? 0) = Z.testbit w (nr mod 64).
Proof.
  intros Hw. pose proof (Z.mod_pos_bound nr 64).
  destruct (Z.testbit w (nr mod 64)) eqn:E.
  - apply negb_true_iff, Z.eqb_neq. apply (testbit_ne0 _ (nr mod 64)).
    rewrite Z.land_spec, BIT_MASK_testbit, E by lia. now rewrite Z.eqb_refl.
  - apply negb_false_iff, Z.eqb_eq. apply zero_testbit; auto with words. intros i Hi.
    rewrite Z.land_spec, BIT_MASK_testbit by lia. destruct (Z.eqb_spec i (nr mod 64)) as [->|];
      [now rewrite E|apply andb_false_r].
Qed.

(** [test_bit] reads the abstract bit. *)
Lemma test_bit_bit nr addr : test_bit nr addr = bm_bit addr nr.
Proof.
  unfold test_bit, bm_bit, BIT_WORD. rewrite land_mod64. unfold BITS_PER_LONG.
  set (w := word_at addr (nr / 64)). pose proof (Z.mod_pos_bound nr 64).
  rewrite Z.land_comm. change (Z.land _ 1) with (Z.land (Z.shiftr w (nr mod 64)) (2 ^ 1 - 1)).
  rewrite land_pow2_pred by lia. change (2 ^ 1) with 2. rewrite <- Z.bit0_mod, Z.shiftr_spec by lia.
  now destruct (Z.testbit w (0 + nr mod 64)) eqn:E; rewrite Z.add_0_l in E; rewrite E.
Qed.

(** ** Ranges of bits *)

Section range.
Context (op : Z -> Z -> Z) (g : bool -> bool -> bool).
Hypothesis op_bits :
  forall w m i, 0 <= i < 64 -> Z.testbit (op w m) i = g (Z.testbit w i) (Z.testbit m i).
Hypothesis g_false : forall b, g b false = b.

(** Updating word [p] by a mask that covers exactly the bits of [lo, hi) in it. *)
Lemma bm_bit_op_word map p m lo hi j :
  0 <= p < Z.of_nat (length map) -> 0 <= j -> 64 * p <= lo -> hi <= 64 * p + 64 ->
  (forall i, 0 <= i < 64 -> Z.testbit m i = (lo <=? 64 * p + i) && (64 * p + i <? hi)) ->
  bm_bit (word_set map p (op (word_at map p) m)) j = g (bm_bit map j) ((lo <=? j) && (j <? hi)).
Proof.
  intros Hp Hj Hlo Hhi Hm. rewrite bm_bit_set by lia. split_bit j q i.
  rewrite bm_bit_word by lia. destruct (Z.eqb_spec q p) as [->|Hne].
  - now rewrite op_bits, Hm by lia.
  - replace ((lo <=? 64 * q + i) && (64 * q + i <? hi)) with false; [now rewrite g_false|].
    case_bools; auto; lia.
Qed.

Lemma bitmap_range_loop_bits fuel map p off size len mask j :
  0 <= p -> 0 <= off < 64 -> 0 <= len -> 64 * p + off + len <= 64 * Z.of_nat (length map) ->
  64 * p + off + len < 2 ^ 32 -> size = 64 * p + off + len -> 0 <= j ->
  off + len < 64 * Z.of_nat fuel ->
  (forall i, 0 <= i < 64 -> Z.testbit mask i = (off <=? i)) ->
  bm_bit (bitmap_range_loop fuel op map p size len (64 - off) mask) j =
  g (bm_bit map j) ((64 * p + off <=? j) && (j <? 64 * p + off + len)).
Proof.
  intros Hp Hoff Hlen Hin Hsz -> Hj Hf Hmask.
  revert map p off len mask Hp Hoff Hlen Hin Hsz Hf Hmask.
  induction fuel as [|fuel IH]; intros; [lia|]. cbn [bitmap_range_loop].
  destruct (Z.leb_spec 0 (len - (64 - off))).
  - unfold BITS_PER_LONG. replace (64 * p + off + len) with (64 * (p + 1) + 0 + (len - (64 - off))) by lia.
    rewrite (IH _ (p + 1) 0), (bm_bit_op_word _ _ _ (64 * p + off) (64 * p + 64));
      try lia; rewrite ?length_word_set; try lia;
      try (intros i Hi; rewrite ?Hmask, ?testbit_ulong_max by lia; case_bools; auto; lia).
    (* the two ranges are adjacent *)
    replace ((64 * p + off <=? j) && (j <? 64 * p + off + len)) with
      (((64 * p + off <=? j) && (j <? 64 * p + 64)) ||
       ((64 * (p + 1) + 0 <=? j) && (j <? 64 * (p + 1) + 0 + (len - (64 - off)))))
      by (case_bools; auto; lia).
    case_bools; cbn; rewrite ?g_false; auto; lia.
  - destruct (Z.eqb_spec len 0) as [->|]; cbn [negb].
    + replace (_ && _) with false by (symmetry; case_bools; auto; lia). now rewrite g_false.
    + apply bm_bit_op_word; try lia. intros i Hi.
      rewrite Z.land_spec, Hmask, testbit_last_mask by lia.
      replace ((- (64 * p + off + len)) mod 64) with (64 - (off + len))
        by (apply (Z.mod_unique _ _ (- p - 1)); lia).
      case_bools; auto; lia.
Qed.

Lemma bitmap_range_loop_start map start len j :
  0 <= start -> 0 <= len -> start + len <= 64 * Z.of_nat (length map) -> start + len < 2 ^ 32 ->
  0 <= j ->
  bm_bit (bitmap_range_loop (S (S (length map))) op map (BIT_WORD start) (wrap32 (start + len)) len
    (BITS_PER_LONG - start mod BITS_PER_LONG) (BITMAP_FIRST_WORD_MASK start)) j =
  g (bm_bit map j) ((start <=? j) && (j <? start + len)).
Proof.
  intros. unfold BIT_WORD, BITS_PER_LONG, wrap32. rewrite Z.mod_small by lia.
  pose proof (Z.div_mod start 64 ltac:(lia)). pose proof (Z.mod_pos_bound start 64 ltac:(lia)).
  rewrite bitmap_range_loop_bits; try lia.
  - f_equal. case_bools; auto; lia.
  - intros i Hi. rewrite testbit_first_mask by lia. case_bools; auto; lia.
Qed.
End range.

Lemma bitmap_set_bit map start len j :
  0 <= start -> 0 <= len -> start + len <= 64 * Z.of_nat (length map) -> start + len < 2 ^ 32 ->
  0 <= j ->
  bm_bit (bitmap_set map start len) j = bm_bit map j || ((start <=? j) && (j <? start + len)).
Proof.
  intros. apply (bitmap_range_loop_start Z.lor orb); auto using orb_false_r.
  intros. apply Z.lor_spec.
Qed.

Lemma bitmap_clear_bit map start len j :
  0 <= start -> 0 <= len -> start + len <= 64 * Z.of_nat (length map) -> start + len < 2 ^ 32 ->
  0 <= j ->
  bm_bit (bitmap_clear map start len) j =
  bm_bit map j && negb ((start <=? j) && (j <? start + len)).
Proof.
  intros. apply (bitmap_range_loop_start (fun w m => Z.land w (not64 m)) (fun b m => b && negb m));
    auto using andb_true_r.
  intros. rewrite Z.land_spec, testbit_not64 by lia. f_equal. case_bools; auto; lia.
Qed.

(** ** Aligned regions *)

(** The mask that [__reg_op] computes and the number of words it covers. *)
Definition reg_mask (pos order : Z) : Z :=
  wrap64 (Z.shiftl (wrap64 (wrap64 (Z.shiftl 1 (Z.min (Z.shiftl 1 order) BITS_PER_LONG - 1)) +
    (wrap64 (Z.shiftl 1 (Z.min (Z.shiftl 1 order) BITS_PER_LONG - 1)) - 1)))
    (pos - pos / BITS_PER_LONG * BITS_PER_LONG)).
Definition reg_nlongs (order : Z) : nat := Z.to_nat (BITS_TO_LONGS (Z.shiftl 1 order)).

(** The arguments of the region routines: an aligned region inside the bitmap. *)
Definition region_ok (bitmap : list Z) (pos order : Z) : Prop :=
  0 <= order <= 30 /\ 0 <= pos /\ pos mod 2 ^ order = 0 /\
  pos + 2 ^ order <= 64 * Z.of_nat (length bitmap).

Definition in_region (pos order j : Z) : bool := (pos <=? j) && (j <? pos + 2 ^ order).

Lemma pow2_split order : 0 <= order <= 30 ->
  (order < 6 /\ 0 < 2 ^ order < 64 /\ 64 mod 2 ^ order = 0) \/
  (6 <= order /\ exists k, 0 < k /\ 2 ^ order = 64 * k).
Proof.
  intros. destruct (Z.lt_ge_cases order 6).
  - left. split; auto. replace 64 with (2 ^ (6 - order) * 2 ^ order)
      by (rewrite <- Z.pow_add_r by lia; now replace (6 - order + order) with 6 by lia).
    split; [|apply Z_mod_mult]. rewrite <- Z.pow_add_r by lia. replace (6 - order + order) with 6 by lia.
    split; [apply Z.pow_pos_nonneg; lia|apply Z.pow_lt_mono_r; lia].
  - right. split; auto. exists (2 ^ (order - 6)). split; [apply Z.pow_pos_nonneg; lia|].
    change 64 with (2 ^ 6). rewrite <- Z.pow_add_r by lia. f_equal. lia.
Qed.

Lemma testbit_reg_mask pos order i :
  0 <= order <= 30 -> 0 <= i < 64 ->
  Z.testbit (reg_mask pos order) i =
  (pos mod 64 <=? i) && (i <? pos mod 64 + Z.min (2 ^ order) 64).
Proof.
  intros Ho Hi. unfold reg_mask, BITS_PER_LONG. rewrite (Z.shiftl_mul_pow2 1 order), Z.mul_1_l by lia.
  set (nb := Z.min (2 ^ order) 64). assert (Hnb : 1 <= nb <= 64)
    by (assert (0 < 2 ^ order) by (apply Z.pow_pos_nonneg; lia); lia).
  assert (Hp : 2 ^ nb = 2 * 2 ^ (nb - 1))
    by (rewrite <- Z.pow_succ_r by lia; f_equal; lia).
  rewrite (Z.shiftl_mul_pow2 1 (nb - 1)), Z.mul_1_l by lia.
  rewrite (wrap64_small (2 ^ (nb - 1))) by (pose proof (pow2_pred_is_word nb); unfold is_word in *; lia).
  replace (2 ^ (nb - 1) + (2 ^ (nb - 1) - 1)) with (2 ^ nb - 1) by lia.
  rewrite (wrap64_small (2 ^ nb - 1)) by (apply pow2_pred_is_word; lia).
  replace (pos - pos / 64 * 64) with (pos mod 64) by (rewrite Z.mod_eq; lia).
  pose proof (Z.mod_pos_bound pos 64). rewrite testbit_wrap64, testbit_shiftl by lia.
  destruct (Z.leb_spec (pos mod 64) i); [|now rewrite andb_comm].
  rewrite testbit_pow2_pred by lia. case_bools; auto; lia.
Qed.

Lemma reg_nlongs_spec order :
  0 <= order <= 30 -> Z.of_nat (reg_nlongs order) = Z.max 1 (2 ^ order / 64).
Proof.
  intros Ho. unfold reg_nlongs, BITS_TO_LONGS, DIV_ROUND_UP, BITS_PER_LONG.
  rewrite Z.shiftl_mul_pow2, Z.mul_1_l by lia.
  assert (2 ^ order <= 2 ^ 30) by (apply Z.pow_le_mono_r; lia).
  assert (0 < 2 ^ order) by (apply Z.pow_pos_nonneg; lia).
  rewrite !wrap64_small by (unfold is_word; rewrite ?wrap64_small; unfold is_word; lia).
  rewrite Z2Nat.id by (apply Z.div_pos; lia).
  destruct (pow2_split order Ho) as [(?&?&?)|(?&k&?&E)].
  - rewrite (Z.div_small (2 ^ order)) by lia. symmetry. apply (Z.div_unique _ _ _ (2 ^ order - 1)); lia.
  - rewrite E. rewrite (Z.mul_comm 64), Z.div_mul by lia. rewrite Z.max_r by lia.
    symmetry. apply (Z.div_unique _ _ _ 63); lia.
Qed.

(** The words and mask of [__reg_op] select exactly the bits of the region. *)
Lemma reg_mask_region bitmap pos order j :
  region_ok bitmap pos order -> 0 <= j ->
  ((pos / 64 <=? j / 64) && (j / 64 <? pos / 64 + Z.of_nat (reg_nlongs order))) &&
  Z.testbit (reg_mask pos order) (j mod 64) = in_region pos order j.
Proof.
  intros (Ho & Hpos & Hal & _) Hj. unfold in_region.
  rewrite reg_nlongs_spec by lia. split_bit j q i. rewrite testbit_reg_mask by lia.
  pose proof (Z.div_mod pos 64 ltac:(lia)). pose proof (Z.mod_pos_bound pos 64 ltac:(lia)).
  destruct (pow2_split order Ho) as [(?&?&Hd)|(?&k&?&E)].
  - rewrite (Z.div_small (2 ^ order)), Z.max_l, Z.min_l by lia.
    assert (pos mod 64 + 2 ^ order <= 64).
    { apply Z.mod_divide in Hal as [a Ha]; [|lia]. apply Z.mod_divide in Hd as [b Hb]; [|lia].
      set (r := 2 ^ order) in *. set (Q := pos / 64) in *.
      assert (Hc : pos mod 64 = (a - Q * b) * r) by (rewrite Z.mul_sub_distr_r, <- Z.mul_assoc, <- Hb; lia).
      assert (a - Q * b < b) by nia. nia. }
    case_bools; auto; lia.
  - rewrite E in *. rewrite (Z.mul_comm 64 k), Z.div_mul, Z.max_r, Z.min_r by lia.
    assert (pos mod 64 = 0).
    { apply Z.mod_divide in Hal as [a Ha]; [|lia]. rewrite Ha.
      replace (a * (64 * k)) with (a * k * 64) by ring. apply Z_mod_mult. }
    case_bools; auto; lia.
Qed.

Lemma for_upto_op_bits (op : Z -> Z -> Z) (g : bool -> bool -> bool) n map index m j :
  (forall w m i, 0 <= i < 64 -> Z.testbit (op w m) i = g (Z.testbit w i) (Z.testbit m i)) ->
  (forall b, g b false = b) ->
  0 <= index -> index + Z.of_nat n <= Z.of_nat (length map) -> 0 <= j ->
  let r := for_upto n (fun i b => word_set b (index + i) (op (word_at b (index + i)) m)) map in
  length r = length map /\
  bm_bit r j = g (bm_bit map j)
    (((index <=? j / 64) && (j / 64 <? index + Z.of_nat n)) && Z.testbit m (j mod 64)).
Proof.
  intros Hop Hg Hi Hn Hj. induction n as [|n IH]; cbn [for_upto].
  - split; auto. replace (_ && _) with false by (case_bools; auto; lia). now rewrite Hg.
  - destruct IH as [Hl Hb]; [lia|]. rewrite length_word_set. split; [lia|].
    rewrite bm_bit_set by lia. destruct (Z.eqb_spec (j / 64) (index + Z.of_nat n)) as [E|E].
    + rewrite Hop by (apply Z.mod_pos_bound; lia). rewrite <- E at 1.
      unfold bm_bit, BITS_PER_LONG in Hb. rewrite Hb, Hg || rewrite Hb.
      all: unfold bm_bit, BITS_PER_LONG; f_equal; case_bools; cbn; auto; lia.
    + rewrite Hb. f_equal. case_bools; auto; lia.
Qed.

Lemma all_upto_spec n f : all_upto n f = true <-> forall k, 0 <= k < Z.of_nat n -> f k = true.
Proof.
  induction n as [|n IH]; cbn [all_upto]; [split; auto; lia|].
  rewrite andb_true_iff, IH. split.
  - intros [H1 H2] k Hk. destruct (Z.eq_dec k (Z.of_nat n)) as [->|]; auto. apply H1. lia.
  - intros H. split; [intros; apply H; lia|apply H; lia].
Qed.

Lemma all_upto_ext n f f' :
  (forall k, 0 <= k < Z.of_nat n -> f k = f' k) -> all_upto n f = all_upto n f'.
Proof.
  intros H. induction n as [|n IH]; cbn [all_upto]; auto.
  rewrite IH, H by (intros; rewrite ?H; auto; lia). reflexivity.
Qed.

(** The region is free: the answer of [REG_OP_ISFREE]. *)
Definition region_free (bitmap : list Z) (pos order : Z) : Prop :=
  forall j, pos <= j < pos + 2 ^ order -> bm_bit bitmap j = false.

Lemma region_words bitmap pos order :
  region_ok bitmap pos order ->
  0 <= pos / 64 /\ pos / 64 + Z.of_nat (reg_nlongs order) <= Z.of_nat (length bitmap).
Proof.
  intros (Ho & Hp & Hal & Hl). split; [apply Z.div_pos; lia|].
  rewrite reg_nlongs_spec by lia. pose proof (Z.div_mod pos 64). pose proof (Z.mod_pos_bound pos 64).
  destruct (pow2_split order Ho) as [(?&?&?)|(?&k&?&E)]; [|rewrite E in *].
  - rewrite (Z.div_small (2 ^ order)) by lia. lia.
  - rewrite (Z.mul_comm 64 k), Z.div_mul by lia. lia.
Qed.

Lemma __reg_op_isfree bitmap pos order :
  Forall is_word bitmap -> region_ok bitmap pos order ->
  (fst (__reg_op bitmap pos order REG_OP_ISFREE) =? 0) = false <-> region_free bitmap pos order.
Proof.
  intros Hw Hok. pose proof (region_words _ _ _ Hok) as [Hi Hn]. unfold __reg_op.
  fold (reg_mask pos order). fold (reg_nlongs order). cbv zeta. unfold BITS_PER_LONG.
  assert (Hm : is_word (reg_mask pos order)) by apply wrap64_is_word.
  transitivity (all_upto (reg_nlongs order)
    (fun i => Z.land (word_at bitmap (pos / 64 + i)) (reg_mask pos order) =? 0) = true).
  { destruct (all_upto _ _); cbn; intuition congruence. }
  rewrite all_upto_spec. split.
  - intros H j Hj. assert (0 <= j) by (destruct Hok as (?&?&?); lia).
    pose proof (reg_mask_region bitmap pos order j Hok ltac:(auto)) as Hr.
    replace (in_region pos order j) with true in Hr
      by (symmetry; unfold in_region; case_bools; auto; lia).
    apply andb_true_iff in Hr as [Hr Hbit]. zbool.
    specialize (H (j / 64 - pos / 64) ltac:(lia)). zbool.
    replace (pos / 64 + (j / 64 - pos / 64)) with (j / 64) in H by lia.
    apply (f_equal (fun w => Z.testbit w (j mod 64))) in H.
    rewrite Z.land_spec, Hbit, Z.bits_0, andb_true_r in H. exact H.
  - intros H k Hk. apply Z.eqb_eq, zero_testbit; auto with words. intros i Hr. rewrite Z.land_spec.
    destruct (Z.testbit (reg_mask pos order) i) eqn:Hbit; [|apply andb_false_r].
    rewrite <- bm_bit_word by lia. rewrite H; auto.
    pose proof (reg_mask_region bitmap pos order (64 * (pos / 64 + k) + i) Hok ltac:(lia)) as Hreg.
    replace ((64 * (pos / 64 + k) + i) / 64) with (pos / 64 + k) in Hreg
      by (apply (Z.div_unique _ _ _ i); lia).
    replace ((64 * (pos / 64 + k) + i) mod 64) with i in Hreg
      by (apply (Z.mod_unique _ _ (pos / 64 + k)); lia).
    rewrite Hbit in Hreg. replace (_ && true) with true in Hreg by (case_bools; auto; lia).
    unfold in_region in Hreg. symmetry in Hreg. zbool. lia.
Qed.

Lemma __reg_op_alloc bitmap pos order j :
  region_ok bitmap pos order -> 0 <= j ->
  bm_bit (snd (__reg_op bitmap pos order REG_OP_ALLOC)) j = bm_bit bitmap j || in_region pos order j.
Proof.
  intros Hok Hj. pose proof (region_words _ _ _ Hok) as [Hi Hn].
  rewrite <- (reg_mask_region bitmap pos order j) by auto.
  apply (for_upto_op_bits Z.lor orb); auto using orb_false_r. intros. apply Z.lor_spec.
Qed.

Lemma __reg_op_release bitmap pos order j :
  region_ok bitmap pos order -> 0 <= j ->
  bm_bit (snd (__reg_op bitmap pos order REG_OP_RELEASE)) j =
  bm_bit bitmap j && negb (in_region pos order j).
Proof.
  intros Hok Hj. pose proof (region_words _ _ _ Hok) as [Hi Hn].
  rewrite <- (reg_mask_region bitmap pos order j) by auto.
  apply (for_upto_op_bits (fun w m => Z.land w (not64 m)) (fun b m => b && negb m));
    auto using andb_true_r.
  intros. rewrite Z.land_spec, testbit_not64 by lia. f_equal. case_bools; auto; lia.
Qed.

(** What [bitmap_find_free_region] promises for a result [res]. *)
Definition free_region_result (bitmap : list Z) (bits order : Z) (res : Z * list Z) : Prop :=
  (res = (- ENOMEM, bitmap) /\
   forall p, 0 <= p -> p mod 2 ^ order = 0 -> p + 2 ^ order <= bits -> ~ region_free bitmap p order) \/
  (exists p, res.1 = p /\ 0 <= p /\ p mod 2 ^ order = 0 /\ p + 2 ^ order <= bits /\
   region_free bitmap p order /\
   (forall p', 0 <= p' < p -> p' mod 2 ^ order = 0 -> ~ region_free bitmap p' order) /\
   forall j, 0 <= j -> bm_bit res.2 j = bm_bit bitmap j || in_region p order j).

Lemma find_free_region_loop_spec fuel bitmap bits order pos :
  Forall is_word bitmap -> 0 <= order <= 30 -> bits <= 64 * Z.of_nat (length bitmap) ->
  0 <= pos -> pos mod 2 ^ order = 0 -> bits < Z.of_nat fuel + pos ->
  (forall p, 0 <= p < pos -> p mod 2 ^ order = 0 -> ~ region_free bitmap p order) ->
  free_region_result bitmap bits order (find_free_region_loop fuel bitmap bits order pos).
Proof.
  intros Hw Ho Hl. assert (0 < 2 ^ order) by (apply Z.pow_pos_nonneg; lia).
  revert pos. induction fuel as [|fuel IH]; intros pos Hp Hal Hf Hlow; cbn [find_free_region_loop].
  { left. split; auto. intros. apply Hlow; auto. lia. }
  rewrite Z.shiftl_mul_pow2, Z.mul_1_l by lia.
  destruct (Z.leb_spec (pos + 2 ^ order) bits); [|left; split; auto; intros; apply Hlow; auto; lia].
  assert (Hok : region_ok bitmap pos order) by (unfold region_ok; lia).
  pose proof (__reg_op_isfree bitmap pos order Hw Hok) as Hfree.
  destruct (_ =? 0) eqn:E.
  - apply IH; try lia.
    + rewrite <- (Z.mul_1_l (2 ^ order)) at 1. now rewrite Z_mod_plus_full.
    + intros p Hpp Hpal Hfp.
      assert (p = pos \/ p < pos) as [->|].
      { apply Z.mod_divide in Hal as [a ->]; [|lia]. apply Z.mod_divide in Hpal as [b ->]; [|lia].
        assert (b <= a) by nia. destruct (Z.eq_dec b a) as [->|]; [auto|right; nia]. }
      * apply Hfree in Hfp. congruence.
      * eapply Hlow; [|eassumption|eassumption]. lia.
  - right. exists pos. apply proj1 in Hfree. split_and!; auto. intros. now apply __reg_op_alloc.
Qed.

(** ** Word-parallel bitmap algebra *)

(** The common shape of the tests: no bit below [bits] where [f] yields 1. *)
Definition words_none (f : Z -> Z -> Z) (b1 b2 : list Z) (bits : Z) : bool :=
  all_upto (Z.to_nat (bits / 64)) (fun k => f (word_at b1 k) (word_at b2 k) =? 0) &&
  (if bits mod 64 =? 0 then true
   else Z.land (f (word_at b1 (bits / 64)) (word_at b2 (bits / 64))) (BITMAP_LAST_WORD_MASK bits) =? 0).

Section combine.
Context (f : Z -> Z -> Z) (g : bool -> bool -> bool).
Hypothesis f_bits :
  forall a b i, 0 <= i < 64 -> Z.testbit (f a b) i = g (Z.testbit a i) (Z.testbit b i).
Hypothesis f_word : forall a b, is_word a -> is_word b -> is_word (f a b).
Context (b1 b2 : list Z) (bits : Z).
Hypothesis W1 : Forall is_word b1.
Hypothesis W2 : Forall is_word b2.
Hypothesis Hbits : 0 <= bits.

Lemma fword_zero k :
  f (word_at b1 k) (word_at b2 k) = 0 <->
  forall i, 0 <= i < 64 -> g (bm_bit b1 (64 * k + i)) (bm_bit b2 (64 * k + i)) = false.
Proof.
  rewrite zero_testbit by auto with words. split; intros H i Hi; specialize (H i Hi);
    rewrite ?f_bits, ?bm_bit_word in * by lia; exact H.
Qed.

Lemma lastword_zero :
  bits mod 64 <> 0 ->
  Z.land (f (word_at b1 (bits / 64)) (word_at b2 (bits / 64))) (BITMAP_LAST_WORD_MASK bits) = 0 <->
  forall i, 0 <= i < bits mod 64 -> g (bm_bit b1 (64 * (bits / 64) + i)) (bm_bit b2 (64 * (bits / 64) + i)) = false.
Proof.
  intros Hm. pose proof (Z.mod_pos_bound bits 64).
  assert (Hneg : (- bits) mod 64 = 64 - bits mod 64)
    by (symmetry; apply (Z.mod_unique _ _ (- (bits / 64) - 1)); [lia|pose proof (Z.div_mod bits 64); lia]).
  rewrite zero_testbit by auto with words. split; intros H' i Hi.
  - specialize (H' i ltac:(lia)). rewrite Z.land_spec, f_bits, testbit_last_mask, Hneg in H' by lia. rewrite !bm_bit_word by lia.
    destruct (Z.ltb_spec i (64 - (64 - bits mod 64))); [now rewrite andb_true_r in H'|lia].
  - rewrite Z.land_spec, f_bits, testbit_last_mask, Hneg by lia.
    destruct (Z.ltb_spec i (64 - (64 - bits mod 64))); [|apply andb_false_r].
    rewrite <- !bm_bit_word, H' by lia. reflexivity.
Qed.

Lemma words_none_spec :
  words_none f b1 b2 bits = true <-> forall j, 0 <= j < bits -> g (bm_bit b1 j) (bm_bit b2 j) = false.
Proof.
  pose proof (Z.div_mod bits 64) as Hdm. pose proof (Z.mod_pos_bound bits 64).
  assert (0 <= (bits / 64)) by (apply Z.div_pos; lia).
  unfold words_none. rewrite andb_true_iff, all_upto_spec. split.
  - intros [Hall Hlast] j Hj. split_bit j q i. destruct (Z.lt_ge_cases q (bits / 64)).
    + apply fword_zero; [|lia]. apply Z.eqb_eq. apply Hall. lia.
    + assert (q = (bits / 64)) as -> by lia. destruct (Z.eqb_spec (bits mod 64) 0); [lia|].
      apply Z.eqb_eq in Hlast. apply lastword_zero; auto. lia.
  - intros Hall. split.
    + intros k Hk. apply Z.eqb_eq, fword_zero. intros. apply Hall. lia.
    + destruct (Z.eqb_spec (bits mod 64) 0); auto. apply Z.eqb_eq, lastword_zero; auto.
      intros. apply Hall. lia.
Qed.

(** The loop of [bitmap_combine]: the words written and the running result. *)
Lemma combine_loop n dst :
  Z.of_nat n <= Z.of_nat (length dst) ->
  let r := for_upto n (fun k '(result, dst) =>
             let v := f (word_at b1 k) (word_at b2 k) in (Z.lor result v, word_set dst k v)) (0, dst) in
  length r.2 = length dst /\
  (r.1 =? 0) = all_upto n (fun k => f (word_at b1 k) (word_at b2 k) =? 0) /\
  forall k, 0 <= k -> word_at r.2 k = if k <? Z.of_nat n then f (word_at b1 k) (word_at b2 k) else word_at dst k.
Proof.
  induction n as [|n IH]; intros Hn; cbn [for_upto all_upto].
  { split_and!; auto. intros k Hk. destruct (Z.ltb_spec k (Z.of_nat 0)); [lia|reflexivity]. }
  destruct IH as (Hl & Hr & Hk); [lia|]. destruct (for_upto n _ _) as [res d]. cbn in *.
  rewrite length_word_set. split_and!; auto.
  - rewrite <- Hr. destruct (Z.eqb_spec res 0), (Z.eqb_spec (f (word_at b1 (Z.of_nat n)) (word_at b2 (Z.of_nat n))) 0);
      cbn; [apply Z.eqb_eq|apply Z.eqb_neq ..]; rewrite Z.lor_eq_0_iff; tauto.
  - intros k Hk0. rewrite word_at_set, Hk by lia. case_bools; auto; try lia. now subst.
Qed.

Lemma bitmap_combine_spec dst :
  bits <= 64 * Z.of_nat (length dst) ->
  let r := bitmap_combine f dst b1 b2 bits in
  (forall j, 0 <= j < bits -> bm_bit r.2 j = g (bm_bit b1 j) (bm_bit b2 j)) /\
  r.1 = negb (words_none f b1 b2 bits).
Proof.
  intros Hl. pose proof (Z.div_mod bits 64) as Hdm. pose proof (Z.mod_pos_bound bits 64).
  assert (0 <= (bits / 64)) by (apply Z.div_pos; lia).
  unfold bitmap_combine, words_none, BITS_PER_LONG.
  destruct (combine_loop (Z.to_nat (bits / 64)) dst) as (Hlen & Hres & Hk); [lia|].
  cbv zeta in Hlen, Hres, Hk. destruct (for_upto _ _ _) as [res d]. cbn in Hlen, Hres, Hk. rewrite <- Hres.
  assert (Hlow : forall q i, 0 <= i < 64 -> 0 <= q < (bits / 64) ->
    bm_bit d (64 * q + i) = g (bm_bit b1 (64 * q + i)) (bm_bit b2 (64 * q + i))).
  { intros q i Hi Hq. rewrite !bm_bit_word, Hk, <- f_bits by lia.
    destruct (Z.ltb_spec q (Z.of_nat (Z.to_nat (bits / 64)))); [reflexivity|lia]. }
  destruct (Z.eqb_spec (bits mod 64) 0); cbn.
  { split; [|now rewrite andb_true_r]. intros j Hj. split_bit j q i. apply Hlow; lia. }
  split.
  - intros j Hj. rewrite bm_bit_set by lia. split_bit j q i.
    replace ((64 * q + i) / 64) with q by (apply (Z.div_unique _ _ _ i); lia).
    replace ((64 * q + i) mod 64) with i by (apply (Z.mod_unique _ _ q); lia).
    destruct (Z.eqb_spec q (bits / 64)) as [->|]; [|apply Hlow; lia].
    rewrite Z.land_spec, f_bits, testbit_last_mask, !bm_bit_word by lia.
    replace ((- bits) mod 64) with (64 - bits mod 64) by (apply (Z.mod_unique _ _ (- (bits / 64) - 1)); lia).
    destruct (Z.ltb_spec i (64 - (64 - bits mod 64))); [apply andb_true_r|lia].
  - f_equal. set (v := Z.land _ (BITMAP_LAST_WORD_MASK bits)).
    destruct (Z.eqb_spec res 0), (Z.eqb_spec v 0); cbn; [apply Z.eqb_eq|apply Z.eqb_neq ..];
      rewrite Z.lor_eq_0_iff; tauto.
Qed.
End combine.

(** ** Aligned zero areas *)

Section zero_area.
Context (map : list Z) (size nr k off : Z).
Hypothesis Hfit : bitmap_fits map size.
Hypothesis Hnr : 1 <= nr < 2 ^ 32.
Hypothesis Hk : 0 <= k <= 32.
Hypothesis Hoff : 0 <= off < 2 ^ 32.

(** [a] starts an aligned area of [nr] zero bits not below [start]. *)
Definition zero_area (start a : Z) : Prop :=
  start <= a /\ (a + off) mod 2 ^ k = 0 /\ a + nr <= size /\
  forall j, a <= j < a + nr -> bm_bit map j = false.

Definition zero_area_result (start r : Z) : Prop :=
  size < r /\ (forall a, ~ zero_area start a) \/
  zero_area start r /\ forall a, zero_area start a -> r <= a.

Let up (x : Z) : Z := (x + 2 ^ k - 1) / 2 ^ k * 2 ^ k.

Lemma up_spec x : x <= up x < x + 2 ^ k /\ up x mod 2 ^ k = 0 /\
  forall y, y mod 2 ^ k = 0 -> x <= y -> up x <= y.
Proof.
  assert (0 < 2 ^ k) by (apply Z.pow_pos_nonneg; lia). unfold up.
  pose proof (Z.div_mod (x + 2 ^ k - 1) (2 ^ k)). pose proof (Z.mod_pos_bound (x + 2 ^ k - 1) (2 ^ k)).
  split_and!; [lia|lia|apply Z_mod_mult|]. intros y Hy Hxy.
  apply Z.mod_divide in Hy as [b ->]; [|lia]. apply Z.mul_le_mono_nonneg_r; [lia|].
  apply Z.lt_succ_r. apply Z.div_lt_upper_bound; [lia|]. nia.
Qed.

Lemma aligned_index_spec x :
  0 <= x <= 2 ^ 63 ->
  wrap64 (ALIGN_MASK (wrap64 (x + off)) (2 ^ k - 1) - off) = up (x + off) - off.
Proof.
  intros Hx. assert (2 ^ k <= 2 ^ 32) by (apply Z.pow_le_mono_r; lia).
  assert (0 < 2 ^ k) by (apply Z.pow_pos_nonneg; lia).
  unfold ALIGN_MASK. rewrite (wrap64_small (x + off)) by (unfold is_word; lia).
  rewrite (wrap64_small (x + off + (2 ^ k - 1))), land_not_mask by (unfold is_word; lia).
  replace (x + off + (2 ^ k - 1)) with (x + off + 2 ^ k - 1) by lia. fold (up (x + off)).
  apply wrap64_small. pose proof (up_spec (x + off)). unfold is_word. lia.
Qed.

Lemma find_zero_area_loop_spec fuel start0 start :
  0 <= start0 <= start -> size - start < Z.of_nat fuel -> (0 < fuel)%nat ->
  (forall a, zero_area start0 a -> start <= a) ->
  exists r, find_zero_area_loop fuel map size start nr (2 ^ k - 1) off = Some r /\
    zero_area_result start0 r.
Proof.
  intros H0 Hf Hf0 Hlow. destruct Hfit as (Hw & Hn & Hn').
  assert (2 ^ k <= 2 ^ 32) by (apply Z.pow_le_mono_r; lia).
  revert start H0 Hf Hf0 Hlow. induction fuel as [|fuel IH]; intros; [lia|]. cbn [find_zero_area_loop].
  destruct (find_next_zero_bit_first map size start Hfit ltac:(lia)) as [Hz1 Hz2].
  set (z := find_next_zero_bit map size start) in *.
  rewrite aligned_index_spec by lia. destruct (up_spec (z + off)) as (Hub & Hal & Hmin).
  set (index := up (z + off) - off) in *.
  assert (Hlow' : forall a, zero_area start0 a -> index <= a).
  { intros a Ha. specialize (Hlow a Ha) as Hsa. destruct Ha as (? & Ha & Has & Haz).
    assert (up (z + off) <= a + off); [|lia]. apply Hmin; auto.
    destruct (Z.le_gt_cases z a); [lia|]. specialize (Hz1 a ltac:(lia)).
    rewrite Haz in Hz1 by lia. discriminate. }
  rewrite wrap64_small by (unfold is_word; lia). destruct (Z.ltb_spec size (index + nr)).
  { eexists. split; [reflexivity|]. left. split; [lia|]. intros a Ha. specialize (Hlow' a Ha).
    destruct Ha as (_ & _ & ? & _). lia. }
  destruct (find_next_bit_first map (index + nr) index) as [Hb1 Hb2]; [|lia|].
  { unfold bitmap_fits in *. split_and!; auto; lia. }
  set (i := find_next_bit map (index + nr) index) in *.
  destruct (Z.ltb_spec i (index + nr)).
  - destruct Hb2 as [?|[Hi Hset]]; [lia|]. rewrite wrap64_small by (unfold is_word; lia).
    assert (start <= index) by (destruct Hz2 as [?|[? _]]; lia).
    apply IH; try lia. intros a Ha. specialize (Hlow' a Ha). destruct Ha as (_ & _ & _ & Haz).
    destruct (Z.lt_ge_cases i a); [lia|]. rewrite Haz in Hset by lia. discriminate.
  - eexists. split; [reflexivity|]. right. split; [|exact Hlow'].
    assert (start <= index) by (destruct Hz2 as [?|[? _]]; lia).
    unfold zero_area. split_and!; [lia| |lia|].
    + replace (index + off) with (up (z + off)) by (unfold index; lia). exact Hal.
    + intros j Hj. apply Hb1. destruct Hb2 as [?|[? _]]; lia.
Qed.
End zero_area.

(** ** Logarithms *)

Lemma ilog2_from_spec k n :
  0 < n < 2 ^ (Z.of_nat k + 1) -> ilog2_from k n = Some (Z.log2 n).
Proof.
  induction k as [|k IH]; intros Hn.
  - assert (n = 1) as -> by (change (2 ^ (Z.of_nat 0 + 1)) with 2 in Hn; lia). reflexivity.
  - cbn [ilog2_from]. set (m := Z.of_nat (S k)) in *. assert (0 <= m) by lia.
    assert (Hbit : Z.land n (Z.shiftl 1 m) = 0 <-> Z.testbit n m = false).
    { split; intros H'.
      - apply (f_equal (fun w => Z.testbit w m)) in H'.
        rewrite Z.land_spec, testbit_shiftl, testbit_one, Z.bits_0 in H' by lia.
        replace (m <=? m) with true in H' by lia. replace (m - m =? 0) with true in H' by lia.
        now rewrite andb_true_r in H'.
      - apply Z.bits_inj'. intros i Hi. rewrite Z.land_spec, testbit_shiftl, testbit_one, Z.bits_0 by lia.
        destruct (Z.eq_dec i m) as [->|]; [now rewrite H'|]. case_bools; try lia; apply andb_false_r. }
    destruct (Z.eqb_spec (Z.land n (Z.shiftl 1 m)) 0) as [E|E]; cbn [negb].
    + apply IH. split; [lia|]. apply Hbit in E. replace (Z.of_nat k + 1) with m by lia.
      destruct (Z.lt_ge_cases n (2 ^ m)); auto. exfalso.
      assert (Z.log2 n = m) as Hl by (apply Z.log2_unique; [lia|]; replace (Z.succ m) with (m + 1) by lia; lia).
      rewrite <- Hl, Z.bit_log2 in E by lia. discriminate.
    + f_equal. symmetry. assert (Z.testbit n m = true) as Hm
        by (destruct (Z.testbit n m) eqn:?; auto; tauto).
      apply Z.log2_unique; [lia|]. replace (Z.succ m) with (m + 1) by lia. split; [|lia].
      destruct (Z.le_gt_cases (2 ^ m) n); auto. rewrite Z.bits_above_log2 in Hm; [discriminate|lia|].
      apply Z.log2_lt_pow2; lia.
Qed.

Lemma is_power_of_2_spec n :
  is_word n -> is_power_of_2 n = true <-> exists k, 0 <= k /\ n = 2 ^ k.
Proof.
  intros Hn. unfold is_power_of_2. rewrite andb_true_iff, negb_true_iff, Z.eqb_eq, Z.eqb_neq. split.
  - intros [Hne Hz]. exists (Z.log2 n). split; [apply Z.log2_nonneg|]. unfold is_word in Hn.
    destruct (Z.log2_spec n ltac:(lia)) as [Hlo Hhi].
    destruct (Z.eq_dec n (2 ^ Z.log2 n)); auto. exfalso.
    rewrite wrap64_small in Hz by (unfold is_word; lia).
    apply (f_equal (fun w => Z.testbit w (Z.log2 n))) in Hz.
    rewrite Z.land_spec, Z.bit_log2, Z.bits_0 in Hz by lia.
    assert (Z.log2 (n - 1) = Z.log2 n) as Hl by (apply Z.log2_unique; [apply Z.log2_nonneg|lia]).
    rewrite <- Hl, Z.bit_log2 in Hz; [discriminate|]. pose proof (Z.pow_pos_nonneg 2 (Z.log2 n)).
    pose proof (Z.log2_nonneg n). lia.
  - intros (k & Hk & ->). assert (0 < 2 ^ k) by (apply Z.pow_pos_nonneg; lia). split; [lia|].
    unfold is_word in Hn. rewrite wrap64_small by (unfold is_word; lia).
    rewrite land_pow2_pred by lia. apply Z.mod_same. lia.
Qed.

Lemma for_upto_words (op : Z -> Z) n map (index : Z) :
  (forall w, is_word w -> is_word (op w)) -> Forall is_word map ->
  Forall is_word (for_upto n (fun i b => word_set b (index + i) (op (word_at b (index + i)))) map).
Proof. intros Hop Hw. induction n as [|n IH]; cbn [for_upto]; auto with words. Qed.

(** ** Bitmaps of identifiers *)

Lemma update_fits op nr addr n :
  bitmap_fits addr n -> is_word (op (word_at addr (BIT_WORD nr)) (BIT_MASK nr)) ->
  bitmap_fits (word_set addr (BIT_WORD nr) (op (word_at addr (BIT_WORD nr)) (BIT_MASK nr))) n.
Proof. intros (H1 & H2 & H3) Hw. split; [auto with words|]. now rewrite length_word_set. Qed.

Lemma set_bit_fits nr addr n : bitmap_fits addr n -> bitmap_fits (__set_bit nr addr) n.
Proof.
  intros H. apply (update_fits Z.lor); [auto|]. destruct H as [Hw _]. apply lor_is_word; [auto with words|apply BIT_MASK_is_word].
Qed.

Lemma clear_bit_fits nr addr n : bitmap_fits addr n -> bitmap_fits (__clear_bit nr addr) n.
Proof.
  intros H. apply (update_fits (fun w m => Z.land w (not64 m))); [auto|]. destruct H as [Hw _]. apply land_is_word; [auto with words|apply is_word_nonneg, wrap64_is_word].
Qed.

(** The lowest id from [offset] on that is not in use, if there is one. *)
Lemma lowest_zero_bit addr size offset : bitmap_fits addr size -> 0 <= offset <= size ->
  let b := find_next_zero_bit addr size offset in
  (offset <= b < size /\ bm_bit addr b = false /\ forall j, offset <= j < b -> bm_bit addr j = true) \/
  (b = size /\ forall j, offset <= j < size -> bm_bit addr j = true).
Proof.
  intros Hf Ho b. destruct (find_next_zero_bit_first addr size offset Hf ltac:(lia)) as [H1 H2]. fold b in H1, H2.
  assert (Hall : forall j, offset <= j < b -> bm_bit addr j = true) by (intros j Hj; specialize (H1 j Hj); now apply negb_false_iff in H1).
  destruct H2 as [H2|[H2 H3]]; [right|left]; [split; [auto|]; intros j Hj; apply Hall; lia|]. split_and!; auto; try lia. now apply negb_true_iff in H3.
Qed.

Lemma test_and_clear_spec nr addr : Forall is_word addr -> __test_and_clear_bit nr addr = (bm_bit addr nr, __clear_bit nr addr).
Proof. intros Hw. rewrite <- test_bit_bit. unfold __test_and_clear_bit. rewrite land_BIT_MASK, test_bit_bit by auto with words. reflexivity. Qed.

(** ** The properties of this component *)

(** Every bit search of uapi/bitops.h returns the index the bitmap's bits
    determine: the first set (or clear) bit from the offset on, the first set or
    clear bit, the last set bit, and the size when there is none. *)
Theorem bit_searches_correct addr size offset :
  bitmap_fits addr size -> 0 <= offset ->
  is_first (bm_bit addr) offset size (find_next_bit addr size offset) /\
  is_first (fun j => negb (bm_bit addr j)) offset size (find_next_zero_bit addr size offset) /\
  is_first (bm_bit addr) 0 size (find_first_bit addr size) /\
  is_first (fun j => negb (bm_bit addr j)) 0 size (find_first_zero_bit addr size) /\
  is_last (bm_bit addr) size (find_last_bit addr size).
Proof.
  intros. split_and!; [apply find_next_bit_first|apply find_next_zero_bit_first|
    apply find_first_bit_first|apply find_first_zero_bit_first|apply find_last_bit_last]; auto.
Qed.

Lemma bit_searches_correct_witness :
  find_next_bit [0; 5] 128 65 = 66 /\
  is_first (bm_bit [0; 5]) 65 128 (find_next_bit [0; 5] 128 65).
Proof.
  split; [reflexivity|]. apply (bit_searches_correct [0; 5] 128 65); [|lia].
  split; [repeat constructor; unfold is_word; lia|cbn; lia].
Defined.

(** Each single-bit update changes the bit it names and no other, and the
    test-and-modify variants return the old value of that bit. *)
Theorem bit_updates_correct nr addr j :
  Forall is_word addr -> 0 <= nr < 64 * Z.of_nat (length addr) -> 0 <= j ->
  bm_bit (__set_bit nr addr) j = (j =? nr) || bm_bit addr j /\
  bm_bit (__clear_bit nr addr) j = negb (j =? nr) && bm_bit addr j /\
  bm_bit (__change_bit nr addr) j = xorb (j =? nr) (bm_bit addr j) /\
  __test_and_set_bit nr addr = (test_bit nr addr, __set_bit nr addr) /\
  __test_and_clear_bit nr addr = (test_bit nr addr, __clear_bit nr addr) /\
  __test_and_change_bit nr addr = (test_bit nr addr, __change_bit nr addr) /\
  test_bit nr addr = bm_bit addr nr.
Proof.
  intros Hw Hnr Hj. rewrite __set_bit_bit, __clear_bit_bit, __change_bit_bit, test_bit_bit by auto.
  unfold __test_and_set_bit, __test_and_clear_bit, __test_and_change_bit.
  rewrite land_BIT_MASK by auto with words. auto 10.
Qed.

Lemma bit_updates_correct_witness :
  bm_bit (__set_bit 70 [0; 0]) 70 = true /\ __test_and_set_bit 70 [0; 64] = (true, [0; 64]).
Proof.
  split.
  - destruct (bit_updates_correct 70 [0; 0] 70) as [-> _]; [repeat constructor; unfold is_word; lia|cbn; lia|lia|reflexivity].
  - reflexivity.
Defined.

(** [bitmap_set] and [bitmap_clear] set and clear exactly the bits of
    [start, start + len), across word boundaries, and leave the others. *)
Theorem bitmap_ranges_correct map start len j :
  0 <= start -> 0 <= len -> start + len <= 64 * Z.of_nat (length map) -> start + len < 2 ^ 32 ->
  0 <= j ->
  bm_bit (bitmap_set map start len) j = bm_bit map j || ((start <=? j) && (j <? start + len)) /\
  bm_bit (bitmap_clear map start len) j =
    bm_bit map j && negb ((start <=? j) && (j <? start + len)).
Proof. intros. now rewrite bitmap_set_bit, bitmap_clear_bit. Qed.

Lemma bitmap_ranges_correct_witness :
  bitmap_set [0; 0; 0] 60 70 = [2 ^ 64 - 2 ^ 60; ULONG_MAX; 3] /\
  bm_bit (bitmap_set [0; 0; 0] 60 70) 129 = true.
Proof.
  split; [reflexivity|].
  destruct (bitmap_ranges_correct [0; 0; 0] 60 70 129) as [-> _]; (cbn; lia) || reflexivity.
Defined.

(** [bitmap_find_free_region] returns the lowest free region of [2^order]
    bits aligned to its size, with exactly its bits set in the new bitmap, and
    [-ENOMEM] with the bitmap unchanged when there is none. *)
Theorem bitmap_find_free_region_correct bitmap bits order :
  Forall is_word bitmap -> 0 <= order <= 30 -> 0 <= bits <= 64 * Z.of_nat (length bitmap) ->
  free_region_result bitmap bits order (bitmap_find_free_region bitmap bits order).
Proof.
  intros. apply find_free_region_loop_spec; auto; try lia.
Qed.

Lemma bitmap_find_free_region_correct_witness :
  bitmap_find_free_region [13; 0] 128 2 = (4, [253; 0]) /\
  free_region_result [13; 0] 128 2 (bitmap_find_free_region [13; 0] 128 2).
Proof.
  split; [reflexivity|]. apply (bitmap_find_free_region_correct [13; 0] 128 2);
    [repeat constructor; unfold is_word; lia|lia|cbn; lia].
Defined.

(** Releasing a region that [bitmap_allocate_region] allocated restores
    every bit, and allocating twice reports [-EBUSY]. *)
Theorem allocate_release_region_roundtrip bitmap pos order :
  Forall is_word bitmap -> region_ok bitmap pos order -> region_free bitmap pos order ->
  exists bitmap', bitmap_allocate_region bitmap pos order = (0, bitmap') /\
    (forall j, 0 <= j -> bm_bit (bitmap_release_region bitmap' pos order) j = bm_bit bitmap j) /\
    bitmap_allocate_region bitmap' pos order = (- EBUSY, bitmap').
Proof.
  intros Hw Hok Hfree. pose proof (region_words _ _ _ Hok) as [Hi Hn].
  unfold bitmap_allocate_region. rewrite (proj2 (__reg_op_isfree bitmap pos order Hw Hok) Hfree).
  set (b' := snd (__reg_op bitmap pos order REG_OP_ALLOC)).
  assert (Hb : forall j, 0 <= j -> bm_bit b' j = bm_bit bitmap j || in_region pos order j)
    by (intros; now apply __reg_op_alloc).
  assert (Hlen : length b' = length bitmap)
    by (apply (for_upto_op_bits Z.lor orb _ bitmap _ _ 0); auto using orb_false_r; [intros; apply Z.lor_spec|lia]).
  assert (Hok' : region_ok b' pos order) by (unfold region_ok in *; now rewrite Hlen).
  exists b'. split_and!; auto.
  - intros j Hj. unfold bitmap_release_region. rewrite __reg_op_release, Hb by auto.
    destruct (in_region pos order j) eqn:E; cbn; [|now rewrite orb_false_r, andb_true_r].
    rewrite andb_false_r. symmetry. apply Hfree. unfold in_region in E. zbool. lia.
  - destruct (_ =? 0) eqn:E; auto. apply __reg_op_isfree in E; auto.
    + destruct Hok as (? & ? & _). specialize (E pos). rewrite Hb in E by lia.
      assert (0 < 2 ^ order) by (apply Z.pow_pos_nonneg; lia).
      replace (in_region pos order pos) with true in E by (unfold in_region; case_bools; auto; lia).
      rewrite orb_true_r in E. discriminate E. lia.
    + apply (for_upto_words (fun w => Z.lor w (reg_mask pos order))); auto.
      intros. apply lor_is_word; auto. apply wrap64_is_word.
Qed.

Lemma allocate_release_region_roundtrip_witness :
  region_free [13; 0] 4 2 /\ fst (bitmap_allocate_region [13; 0] 4 2) = 0.
Proof.
  assert (Hf : region_free [13; 0] 4 2).
  { intros j Hj. assert (j = 4 \/ j = 5 \/ j = 6 \/ j = 7) as [->|[->|[->| ->]]] by (cbn in Hj; lia); reflexivity. }
  split; [exact Hf|].
  destruct (allocate_release_region_roundtrip [13; 0] 4 2) as (b' & -> & _); auto.
  - repeat constructor; unfold is_word; lia.
  - unfold region_ok. split_and!; reflexivity || (cbn; lia).
Defined.

(** The word-parallel tests and combinations of host/lib/bitmap.c agree
    with their definition bit by bit, for any number of bits. *)
Theorem bitmap_algebra_correct b1 b2 dst bits :
  Forall is_word b1 -> Forall is_word b2 -> 0 <= bits <= 64 * Z.of_nat (length dst) ->
  (__bitmap_equal b1 b2 bits = true <-> forall j, 0 <= j < bits -> bm_bit b1 j = bm_bit b2 j) /\
  (__bitmap_subset b1 b2 bits = true <->
     forall j, 0 <= j < bits -> bm_bit b1 j = true -> bm_bit b2 j = true) /\
  (__bitmap_intersects b1 b2 bits = false <->
     forall j, 0 <= j < bits -> bm_bit b1 j && bm_bit b2 j = false) /\
  (forall j, 0 <= j < bits ->
     bm_bit (__bitmap_and dst b1 b2 bits).2 j = bm_bit b1 j && bm_bit b2 j /\
     bm_bit (__bitmap_andnot dst b1 b2 bits).2 j = bm_bit b1 j && negb (bm_bit b2 j)) /\
  ((__bitmap_and dst b1 b2 bits).1 = __bitmap_intersects b1 b2 bits /\
   (__bitmap_andnot dst b1 b2 bits).1 = negb (__bitmap_subset b1 b2 bits)).
Proof.
  intros H1 H2 Hb.
  assert (Hand : forall a b i, 0 <= i < 64 ->
    Z.testbit (Z.land a (not64 b)) i = Z.testbit a i && negb (Z.testbit b i)).
  { intros. rewrite Z.land_spec, testbit_not64 by lia. f_equal. case_bools; auto; lia. }
  pose proof (words_none_spec Z.lxor xorb ltac:(intros; apply Z.lxor_spec)
    ltac:(auto with words) b1 b2 bits H1 H2 ltac:(lia)) as Heq.
  pose proof (words_none_spec Z.land andb ltac:(intros; apply Z.land_spec)
    ltac:(auto with words) b1 b2 bits H1 H2 ltac:(lia)) as Hint.
  pose proof (words_none_spec (fun a b => Z.land a (not64 b)) (fun a b => a && negb b) Hand
    ltac:(intros; cbv beta; auto with words) b1 b2 bits H1 H2 ltac:(lia)) as Hsub.
  assert (Heqw : __bitmap_equal b1 b2 bits = words_none Z.lxor b1 b2 bits).
  { unfold __bitmap_equal, words_none. f_equal. apply all_upto_ext. intros k _.
    apply eq_true_iff_eq. now rewrite !Z.eqb_eq, Z.lxor_eq_0_iff. }
  assert (Hintw : __bitmap_intersects b1 b2 bits = negb (words_none Z.land b1 b2 bits)).
  { unfold __bitmap_intersects, words_none, BITS_PER_LONG.
    destruct (all_upto _ _), (bits mod 64 =? 0); reflexivity. }
  destruct (bitmap_combine_spec Z.land andb ltac:(intros; apply Z.land_spec)
    b1 b2 bits ltac:(lia) dst ltac:(lia)) as [Hc1 Hc2].
  destruct (bitmap_combine_spec (fun a b => Z.land a (not64 b)) (fun a b => a && negb b) Hand
    b1 b2 bits ltac:(lia) dst ltac:(lia))
    as [Hd1 Hd2].
  split_and!.
  - rewrite Heqw, Heq. split; intros H j Hj; specialize (H j Hj); [now apply xorb_eq|].
    rewrite H. apply xorb_nilpotent.
  - change (__bitmap_subset b1 b2 bits) with (words_none (fun a b => Z.land a (not64 b)) b1 b2 bits).
    rewrite Hsub. split; intros H j Hj; specialize (H j Hj);
      destruct (bm_bit b1 j), (bm_bit b2 j); cbn in *; intuition congruence.
  - rewrite Hintw, negb_false_iff. exact Hint.
  - intros j Hj. split; [now apply Hc1|now apply Hd1].
  - rewrite Hintw. exact Hc2.
  - exact Hd2.
Qed.

Lemma bitmap_algebra_correct_witness :
  __bitmap_equal [7; 12] [7; 4] 67 = true /\ bm_bit [7; 12] 66 = bm_bit [7; 4] 66.
Proof.
  split; [reflexivity|].
  apply (bitmap_algebra_correct [7; 12] [7; 4] [0; 0] 67); try (repeat constructor; unfold is_word; lia).
  all: cbn; lia.
Defined.

(** The retry loop of [bitmap_find_next_zero_area_off] terminates, and it
    returns the least start of [nr] zero bits whose sum with [align_offset] is a
    multiple of [align_mask + 1], or a value above [size] when there is none. *)
Theorem find_next_zero_area_off_correct map size start nr k align_offset :
  bitmap_fits map size -> 1 <= nr < 2 ^ 32 -> 0 <= k <= 32 -> 0 <= align_offset < 2 ^ 32 ->
  0 <= start ->
  exists r, bitmap_find_next_zero_area_off map size start nr (2 ^ k - 1) align_offset = Some r /\
    zero_area_result map size nr k align_offset start r.
Proof.
  intros Hfit Hnr Hk Hoff Hs. destruct (Hfit) as (_ & Hn & _).
  apply find_zero_area_loop_spec; auto; try lia. now intros a [? _].
Qed.

Lemma find_next_zero_area_off_correct_witness :
  bitmap_find_next_zero_area [0x0f00ff; 0] 128 3 8 7 = Some 8 /\
  exists r, bitmap_find_next_zero_area_off [0x0f00ff; 0] 128 3 8 (2 ^ 3 - 1) 0 = Some r /\
    zero_area_result [0x0f00ff; 0] 128 8 3 0 3 r.
Proof.
  split; [reflexivity|]. apply (find_next_zero_area_off_correct [0x0f00ff; 0] 128 3 8 3 0); try lia.
  split; [repeat constructor; unfold is_word; lia|cbn; lia].
Defined.

(** The 64-way cascade of [ilog2] computes the integer logarithm of every
    non-zero word, and [is_power_of_2] accepts exactly the powers of two. *)
Theorem log2_correct n :
  1 <= n < 2 ^ 64 ->
  ilog2 n = Some (Z.log2 n) /\ (is_power_of_2 n = true <-> exists k, 0 <= k /\ n = 2 ^ k) /\
  fls64 n = Z.log2 n + 1.
Proof.
  intros Hn. split_and!.
  - unfold ilog2. destruct (Z.ltb_spec n 1); [lia|]. apply ilog2_from_spec. lia.
  - apply is_power_of_2_spec. unfold is_word. lia.
  - unfold fls64, __fls, builtin_clzl. destruct (Z.eqb_spec n 0); lia.
Qed.

Lemma log2_correct_witness : ilog2 0x40000 = Some (Z.log2 0x40000).
Proof. apply (log2_correct 0x40000). lia. Defined.
