(* ===== verification/DList.v ===== *)
(** * Circular doubly linked lists (include/uapi/list.h, [struct list_head])

    The store is the pair of pointer fields the C struct has: [next] and [prev]
    for every location.  Each operation is the sequence of pointer assignments
    of the source.  [dlist h hd xs] says that the nodes reachable from the list
    head [hd] are [xs] in this order, with both directions consistent; the
    theorems show that each operation implements the corresponding operation on
    the sequence, and that it leaves every other list of the store alone.  The
    buddy allocator's free lists are built on this file. *)

From stdpp Require Import functions.
From S2P Require Import Prelude.

#[local] Set Warnings "-clear-no-such-hyp".

Section dlist.
Context {L : Type} `{EqDecision L}.

(** [struct list_head] for every location of the store. *)
Record heap := Heap { prev : L -> L; next : L -> L }.

Definition set_next (h : heap) (l v : L) : heap := Heap (prev h) (<[l := v]> (next h)).
Definition set_prev (h : heap) (l v : L) : heap := Heap (<[l := v]> (prev h)) (next h).

(** ** Operations *)

Definition INIT_LIST_HEAD (h : heap) (list : L) : heap :=
  let h := set_next h list list in
  set_prev h list list.

Definition __list_add (h : heap) (new prv nxt : L) : heap :=
  let h := set_prev h nxt new in
  let h := set_next h new nxt in
  let h := set_prev h new prv in
  set_next h prv new.

Definition list_add (h : heap) (new head : L) : heap := __list_add h new head (next h head).
Definition list_add_tail (h : heap) (new head : L) : heap := __list_add h new (prev h head) head.

Definition __list_del (h : heap) (prv nxt : L) : heap :=
  let h := set_prev h nxt prv in
  set_next h prv nxt.

Definition __list_del_entry (h : heap) (entry : L) : heap :=
  __list_del h (prev h entry) (next h entry).

(** [poison1] and [poison2] stand for [LIST_POISON1] and [LIST_POISON2]. *)
Definition list_del (poison1 poison2 : L) (h : heap) (entry : L) : heap :=
  let h := __list_del h (prev h entry) (next h entry) in
  let h := set_next h entry poison1 in
  set_prev h entry poison2.

Definition list_replace (h : heap) (old new : L) : heap :=
  let h := set_next h new (next h old) in
  let h := set_prev h (next h new) new in
  let h := set_prev h new (prev h old) in
  set_next h (prev h new) new.

Definition list_replace_init (h : heap) (old new : L) : heap :=
  INIT_LIST_HEAD (list_replace h old new) old.

Definition list_del_init (h : heap) (entry : L) : heap :=
  INIT_LIST_HEAD (__list_del_entry h entry) entry.

Definition list_move (h : heap) (list head : L) : heap :=
  list_add (__list_del_entry h list) list head.
Definition list_move_tail (h : heap) (list head : L) : heap :=
  list_add_tail (__list_del_entry h list) list head.

Definition list_is_last (h : heap) (list head : L) : bool := bool_decide (next h list = head).
Definition list_is_first (h : heap) (list head : L) : bool := bool_decide (prev h list = head).
Definition list_empty (h : heap) (head : L) : bool := bool_decide (next h head = head).
Definition list_empty_careful (h : heap) (head : L) : bool :=
  let nxt := next h head in
  bool_decide (nxt = head) && bool_decide (nxt = prev h head).

Definition list_rotate_left (h : heap) (head : L) : heap :=
  if list_empty h head then h
  else
    let first := next h head in
    list_move_tail h first head.

Definition list_is_singular (h : heap) (head : L) : bool :=
  negb (list_empty h head) && bool_decide (next h head = prev h head).

Definition __list_cut_position (h : heap) (list head entry : L) : heap :=
  let new_first := next h entry in
  let h := set_next h list (next h head) in
  let h := set_prev h (next h list) list in
  let h := set_prev h list entry in
  let h := set_next h entry list in
  let h := set_next h head new_first in
  set_prev h new_first head.

Definition list_cut_position (h : heap) (list head entry : L) : heap :=
  if list_empty h head then h
  else if list_is_singular h head && bool_decide (next h head <> entry) && bool_decide (head <> entry)
  then h
  else if bool_decide (entry = head) then INIT_LIST_HEAD h list
  else __list_cut_position h list head entry.

Definition __list_splice (h : heap) (list prv nxt : L) : heap :=
  let first := next h list in
  let last := prev h list in
  let h := set_prev h first prv in
  let h := set_next h prv first in
  let h := set_next h last nxt in
  set_prev h nxt last.

Definition list_splice (h : heap) (list head : L) : heap :=
  if list_empty h list then h else __list_splice h list head (next h head).
Definition list_splice_tail (h : heap) (list head : L) : heap :=
  if list_empty h list then h else __list_splice h list (prev h head) head.
Definition list_splice_init (h : heap) (list head : L) : heap :=
  if list_empty h list then h
  else INIT_LIST_HEAD (__list_splice h list head (next h head)) list.
Definition list_splice_tail_init (h : heap) (list head : L) : heap :=
  if list_empty h list then h
  else INIT_LIST_HEAD (__list_splice h list (prev h head) head) list.

(** [list_first_entry_or_null] *)
Definition list_first_entry_or_null (h : heap) (head : L) : option L :=
  let pos := next h head in
  if bool_decide (pos = head) then None else Some pos.

(** The nodes a [list_for_each] loop visits, in order, and those of
    [list_for_each_prev]; [fuel] bounds the number of iterations. *)
Fixpoint walk (fuel : nat) (step : L -> L) (head pos : L) : option (list L) :=
  match fuel with
  | O => None
  | S fuel' =>
      if bool_decide (pos = head) then Some []
      else cons pos <$> walk fuel' step head (step pos)
  end.
Definition list_for_each (fuel : nat) (h : heap) (head : L) : option (list L) :=
  walk fuel (next h) head (next h head).
Definition list_for_each_prev (fuel : nat) (h : heap) (head : L) : option (list L) :=
  walk fuel (prev h) head (prev h head).

(** ** Representation *)

(** The links from [a] through [xs] to [b], in both directions. *)
Fixpoint chain (h : heap) (a : L) (xs : list L) (b : L) : Prop :=
  match xs with
  | [] => next h a = b /\ prev h b = a
  | x :: xs' => next h a = x /\ prev h x = a /\ chain h x xs' b
  end.

Definition dlist (h : heap) (hd : L) (xs : list L) : Prop :=
  NoDup (hd :: xs) /\ chain h hd xs hd.

Lemma chain_app h a xs y ys b :
  chain h a (xs ++ y :: ys) b <-> chain h a xs y /\ chain h y ys b.
Proof. revert a. induction xs as [|x xs IH]; intros a; cbn; [tauto|]. rewrite IH. tauto. Qed.

Lemma next_set_prev h l v : next (set_prev h l v) = next h.
Proof. reflexivity. Qed.
Lemma prev_set_next h l v : prev (set_next h l v) = prev h.
Proof. reflexivity. Qed.
Lemma next_set_eq h l v : next (set_next h l v) l = v.
Proof. apply fn_lookup_insert. Qed.
Lemma next_set_ne h l v l' : l <> l' -> next (set_next h l v) l' = next h l'.
Proof. apply fn_lookup_insert_ne. Qed.
Lemma prev_set_eq h l v : prev (set_prev h l v) l = v.
Proof. apply fn_lookup_insert. Qed.
Lemma prev_set_ne h l v l' : l <> l' -> prev (set_prev h l v) l' = prev h l'.
Proof. apply fn_lookup_insert_ne. Qed.

(** A chain depends only on the [next] of its sources and [prev] of its targets. *)
Lemma chain_frame h h' a xs b :
  (forall l, l ∈ a :: xs -> next h' l = next h l) ->
  (forall l, l ∈ xs ++ [b] -> prev h' l = prev h l) ->
  chain h a xs b -> chain h' a xs b.
Proof.
  revert a. induction xs as [|x xs IH]; intros a Hn Hp; cbn.
  - rewrite Hn, Hp by set_solver. auto.
  - intros (? & ? & ?). rewrite Hn, Hp by set_solver. split_and!; auto.
    apply IH; auto; intros; [apply Hn|apply Hp]; set_solver.
Qed.

Lemma dlist_frame h h' hd xs :
  (forall l, l ∈ hd :: xs -> next h' l = next h l /\ prev h' l = prev h l) ->
  dlist h hd xs -> dlist h' hd xs.
Proof.
  intros Heq [Hnd Hc]. split; auto. eapply chain_frame; [| |exact Hc]; intros l Hl; apply Heq; set_solver.
Qed.

(** The last node of a chain from [a], and the first one of a chain to [b]. *)
Definition lastn (a : L) (xs : list L) : L := default a (last xs).
Definition firstn (xs : list L) (b : L) : L := default b (head xs).

(** Decides pointer reads after writes; the disequalities come from the
    membership facts in the context. *)
Ltac sets :=
  repeat match goal with
  | H : _ = lastn _ _ |- _ => clear H
  | H : _ = firstn _ _ |- _ => clear H
  end; subst; set_solver.
Ltac ptr_ne := first [congruence | let E := fresh in intros E; sets].
Ltac ptr :=
  repeat first
    [ rewrite next_set_prev | rewrite prev_set_next
    | rewrite next_set_eq | rewrite prev_set_eq
    | rewrite next_set_ne by ptr_ne | rewrite prev_set_ne by ptr_ne ].

Lemma lastn_cons a x xs : lastn a (x :: xs) = lastn x xs.
Proof. unfold lastn. destruct xs; auto. cbn [last]. destruct (last (l :: xs)) eqn:E; auto. now apply last_None in E. Qed.

Lemma lastn_in a xs : lastn a xs ∈ a :: xs.
Proof. revert a. induction xs as [|x xs IH]; intros a; [set_solver|]. rewrite lastn_cons. set_solver. Qed.

Lemma firstn_in xs b : firstn xs b ∈ xs ++ [b].
Proof. destruct xs; set_solver. Qed.

Lemma chain_first h a xs b : chain h a xs b -> next h a = firstn xs b /\ prev h (firstn xs b) = a.
Proof. destruct xs; cbn; tauto. Qed.

Lemma chain_last h a xs b : chain h a xs b -> next h (lastn a xs) = b /\ prev h b = lastn a xs.
Proof.
  revert a. induction xs as [|x xs IH]; intros a; [auto|]. intros (_ & _ & H).
  rewrite lastn_cons. auto.
Qed.

(** The same nodes, with the last link redirected to [b']. *)
Lemma chain_retarget h h' a xs b b' la :
  la = lastn a xs -> NoDup (a :: xs) -> chain h a xs b ->
  next h' la = b' -> prev h' b' = la ->
  (forall l, l ∈ a :: xs -> l <> la -> next h' l = next h l) ->
  (forall l, l ∈ xs -> prev h' l = prev h l) ->
  chain h' a xs b'.
Proof.
  intros ->. revert a. induction xs as [|x xs IH]; intros a Hnd Hc Hn Hp Hfn Hfp; [now split|].
  destruct Hc as (Hx & Hpx & Hc). apply NoDup_cons in Hnd as [Ha Hnd]. rewrite lastn_cons in *.
  pose proof (lastn_in x xs). split_and!.
  - rewrite Hfn; auto; [set_solver|]. intros ->. set_solver.
  - rewrite Hfp; set_solver.
  - apply IH; auto; [intros; apply Hfn|intros; apply Hfp]; set_solver.
Qed.

(** The same nodes, with the first link coming from [a']. *)
Lemma chain_resource h h' a a' xs b fi :
  fi = firstn xs b -> NoDup (xs ++ [b]) -> chain h a xs b ->
  next h' a' = fi -> prev h' fi = a' ->
  (forall l, l ∈ xs -> next h' l = next h l) ->
  (forall l, l ∈ xs ++ [b] -> l <> fi -> prev h' l = prev h l) ->
  chain h' a' xs b.
Proof.
  intros ->.
  destruct xs as [|x xs]; cbn; [auto|]. intros Hnd (_ & _ & Hc) Hn Hp Hfn Hfp.
  apply NoDup_cons in Hnd as [Hx Hnd]. split_and!; auto.
  eapply chain_frame; [..|exact Hc]; auto. intros l Hl. apply Hfp; set_solver.
Qed.

(** A chain around a position: both halves. *)
Lemma chain_split h a xs ys b :
  chain h a (xs ++ ys) b <-> chain h a xs (firstn ys b) /\ chain h (lastn a xs) ys b.
Proof.
  revert a. induction xs as [|x xs IH]; intros a; cbn [app].
  - split; [|now intros [_ H]]. intros H. split; auto. now apply chain_first in H.
  - rewrite lastn_cons. cbn [chain]. rewrite IH. tauto.
Qed.

Lemma NoDup_snoc (xs : list L) x : NoDup xs /\ x ∉ xs -> NoDup (xs ++ [x]).
Proof.
  intros [? ?]. apply NoDup_app. split_and!; [auto|set_solver|apply NoDup_singleton].
Qed.

(** ** Linking and unlinking *)

(** [__list_add] between the halves [xs] and [ys] of a list. *)
Lemma dlist_insert h hd xs ys new :
  dlist h hd (xs ++ ys) -> new ∉ hd :: xs ++ ys ->
  dlist (__list_add h new (lastn hd xs) (firstn ys hd)) hd (xs ++ new :: ys).
Proof.
  intros [Hnd Hc] Hnew. pose proof (lastn_in hd xs) as Hl. pose proof (firstn_in ys hd) as Hf.
  rewrite NoDup_cons, NoDup_app in Hnd. destruct Hnd as (Hhd & Hx & Hxy & Hy).
  apply chain_split in Hc as [Hc1 Hc2].
  remember (lastn hd xs) as la eqn:Ela. remember (firstn ys hd) as fi eqn:Efi. split.
  { rewrite NoDup_cons, NoDup_app, NoDup_cons. sets. }
  apply chain_app. split; unfold __list_add.
  - eapply chain_retarget; [exact Ela|rewrite NoDup_cons; sets|exact Hc1| | |intros l ? ?|intros l ?]; ptr; auto.
  - eapply chain_resource; [exact Efi|apply NoDup_snoc; sets|exact Hc2| | |intros l ?|intros l ? ?]; ptr; auto.
Qed.

(** [__list_del_entry] of the node between [xs] and [ys]. *)
Lemma dlist_remove h hd xs e ys :
  dlist h hd (xs ++ e :: ys) -> dlist (__list_del h (prev h e) (next h e)) hd (xs ++ ys).
Proof.
  intros [Hnd Hc]. pose proof (lastn_in hd xs) as Hl. pose proof (firstn_in ys hd) as Hf.
  rewrite NoDup_cons, NoDup_app, NoDup_cons in Hnd. destruct Hnd as (Hhd & Hx & Hxy & He & Hy).
  apply chain_app in Hc as [Hc1 Hc2].
  destruct (chain_last _ _ _ _ Hc1) as [_ Hpe]. destruct (chain_first _ _ _ _ Hc2) as [Hne _].
  rewrite Hpe, Hne. clear Hpe Hne.
  remember (lastn hd xs) as la eqn:Ela. remember (firstn ys hd) as fi eqn:Efi. split; [rewrite NoDup_cons, NoDup_app; sets|].
  apply chain_split. rewrite <- Ela, <- Efi. split; unfold __list_del.
  - eapply chain_retarget; [exact Ela|rewrite NoDup_cons; sets|exact Hc1| | |intros l ? ?|intros l ?]; ptr; auto.
  - eapply chain_resource; [exact Efi|apply NoDup_snoc; sets|exact Hc2| | |intros l ?|intros l ? ?]; ptr; auto.
Qed.

(** [h'] differs from [h] at most at the locations of [S]. *)
Definition same_outside (S : list L) (h h' : heap) : Prop :=
  forall l, l ∉ S -> next h' l = next h l /\ prev h' l = prev h l.

Lemma dlist_same_outside S h h' hd xs :
  same_outside S h h' -> (forall l, l ∈ hd :: xs -> l ∉ S) -> dlist h hd xs -> dlist h' hd xs.
Proof. intros Hs Hd. apply dlist_frame. intros l Hl. apply Hs, Hd, Hl. Qed.

Lemma dlist_first h hd xs : dlist h hd xs -> next h hd = firstn xs hd.
Proof. intros [_ Hc]. now apply chain_first in Hc. Qed.

Lemma dlist_last h hd xs : dlist h hd xs -> prev h hd = lastn hd xs.
Proof. intros [_ Hc]. now apply chain_last in Hc. Qed.

Lemma dlist_list_empty h hd xs : dlist h hd xs -> list_empty h hd = true <-> xs = [].
Proof.
  intros Hl. unfold list_empty. rewrite bool_decide_eq_true, (dlist_first h hd xs Hl).
  destruct Hl as [Hnd _]. destruct xs as [|x xs]; cbn; [tauto|].
  apply NoDup_cons in Hnd as [Hhd _]. split; [|discriminate]. intros ->. set_solver.
Qed.

Lemma dlist_list_add h hd xs new :
  dlist h hd xs -> new ∉ hd :: xs -> dlist (list_add h new hd) hd (new :: xs).
Proof.
  intros Hl Hn. unfold list_add. rewrite (dlist_first h hd xs Hl).
  apply (dlist_insert h hd [] xs new); auto.
Qed.

Lemma dlist_list_add_tail h hd xs new :
  dlist h hd xs -> new ∉ hd :: xs -> dlist (list_add_tail h new hd) hd (xs ++ [new]).
Proof.
  intros Hl Hn. unfold list_add_tail. rewrite (dlist_last h hd xs Hl).
  apply (dlist_insert h hd xs [] new); rewrite app_nil_r; auto.
Qed.

Lemma list_add_same_outside h hd xs new :
  dlist h hd xs -> same_outside (new :: hd :: xs) h (list_add h new hd).
Proof.
  intros Hl l Hn. pose proof (firstn_in xs hd) as Hf. unfold list_add, __list_add.
  rewrite (dlist_first h hd xs Hl). generalize dependent (firstn xs hd). intros fi Hf. ptr. auto.
Qed.

(** An entry of a list has its neighbours in the list. *)
Lemma dlist_entry h hd xs e ys :
  dlist h hd (xs ++ e :: ys) -> prev h e = lastn hd xs /\ next h e = firstn ys hd.
Proof.
  intros [_ [H1 H2]%chain_app]. split; [now apply chain_last in H1|now apply chain_first in H2].
Qed.

Lemma list_del_entry_same_outside h hd xs e ys :
  dlist h hd (xs ++ e :: ys) -> same_outside (hd :: xs ++ ys) h (__list_del_entry h e).
Proof.
  intros Hl l Hn. destruct (dlist_entry _ _ _ _ _ Hl) as [Hp Hx]. unfold __list_del_entry, __list_del.
  rewrite Hp, Hx. pose proof (firstn_in ys hd) as Hf. pose proof (lastn_in hd xs) as Hla.
  generalize dependent (firstn ys hd). intros fi _ Hf. generalize dependent (lastn hd xs). intros la _ Hla.
  ptr. auto.
Qed.

Lemma dlist_set_entry h hd xs e v w :
  e ∉ hd :: xs -> dlist h hd xs -> dlist (set_prev (set_next h e v) e w) hd xs.
Proof. intros He. apply dlist_frame. intros l Hl. ptr. auto. Qed.

Lemma dlist_list_del p1 p2 h hd xs e ys :
  dlist h hd (xs ++ e :: ys) -> dlist (list_del p1 p2 h e) hd (xs ++ ys).
Proof.
  intros Hl. apply dlist_set_entry.
  - destruct Hl as [Hnd _]. rewrite NoDup_cons, NoDup_app, NoDup_cons in Hnd. set_solver.
  - now apply dlist_remove.
Qed.

Lemma list_del_same_outside p1 p2 h hd xs e ys :
  dlist h hd (xs ++ e :: ys) -> same_outside (e :: hd :: xs ++ ys) h (list_del p1 p2 h e).
Proof.
  intros Hl l Hn. destruct (list_del_entry_same_outside h hd xs e ys Hl l) as [E1 E2]; [set_solver|].
  unfold list_del. fold (__list_del_entry h e). assert (e <> l) by set_solver. ptr. auto.
Qed.

Lemma dlist_list_del_init h hd xs e ys :
  dlist h hd (xs ++ e :: ys) -> dlist (list_del_init h e) hd (xs ++ ys) /\ dlist (list_del_init h e) e [].
Proof.
  intros Hl. split.
  - apply dlist_set_entry; [|now apply dlist_remove].
    destruct Hl as [Hnd _]. rewrite NoDup_cons, NoDup_app, NoDup_cons in Hnd. set_solver.
  - split; [apply NoDup_singleton|split]; unfold list_del_init, INIT_LIST_HEAD; ptr; auto.
Qed.

Lemma dlist_not_in h hd xs e ys : dlist h hd (xs ++ e :: ys) -> e ∉ hd :: xs ++ ys.
Proof. intros [Hnd _]. rewrite NoDup_cons, NoDup_app, NoDup_cons in Hnd. set_solver. Qed.

Lemma dlist_list_move h hd xs e ys :
  dlist h hd (xs ++ e :: ys) ->
  dlist (list_move h e hd) hd (e :: xs ++ ys) /\ dlist (list_move_tail h e hd) hd ((xs ++ ys) ++ [e]).
Proof.
  intros Hl. pose proof (dlist_not_in _ _ _ _ _ Hl).
  split; [apply dlist_list_add|apply dlist_list_add_tail]; auto; now apply dlist_remove.
Qed.

Lemma dlist_list_replace h hd xs old ys new :
  dlist h hd (xs ++ old :: ys) -> new ∉ hd :: xs ++ old :: ys ->
  dlist (list_replace h old new) hd (xs ++ new :: ys).
Proof.
  intros Hl Hn. destruct (dlist_entry _ _ _ _ _ Hl) as [Hp Hx]. destruct Hl as [Hnd Hc].
  rewrite NoDup_cons, NoDup_app, NoDup_cons in Hnd. destruct Hnd as (Hhd & Hxs & Hxy & Ho & Hy).
  apply chain_app in Hc as [Hc1 Hc2].
  pose proof (lastn_in hd xs) as Hla. pose proof (firstn_in ys hd) as Hf.
  split; [rewrite NoDup_cons, NoDup_app, NoDup_cons; set_solver|]. apply chain_app.
  remember (lastn hd xs) as la eqn:Ela. remember (firstn ys hd) as fi eqn:Efi.
  assert (fi <> old /\ fi <> new /\ la <> new /\ old <> new) as (? & ? & ? & ?)
    by (clear Hx Hp; split_and!; ptr_ne).
  assert (E : list_replace h old new =
    set_next (set_prev (set_prev (set_next h new fi) fi new) new la) la new).
  { unfold list_replace. ptr. rewrite Hx. ptr. rewrite Hp. reflexivity. }
  rewrite E. clear Hx Hp E. split.
  - eapply chain_retarget; [exact Ela|rewrite NoDup_cons; sets|exact Hc1| | |intros l ? ?|intros l ?]; ptr; auto.
  - eapply chain_resource; [exact Efi|apply NoDup_snoc; sets|exact Hc2| | |intros l ?|intros l ? ?]; ptr; auto.
Qed.

(** ** Splicing and cutting *)

(** [__list_splice] of the nodes [zs] of list [l] between [xs] and [ys]. *)
Lemma dlist_splice_at h l zs hd xs ys :
  dlist h l zs -> zs <> [] -> dlist h hd (xs ++ ys) ->
  (forall z, z ∈ l :: zs -> z ∉ hd :: xs ++ ys) ->
  dlist (__list_splice h l (lastn hd xs) (firstn ys hd)) hd (xs ++ zs ++ ys).
Proof.
  intros Hl Hne Hd Hdis. unfold __list_splice.
  rewrite (dlist_first _ _ _ Hl), (dlist_last _ _ _ Hl).
  destruct Hd as [Hnd Hc]. destruct Hl as [Hndz Hz].
  rewrite NoDup_cons, NoDup_app in Hnd. destruct Hnd as (Hhd & Hxs & Hxy & Hys).
  apply NoDup_cons in Hndz as [Hlz Hzs]. apply chain_split in Hc as [Hc1 Hc2].
  destruct zs as [|z zs]; [done|]. cbn [firstn head default] in *.
  destruct Hz as (_ & _ & Hz3). rewrite lastn_cons.
  pose proof (lastn_in hd xs) as Hla. pose proof (firstn_in ys hd) as Hf.
  pose proof (lastn_in z zs) as Hlz'.
  remember (lastn hd xs) as la eqn:Ela. remember (firstn ys hd) as fi eqn:Efi.
  remember (lastn z zs) as lz eqn:Elz. split.
  { apply NoDup_cons; split; [sets|]. apply NoDup_app; split_and!; [auto| |].
    - intros u Hu [Hz|Hy]%elem_of_app; [apply (Hdis u)|apply (Hxy u)]; set_solver.
    - apply NoDup_app; split_and!; [auto| |auto]. intros u Hu Hy. apply (Hdis u); set_solver. }
  assert (Hd1 : (la ∉ z :: zs) /\ (fi ∉ z :: zs)) 
    by (split; intros Hu; [apply (Hdis la)|apply (Hdis fi)]; clear Hdis; sets).
  assert (Hd2 : (lz ∉ hd :: xs ++ ys) /\ (z ∉ hd :: xs ++ ys)) by (split; apply Hdis; set_solver).
  clear Hdis. apply chain_app. split.
  - eapply chain_retarget; [exact Ela|rewrite NoDup_cons; sets|exact Hc1| | |intros u ? ?|intros u ?]; ptr; auto.
  - apply chain_split. rewrite <- Elz, <- Efi. split.
    + clear Hxy Hhd Hla Hf Hlz Hlz' Hd2 Hc1 Hc2 Hxs Hys Hne. pose proof Hzs as [Hz _]%NoDup_cons.
      eapply chain_retarget; [exact Elz|exact Hzs|exact Hz3| | |intros u ? ?|intros u ?]; ptr; auto.
    + eapply chain_resource; [exact Efi|apply NoDup_snoc; sets|exact Hc2| | |intros u ?|intros u ? ?]; ptr; auto.
Qed.

Lemma dlist_list_splice h l zs hd xs :
  dlist h l zs -> dlist h hd xs -> (forall z, z ∈ l :: zs -> z ∉ hd :: xs) ->
  dlist (list_splice h l hd) hd (zs ++ xs) /\ dlist (list_splice_tail h l hd) hd (xs ++ zs).
Proof.
  intros Hl Hd Hdis. unfold list_splice, list_splice_tail.
  pose proof (dlist_list_empty h l zs Hl) as He. destruct (list_empty h l).
  - rewrite (proj1 He eq_refl), app_nil_r. auto.
  - assert (zs <> []) by (intros ->; now destruct He as [_ He]; specialize (He eq_refl)).
    rewrite (dlist_first _ _ _ Hd), (dlist_last _ _ _ Hd). split.
    + now apply (dlist_splice_at h l zs hd [] xs).
    + rewrite <- (app_nil_r zs) at 1. apply (dlist_splice_at h l zs hd xs []); auto; now rewrite app_nil_r.
Qed.

Lemma dlist_init h l : dlist (INIT_LIST_HEAD h l) l [].
Proof. split; [apply NoDup_singleton|split]; unfold INIT_LIST_HEAD; ptr; auto. Qed.

Lemma dlist_list_splice_init h l zs hd xs :
  dlist h l zs -> dlist h hd xs -> (forall z, z ∈ l :: zs -> z ∉ hd :: xs) ->
  dlist (list_splice_init h l hd) hd (zs ++ xs) /\ dlist (list_splice_init h l hd) l [] /\
  dlist (list_splice_tail_init h l hd) hd (xs ++ zs) /\ dlist (list_splice_tail_init h l hd) l [].
Proof.
  intros Hl Hd Hdis. destruct (dlist_list_splice h l zs hd xs Hl Hd Hdis) as [H1 H2].
  pose proof (dlist_list_empty h l zs Hl) as He.
  unfold list_splice_init, list_splice_tail_init, list_splice, list_splice_tail in *.
  destruct (list_empty h l).
  - rewrite (proj1 He eq_refl) in *. auto.
  - assert (Hlz : forall ws, (forall w, w ∈ ws <-> w ∈ xs \/ w ∈ zs) -> l ∉ hd :: ws).
    { intros ws Hws. destruct Hl as [[Hlz _]%NoDup_cons _]. specialize (Hdis l). rewrite elem_of_cons, Hws. set_solver. }
    split_and!; try apply dlist_init; apply dlist_set_entry; auto; apply Hlz; set_solver.
Qed.

Lemma dlist_cut h list head xs e ys :
  dlist h head (xs ++ e :: ys) -> list ∉ head :: xs ++ e :: ys ->
  dlist (__list_cut_position h list head e) list (xs ++ [e]) /\
  dlist (__list_cut_position h list head e) head ys.
Proof.
  intros Hl Hn. pose proof (dlist_first _ _ _ Hl) as Hfirst.
  destruct (dlist_entry _ _ _ _ _ Hl) as [_ Hx]. destruct Hl as [Hnd Hc].
  rewrite NoDup_cons, NoDup_app, NoDup_cons in Hnd. destruct Hnd as (Hhd & Hxs & Hxy & He & Hy).
  rewrite cons_middle, app_assoc in Hc. apply chain_split in Hc as [Hc1 Hc2].
  assert (Hlast' : lastn head (xs ++ [e]) = e) by (unfold lastn; now rewrite last_snoc).
  rewrite Hlast' in Hc2.
  assert (Hf1 : firstn (xs ++ e :: ys) head = firstn (xs ++ [e]) list) by (destruct xs; reflexivity).
  pose proof (firstn_in ys head) as Hf.
  assert (Hg : firstn (xs ++ [e]) list ∈ xs ++ [e]) by (destruct xs; set_solver).
  unfold __list_cut_position. rewrite Hx, Hfirst, Hf1. clear Hx Hfirst Hf1 Hlast'.
  remember (firstn ys head) as fi eqn:Efi. remember (firstn (xs ++ [e]) list) as f1 eqn:Ef1.
  assert (Hnde : NoDup (xs ++ [e])) by (apply NoDup_snoc; sets).
  rewrite next_set_eq. split; (split; [rewrite NoDup_cons; sets|]).
  - assert (H1 : chain (set_prev (set_next h list f1) f1 list) list (xs ++ [e]) fi).
    { eapply chain_resource; [| |exact Hc1| | |intros u ?|intros u ? ?]; [|apply NoDup_snoc; sets|ptr; auto..].
      rewrite Ef1. now destruct xs. }
    clear Hc1 Hc2 Ef1. set (h1 := set_prev (set_next h list f1) f1 list) in *. clearbody h1.
    assert (list <> fi /\ head <> e /\ fi <> list) as (? & ? & ?) by (split_and!; ptr_ne).
    eapply chain_retarget with (la := e);
      [unfold lastn; now rewrite last_snoc|rewrite NoDup_cons; sets|exact H1| | |intros u ? ?|intros u ?].
    all: ptr; auto.
  - eapply chain_resource; [exact Efi|apply NoDup_snoc; sets|exact Hc2| | |intros u ?|intros u ? ?]; ptr; auto.
Qed.

(** ** Traversals and tests *)

Lemma walk_next h a xs b :
  b ∉ xs -> chain h a xs b -> walk (S (length xs)) (next h) b (next h a) = Some xs.
Proof.
  revert a. induction xs as [|x xs IH]; intros a Hb; cbn [chain length].
  - intros [-> _]. cbn. now rewrite bool_decide_true.
  - intros (-> & _ & Hc). change (walk (S (S (length xs))) (next h) b x) with
      (if bool_decide (x = b) then Some [] else cons x <$> walk (S (length xs)) (next h) b (next h x)).
    rewrite bool_decide_false, (IH x); [reflexivity|set_solver|exact Hc|set_solver].
Qed.

(** Reversing every link of the store reverses a chain. *)
Lemma chain_rev h a xs b : chain h a xs b <-> chain (Heap (next h) (prev h)) b (rev xs) a.
Proof.
  revert a. induction xs as [|x xs IH]; intros a; cbn [rev]; [cbn; tauto|].
  rewrite chain_app. cbn [chain]. rewrite IH. cbn. tauto.
Qed.

Lemma dlist_for_each h hd xs :
  dlist h hd xs ->
  list_for_each (S (length xs)) h hd = Some xs /\ list_for_each_prev (S (length xs)) h hd = Some (rev xs).
Proof.
  intros [[Hhd _]%NoDup_cons Hc]. split; [now apply walk_next|].
  rewrite <- length_rev. apply (walk_next (Heap (next h) (prev h)) hd (rev xs) hd).
  - rewrite list_elem_of_In, <- in_rev, <- list_elem_of_In. exact Hhd.
  - exact (proj1 (chain_rev h hd xs hd) Hc).
Qed.

Lemma dlist_first_entry h hd xs : dlist h hd xs -> list_first_entry_or_null h hd = head xs.
Proof.
  intros Hl. unfold list_first_entry_or_null. rewrite (dlist_first h hd xs Hl).
  destruct Hl as [[Hhd _]%NoDup_cons _]. destruct xs as [|x xs]; cbn.
  - now rewrite bool_decide_true.
  - rewrite bool_decide_false; [reflexivity|]. intros ->. set_solver.
Qed.

Lemma dlist_singular h hd xs : dlist h hd xs -> list_is_singular h hd = true <-> exists x, xs = [x].
Proof.
  intros Hl. pose proof (dlist_list_empty h hd xs Hl) as He. unfold list_is_singular.
  rewrite andb_true_iff, negb_true_iff, bool_decide_eq_true, (dlist_first _ _ _ Hl), (dlist_last _ _ _ Hl).
  destruct Hl as [(Hhd & Hnd)%NoDup_cons _]. split.
  - intros [Hne Heq]. destruct xs as [|x [|y xs]]; [|eauto|].
    + destruct He as [_ He]. rewrite (He eq_refl) in Hne. discriminate.
    + rewrite !lastn_cons in Heq. cbn in Heq. pose proof (lastn_in y xs). apply NoDup_cons in Hnd as [Hx _].
      rewrite <- Heq in *. set_solver.
  - intros [x ->]. split; [|reflexivity]. destruct (list_empty h hd); [|reflexivity].
    now discriminate (proj1 He eq_refl).
Qed.

(** ** The properties of this component *)

(** On a well-formed list, insertion at either end, deletion, deletion with
    re-initialisation, moving, replacing and rotating implement the operation on
    the sequence of nodes, and the list stays well formed in both directions. *)
Theorem list_updates_refine p1 p2 h hd xs e ys new :
  dlist h hd (xs ++ e :: ys) -> new ∉ hd :: xs ++ e :: ys ->
  dlist (list_add h new hd) hd (new :: xs ++ e :: ys) /\
  dlist (list_add_tail h new hd) hd ((xs ++ e :: ys) ++ [new]) /\
  dlist (list_del p1 p2 h e) hd (xs ++ ys) /\
  (dlist (list_del_init h e) hd (xs ++ ys) /\ dlist (list_del_init h e) e []) /\
  (dlist (list_move h e hd) hd (e :: xs ++ ys) /\ dlist (list_move_tail h e hd) hd ((xs ++ ys) ++ [e])) /\
  dlist (list_replace h e new) hd (xs ++ new :: ys) /\
  (xs = [] -> dlist (list_rotate_left h hd) hd (ys ++ [e])).
Proof.
  intros Hl Hn. split_and!.
  - now apply dlist_list_add.
  - now apply dlist_list_add_tail.
  - now apply dlist_list_del.
  - now apply dlist_list_del_init.
  - now apply (dlist_list_del_init h hd xs e ys).
  - now apply dlist_list_move.
  - now apply dlist_list_move.
  - now apply dlist_list_replace.
  - intros ->. unfold list_rotate_left. pose proof (dlist_list_empty h hd _ Hl) as He.
    destruct (list_empty h hd); [now discriminate (proj1 He eq_refl)|].
    rewrite (dlist_first _ _ _ Hl). now apply (dlist_list_move h hd [] e ys).
Qed.

(** Splicing concatenates two disjoint lists on the side the routine names
    (the [_init] variants also empty the source list), and cutting a list after
    an entry divides it there. *)
Theorem list_splice_cut_refine h l zs hd xs e ys :
  dlist h l zs -> dlist h hd (xs ++ e :: ys) -> (forall z, z ∈ l :: zs -> z ∉ hd :: xs ++ e :: ys) ->
  dlist (list_splice h l hd) hd (zs ++ xs ++ e :: ys) /\
  dlist (list_splice_tail h l hd) hd ((xs ++ e :: ys) ++ zs) /\
  (dlist (list_splice_init h l hd) hd (zs ++ xs ++ e :: ys) /\ dlist (list_splice_init h l hd) l []) /\
  (dlist (list_splice_tail_init h l hd) hd ((xs ++ e :: ys) ++ zs) /\
   dlist (list_splice_tail_init h l hd) l []) /\
  (dlist (list_cut_position h l hd e) l (xs ++ [e]) /\ dlist (list_cut_position h l hd e) hd ys).
Proof.
  intros Hl Hd Hdis. destruct (dlist_list_splice h l zs hd _ Hl Hd Hdis).
  destruct (dlist_list_splice_init h l zs hd _ Hl Hd Hdis) as (? & ? & ? & ?). split_and!; auto.
  all: assert (Hn : l ∉ hd :: xs ++ e :: ys) by (apply Hdis; set_solver).
  all: destruct (dlist_cut h l hd xs e ys Hd Hn); unfold list_cut_position.
  all: pose proof (dlist_list_empty h hd _ Hd) as He; pose proof (dlist_singular h hd _ Hd) as Hs.
  all: destruct (list_empty h hd); [pose proof (proj1 He eq_refl) as E; now destruct xs|].
  all: destruct (list_is_singular h hd); cbn [andb];
    [destruct (proj1 Hs eq_refl) as [x Ex];
     assert (next h hd = e) by (rewrite (dlist_first _ _ _ Hd); destruct xs as [|? [|]]; [reflexivity|discriminate..]);
     rewrite bool_decide_false by (intros Hc; now apply Hc); cbn [andb]|].
  all: rewrite bool_decide_false; auto; destruct Hd as [[Hhd _]%NoDup_cons _]; set_solver.
Qed.

(** A forward traversal of a well-formed list visits its nodes in order and
    a backward traversal in reverse, both ending after [length xs] steps; the
    emptiness, first-entry and singularity tests read the sequence. *)
Theorem list_traversals_correct h hd xs :
  dlist h hd xs ->
  list_for_each (S (length xs)) h hd = Some xs /\
  list_for_each_prev (S (length xs)) h hd = Some (rev xs) /\
  list_first_entry_or_null h hd = head xs /\
  (list_empty h hd = true <-> xs = []) /\
  (list_is_singular h hd = true <-> exists x, xs = [x]).
Proof.
  intros Hl. destruct (dlist_for_each h hd xs Hl).
  split_and!; auto; [now apply dlist_first_entry|now apply dlist_list_empty|now apply dlist_singular].
Qed.
End dlist.

Arguments heap : clear implicits.

(** ** Witnesses: the list 0 -> 1 -> 2 -> 3 -> 0 and the list 7 -> 8 -> 7 *)

Definition ex_heap : heap Z :=
  let h := INIT_LIST_HEAD (INIT_LIST_HEAD (Heap id id) 0) 7 in
  list_add_tail (list_add_tail (list_add_tail (list_add_tail h 1 0) 2 0) 3 0) 8 7.

Lemma ex_heap_dlist : dlist ex_heap 0 ([1] ++ 2 :: [3]) /\ dlist ex_heap 7 [8].
Proof.
  split; split; try (repeat split; reflexivity).
  all: apply NoDup_ListNoDup; repeat constructor; cbn; lia.
Defined.

Lemma list_updates_refine_witness :
  dlist (list_del 100 200 ex_heap 2) 0 [1; 3] /\ list_for_each 10 (list_del 100 200 ex_heap 2) 0 = Some [1; 3].
Proof.
  split; [|reflexivity].
  destruct (list_updates_refine 100 200 ex_heap 0 [1] 2 [3] 9) as (_ & _ & H & _);
    [apply ex_heap_dlist|rewrite list_elem_of_In; cbn; lia|exact H].
Defined.

Lemma list_splice_cut_refine_witness :
  dlist (list_splice ex_heap 7 0) 0 [8; 1; 2; 3] /\ list_for_each 10 (list_splice ex_heap 7 0) 0 = Some [8; 1; 2; 3].
Proof.
  split; [|reflexivity].
  destruct (list_splice_cut_refine ex_heap 7 [8] 0 [1] 2 [3]) as [H _];
    [apply ex_heap_dlist|apply ex_heap_dlist| |exact H].
  intros z. rewrite !list_elem_of_In. cbn. lia.
Defined.

Lemma list_traversals_correct_witness : list_for_each_prev 4 ex_heap 0 = Some [3; 2; 1].
Proof.
  destruct (list_traversals_correct ex_heap 0 [1; 2; 3]) as (_ & H & _); [apply ex_heap_dlist|exact H].
Defined.
