(* ===== verification/Buddy.v ===== *)
(** * The buddy allocator of FPGA physical pages (board/soc/core/buddy.c, buddy.h)

    The zone is the one of the source: per order a free list and its counter,
    and the page map with the flags and private word of every page.  A
    [struct page *] is the index of the page in [page_map], which is its page
    frame number.  The free lists are real linked lists: the zone holds the
    [next]/[prev] store of [DList], and allocation and freeing run [list_add] and
    [list_del] on it.  [MAX_ORDER] and the managed range are parameters, since
    buddy.h says they can be tuned; [Clio] at the end fixes the shipped values.

    [zone_inv z F] relates a zone to the abstract free lists [F]: well-formed
    links, exact counters, aligned and disjoint blocks inside the managed range,
    page flags and orders that describe exactly the free blocks, and no two free
    buddies left unmerged.  The theorems show that allocation and freeing keep it
    and take out and put back exactly the pages of the block. *)

From stdpp Require Import functions.
From S2P Require Import Prelude Bitops DList.

#[local] Set Warnings "-clear-no-such-hyp".

(** A [list_head] of the allocator: the head of an order, or a page's [list]. *)
Inductive loc := Head (order : Z) | PageList (pfn : Z) | Poison1 | Poison2.

#[export] Instance loc_eq_dec : EqDecision loc.
Proof. solve_decision. Defined.

Record page := Page { flags : Z; private : Z }.

Record fpga_zone := Zone {
  links : heap loc;
  nr_free : Z -> Z;          (** [free_area[order].nr_free] *)
  page_map : Z -> page;
}.

Definition set_links (z : fpga_zone) (h : heap loc) : fpga_zone := Zone h (nr_free z) (page_map z).
Definition set_nr_free (z : fpga_zone) (order v : Z) : fpga_zone :=
  Zone (links z) (<[order := v]> (nr_free z)) (page_map z).
Definition set_page (z : fpga_zone) (p : Z) (v : page) : fpga_zone :=
  Zone (links z) (nr_free z) (<[p := v]> (page_map z)).

(** ** Page flags: bit [PG_buddy] = 0 of [flags], through the bit operations *)

Definition PG_buddy : Z := 0.
Definition PageBuddy (z : fpga_zone) (p : Z) : bool := test_bit PG_buddy [flags (page_map z p)].
Definition __SetPageBuddy (z : fpga_zone) (p : Z) : fpga_zone :=
  set_page z p (Page (word_at (__set_bit PG_buddy [flags (page_map z p)]) 0) (private (page_map z p))).
Definition __ClearPageBuddy (z : fpga_zone) (p : Z) : fpga_zone :=
  set_page z p (Page (word_at (__clear_bit PG_buddy [flags (page_map z p)]) 0) (private (page_map z p))).
Definition set_page_private (z : fpga_zone) (p v : Z) : fpga_zone :=
  set_page z p (Page (flags (page_map z p)) v).
(** [page_order] returns an [unsigned int]. *)
Definition page_order (z : fpga_zone) (p : Z) : Z := wrap32 (private (page_map z p)).

(** [__get_order] and the constant case of [get_order]. *)
Definition __get_order (size : Z) : Z := fls64 (Z.shiftr (wrap64 (size - 1)) PAGE_SHIFT).
Definition get_order_const (n : Z) : option Z :=
  if n =? 0 then Some (BITS_PER_LONG - PAGE_SHIFT)
  else if n <? 2 ^ PAGE_SHIFT then Some 0
  else (fun l => l - PAGE_SHIFT + 1) <$> ilog2 (n - 1).

Definition __find_buddy_index (page_idx order : Z) : Z := Z.lxor page_idx (Z.shiftl 1 order).

Definition set_page_order (z : fpga_zone) (p order : Z) : fpga_zone :=
  __SetPageBuddy (set_page_private z p order) p.
Definition rmv_page_order (z : fpga_zone) (p : Z) : fpga_zone :=
  set_page_private (__ClearPageBuddy z p) p 0.

Definition page_is_buddy (z : fpga_zone) (buddy order : Z) : bool :=
  PageBuddy z buddy && (page_order z buddy =? order).

Definition buddy_list_del (z : fpga_zone) (p : Z) : fpga_zone :=
  set_links z (list_del Poison1 Poison2 (links z) (PageList p)).
Definition buddy_list_add (z : fpga_zone) (p order : Z) : fpga_zone :=
  set_links z (list_add (links z) (PageList p) (Head order)).
Definition inc_nr_free (z : fpga_zone) (order : Z) : fpga_zone :=
  set_nr_free z order (nr_free z order +w 1).
Definition dec_nr_free (z : fpga_zone) (order : Z) : fpga_zone :=
  set_nr_free z order (nr_free z order -w 1).

Definition free_pages_check (z : fpga_zone) (p : Z) : Z := if PageBuddy z p then 1 else 0.

Definition free_pages_prepare (z : fpga_zone) (p order : Z) : bool :=
  let bad :=
    if negb (order =? 0) then
      for_upto (Z.to_nat (Z.shiftl 1 order - 1))
        (fun i bad => if negb (free_pages_check z (p + (i + 1)) =? 0) then bad + 1 else bad) 0
    else 0 in
  negb (bad + free_pages_check z p =? 0).

Section buddy.
Context (MAX_ORDER START_PFN MAX_PFN : Z).

(** The bodies of [pfn_to_page] and [page_to_pfn]: [None] is [BUG_ON]. *)
Definition pfn_to_page (pfn : Z) : option Z :=
  if (MAX_PFN <=? pfn) || (pfn <? START_PFN) then None else Some pfn.
Definition page_to_pfn (p : Z) : option Z :=
  if (MAX_PFN <=? p) || (p <? START_PFN) then None else Some p.

(** ** Freeing *)

(** The merging loop; [fuel] bounds the orders left. *)
Fixpoint free_one_page_loop (fuel : nat) (z : fpga_zone) (p page_idx order : Z) : fpga_zone * Z * Z :=
  match fuel with
  | O => (z, p, order)
  | S fuel' =>
      if order <? MAX_ORDER - 1 then
        let buddy_idx := __find_buddy_index page_idx order in
        let buddy := p + (buddy_idx - page_idx) in
        if negb (page_is_buddy z buddy order) then (z, p, order)
        else
          let z := buddy_list_del z buddy in
          let z := dec_nr_free z order in
          let z := rmv_page_order z buddy in
          let combined_idx := Z.land buddy_idx page_idx in
          free_one_page_loop fuel' z (p + (combined_idx - page_idx)) combined_idx (order + 1)
      else (z, p, order)
  end.

Definition __free_one_page (z : fpga_zone) (p pfn order : Z) : fpga_zone :=
  let page_idx := Z.land pfn (Z.shiftl 1 MAX_ORDER - 1) in
  let '(z, p, order) := free_one_page_loop (Z.to_nat MAX_ORDER) z p page_idx order in
  let z := set_page_order z p order in
  let z := buddy_list_add z p order in
  inc_nr_free z order.

Definition free_one_page (z : fpga_zone) (p pfn order : Z) : fpga_zone :=
  if free_pages_prepare z p order then z else __free_one_page z p pfn order.

Definition free_pfn (z : fpga_zone) (pfn order : Z) : option fpga_zone :=
  p ← pfn_to_page pfn;
  Some (free_one_page z p pfn order).

Definition free_page (z : fpga_zone) (p order : Z) : option fpga_zone :=
  pfn ← page_to_pfn p;
  Some (free_one_page z p pfn order).

(** ** Allocation *)

(** The splitting loop of [expand]; it runs [high - low] times. *)
Fixpoint expand_loop (n : nat) (z : fpga_zone) (p high size : Z) : fpga_zone :=
  match n with
  | O => z
  | S n' =>
      let high := high - 1 in
      let size := Z.shiftr size 1 in
      let z := buddy_list_add z (p + size) high in
      let z := inc_nr_free z high in
      let z := set_page_order z (p + size) high in
      expand_loop n' z p high size
  end.
Definition expand (z : fpga_zone) (p low high : Z) : fpga_zone :=
  expand_loop (Z.to_nat (high - low)) z p high (Z.shiftl 1 high).

(** The search over the orders; [n] is the number of orders left. *)
Fixpoint rmqueue_loop (n : nat) (z : fpga_zone) (order current_order : Z) : option Z * fpga_zone :=
  match n with
  | O => (None, z)
  | S n' =>
      match list_first_entry_or_null (links z) (Head current_order) with
      | Some (PageList p) =>
          let z := buddy_list_del z p in
          let z := rmv_page_order z p in
          let z := dec_nr_free z current_order in
          (Some p, expand z p order current_order)
      | _ => rmqueue_loop n' z order (current_order + 1)
      end
  end.
Definition __rmqueue (z : fpga_zone) (order : Z) : option Z * fpga_zone :=
  rmqueue_loop (Z.to_nat (MAX_ORDER - order)) z order order.

Definition alloc_page (z : fpga_zone) (order : Z) : option Z * fpga_zone :=
  if MAX_ORDER <=? order then (None, z)
  else
    match __rmqueue z order with
    | (Some p, z) => (Some p, set_page_private z p 0)
    | (None, z) => (None, z)
    end.

(** [alloc_pfn]: 0 when there is no memory; the outer [None] is [BUG_ON]. *)
Definition alloc_pfn (z : fpga_zone) (order : Z) : option (Z * fpga_zone) :=
  match alloc_page z order with
  | (Some p, z) => pfn ← page_to_pfn p; Some (pfn, z)
  | (None, z) => Some (0, z)
  end.

(** ** Initialisation *)

(** [while (start_pfn + (1UL << order) > end_pfn) order--;] *)
Fixpoint adjust_order (fuel : nat) (start_pfn end_pfn order : Z) : Z :=
  match fuel with
  | O => order
  | S fuel' =>
      if end_pfn <? start_pfn + Z.shiftl 1 order
      then adjust_order fuel' start_pfn end_pfn (order - 1)
      else order
  end.

Fixpoint initial_free_loop (fuel : nat) (z : fpga_zone) (start_pfn end_pfn : Z) : option fpga_zone :=
  match fuel with
  | O => None
  | S fuel' =>
      if start_pfn <? end_pfn then
        let order := Z.min (MAX_ORDER - 1) (__ffs start_pfn) in
        let order := adjust_order (Z.to_nat order) start_pfn end_pfn order in
        p ← pfn_to_page start_pfn;
        z ← free_page z p order;
        initial_free_loop fuel' z (start_pfn + Z.shiftl 1 order) end_pfn
      else Some z
  end.

Definition initial_free_pages (z : fpga_zone) (start_pa end_pa : Z) : option fpga_zone :=
  let start_pfn := PFN_UP start_pa in
  let end_pfn := PFN_DOWN end_pa in
  if end_pfn <? start_pfn then None
  else initial_free_loop (S (Z.to_nat end_pfn)) z start_pfn end_pfn.

(** The empty zone: [INIT_LIST_HEAD] and a zero counter for every order; the
    page map is what [malloc] returned, [pm]. *)
Definition init_zone (pm : Z -> page) : fpga_zone :=
  for_upto (Z.to_nat MAX_ORDER)
    (fun i z => set_nr_free (set_links z (INIT_LIST_HEAD (links z) (Head i))) i 0)
    (Zone (Heap id id) (fun _ => 0) pm).

Definition init_buddy (pm : Z -> page) : option fpga_zone :=
  initial_free_pages (init_zone pm) (PFN_PHYS START_PFN) (PFN_PHYS MAX_PFN).

(** [dump_buddy]'s total, in KB. *)
Definition total_free_kb (z : fpga_zone) : Z :=
  for_upto (Z.to_nat MAX_ORDER)
    (fun order t => t +w (Z.shiftr (PAGE_SIZE <<w order) 10 *w nr_free z order)) 0.
End buddy.

(** ** Page flags *)

Lemma PageBuddy_bit z p : PageBuddy z p = Z.testbit (flags (page_map z p)) 0.
Proof. unfold PageBuddy. now rewrite test_bit_bit. Qed.

Lemma set_page_order_flag z p o q :
  PageBuddy (set_page_order z p o) q = bool_decide (q = p) || PageBuddy z q.
Proof.
  rewrite !PageBuddy_bit. unfold set_page_order, __SetPageBuddy, set_page_private, set_page. cbn -[word_at __set_bit].
  destruct (decide (q = p)) as [->|Hne].
  - rewrite fn_lookup_insert, bool_decide_true by auto. cbn -[word_at __set_bit].
    rewrite fn_lookup_insert. cbn -[word_at __set_bit].
    pose proof (__set_bit_bit PG_buddy [flags (page_map z p)] 0) as H. cbn -[word_at __set_bit] in H.
    apply H; unfold PG_buddy; cbn; lia.
  - now rewrite !fn_lookup_insert_ne, bool_decide_false by auto.
Qed.

Lemma rmv_page_order_flag z p q :
  PageBuddy (rmv_page_order z p) q = negb (bool_decide (q = p)) && PageBuddy z q.
Proof.
  rewrite !PageBuddy_bit. unfold rmv_page_order, __ClearPageBuddy, set_page_private, set_page. cbn -[word_at __clear_bit].
  destruct (decide (q = p)) as [->|Hne].
  - rewrite fn_lookup_insert, bool_decide_true by auto. cbn -[word_at __clear_bit].
    rewrite fn_lookup_insert. cbn -[word_at __clear_bit].
    pose proof (__clear_bit_bit PG_buddy [flags (page_map z p)] 0) as H. cbn -[word_at __clear_bit] in H.
    apply H; unfold PG_buddy; cbn; lia.
  - now rewrite !fn_lookup_insert_ne, bool_decide_false by auto.
Qed.

Lemma set_page_order_order z p o q :
  page_order (set_page_order z p o) q = if decide (q = p) then wrap32 o else page_order z q.
Proof.
  unfold page_order, set_page_order, __SetPageBuddy, set_page_private, set_page. cbn -[word_at __set_bit].
  case_decide as Hd; [subst|].
  - rewrite fn_lookup_insert. cbn. now rewrite fn_lookup_insert.
  - now rewrite !fn_lookup_insert_ne by auto.
Qed.

Lemma rmv_page_order_order z p q :
  q <> p -> page_order (rmv_page_order z p) q = page_order z q.
Proof.
  intros. unfold page_order, rmv_page_order, __ClearPageBuddy, set_page_private, set_page. cbn -[word_at __clear_bit].
  now rewrite !fn_lookup_insert_ne by auto.
Qed.

(** ** The invariant *)

Section invariant.
Context (MAX_ORDER START_PFN MAX_PFN : Z).
Hypothesis Horder : 1 <= MAX_ORDER <= 30.
Hypothesis Hrange : 0 <= START_PFN <= MAX_PFN.
Hypothesis Hmax : MAX_PFN < 2 ^ 32.

(** The abstract state: the free list of every order. *)
Abbreviation flists := (Z -> list Z).

Definition free_block (F : flists) (o p : Z) : Prop := 0 <= o < MAX_ORDER /\ p ∈ F o.
Definition disjoint_blocks (p o q o' : Z) : Prop := p + 2 ^ o <= q \/ q + 2 ^ o' <= p.
Definition buddy_of (p o : Z) : Z := if Z.testbit p o then p - 2 ^ o else p + 2 ^ o.

(** A block the allocator may hold: in range and aligned to its size. *)
Definition valid_block (p o : Z) : Prop :=
  0 <= o < MAX_ORDER /\ START_PFN <= p /\ p + 2 ^ o <= MAX_PFN /\ p mod 2 ^ o = 0.

Record zone_inv (z : fpga_zone) (F : flists) : Prop := {
  inv_links o : 0 <= o < MAX_ORDER -> dlist (links z) (Head o) (PageList <$> F o);
  inv_nr o : 0 <= o < MAX_ORDER -> nr_free z o = Z.of_nat (length (F o));
  inv_block o p : free_block F o p -> valid_block p o;
  inv_disj o p o' q : free_block F o p -> free_block F o' q ->
    (o = o' /\ p = q) \/ disjoint_blocks p o q o';
  inv_flag p : PageBuddy z p = true <-> exists o, free_block F o p;
  inv_order o p : free_block F o p -> page_order z p = o;
  inv_merged o p : free_block F o p -> o < MAX_ORDER - 1 -> ~ free_block F o (buddy_of p o);
}.

(** The pages of the free blocks. *)
Definition page_free (F : flists) (q : Z) : Prop :=
  exists o p, free_block F o p /\ p <= q < p + 2 ^ o.

(** A block none of whose pages is free. *)
Definition block_used (F : flists) (p o : Z) : Prop :=
  forall o' q, free_block F o' q -> disjoint_blocks p o q o'.

Lemma pow2_pos o : 0 <= o -> 0 < 2 ^ o.
Proof. intros. apply Z.pow_pos_nonneg; lia. Qed.

Lemma free_block_order F z o o' p : zone_inv z F -> free_block F o p -> free_block F o' p -> o = o'.
Proof. intros Hi H1 H2. rewrite <- (inv_order _ _ Hi o p H1). apply (inv_order _ _ Hi o' p H2). Qed.

Lemma free_block_update F o l o' p :
  free_block (<[o := l]> F) o' p <->
  0 <= o' < MAX_ORDER /\ ((o' = o /\ p ∈ l) \/ (o' <> o /\ p ∈ F o')).
Proof.
  unfold free_block. destruct (decide (o' = o)) as [->|Hne].
  - rewrite fn_lookup_insert. naive_solver.
  - rewrite fn_lookup_insert_ne by auto. naive_solver.
Qed.

Lemma inv_NoDup z F o : zone_inv z F -> 0 <= o < MAX_ORDER -> NoDup (F o).
Proof.
  intros Hi Ho. destruct (inv_links _ _ Hi o Ho) as [[_ Hnd]%NoDup_cons _].
  now apply NoDup_fmap_1 in Hnd.
Qed.

(** The counters cannot wrap: a free list holds distinct pages of the range. *)
Lemma inv_length z F o : zone_inv z F -> 0 <= o < MAX_ORDER -> Z.of_nat (length (F o)) <= MAX_PFN - START_PFN.
Proof.
  intros Hi Ho. pose proof (inv_NoDup z F o Hi Ho) as Hnd.
  assert (Hs : F o ⊆+ seqZ START_PFN (MAX_PFN - START_PFN)).
  { apply NoDup_submseteq; auto. intros p Hp. apply elem_of_seqZ.
    destruct (inv_block _ _ Hi o p ltac:(split; auto)) as (_ & ? & ? & _). pose proof (pow2_pos o). lia. }
  apply submseteq_length in Hs. rewrite length_seqZ in Hs. lia.
Qed.

(** *** Taking a block off its free list *)

Definition del_block (z : fpga_zone) (p o : Z) : fpga_zone :=
  rmv_page_order (dec_nr_free (buddy_list_del z p) o) p.

Lemma inv_del z F o p xs ys :
  zone_inv z F -> 0 <= o < MAX_ORDER -> F o = xs ++ p :: ys ->
  zone_inv (del_block z p o) (<[o := xs ++ ys]> F) /\ block_used (<[o := xs ++ ys]> F) p o.
Proof.
  intros Hi Ho HF. pose proof (inv_NoDup z F o Hi Ho) as Hnd. pose proof (inv_length z F o Hi Ho) as Hlen.
  assert (Hp : free_block F o p) by (split; auto; rewrite HF; set_solver).
  rewrite HF in Hnd. apply NoDup_app in Hnd as (_ & Hxp & [Hpy _]%NoDup_cons).
  assert (Hpo : p ∉ xs ++ ys) by set_solver.
  assert (Hsub : forall o' q, free_block (<[o := xs ++ ys]> F) o' q <-> free_block F o' q /\ ~ (o' = o /\ q = p)).
  { intros o' q. rewrite free_block_update. unfold free_block. destruct (decide (o' = o)) as [->|].
    - rewrite HF. split; [intros [? [[_ Hq]|[]]]; [|done]|intros [[? Hq] Hne]].
      + split; [split; [auto|set_solver]|]. intros [_ ->]. done.
      + split; auto. left. split; auto. set_solver.
    - naive_solver. }
  assert (Hdl : dlist (links z) (Head o) ((PageList <$> xs) ++ PageList p :: (PageList <$> ys))).
  { pose proof (inv_links _ _ Hi o Ho) as Hl. now rewrite HF, fmap_app, fmap_cons in Hl. }
  split; [split|].
  - intros o' Ho'. destruct (decide (o' = o)) as [->|Hne].
    + rewrite fn_lookup_insert, fmap_app. now apply dlist_list_del.
    + rewrite fn_lookup_insert_ne by auto. eapply dlist_same_outside; [eapply list_del_same_outside, Hdl| |now apply (inv_links _ _ Hi)].
      intros l Hl Hin. rewrite <- fmap_app in Hin. apply elem_of_cons in Hl as [->|(q & -> & Hq)%list_elem_of_fmap].
      * rewrite !elem_of_cons in Hin. destruct Hin as [?|[?|(? & ? & _)%list_elem_of_fmap]]; congruence.
      * rewrite !elem_of_cons in Hin.
        assert (q ∈ F o) by (rewrite HF; destruct Hin as [E|[E|(? & E & ?)%list_elem_of_fmap]]; [simplify_eq; set_solver|congruence|simplify_eq; set_solver]).
        apply Hne. eapply (free_block_order F z); [exact Hi| |]; split; eauto.
  - intros o' Ho'. cbn. destruct (decide (o' = o)) as [->|Hne].
    + rewrite !fn_lookup_insert, (inv_nr _ _ Hi) by auto. rewrite HF, length_app in Hlen |- *. cbn [length] in *. rewrite length_app.
      rewrite wrap64_small; unfold is_word; lia.
    + rewrite !fn_lookup_insert_ne by auto. now apply (inv_nr _ _ Hi).
  - intros o' q [Hq _]%Hsub. now apply (inv_block _ _ Hi).
  - intros o1 p1 o2 p2 [H1 _]%Hsub [H2 _]%Hsub. now apply (inv_disj _ _ Hi).
  - intros q. unfold del_block. rewrite rmv_page_order_flag.
    change (PageBuddy (dec_nr_free (buddy_list_del z p) o) q) with (PageBuddy z q).
    rewrite andb_true_iff, (inv_flag _ _ Hi), negb_true_iff, bool_decide_eq_false. split.
    + intros [Hne [o' Hq]]. exists o'. apply Hsub. naive_solver.
    + intros [o' [Hq Hne]%Hsub]. split; [|eauto]. intros ->. apply Hne. split; auto.
      now apply (free_block_order F z _ _ p).
  - intros o' q [Hq Hne]%Hsub. unfold del_block. rewrite rmv_page_order_order.
    + now apply (inv_order _ _ Hi).
    + intros ->. apply Hne. split; auto. now apply (free_block_order F z _ _ p).
  - intros o' q [Hq _]%Hsub Hlt [Hb _]%Hsub. now apply (inv_merged _ _ Hi o' q).
  - intros o' q [Hq Hne]%Hsub. destruct (inv_disj _ _ Hi o p o' q Hp Hq) as [[-> ->]|]; auto. exfalso. now apply Hne.
Qed.

(** *** Buddies *)

Lemma lxor_pow2 x o : 0 <= x -> 0 <= o -> Z.lxor x (2 ^ o) = buddy_of x o.
Proof.
  intros Hx Ho. unfold buddy_of. destruct (Z.testbit x o) eqn:E.
  - rewrite Z.sub_nocarry_ldiff.
    + apply Z.bits_inj'. intros i Hi. rewrite Z.lxor_spec, Z.ldiff_spec, Z.pow2_bits_eqb by lia.
      destruct (Z.eqb_spec o i) as [->|]; [now rewrite E|]. now destruct (Z.testbit x i).
    + apply Z.bits_inj'. intros i Hi. rewrite Z.ldiff_spec, Z.pow2_bits_eqb, Z.bits_0 by lia.
      destruct (Z.eqb_spec o i) as [->|]; [now rewrite E|reflexivity].
  - symmetry. apply Z.add_nocarry_lxor. apply Z.bits_inj'. intros i Hi.
    rewrite Z.land_spec, Z.pow2_bits_eqb, Z.bits_0 by lia.
    destruct (Z.eqb_spec o i) as [->|]; [now rewrite E|apply andb_false_r].
Qed.

Lemma buddy_of_involutive p o :
  0 <= p -> 0 <= o -> p mod 2 ^ o = 0 -> 0 <= buddy_of p o /\ buddy_of (buddy_of p o) o = p.
Proof.
  intros Hp Ho _. rewrite <- !lxor_pow2; auto; [|apply Z.lxor_nonneg; split; intros; [apply Z.pow_nonneg|]; lia].
  rewrite Z.lxor_assoc, Z.lxor_nilpotent, Z.lxor_0_r. split; auto.
  apply Z.lxor_nonneg; split; intros; [apply Z.pow_nonneg|]; lia.
Qed.

Lemma testbit_mod_pow2 p o M : 0 <= o < M -> Z.testbit (p mod 2 ^ M) o = Z.testbit p o.
Proof. intros. now apply Z.mod_pow2_bits_low. Qed.

(** The index arithmetic of the merging loop on [page_idx = p mod 2^MAX_ORDER]. *)
Lemma merge_index p o :
  0 <= p -> 0 <= o < MAX_ORDER ->
  let idx := p mod 2 ^ MAX_ORDER in
  let bidx := __find_buddy_index idx o in
  p + (bidx - idx) = buddy_of p o /\ p + (Z.land bidx idx - idx) = Z.min p (buddy_of p o) /\
  Z.land bidx idx = Z.min p (buddy_of p o) mod 2 ^ MAX_ORDER.
Proof.
  intros Hp Ho idx bidx. pose proof (Z.mod_pos_bound p (2 ^ MAX_ORDER) ltac:(apply pow2_pos; lia)) as Hidx.
  pose proof (pow2_pos o ltac:(lia)) as H2o. fold idx in Hidx.
  assert (Hb : bidx = buddy_of idx o)
    by (unfold bidx, __find_buddy_index; rewrite Z.shiftl_mul_pow2, Z.mul_1_l by lia; apply lxor_pow2; lia).
  assert (Ht : Z.testbit idx o = Z.testbit p o) by (apply testbit_mod_pow2; lia).
  assert (Hl : Z.land bidx idx = Z.min idx bidx).
  { rewrite Hb. unfold buddy_of. destruct (Z.testbit idx o) eqn:E.
    - rewrite Z.min_r by lia. rewrite (Z.sub_nocarry_ldiff idx (2 ^ o)).
      + apply Z.bits_inj'. intros i Hi. rewrite Z.land_spec, Z.ldiff_spec. now destruct (Z.testbit idx i); rewrite ?andb_true_r.
      + apply Z.bits_inj'. intros i Hi. rewrite Z.ldiff_spec, Z.pow2_bits_eqb, Z.bits_0 by lia.
        destruct (Z.eqb_spec o i) as [->|]; [now rewrite E|reflexivity].
    - rewrite Z.min_l by lia. rewrite Z.add_nocarry_lxor.
      + apply Z.bits_inj'. intros i Hi. rewrite Z.land_spec, Z.lxor_spec, Z.pow2_bits_eqb by lia.
        destruct (Z.eqb_spec o i) as [->|]; [rewrite E; reflexivity|]. now destruct (Z.testbit idx i).
      + apply Z.bits_inj'. intros i Hi. rewrite Z.land_spec, Z.pow2_bits_eqb, Z.bits_0 by lia.
        destruct (Z.eqb_spec o i) as [->|]; [now rewrite E|apply andb_false_r]. }
  assert (Hd : bidx - idx = buddy_of p o - p)
    by (rewrite Hb; unfold buddy_of; rewrite Ht; destruct (Z.testbit p o); lia).
  split_and!; [lia|lia|]. rewrite Hl. unfold idx at 1.
  assert (Hm : Z.min idx bidx = Z.min p (buddy_of p o) - 2 ^ MAX_ORDER * (p / 2 ^ MAX_ORDER)).
  { assert (p = 2 ^ MAX_ORDER * (p / 2 ^ MAX_ORDER) + idx) by (apply Z.div_mod; pose proof (pow2_pos MAX_ORDER); lia). lia. }
  fold idx. apply (Z.mod_unique_pos _ _ (p / 2 ^ MAX_ORDER)); [|lia].
  rewrite Hb. unfold buddy_of. destruct (Z.testbit idx o) eqn:E; [|lia].
  rewrite Z.min_r by lia. split; [|lia]. destruct (Z.lt_ge_cases idx (2 ^ o)); [|lia].
  rewrite Z.bits_above_log2 in E; [discriminate|lia|].
  destruct (Z.eq_dec idx 0) as [->|]; [rewrite Z.bits_0 in E; discriminate|]. apply Z.log2_lt_pow2; lia.
Qed.

(** Two buddies of order [o] form an aligned block of order [o + 1]. *)
Lemma merge_aligned p o :
  0 <= p -> 0 <= o -> p mod 2 ^ o = 0 ->
  Z.min p (buddy_of p o) mod 2 ^ (o + 1) = 0 /\
  (buddy_of p o = p - 2 ^ o /\ Z.testbit p o = true \/ buddy_of p o = p + 2 ^ o /\ Z.testbit p o = false).
Proof.
  intros Hp Ho Hal. pose proof (pow2_pos o Ho). apply Z.mod_divide in Hal as [k ->]; [|lia].
  unfold buddy_of. rewrite Z.mul_pow2_bits, Z.sub_diag, Z.bit0_odd by lia.
  rewrite Z.pow_add_r, Z.pow_1_r by lia. destruct (Z.odd k) eqn:Hk; (split; [|auto]).
  - apply Z.odd_spec in Hk as [m ->]. rewrite Z.min_r by lia.
    replace ((2 * m + 1) * 2 ^ o - 2 ^ o) with (m * (2 ^ o * 2)) by ring. apply Z_mod_mult.
  - rewrite <- Z.negb_even in Hk. apply negb_false_iff, Z.even_spec in Hk as [m ->]. rewrite Z.min_l by lia.
    replace (2 * m * 2 ^ o) with (m * (2 ^ o * 2)) by ring. apply Z_mod_mult.
Qed.

(** *** Putting a block on a free list *)

Definition add_block (z : fpga_zone) (p o : Z) : fpga_zone :=
  inc_nr_free (buddy_list_add (set_page_order z p o) p o) o.

Lemma block_used_head F p o o' : 0 <= o -> block_used F p o -> ~ free_block F o' p.
Proof.
  intros Ho Hu Hf. pose proof (pow2_pos o Ho). pose proof (pow2_pos o' ltac:(destruct Hf; lia)).
  destruct (Hu o' p Hf); lia.
Qed.

Lemma inv_add z F o p :
  zone_inv z F -> valid_block p o -> block_used F p o ->
  (o < MAX_ORDER - 1 -> ~ free_block F o (buddy_of p o)) ->
  zone_inv (add_block z p o) (<[o := p :: F o]> F).
Proof.
  intros Hi Hv Hu Hb. pose proof Hv as (Ho & Hs & He & Hal).
  pose proof (inv_length z F o Hi Ho) as Hlen. pose proof (pow2_pos o ltac:(lia)).
  assert (Hnew : forall o', ~ free_block F o' p) by (intros; apply (block_used_head F p o); auto; lia).
  assert (Hsub : forall o' q, free_block (<[o := p :: F o]> F) o' q <-> free_block F o' q \/ (o' = o /\ q = p)).
  { intros o' q. rewrite free_block_update, elem_of_cons. unfold free_block. destruct (decide (o' = o)); naive_solver. }
  assert (Hpn : PageList p ∉ Head o :: (PageList <$> F o)).
  { rewrite elem_of_cons, list_elem_of_fmap. intros [?|(q & E & Hq)]; [congruence|]. simplify_eq.
    apply (Hnew o). split; auto. }
  split.
  - intros o' Ho'. destruct (decide (o' = o)) as [->|Hne].
    + rewrite fn_lookup_insert. apply dlist_list_add; auto. now apply (inv_links _ _ Hi).
    + rewrite fn_lookup_insert_ne by auto.
      eapply dlist_same_outside; [apply list_add_same_outside, (inv_links _ _ Hi o Ho)| |now apply (inv_links _ _ Hi)].
      intros l Hl Hin. rewrite !elem_of_cons, list_elem_of_fmap in Hin.
      apply elem_of_cons in Hl as [->|(q & -> & Hq)%list_elem_of_fmap].
      * destruct Hin as [?|[?|(? & ? & _)]]; congruence.
      * destruct Hin as [E|[?|(q' & E & ?)]]; simplify_eq.
        -- apply (Hnew o'). split; auto.
        -- apply Hne. eapply (free_block_order F z); [exact Hi| |]; split; eauto.
  - intros o' Ho'. cbn. destruct (decide (o' = o)) as [->|Hne].
    + rewrite !fn_lookup_insert, (inv_nr _ _ Hi) by auto. cbn [length].
      rewrite wrap64_small; unfold is_word; lia.
    + rewrite !fn_lookup_insert_ne by auto. now apply (inv_nr _ _ Hi).
  - intros o' q [Hq|[-> ->]]%Hsub; auto. now apply (inv_block _ _ Hi).
  - intros o1 p1 o2 p2 [H1|[-> ->]]%Hsub [H2|[-> ->]]%Hsub; auto.
    + now apply (inv_disj _ _ Hi).
    + right. destruct (Hu _ _ H1); [right|left]; auto.
  - intros q. change (PageBuddy (add_block z p o) q) with (PageBuddy (set_page_order z p o) q).
    rewrite set_page_order_flag, orb_true_iff, bool_decide_eq_true, (inv_flag _ _ Hi).
    split; [intros [->|[o' Hq]]; [exists o|exists o']; apply Hsub; auto|].
    intros [o' [Hq|[-> ->]]%Hsub]; eauto.
  - intros o' q Hq%Hsub. change (page_order (add_block z p o) q) with (page_order (set_page_order z p o) q).
    rewrite set_page_order_order. destruct (decide (q = p)) as [->|Hne].
    + destruct Hq as [Hq|[-> _]]; [now apply Hnew in Hq|]. unfold wrap32. rewrite Z.mod_small; lia.
    + destruct Hq as [Hq|[_ ->]]; [now apply (inv_order _ _ Hi)|done].
  - intros o' q Hq%Hsub Hlt Hq'%Hsub. destruct Hq as [Hq|[-> ->]], Hq' as [Hq'|[Eo E]]; try subst o'.
    + now apply (inv_merged _ _ Hi o' q).
    + destruct (inv_block _ _ Hi _ _ Hq) as (_ & ? & _ & Hq0).
      apply Hb; [lia|]. destruct (buddy_of_involutive q o) as [_ Hinv]; try lia.
      rewrite E in Hinv. now rewrite Hinv.
    + now apply Hb in Hq'.
    + unfold buddy_of in E. destruct (Z.testbit p o); lia.
Qed.

(** *** Freeing a block *)

Lemma page_is_buddy_spec z F b o :
  zone_inv z F -> 0 <= o < MAX_ORDER -> page_is_buddy z b o = true <-> free_block F o b.
Proof.
  intros Hi Ho. unfold page_is_buddy. rewrite andb_true_iff, (inv_flag _ _ Hi), Z.eqb_eq. split.
  - intros [[o' Hb] E]. rewrite (inv_order _ _ Hi o' b Hb) in E. now subst.
  - intros Hb. split; [eauto|]. now apply (inv_order _ _ Hi).
Qed.

Lemma page_free_del F o p xs ys q :
  0 <= o < MAX_ORDER -> F o = xs ++ p :: ys ->
  page_free F q <-> page_free (<[o := xs ++ ys]> F) q \/ p <= q < p + 2 ^ o.
Proof.
  intros Ho HF. unfold page_free. setoid_rewrite free_block_update. unfold free_block. split.
  - intros (o' & r & [? Hr] & Hq). destruct (decide (o' = o)) as [->|]; [|left; exists o', r; auto].
    rewrite HF in Hr. destruct (decide (r = p)) as [->|]; [auto|]. left. exists o, r. set_solver.
  - intros [(o' & r & [? [[-> Hr]|[? Hr]]] & Hq)|Hq].
    + exists o, r. rewrite HF. set_solver.
    + exists o', r. auto.
    + exists o, p. rewrite HF. set_solver.
Qed.

Lemma page_free_add F o p q :
  0 <= o < MAX_ORDER ->
  page_free (<[o := p :: F o]> F) q <-> page_free F q \/ p <= q < p + 2 ^ o.
Proof.
  intros Ho. rewrite (page_free_del (<[o := p :: F o]> F) o p [] (F o) q) by (auto; apply fn_lookup_insert).
  cbn [app]. unfold page_free. setoid_rewrite free_block_update. unfold free_block.
  split; (intros [(o' & r & Hr & Hq)|?]; [left; exists o', r|auto]).
  - split; auto. destruct Hr as [? [[-> Hr]|[Hne Hr]]]; [auto|]. split; auto. now rewrite fn_lookup_insert_ne in Hr.
  - split; auto. destruct Hr as [? Hr]. split; auto. destruct (decide (o' = o)) as [->|]; [auto|].
    right. now rewrite fn_lookup_insert_ne.
Qed.

(** The block that [free_one_page_loop] hands to the final insertion. *)
Record free_loop_post (F : flists) (p o : Z) (r : fpga_zone * Z * Z) (F' : flists) : Prop := {
  flp_inv : zone_inv r.1.1 F';
  flp_valid : valid_block r.1.2 r.2;
  flp_used : block_used F' r.1.2 r.2;
  flp_merged : r.2 < MAX_ORDER - 1 -> ~ free_block F' r.2 (buddy_of r.1.2 r.2);
  flp_pages q : page_free F q \/ p <= q < p + 2 ^ o <->
                page_free F' q \/ r.1.2 <= q < r.1.2 + 2 ^ r.2;
}.

Lemma merge_block F xs ys p b o :
  valid_block p o -> valid_block b o -> b = buddy_of p o -> o < MAX_ORDER - 1 ->
  block_used F p o -> F o = xs ++ b :: ys -> block_used (<[o := xs ++ ys]> F) b o ->
  valid_block (Z.min p b) (o + 1) /\ block_used (<[o := xs ++ ys]> F) (Z.min p b) (o + 1) /\
  forall q, Z.min p b <= q < Z.min p b + 2 ^ (o + 1) <-> p <= q < p + 2 ^ o \/ b <= q < b + 2 ^ o.
Proof.
  intros (Ho & Hs & He & Hal) (_ & Hbs & Hbe & _) Hb Hlt Hu HF Hub.
  destruct (merge_aligned p o) as [Hma Hcase]; try lia. rewrite <- Hb in *.
  assert (Hpow : 2 ^ (o + 1) = 2 * 2 ^ o) by (rewrite Z.pow_add_r; lia). pose proof (pow2_pos o ltac:(lia)).
  split_and!.
  - unfold valid_block. rewrite Hpow. rewrite Hpow in Hma. split_and!; lia.
  - intros o' q Hq. pose proof (Hub o' q Hq) as H2. pose proof (pow2_pos o' ltac:(destruct Hq; lia)).
    assert (Hq' : free_block F o' q).
    { apply free_block_update in Hq as [? [[-> Hq]|[? Hq]]]; split; auto. rewrite HF. set_solver. }
    pose proof (Hu o' q Hq') as H1. unfold disjoint_blocks in *. lia.
  - intros q. lia.
Qed.

Lemma free_loop_spec fuel z F p o :
  zone_inv z F -> valid_block p o -> block_used F p o -> MAX_ORDER - o <= Z.of_nat fuel ->
  exists F', free_loop_post F p o (free_one_page_loop MAX_ORDER fuel z p (p mod 2 ^ MAX_ORDER) o) F'.
Proof.
  revert z F p o. induction fuel as [|fuel IH]; intros z F p o Hi Hv Hu Hf;
    pose proof Hv as (Ho & Hs & He & Hal); [lia|]. cbn [free_one_page_loop].
  destruct (Z.ltb_spec o (MAX_ORDER - 1)) as [Hlt|Hge];
    [|exists F; split; cbn; auto; lia || tauto].
  destruct (merge_index p o) as (Hbi & Hmi & Hmm); [lia|lia|]. rewrite Hbi.
  pose proof (page_is_buddy_spec z F (buddy_of p o) o Hi Ho) as Hbud.
  destruct (page_is_buddy z (buddy_of p o) o); cbn [negb].
  - pose proof (proj1 Hbud eq_refl) as Hfb. clear Hbud.
    destruct (list_elem_of_split _ _ (proj2 Hfb)) as (xs & ys & HF).
    destruct (inv_del z F o (buddy_of p o) xs ys Hi Ho HF) as [Hi1 Hu1].
    pose proof (inv_block _ _ Hi _ _ Hfb) as Hvb.
    destruct (merge_block F xs ys p (buddy_of p o) o) as (Hv' & Hu' & Hpg); auto.
    rewrite Hmi, Hmm. fold (del_block z (buddy_of p o) o).
    destruct (IH _ _ _ _ Hi1 Hv' Hu' ltac:(lia)) as [F' [H1 H2 H3 H4 H5]].
    exists F'. split; auto. intros q. rewrite <- H5, Hpg, (page_free_del F o (buddy_of p o) xs ys q Ho HF). tauto.
  - exists F. split; cbn; auto; try tauto. intros _ Hc. apply Hbud in Hc. discriminate.
Qed.

Lemma free_pages_prepare_used z F p o :
  zone_inv z F -> 0 <= o -> block_used F p o -> free_pages_prepare z p o = false.
Proof.
  intros Hi Ho Hu. pose proof (pow2_pos o Ho).
  assert (Hnf : forall i, 0 <= i < 2 ^ o -> free_pages_check z (p + i) = 0).
  { intros i Hlt. unfold free_pages_check. destruct (PageBuddy z (p + i)) eqn:E; auto. exfalso.
    apply (inv_flag _ _ Hi) in E as [o' Hb]. pose proof (pow2_pos o' ltac:(destruct Hb; lia)).
    destruct (Hu _ _ Hb); lia. }
  unfold free_pages_prepare. rewrite Z.shiftl_mul_pow2, Z.mul_1_l by lia.
  assert (Hz : for_upto (Z.to_nat (2 ^ o - 1))
    (fun i bad => if negb (free_pages_check z (p + (i + 1)) =? 0) then bad + 1 else bad) 0 = 0).
  { assert (Hn : Z.of_nat (Z.to_nat (2 ^ o - 1)) < 2 ^ o) by lia. revert Hn.
    generalize (Z.to_nat (2 ^ o - 1)). induction n as [|n IHn]; cbn [for_upto]; auto.
    intros Hn. rewrite IHn, Hnf by lia. reflexivity. }
  rewrite Hz. replace (free_pages_check z p) with 0 by (rewrite <- (Z.add_0_r p), Hnf; lia).
  destruct (o =? 0); reflexivity.
Qed.

Lemma free_one_page_inv z F p o :
  zone_inv z F -> valid_block p o -> block_used F p o ->
  exists F', zone_inv (free_one_page MAX_ORDER z p p o) F' /\
    forall q, page_free F' q <-> page_free F q \/ p <= q < p + 2 ^ o.
Proof.
  intros Hi Hv Hu. pose proof Hv as (Ho & Hs & _). unfold free_one_page.
  rewrite (free_pages_prepare_used z F) by (auto; lia). unfold __free_one_page.
  rewrite Z.shiftl_mul_pow2, Z.mul_1_l, land_pow2_pred by lia.
  destruct (free_loop_spec (Z.to_nat MAX_ORDER) z F p o Hi Hv Hu ltac:(lia)) as [F' [H1 H2 H3 H4 H5]].
  destruct (free_one_page_loop _ _ _ _ _ _) as [[z' p'] o'] eqn:E. cbn in H1, H2, H3, H4, H5.
  exists (<[o' := p' :: F' o']> F'). split; [now apply inv_add|].
  intros q. rewrite page_free_add by apply H2. symmetry. apply H5.
Qed.

(** *** Allocating a block *)

Lemma upper_half p h :
  0 <= p -> 0 <= h -> p mod 2 ^ (h + 1) = 0 -> (p + 2 ^ h) mod 2 ^ h = 0 /\ buddy_of (p + 2 ^ h) h = p.
Proof.
  intros Hp Hh Hal. pose proof (pow2_pos h Hh). rewrite Z.pow_add_r, Z.pow_1_r in Hal by lia.
  apply Z.mod_divide in Hal as [k ->]; [|lia].
  replace (k * (2 ^ h * 2) + 2 ^ h) with ((2 * k + 1) * 2 ^ h) by ring. split; [apply Z_mod_mult|].
  unfold buddy_of. rewrite Z.mul_pow2_bits, Z.sub_diag, Z.testbit_odd_0 by lia. ring.
Qed.

Lemma lower_aligned p h : 0 <= h -> p mod 2 ^ (h + 1) = 0 -> p mod 2 ^ h = 0.
Proof.
  intros Hh Hal. pose proof (pow2_pos h Hh). rewrite Z.pow_add_r, Z.pow_1_r in Hal by lia.
  apply Z.mod_divide in Hal as [k ->]; [|lia]. replace (k * (2 ^ h * 2)) with (k * 2 * 2 ^ h) by ring.
  apply Z_mod_mult.
Qed.

Lemma expand_spec n z F p high :
  zone_inv z F -> valid_block p high -> block_used F p high -> Z.of_nat n <= high ->
  exists F', zone_inv (expand_loop n z p high (2 ^ high)) F' /\
    valid_block p (high - Z.of_nat n) /\ block_used F' p (high - Z.of_nat n) /\
    forall q, page_free F' q <-> page_free F q \/ p + 2 ^ (high - Z.of_nat n) <= q < p + 2 ^ high.
Proof.
  revert z F high. induction n as [|n IH]; intros z F high Hi Hv Hu Hn; cbn [expand_loop].
  { rewrite Z.sub_0_r. exists F. split_and!; auto. intros q. split; [auto|]. intros [?|?]; [auto|lia]. }
  pose proof Hv as (Ho & Hs & He & Hal). set (h := high - 1).
  assert (Hpow : 2 ^ high = 2 * 2 ^ h) by (unfold h; rewrite <- Z.pow_succ_r by lia; f_equal; lia).
  pose proof (pow2_pos h ltac:(lia)).
  replace (Z.shiftr (2 ^ high) 1) with (2 ^ h) by (rewrite Z.shiftr_div_pow2, Hpow, Z.mul_comm, Z.div_mul; lia).
  change (set_page_order (inc_nr_free (buddy_list_add z (p + 2 ^ h) h) h) (p + 2 ^ h) h)
    with (add_block z (p + 2 ^ h) h).
  assert (Hal' : p mod 2 ^ (h + 1) = 0) by (unfold h; now replace (high - 1 + 1) with high by lia).
  destruct (upper_half p h) as [Hua Hub]; try lia. pose proof (lower_aligned p h ltac:(lia) Hal').
  assert (Hsub : forall x, p <= x -> x + 2 ^ h <= p + 2 ^ high -> block_used F x h).
  { intros x ? ? o' q Hq. specialize (Hu o' q Hq). unfold disjoint_blocks in *. lia. }
  destruct (IH (add_block z (p + 2 ^ h) h) (<[h := (p + 2 ^ h) :: F h]> F) h) as (F' & H1 & H2 & H3 & H4).
  - apply inv_add; auto.
    + unfold valid_block. lia.
    + apply Hsub; lia.
    + intros _. rewrite Hub. apply (block_used_head F p h); [lia|]. apply Hsub; lia.
  - unfold valid_block. lia.
  - intros o' q Hq. pose proof (pow2_pos o'). apply free_block_update in Hq as [Ho' [[-> [->|Hq]%elem_of_cons]|[_ Hq]]].
    + left. lia.
    + apply (Hsub p); [lia|lia|split; auto; lia].
    + apply (Hsub p); [lia|lia|split; auto; lia].
  - lia.
  - exists F'. replace (high - Z.of_nat (S n)) with (h - Z.of_nat n) by lia. split_and!; auto; try apply H2.
    intros q. rewrite H4, page_free_add by lia. pose proof (Z.pow_le_mono_r 2 (h - Z.of_nat n) h).
    split; [intros [[?|?]|?]; auto; right; lia|intros [?|?]; [auto|]].
    destruct (Z.lt_ge_cases q (p + 2 ^ h)); [right; lia|left; right; lia].
Qed.

Definition alloc_post (z : fpga_zone) (F : flists) (order : Z) (r : option Z * fpga_zone) : Prop :=
  match r with
  | (None, z') => z' = z /\ forall o, order <= o < MAX_ORDER -> F o = []
  | (Some p, z') =>
      valid_block p order /\ (forall q, p <= q < p + 2 ^ order -> page_free F q) /\
      exists F', zone_inv z' F' /\ block_used F' p order /\
        forall q, page_free F q <-> page_free F' q \/ p <= q < p + 2 ^ order
  end.

Lemma rmqueue_loop_spec n z F order c :
  zone_inv z F -> 0 <= order <= c -> c + Z.of_nat n = MAX_ORDER ->
  (forall o, order <= o < c -> F o = []) ->
  alloc_post z F order (rmqueue_loop n z order c).
Proof.
  revert c. induction n as [|n IH]; intros c Hi Hc Hn Hlow; cbn [rmqueue_loop].
  { split; auto. intros o Ho. apply Hlow. lia. }
  assert (Hco : 0 <= c < MAX_ORDER) by lia.
  rewrite (dlist_first_entry _ _ _ (inv_links _ _ Hi c Hco)). destruct (F c) as [|p ys] eqn:HF; cbn [fmap list_fmap head].
  { apply IH; auto; [lia|lia|]. intros o Ho. destruct (Z.eq_dec o c) as [->|]; auto. apply Hlow. lia. }
  change (dec_nr_free (rmv_page_order (buddy_list_del z p) p) c) with (del_block z p c).
  destruct (inv_del z F c p [] ys Hi Hco HF) as [Hi1 Hu1]. cbn [app] in *.
  assert (Hfb : free_block F c p) by (split; auto; rewrite HF; set_solver).
  pose proof (inv_block _ _ Hi c p Hfb) as Hv. unfold expand. rewrite (Z.shiftl_mul_pow2 1 c), Z.mul_1_l by lia.
  destruct (expand_spec (Z.to_nat (c - order)) _ _ p c Hi1 Hv Hu1 ltac:(lia)) as (F' & H1 & H2 & H3 & H4).
  replace (c - Z.of_nat (Z.to_nat (c - order))) with order in * by lia.
  pose proof (Z.pow_le_mono_r 2 order c ltac:(lia) ltac:(lia)). pose proof (pow2_pos order ltac:(lia)).
  split_and!; [exact H2| |exists F'; split_and!; auto].
  - intros q Hq. exists c, p. split; auto. lia.
  - intros q. rewrite H4, (page_free_del F c p [] ys q Hco HF). cbn [app].
    split; [intros [?|?]; [auto|]|intros [[?|?]|?]; auto; right; lia].
    destruct (Z.lt_ge_cases q (p + 2 ^ order)); [right; lia|left; right; lia].
Qed.

Lemma alloc_page_inv z F order :
  zone_inv z F -> 0 <= order -> alloc_post z F order (alloc_page MAX_ORDER z order).
Proof.
  intros Hi Ho. unfold alloc_page. destruct (Z.leb_spec MAX_ORDER order) as [Hge|Hlt].
  { split; auto. intros. lia. }
  unfold __rmqueue.
  pose proof (rmqueue_loop_spec (Z.to_nat (MAX_ORDER - order)) z F order order Hi ltac:(lia) ltac:(lia) ltac:(lia)) as Hr.
  destruct (rmqueue_loop _ _ _ _) as [[p|] z']; auto. destruct Hr as (Hv & Hp & F' & Hi' & Hu & Hpg).
  split_and!; auto. exists F'. split_and!; auto. clear Hpg Hp.
  assert (Hpn : forall o, ~ free_block F' o p) by (intros; apply (block_used_head F' p order); auto).
  split; try apply Hi'.
  - intros q. rewrite <- (inv_flag _ _ Hi' q), !PageBuddy_bit. unfold set_page_private, set_page. cbn.
    destruct (decide (q = p)) as [->|]; [now rewrite fn_lookup_insert|now rewrite fn_lookup_insert_ne].
  - intros o q Hq. rewrite <- (inv_order _ _ Hi' o q Hq). unfold page_order, set_page_private, set_page. cbn.
    rewrite fn_lookup_insert_ne; auto. intros ->. now apply (Hpn o).
Qed.

(** *** Initialisation *)

Lemma init_zone_loop n pm :
  let z := for_upto n
    (fun i z => set_nr_free (set_links z (INIT_LIST_HEAD (links z) (Head i))) i 0)
    (Zone (Heap id id) (fun _ => 0) pm) in
  page_map z = pm /\ (forall o, nr_free z o = 0) /\
  forall o, 0 <= o < Z.of_nat n -> dlist (links z) (Head o) [].
Proof.
  induction n as [|n IH]; cbn [for_upto]; [split_and!; auto; lia|].
  destruct IH as (Hp & Hz & Hl). set (z := for_upto _ _ _) in *. cbn. split_and!; auto.
  - intros o. destruct (decide (o = Z.of_nat n)) as [->|].
    + now rewrite fn_lookup_insert.
    + now rewrite fn_lookup_insert_ne.
  - intros o Ho. destruct (decide (o = Z.of_nat n)) as [->|]; [apply dlist_init|].
    eapply (dlist_set_entry (links z)); [set_solver|]. apply Hl. lia.
Qed.

Lemma init_zone_inv pm :
  (forall p, Z.testbit (flags (pm p)) 0 = false) -> zone_inv (init_zone MAX_ORDER pm) (fun _ => []).
Proof.
  intros Hpm. destruct (init_zone_loop (Z.to_nat MAX_ORDER) pm) as (Hp & Hz & Hl). fold (init_zone MAX_ORDER pm) in *.
  assert (Hno : forall o p, ~ free_block (fun _ => []) o p) by (intros o p [_ Hin]; set_solver).
  split.
  - intros o Ho. apply Hl. lia.
  - intros o Ho. cbn. now rewrite Hz.
  - intros o p H. now apply Hno in H.
  - intros o p o' q H. now apply Hno in H.
  - intros p. rewrite PageBuddy_bit, Hp, Hpm. split; [discriminate|]. intros [o H]. now apply Hno in H.
  - intros o p H. now apply Hno in H.
  - intros o p H. now apply Hno in H.
Qed.

Lemma adjust_order_spec fuel s e o :
  s < e -> 0 <= o <= Z.of_nat fuel ->
  let o' := adjust_order fuel s e o in 0 <= o' <= o /\ s + 2 ^ o' <= e.
Proof.
  intros Hse. revert o. induction fuel as [|fuel IH]; intros o Ho; cbn [adjust_order].
  - assert (o = 0) as -> by lia. cbn. lia.
  - rewrite Z.shiftl_mul_pow2, Z.mul_1_l by lia. destruct (Z.ltb_spec e (s + 2 ^ o)); [|lia].
    destruct (Z.eq_dec o 0) as [->|]; [cbn in *; lia|]. specialize (IH (o - 1) ltac:(lia)). cbv zeta in *. lia.
Qed.

Lemma ffs_aligned s o : 0 < s < 2 ^ 64 -> 0 <= o <= __ffs s -> s mod 2 ^ o = 0.
Proof.
  intros Hs Ho. destruct (ffs_spec s) as (_ & _ & Hl); [unfold is_word; lia|lia|].
  apply Z.bits_inj'. intros i Hi. rewrite Z.bits_0. destruct (Z.lt_ge_cases i o).
  - rewrite Z.mod_pow2_bits_low by lia. apply Hl. lia.
  - apply Z.mod_pow2_bits_high. lia.
Qed.

Lemma initial_free_loop_spec fuel z F s :
  zone_inv z F -> 0 < START_PFN -> START_PFN <= s <= MAX_PFN -> MAX_PFN - s < Z.of_nat fuel ->
  (forall q, page_free F q <-> START_PFN <= q < s) ->
  exists z' F', initial_free_loop MAX_ORDER START_PFN MAX_PFN fuel z s MAX_PFN = Some z' /\
    zone_inv z' F' /\ forall q, page_free F' q <-> START_PFN <= q < MAX_PFN.
Proof.
  intros Hi H0. revert z F s Hi. induction fuel as [|fuel IH]; intros z F s Hi Hs Hf Hpg; [lia|].
  cbn [initial_free_loop]. destruct (Z.ltb_spec s MAX_PFN) as [Hlt|Hge].
  2:{ exists z, F. split_and!; auto. intros q. rewrite Hpg. lia. }
  destruct (ffs_spec s) as (Hffs & _ & _); [unfold is_word; lia|lia|].
  set (o0 := Z.min (MAX_ORDER - 1) (__ffs s)).
  destruct (adjust_order_spec (Z.to_nat o0) s MAX_PFN o0 Hlt ltac:(lia)) as [Ho He].
  set (o := adjust_order _ _ _ _) in *. unfold pfn_to_page, free_page, page_to_pfn.
  destruct (Z.leb_spec MAX_PFN s), (Z.ltb_spec s START_PFN); try lia. cbn -[free_one_page initial_free_loop].
  destruct (Z.leb_spec MAX_PFN s), (Z.ltb_spec s START_PFN); try lia. cbn -[free_one_page initial_free_loop].
  assert (Hv : valid_block s o).
  { unfold valid_block. split_and!; try lia. apply ffs_aligned; lia. }
  assert (Hu : block_used F s o).
  { intros o' q Hq. right. pose proof (pow2_pos o' ltac:(destruct Hq; lia)).
    assert (START_PFN <= q + 2 ^ o' - 1 < s); [|lia]. apply Hpg. exists o', q. split; auto. lia. }
  destruct (free_one_page_inv z F s o Hi Hv Hu) as (F' & Hi' & Hpg').
  pose proof (pow2_pos o ltac:(lia)). rewrite Z.shiftl_mul_pow2, Z.mul_1_l by lia.
  apply (IH _ F'); auto; try lia. intros q. rewrite Hpg', Hpg. lia.
Qed.

Lemma init_buddy_inv pm :
  0 < START_PFN -> (forall p, Z.testbit (flags (pm p)) 0 = false) ->
  exists z F, init_buddy MAX_ORDER START_PFN MAX_PFN pm = Some z /\ zone_inv z F /\
    forall q, page_free F q <-> START_PFN <= q < MAX_PFN.
Proof.
  intros H0 Hpm. unfold init_buddy, initial_free_pages.
  assert (Hup : forall n, 0 <= n < 2 ^ 32 -> PFN_UP (PFN_PHYS n) = n /\ PFN_DOWN (PFN_PHYS n) = n).
  { intros n Hn. unfold PFN_UP, PFN_DOWN, PFN_PHYS, PAGE_SHIFT, PAGE_SIZE.
    rewrite Z.shiftl_mul_pow2 by lia. rewrite (wrap64_small (n * 2 ^ 22)) by (unfold is_word; lia).
    rewrite (wrap64_small (n * 2 ^ 22 + 2 ^ 22)), wrap64_small by (unfold is_word; lia).
    rewrite !Z.shiftr_div_pow2 by lia. split; [symmetry; apply (Z.div_unique _ _ _ (2 ^ 22 - 1)); lia|].
    apply Z.div_mul. lia. }
  destruct (Hup START_PFN) as [-> _]; [lia|]. destruct (Hup MAX_PFN) as [_ ->]; [lia|].
  destruct (Z.ltb_spec MAX_PFN START_PFN); [lia|].
  apply (initial_free_loop_spec _ _ (fun _ => [])); [now apply init_zone_inv|lia|lia|lia|].
  intros q. split; [|lia]. intros (o & p & [_ Hin] & _). set_solver.
Qed.

(** ** Sequences of calls

    A client state is the zone with the blocks handed out so far.  A step is a
    call of [alloc_page], or of [free_pfn] on a block that is handed out. *)

Inductive buddy_step : fpga_zone * gmap Z Z -> fpga_zone * gmap Z Z -> Prop :=
| step_alloc z A order p z' :
    0 <= order -> alloc_page MAX_ORDER z order = (Some p, z') ->
    buddy_step (z, A) (z', <[p := order]> A)
| step_alloc_fail z A order z' :
    0 <= order -> alloc_page MAX_ORDER z order = (None, z') -> buddy_step (z, A) (z', A)
| step_free z A p o z' :
    A !! p = Some o -> free_pfn MAX_ORDER START_PFN MAX_PFN z p o = Some z' ->
    buddy_step (z, A) (z', delete p A).

(** The specification: free pages and handed-out blocks partition the range. *)
Record client_ok (s : fpga_zone * gmap Z Z) (F : flists) : Prop := {
  ok_inv : zone_inv s.1 F;
  ok_valid p o : s.2 !! p = Some o -> valid_block p o /\ block_used F p o;
  ok_disj p o q o' : s.2 !! p = Some o -> s.2 !! q = Some o' -> p <> q -> disjoint_blocks p o q o';
  ok_pages q : START_PFN <= q < MAX_PFN <->
    page_free F q \/ exists p o, s.2 !! p = Some o /\ p <= q < p + 2 ^ o;
}.

Lemma block_used_pages F p o :
  0 <= o -> block_used F p o <-> forall q, page_free F q -> ~ p <= q < p + 2 ^ o.
Proof.
  intros Ho. pose proof (pow2_pos o Ho). split.
  - intros Hu q (o' & r & Hf & Hr) Hq. destruct (Hu o' r Hf); lia.
  - intros Hp o' q Hf. pose proof (pow2_pos o' ltac:(destruct Hf; lia)). unfold disjoint_blocks.
    destruct (Z.le_gt_cases (p + 2 ^ o) q), (Z.le_gt_cases (q + 2 ^ o') p); auto. exfalso.
    apply (Hp (Z.max p q)); [|lia]. exists o', q. split; auto. lia.
Qed.

Lemma block_used_mono F F' p o :
  0 <= o -> (forall q, page_free F' q -> page_free F q) -> block_used F p o -> block_used F' p o.
Proof. intros Ho Hm. rewrite !block_used_pages by auto. intros H q Hq. apply H, Hm, Hq. Qed.

Lemma alloc_step_ok z A F order p z' :
  client_ok (z, A) F -> 0 <= order -> alloc_page MAX_ORDER z order = (Some p, z') ->
  exists F', client_ok (z', <[p := order]> A) F'.
Proof.
  intros [Hi Hv Hd Hp] Ho Ha. pose proof (alloc_page_inv z F order Hi Ho) as Hpost. rewrite Ha in Hpost.
  destruct Hpost as (Hvp & Hpf & F' & Hi' & Hu' & Hpg). cbn in *. pose proof (pow2_pos order Ho).
  assert (Hnew : forall q o', A !! q = Some o' -> disjoint_blocks p order q o').
  { intros q o' Hq. destruct (Hv q o' Hq) as [Hvq Huq]. pose proof (pow2_pos o' ltac:(destruct Hvq; lia)).
    rewrite block_used_pages in Huq by (destruct Hvq; lia). unfold disjoint_blocks.
    destruct (Z.le_gt_cases (p + 2 ^ order) q), (Z.le_gt_cases (q + 2 ^ o') p); auto. exfalso.
    apply (Huq (Z.max p q)); [apply Hpf|]; lia. }
  exists F'. split; cbn; auto.
  - intros q o' Hq. apply lookup_insert_Some in Hq as [[<- <-]|[Hne Hq]]; [auto|].
    destruct (Hv q o' Hq) as [Hvq Huq]. split; auto. apply (block_used_mono F); auto; [destruct Hvq; lia|].
    intros. apply Hpg. auto.
  - intros p1 o1 p2 o2 H1 H2 Hne. apply lookup_insert_Some in H1 as [[<- <-]|[Hn1 H1]];
      apply lookup_insert_Some in H2 as [[<- <-]|[Hn2 H2]]; eauto; [done|].
    destruct (Hnew p1 o1 H1); [right|left]; auto.
  - intros q. rewrite Hp, Hpg. split.
    + intros [[?|?]|(r & o' & Hr & Hq)]; [auto|right; exists p, order; rewrite lookup_insert_eq; auto|].
      right. destruct (decide (r = p)) as [->|]; [|exists r, o'; rewrite lookup_insert_ne; auto].
      exfalso. pose proof (pow2_pos o' ltac:(destruct (Hv p o' Hr) as [[] _]; lia)). destruct (Hnew p o' Hr); lia.
    + intros [?|(r & o' & Hr & Hq)]; [auto|].
      apply lookup_insert_Some in Hr as [[<- <-]|[_ Hr]]; [auto|right; eauto].
Qed.

Lemma free_step_ok z A F p o z' :
  client_ok (z, A) F -> A !! p = Some o -> free_pfn MAX_ORDER START_PFN MAX_PFN z p o = Some z' ->
  exists F', client_ok (z', delete p A) F'.
Proof.
  intros [Hi Hv Hd Hp] Ha Hf. cbn in *. destruct (Hv p o Ha) as [Hvp Hup].
  unfold free_pfn, pfn_to_page in Hf. case_hyp Hf. cbn in Hf. injection Hf as <-.
  destruct (free_one_page_inv z F p o Hi Hvp Hup) as (F' & Hi' & Hpg).
  exists F'. split; cbn; auto.
  - intros q o' [Hne Hq]%lookup_delete_Some. destruct (Hv q o' Hq) as [Hvq Huq]. split; auto.
    apply block_used_pages; [destruct Hvq; lia|]. rewrite block_used_pages in Huq by (destruct Hvq; lia).
    intros r [Hr|Hr]%Hpg; [auto|]. destruct (Hd p o q o' Ha Hq Hne); lia.
  - intros p1 o1 p2 o2 [_ H1]%lookup_delete_Some [_ H2]%lookup_delete_Some. eauto.
  - intros q. rewrite Hp, Hpg. split.
    + intros [?|(r & o' & Hr & Hq)]; [auto|]. destruct (decide (r = p)) as [->|].
      * rewrite Ha in Hr. injection Hr as <-. auto.
      * right. exists r, o'. rewrite lookup_delete_ne by auto. auto.
    + intros [[?|?]|(r & o' & [_ Hr]%lookup_delete_Some & Hq)]; [auto|right; exists p, o; auto|right; eauto].
Qed.

Lemma buddy_step_ok s s' F : buddy_step s s' -> client_ok s F -> exists F', client_ok s' F'.
Proof.
  intros Hs Hok. destruct Hs as [z A order p z' Ho Ha|z A order z' Ho Ha|z A p o z' Ha Hf].
  - now apply (alloc_step_ok z A F order p z').
  - pose proof (alloc_page_inv z F order (ok_inv _ _ Hok) Ho) as Hp. cbn in Hp. rewrite Ha in Hp.
    destruct Hp as [-> _]. eauto.
  - now apply (free_step_ok z A F p o z').
Qed.
End invariant.

(** ** The shipped configuration (fpga/fpga_memory_map.h, buddy.h) *)

Definition _FPGA_MEMORY_MAP_DATA_START : Z := 0x40000000.
Definition _FPGA_MEMORY_MAP_DATA_END : Z := 0x80000000.
Definition MAX_ORDER : Z := 1.
Definition START_PFN : Z := PHYS_PFN _FPGA_MEMORY_MAP_DATA_START.
Definition MAX_PFN : Z := PHYS_PFN _FPGA_MEMORY_MAP_DATA_END.

(** A page map with every flag clear. *)
Definition zeroed_page_map : Z -> page := fun _ => Page 0 0.

(** ** The properties of this component *)


(** A fresh zone with orders up to 3 over the page frames 16 to 63. *)
Definition ex_zone : fpga_zone := default (init_zone 4 zeroed_page_map) (init_buddy 4 16 64 zeroed_page_map).

Lemma ex_zone_init : init_buddy 4 16 64 zeroed_page_map = Some ex_zone.
Proof.
  unfold ex_zone. destruct (init_buddy_inv 4 16 64 ltac:(lia) ltac:(lia) ltac:(lia) zeroed_page_map) as (z & _ & -> & _);
    [lia|auto|reflexivity].
Qed.

Lemma ex_zone_inv : exists F, zone_inv 4 16 64 ex_zone F /\ forall q, page_free 4 F q <-> 16 <= q < 64.
Proof.
  destruct (init_buddy_inv 4 16 64 ltac:(lia) ltac:(lia) ltac:(lia) zeroed_page_map) as (z & F & E & Hi & Hp); [lia|auto|].
  rewrite ex_zone_init in E. revert E. generalize ex_zone. intros z0 [= <-]. eauto.
Qed.

Lemma ex_alloc : fst (alloc_page 4 ex_zone 1) = Some 56.
Proof. vm_compute. reflexivity. Qed.


(** [alloc_page] returns a block of the requested order, aligned and inside
    the range, all of whose pages were free, and exactly those pages leave the
    free set; it fails only when every free list of that order or above is empty,
    and then changes nothing. *)
Theorem alloc_page_correct mo start mx z F order :
  1 <= mo <= 30 -> 0 <= start <= mx -> mx < 2 ^ 32 -> zone_inv mo start mx z F -> 0 <= order ->
  match alloc_page mo z order with
  | (None, z') => z' = z /\ forall o, order <= o < mo -> F o = []
  | (Some p, z') =>
      valid_block mo start mx p order /\ (forall q, p <= q < p + 2 ^ order -> page_free mo F q) /\
      exists F', zone_inv mo start mx z' F' /\ block_used mo F' p order /\
        forall q, page_free mo F q <-> page_free mo F' q \/ p <= q < p + 2 ^ order
  end.
Proof. intros. now apply (alloc_page_inv mo start mx). Qed.

Lemma alloc_page_correct_witness :
  exists F, zone_inv 4 16 64 ex_zone F /\ page_free 4 F 56.
Proof.
  destruct ex_zone_inv as (F & Hi & _). exists F. split; [exact Hi|].
  pose proof (alloc_page_correct 4 16 64 ex_zone F 1 ltac:(lia) ltac:(lia) ltac:(lia) Hi ltac:(lia)) as H.
  pose proof ex_alloc as Ha. destruct (alloc_page 4 ex_zone 1) as [[p|] z']; [|discriminate].
  injection Ha as ->. apply H. lia.
Defined.

(** Freeing a block none of whose pages is free puts exactly its pages back,
    merging with every free buddy on the way up, and keeps the zone well formed. *)
Theorem free_pfn_correct mo start mx z F p o :
  1 <= mo <= 30 -> 0 <= start <= mx -> mx < 2 ^ 32 -> zone_inv mo start mx z F ->
  valid_block mo start mx p o -> block_used mo F p o ->
  exists z' F', free_pfn mo start mx z p o = Some z' /\ zone_inv mo start mx z' F' /\
    forall q, page_free mo F' q <-> page_free mo F q \/ p <= q < p + 2 ^ o.
Proof.
  intros Hmo Hr Hmx Hi Hv Hu. destruct (free_one_page_inv mo start mx ltac:(lia) ltac:(lia) ltac:(lia) z F p o Hi Hv Hu) as (F' & Hi' & Hp).
  exists (free_one_page mo z p p o), F'. split_and!; auto. unfold free_pfn, pfn_to_page.
  destruct Hv as (? & ? & ? & _). pose proof (pow2_pos o ltac:(lia)).
  destruct (Z.leb_spec mx p), (Z.ltb_spec p start); try lia. reflexivity.
Qed.

Lemma free_pfn_correct_witness :
  exists z' F' F, free_pfn 4 16 64 (snd (alloc_page 4 ex_zone 1)) 56 1 = Some z' /\
    zone_inv 4 16 64 z' F' /\ forall q, page_free 4 F' q <-> page_free 4 F q \/ 56 <= q < 56 + 2 ^ 1.
Proof.
  destruct ex_zone_inv as (F & Hi & _).
  pose proof (alloc_page_inv 4 16 64 ltac:(lia) ltac:(lia) ltac:(lia) ex_zone F 1 Hi ltac:(lia)) as H.
  pose proof ex_alloc as Ha. destruct (alloc_page 4 ex_zone 1) as [[p|] z']; [|discriminate].
  cbn [fst snd] in *. injection Ha as ->. destruct H as (Hv & _ & F1 & Hi1 & Hu1 & _).
  destruct (free_pfn_correct 4 16 64 z' F1 56 1) as (z2 & F2 & H1 & H2 & H3); auto; try lia.
  exists z2, F2, F1. auto.
Defined.

(** Allocating a block and freeing it gives back a well-formed zone with the
    same free pages. *)
Theorem alloc_free_roundtrip mo start mx z F order p z1 :
  1 <= mo <= 30 -> 0 <= start <= mx -> mx < 2 ^ 32 -> zone_inv mo start mx z F -> 0 <= order ->
  alloc_page mo z order = (Some p, z1) ->
  exists z2 F2, free_pfn mo start mx z1 p order = Some z2 /\ zone_inv mo start mx z2 F2 /\
    forall q, page_free mo F2 q <-> page_free mo F q.
Proof.
  intros Hmo Hr Hmx Hi Ho Ha. pose proof (alloc_page_inv mo start mx ltac:(lia) ltac:(lia) ltac:(lia) z F order Hi Ho) as H.
  rewrite Ha in H. destruct H as (Hv & _ & F1 & Hi1 & Hu & Hp).
  destruct (free_one_page_inv mo start mx ltac:(lia) ltac:(lia) ltac:(lia) z1 F1 p order Hi1 Hv Hu) as (F2 & Hi2 & Hp2).
  exists (free_one_page mo z1 p p order), F2. split_and!; auto.
  - unfold free_pfn, pfn_to_page. destruct Hv as (? & ? & ? & _).
    pose proof (pow2_pos order ltac:(lia)).
    destruct (Z.leb_spec mx p), (Z.ltb_spec p start); try lia. reflexivity.
  - intros q. now rewrite Hp2, Hp.
Qed.

Lemma alloc_free_roundtrip_witness :
  exists z2 F2, free_pfn 4 16 64 (snd (alloc_page 4 ex_zone 1)) 56 1 = Some z2 /\ zone_inv 4 16 64 z2 F2.
Proof.
  destruct ex_zone_inv as (F & Hi & _). pose proof ex_alloc as Ha.
  destruct (alloc_page 4 ex_zone 1) as [r z'] eqn:E. cbn [fst snd] in *. subst r.
  destruct (alloc_free_roundtrip 4 16 64 ex_zone F 1 56 z') as (z2 & F2 & ? & ? & _); auto; try lia.
  exists z2, F2. auto.
Defined.

(** In the shipped configuration (single pages only) a double free is always
    caught: freeing a page that is free leaves the zone as it is. *)
Theorem double_free_detected z F pfn :
  zone_inv MAX_ORDER START_PFN MAX_PFN z F -> page_free MAX_ORDER F pfn ->
  free_pfn MAX_ORDER START_PFN MAX_PFN z pfn 0 = Some z.
Proof.
  intros Hi (o & p & Hf & Hp). assert (o = 0) as -> by (destruct Hf; unfold MAX_ORDER in *; lia).
  assert (p = pfn) as -> by (change (2 ^ 0) with 1 in Hp; lia).
  destruct (inv_block _ _ _ _ _ Hi 0 pfn Hf) as (_ & ? & ? & _). change (2 ^ 0) with 1 in *.
  unfold free_pfn, pfn_to_page. destruct (Z.leb_spec MAX_PFN pfn), (Z.ltb_spec pfn START_PFN); try lia. cbn -[free_one_page].
  unfold free_one_page, free_pages_prepare, free_pages_check.
  rewrite (proj2 (inv_flag _ _ _ _ _ Hi pfn)) by eauto. reflexivity.
Qed.

(** The zone after boot with a clear page map. *)
Definition boot_zone : fpga_zone :=
  default (init_zone MAX_ORDER zeroed_page_map) (init_buddy MAX_ORDER START_PFN MAX_PFN zeroed_page_map).

Lemma boot_zone_inv :
  exists F, zone_inv MAX_ORDER START_PFN MAX_PFN boot_zone F /\
    forall q, page_free MAX_ORDER F q <-> START_PFN <= q < MAX_PFN.
Proof.
  unfold boot_zone.
  destruct (init_buddy_inv MAX_ORDER START_PFN MAX_PFN ltac:(unfold MAX_ORDER; lia)
    ltac:(vm_compute; split; discriminate) ltac:(reflexivity) zeroed_page_map) as (z & F & -> & Hi & Hp);
    [reflexivity|auto|eauto].
Qed.

Lemma double_free_detected_witness :
  free_pfn MAX_ORDER START_PFN MAX_PFN boot_zone 300 0 = Some boot_zone.
Proof.
  destruct boot_zone_inv as (F & Hi & Hp). apply (double_free_detected boot_zone F 300 Hi).
  apply Hp. vm_compute. split; [discriminate|reflexivity].
Defined.

(** Booting with a page map whose flags are clear makes every page of the data
    region free, in a well-formed zone. *)
Theorem init_buddy_correct mo start mx pm :
  1 <= mo <= 30 -> 0 < start <= mx -> mx < 2 ^ 32 -> (forall p, Z.testbit (flags (pm p)) 0 = false) ->
  exists z F, init_buddy mo start mx pm = Some z /\ zone_inv mo start mx z F /\
    forall q, page_free mo F q <-> start <= q < mx.
Proof. intros. apply init_buddy_inv; auto; lia. Qed.

Lemma init_buddy_correct_witness :
  exists z F, init_buddy MAX_ORDER START_PFN MAX_PFN zeroed_page_map = Some z /\
    zone_inv MAX_ORDER START_PFN MAX_PFN z F /\ nr_free z 0 = 256.
Proof.
  destruct (init_buddy_correct MAX_ORDER START_PFN MAX_PFN zeroed_page_map) as (z & F & E & Hi & _);
    [unfold MAX_ORDER; lia|vm_compute; split; [reflexivity|discriminate]|reflexivity|auto|].
  exists z, F. split_and!; auto. assert (Hn : (fun z => nr_free z 0) <$> init_buddy MAX_ORDER START_PFN MAX_PFN zeroed_page_map = Some 256)
    by (vm_compute; reflexivity).
  rewrite E in Hn. now injection Hn.
Defined.

(** [init_buddy] does not clear the page map that [malloc] returned.  A page
    whose stale [flags] word has bit 0 set is taken for a page already in the
    allocator and is skipped: the zone comes up with one page less, for ever. *)
Theorem init_buddy_stale_flags_lose_page :
  exists pm z, (forall p, p <> 300 -> Z.testbit (flags (pm p)) 0 = false) /\
    init_buddy MAX_ORDER START_PFN MAX_PFN pm = Some z /\
    nr_free z 0 = MAX_PFN - START_PFN - 1 /\
    list_for_each 600 (links z) (Head 0) =
      Some (PageList <$> rev (seqZ 256 44 ++ seqZ 301 211)).
Proof.
  set (pm := <[300 := Page 1 0]> zeroed_page_map).
  assert (Hs : bool_decide (is_Some (init_buddy MAX_ORDER START_PFN MAX_PFN pm)) = true) by (vm_compute; reflexivity).
  apply bool_decide_eq_true in Hs as [z E].
  exists pm, z. split_and!; auto.
  - intros p Hp. unfold pm. now rewrite fn_lookup_insert_ne by auto.
  - assert (Hn : (fun z => nr_free z 0) <$> init_buddy MAX_ORDER START_PFN MAX_PFN pm = Some 255)
      by (vm_compute; reflexivity). rewrite E in Hn. now injection Hn.
  - assert (Hn : (fun z => list_for_each 600 (links z) (Head 0)) <$> init_buddy MAX_ORDER START_PFN MAX_PFN pm =
      Some (Some (PageList <$> rev (seqZ 256 44 ++ seqZ 301 211)))) by (vm_compute; reflexivity).
    rewrite E in Hn. now injection Hn.
Qed.
