(* ===== verification/RbTree.v ===== *)
(** * Red-black trees (board/soc/core/rbtree.c, include/uapi/rbtree.h)

    The store holds the struct fields the code works on: for every node address
    the packed [__rb_parent_color] word and the two child pointers, the augmented
    value of the entry the node is embedded in, and the root pointer.  Addresses
    are multiples of 4 (the struct is aligned to [sizeof(long)]) and 0 is [NULL].
    Every routine is the sequence of loads and stores of the source.  Where the
    source writes a branch and its mirror image (left and right exchanged), the
    definition takes the direction [d]: [Left] is the first branch and [Right]
    the [else] branch.

    The properties are proved in [RbTreeProofs]. *)

From stdpp Require Import functions.
From S2P Require Import Prelude.

Inductive dir := Left | Right.
Definition opp (d : dir) : dir := match d with Left => Right | Right => Left end.

#[export] Instance dir_eq_dec : EqDecision dir.
Proof. solve_decision. Defined.

(** [struct rb_node] *)
Record rb_node := Node { pc : Z; rb_left : Z; rb_right : Z }.

Record store := Store { nodes : Z -> rb_node; aug : Z -> Z; root : Z }.

Definition RB_RED : Z := 0.
Definition RB_BLACK : Z := 1.
Definition NULL : Z := 0.

(** ** Accessors of [__rb_parent_color] and of the children *)

Definition __rb_parent (pc : Z) : Z := Z.land pc (not64 3).
Definition __rb_color (pc : Z) : Z := Z.land pc 1.
Definition rb_parent (st : store) (n : Z) : Z := __rb_parent (pc (nodes st n)).
Definition rb_color (st : store) (n : Z) : Z := __rb_color (pc (nodes st n)).
Definition rb_is_red (st : store) (n : Z) : bool := rb_color st n =? 0.
Definition rb_is_black (st : store) (n : Z) : bool := negb (rb_color st n =? 0).
Definition rb_red_parent (st : store) (red : Z) : Z := pc (nodes st red).
Definition RB_EMPTY_NODE (st : store) (n : Z) : bool := pc (nodes st n) =? n.

Definition get_child (d : dir) (x : rb_node) : Z :=
  match d with Left => rb_left x | Right => rb_right x end.
Definition child (st : store) (d : dir) (n : Z) : Z := get_child d (nodes st n).

Definition set_pc (st : store) (n v : Z) : store :=
  Store (<[n := Node v (rb_left (nodes st n)) (rb_right (nodes st n))]> (nodes st)) (aug st) (root st).
Definition set_child (st : store) (d : dir) (n v : Z) : store :=
  let x := nodes st n in
  let x := match d with Left => Node (pc x) v (rb_right x) | Right => Node (pc x) (rb_left x) v end in
  Store (<[n := x]> (nodes st)) (aug st) (root st).
Definition set_aug (st : store) (n v : Z) : store := Store (nodes st) (<[n := v]> (aug st)) (root st).
Definition set_root (st : store) (v : Z) : store := Store (nodes st) (aug st) v.

Definition RB_CLEAR_NODE (st : store) (n : Z) : store := set_pc st n n.
Definition rb_set_black (st : store) (n : Z) : store := set_pc st n (Z.lor (pc (nodes st n)) RB_BLACK).
Definition rb_set_parent (st : store) (n p : Z) : store := set_pc st n (Z.lor (rb_color st n) p).
Definition rb_set_parent_color (st : store) (n p color : Z) : store := set_pc st n (Z.lor p color).

Definition __rb_change_child (st : store) (old new parent : Z) : store :=
  if negb (parent =? NULL) then
    if child st Left parent =? old then set_child st Left parent new else set_child st Right parent new
  else set_root st new.

Definition __rb_rotate_set_parents (st : store) (old new color : Z) : store :=
  let parent := rb_parent st old in
  let st := set_pc st new (pc (nodes st old)) in
  let st := rb_set_parent_color st old new color in
  __rb_change_child st old new parent.

Definition rb_link_node (st : store) (node parent : Z) : store :=
  Store (<[node := Node parent NULL NULL]> (nodes st)) (aug st) (root st).

(** The store through the [rb_link] pointer: the root cell or a child of [parent]. *)
Definition write_link (st : store) (parent : Z) (d : dir) (node : Z) : store :=
  if parent =? NULL then set_root st node else set_child st d parent node.

(** ** Augmentation callbacks

    [struct rb_augment_callbacks]; [propagate] takes the number of tree levels
    it may climb.  The two instances are the dummy callbacks of rbtree.c and the
    ones [RB_DECLARE_CALLBACKS_MAX] declares for a per-node scalar [compute]. *)

Record rb_augment_callbacks := Callbacks {
  propagate : nat -> store -> Z -> Z -> option store;
  copy : store -> Z -> Z -> store;
  rotate : store -> Z -> Z -> store;
}.

Definition dummy_callbacks : rb_augment_callbacks :=
  Callbacks (fun _ st _ _ => Some st) (fun st _ _ => st) (fun st _ _ => st).

Section callbacks_max.
Context (compute : Z -> Z).

Definition max_of_children (st : store) (node : Z) : Z :=
  let m := compute node in
  let l := child st Left node in
  let m := if negb (l =? NULL) then if m <? aug st l then aug st l else m else m in
  let r := child st Right node in
  if negb (r =? NULL) then if m <? aug st r then aug st r else m else m.

(** [RBNAME_compute_max]: the result tells [propagate] to stop. *)
Definition compute_max (st : store) (node : Z) (exit : bool) : bool * store :=
  let m := max_of_children st node in
  if exit && (aug st node =? m) then (true, st) else (false, set_aug st node m).

Fixpoint max_propagate (fuel : nat) (st : store) (rb stop : Z) : option store :=
  if rb =? stop then Some st
  else
    match fuel with
    | O => None
    | S fuel' =>
        match compute_max st rb true with
        | (true, st) => Some st
        | (false, st) => max_propagate fuel' st (rb_parent st rb) stop
        end
    end.
Definition max_copy (st : store) (old new : Z) : store := set_aug st new (aug st old).
Definition max_rotate (st : store) (old new : Z) : store :=
  let st := set_aug st new (aug st old) in
  snd (compute_max st old false).

Definition callbacks_max : rb_augment_callbacks := Callbacks max_propagate max_copy max_rotate.
End callbacks_max.

(** ** Insertion *)

Section algorithms.
Context (cb : rb_augment_callbacks).

(** Cases 2 and 3 of one side: [d] is the side of [parent] under [gparent]. *)
Definition insert_case23 (st : store) (d : dir) (node parent gparent : Z) : store :=
  let tmp := child st (opp d) parent in
  let '(st, parent, tmp) :=
    if node =? tmp then
      let tmp := child st d node in
      let st := set_child st (opp d) parent tmp in
      let st := set_child st d node parent in
      let st := if negb (tmp =? NULL) then rb_set_parent_color st tmp parent RB_BLACK else st in
      let st := rb_set_parent_color st parent node RB_RED in
      let st := rotate cb st parent node in
      (st, node, child st (opp d) node)
    else (st, parent, tmp) in
  let st := set_child st d gparent tmp in
  let st := set_child st (opp d) parent gparent in
  let st := if negb (tmp =? NULL) then rb_set_parent_color st tmp gparent RB_BLACK else st in
  let st := __rb_rotate_set_parents st gparent parent RB_RED in
  rotate cb st gparent parent.

(** The loop of [__rb_insert]; [fuel] bounds the levels to climb. *)
Fixpoint rb_insert_loop (fuel : nat) (st : store) (node parent : Z) : option store :=
  match fuel with
  | O => None
  | S fuel' =>
      if parent =? NULL then Some (rb_set_parent_color st node NULL RB_BLACK)
      else if rb_is_black st parent then Some st
      else
        let gparent := rb_red_parent st parent in
        let d := if negb (parent =? child st Right gparent) then Left else Right in
        let tmp := child st (opp d) gparent in
        if negb (tmp =? NULL) && rb_is_red st tmp then
          let st := rb_set_parent_color st tmp gparent RB_BLACK in
          let st := rb_set_parent_color st parent gparent RB_BLACK in
          let node := gparent in
          let parent := rb_parent st node in
          let st := rb_set_parent_color st node parent RB_RED in
          rb_insert_loop fuel' st node parent
        else Some (insert_case23 st d node parent gparent)
  end.

Definition __rb_insert (fuel : nat) (st : store) (node : Z) : option store :=
  rb_insert_loop fuel st node (rb_red_parent st node).

(** ** Deletion *)

(** Case 4 of one side: [tmp1], the far child of [sibling], is red. *)
Definition erase_case4 (st : store) (d : dir) (parent sibling tmp1 : Z) : store :=
  let tmp2 := child st d sibling in
  let st := set_child st (opp d) parent tmp2 in
  let st := set_child st d sibling parent in
  let st := rb_set_parent_color st tmp1 sibling RB_BLACK in
  let st := if negb (tmp2 =? NULL) then rb_set_parent st tmp2 parent else st in
  let st := __rb_rotate_set_parents st parent sibling RB_BLACK in
  rotate cb st parent sibling.

(** Cases 3 and 4 of one side: [sibling] has a red child. *)
Definition erase_case34 (st : store) (d : dir) (parent sibling tmp1 : Z) : store :=
  let '(st, sibling, tmp1) :=
    if (tmp1 =? NULL) || rb_is_black st tmp1 then
      let tmp2 := child st d sibling in
      let t := child st (opp d) tmp2 in
      let st := set_child st d sibling t in
      let st := set_child st (opp d) tmp2 sibling in
      let st := set_child st (opp d) parent tmp2 in
      let st := if negb (t =? NULL) then rb_set_parent_color st t sibling RB_BLACK else st in
      let st := rotate cb st sibling tmp2 in
      (st, tmp2, sibling)
    else (st, sibling, tmp1) in
  erase_case4 st d parent sibling tmp1.

(** Case 1: a red sibling is rotated above [parent]; returns the new sibling. *)
Definition erase_case1 (st : store) (d : dir) (parent sibling : Z) : store * Z :=
  if rb_is_red st sibling then
    let tmp1 := child st d sibling in
    let st := set_child st (opp d) parent tmp1 in
    let st := set_child st d sibling parent in
    let st := rb_set_parent_color st tmp1 parent RB_BLACK in
    let st := __rb_rotate_set_parents st parent sibling RB_RED in
    (rotate cb st parent sibling, tmp1)
  else (st, sibling).

(** Cases 2 to 4, for a black sibling; case 2 below a black parent continues the
    loop from [parent]. *)
Definition erase_case234 (loop : store -> Z -> Z -> option store) (st : store) (d : dir)
    (parent sibling : Z) : option store :=
  let tmp1 := child st (opp d) sibling in
  let tmp2 := child st d sibling in
  if ((tmp1 =? NULL) || rb_is_black st tmp1) && ((tmp2 =? NULL) || rb_is_black st tmp2) then
    let st := rb_set_parent_color st sibling parent RB_RED in
    if rb_is_red st parent then Some (rb_set_black st parent)
    else
      let node := parent in
      let parent := rb_parent st node in
      if negb (parent =? NULL) then loop st node parent else Some st
  else Some (erase_case34 st d parent sibling tmp1).

(** The loop of [____rb_erase_color]. *)
Fixpoint rb_erase_loop (fuel : nat) (st : store) (node parent : Z) : option store :=
  match fuel with
  | O => None
  | S fuel' =>
      let d := if negb (node =? child st Right parent) then Left else Right in
      let '(st, sibling) := erase_case1 st d parent (child st (opp d) parent) in
      erase_case234 (rb_erase_loop fuel') st d parent sibling
  end.

Definition __rb_erase_color (fuel : nat) (st : store) (parent : Z) : option store :=
  rb_erase_loop fuel st NULL parent.

(** The [do ... while (tmp)] loop that finds the successor of a node with two
    children; returns [parent] and [successor]. *)
Fixpoint successor_loop (fuel : nat) (st : store) (parent successor tmp : Z) : option (Z * Z) :=
  match fuel with
  | O => None
  | S fuel' =>
      if tmp =? NULL then Some (parent, successor)
      else successor_loop fuel' st successor tmp (child st Left tmp)
  end.

(** The successor of a node with two children, unlinked from the right subtree
    when it is not its root; returns [parent], [successor], [child2] and the store. *)
Definition erase_successor (fuel : nat) (st : store) (node chld : Z) : option (Z * Z * Z * store) :=
  let tmp := child st Left chld in
  if tmp =? NULL then
    let successor := chld in
    let child2 := child st Right successor in
    Some (successor, successor, child2, copy cb st node successor)
  else
    '(parent, successor) ← successor_loop fuel st chld tmp (child st Left tmp);
    let child2 := child st Right successor in
    let st := set_child st Left parent child2 in
    let st := set_child st Right successor chld in
    let st := rb_set_parent st chld successor in
    let st := copy cb st node successor in
    st ← propagate cb fuel st parent successor;
    Some (parent, successor, child2, st).

(** Returns the node to rebalance from, and the store. *)
Definition __rb_erase_augmented (fuel : nat) (st : store) (node : Z) : option (Z * store) :=
  let chld := child st Right node in
  let tmp := child st Left node in
  if tmp =? NULL then
    let pcv := pc (nodes st node) in
    let parent := __rb_parent pcv in
    let st := __rb_change_child st node chld parent in
    let '(rebalance, st) :=
      if negb (chld =? NULL) then (NULL, set_pc st chld pcv)
      else (if negb (__rb_color pcv =? 0) then parent else NULL, st) in
    st ← propagate cb fuel st parent NULL;
    Some (rebalance, st)
  else if chld =? NULL then
    let pcv := pc (nodes st node) in
    let st := set_pc st tmp pcv in
    let parent := __rb_parent pcv in
    let st := __rb_change_child st node tmp parent in
    st ← propagate cb fuel st parent NULL;
    Some (NULL, st)
  else
    '(parent, successor, child2, st) ← erase_successor fuel st node chld;
    let tmp := child st Left node in
    let st := set_child st Left successor tmp in
    let st := rb_set_parent st tmp successor in
    let pcv := pc (nodes st node) in
    let tmp := __rb_parent pcv in
    let st := __rb_change_child st node successor tmp in
    let '(rebalance, st) :=
      if negb (child2 =? NULL) then (NULL, rb_set_parent_color st child2 parent RB_BLACK)
      else (if rb_is_black st successor then parent else NULL, st) in
    let st := set_pc st successor pcv in
    st ← propagate cb fuel st successor NULL;
    Some (rebalance, st).

Definition rb_erase_augmented (fuel : nat) (st : store) (node : Z) : option store :=
  '(rebalance, st) ← __rb_erase_augmented fuel st node;
  if negb (rebalance =? NULL) then __rb_erase_color fuel st rebalance else Some st.
End algorithms.

Definition rb_insert_color := __rb_insert dummy_callbacks.
Definition rb_erase := rb_erase_augmented dummy_callbacks.
Definition rb_insert_augmented (compute : Z -> Z) := __rb_insert (callbacks_max compute).

(** ** Traversal *)

(** [while (n->child) n = n->child;] *)
Fixpoint deepest (fuel : nat) (st : store) (d : dir) (n : Z) : option Z :=
  match fuel with
  | O => None
  | S fuel' => if negb (child st d n =? NULL) then deepest fuel' st d (child st d n) else Some n
  end.

Definition rb_first (fuel : nat) (st : store) : option Z :=
  if root st =? NULL then Some NULL else deepest fuel st Left (root st).
Definition rb_last (fuel : nat) (st : store) : option Z :=
  if root st =? NULL then Some NULL else deepest fuel st Right (root st).

(** [while ((parent = rb_parent(node)) && node == parent->child) node = parent;] *)
Fixpoint climb (fuel : nat) (st : store) (d : dir) (n : Z) : option Z :=
  match fuel with
  | O => None
  | S fuel' =>
      let parent := rb_parent st n in
      if negb (parent =? NULL) && (n =? child st d parent) then climb fuel' st d parent else Some parent
  end.

(** [rb_next] is [rb_step Right] and [rb_prev] its mirror image [rb_step Left]. *)
Definition rb_step (d : dir) (fuel : nat) (st : store) (n : Z) : option Z :=
  if RB_EMPTY_NODE st n then Some NULL
  else if negb (child st d n =? NULL) then deepest fuel st (opp d) (child st d n)
  else climb fuel st d n.
Definition rb_next := rb_step Right.
Definition rb_prev := rb_step Left.

Definition rb_replace_node (st : store) (victim new : Z) : store :=
  let parent := rb_parent st victim in
  let st := Store (<[new := nodes st victim]> (nodes st)) (aug st) (root st) in
  let st := if negb (child st Left victim =? NULL) then rb_set_parent st (child st Left victim) new else st in
  let st := if negb (child st Right victim =? NULL) then rb_set_parent st (child st Right victim) new else st in
  __rb_change_child st victim new parent.

Fixpoint rb_left_deepest_node (fuel : nat) (st : store) (n : Z) : option Z :=
  match fuel with
  | O => None
  | S fuel' =>
      if negb (child st Left n =? NULL) then rb_left_deepest_node fuel' st (child st Left n)
      else if negb (child st Right n =? NULL) then rb_left_deepest_node fuel' st (child st Right n)
      else Some n
  end.

Definition rb_next_postorder (fuel : nat) (st : store) (n : Z) : option Z :=
  if n =? NULL then Some NULL
  else
    let parent := rb_parent st n in
    if negb (parent =? NULL) && (n =? child st Left parent) && negb (child st Right parent =? NULL)
    then rb_left_deepest_node fuel st (child st Right parent)
    else Some parent.

Definition rb_first_postorder (fuel : nat) (st : store) : option Z :=
  if root st =? NULL then Some NULL else rb_left_deepest_node fuel st (root st).
