(* ===== verification/RbTreeProofs.v ===== *)
(** * Properties of the red-black trees

    [rep] relates the store to an inductive tree: every field of every node has
    the value the tree determines, parent pointers and packed colours included.
    A position inside a tree is a focus and the list of frames on the path to the
    root.  On this representation the theorems say that insertion and deletion,
    with their rotations and colour changes on the store, produce a red-black tree
    with the expected in-order sequence, keep the augmented maximum of every
    subtree, touch no other node, and return; and that the traversals follow the
    in-order sequence. *)

From stdpp Require Import functions.
From S2P Require Import Prelude RbTree.

#[local] Set Warnings "-clear-no-such-hyp".

(** ** Packed parent and colour *)

Inductive color := Red | Black.
Definition colz (c : color) : Z := match c with Red => RB_RED | Black => RB_BLACK end.

(** A node address. *)
Definition addr (p : Z) : Prop := 0 <= p < 2 ^ 64 /\ p mod 4 = 0.
Definition pcv (par : Z) (c : color) : Z := Z.lor par (colz c).

Lemma colz_bound c : 0 <= colz c <= 1.
Proof. destruct c; unfold colz, RB_RED, RB_BLACK; lia. Qed.

Lemma pcv_add p c : addr p -> pcv p c = p + colz c.
Proof.
  intros [Hp Hal]. unfold pcv. rewrite <- (Z.add_lor_land p (colz c)). replace (Z.land p (colz c)) with 0; [lia|].
  destruct c; [symmetry; apply Z.land_0_r|]. symmetry. cbn [colz]. unfold RB_BLACK. rewrite land_1.
  apply Z.mod_divide in Hal as [q ->]; [|lia]. replace (q * 4) with (q * 2 * 2) by ring. apply Z_mod_mult.
Qed.

Lemma parent_pcv p c : addr p -> __rb_parent (pcv p c) = p.
Proof.
  intros Ha. rewrite pcv_add by auto. destruct Ha as [Hp Hal]. unfold __rb_parent.
  apply Z.mod_divide in Hal as [q ->]; [|lia].
  change (not64 3) with (not64 (2 ^ 2 - 1)). rewrite land_not_mask by (unfold is_word; pose proof (colz_bound c); lia).
  change (2 ^ 2) with 4. replace ((q * 4 + colz c) / 4) with q; [reflexivity|].
  apply (Z.div_unique _ _ _ (colz c)); pose proof (colz_bound c); lia.
Qed.

Lemma color_pcv p c : addr p -> __rb_color (pcv p c) = colz c.
Proof.
  intros Ha. rewrite pcv_add by auto. destruct Ha as [Hp Hal]. unfold __rb_color.
  apply Z.mod_divide in Hal as [q ->]; [|lia]. rewrite land_1. symmetry. apply (Z.mod_unique _ _ (q * 2)); pose proof (colz_bound c); lia.
Qed.

Lemma pcv_red p : pcv p Red = p.
Proof. apply Z.lor_0_r. Qed.
Lemma lor_colz c p : Z.lor (colz c) p = pcv p c.
Proof. apply Z.lor_comm. Qed.
Lemma pcv_black p c : Z.lor (pcv p c) RB_BLACK = pcv p Black.
Proof. unfold pcv. rewrite <- Z.lor_assoc. destruct c; reflexivity. Qed.

Lemma addr_0 : addr 0.
Proof. split; [lia|reflexivity]. Qed.

(** ** Trees, contexts and the store *)

Inductive tree := E | T (c : color) (l : tree) (n : Z) (r : tree).

(** A path step: the hole is the child of [n] on side [d]; [s] is the other. *)
Record frame := F { fdir : dir; fcol : color; fid : Z; fsib : tree }.

(** The node [n] with [a] on side [d] and [b] on the other. *)
Definition mk (d : dir) (c : color) (n : Z) (a b : tree) : tree :=
  match d with Left => T c a n b | Right => T c b n a end.
Definition mkn (d : dir) (p a b : Z) : rb_node :=
  match d with Left => Node p a b | Right => Node p b a end.

Fixpoint plug (k : list frame) (t : tree) : tree :=
  match k with
  | [] => t
  | F d c n s :: k' => plug k' (mk d c n t s)
  end.

Fixpoint inorder (t : tree) : list Z :=
  match t with E => [] | T _ l n r => inorder l ++ n :: inorder r end.
Fixpoint ids (t : tree) : list Z :=
  match t with E => [] | T _ l n r => n :: ids l ++ ids r end.
Definition rid (t : tree) : Z := match t with E => 0 | T _ _ n _ => n end.
Fixpoint cids (k : list frame) : list Z :=
  match k with [] => [] | F _ _ n s :: k' => n :: ids s ++ cids k' end.
Definition cid (k : list frame) : Z := match k with [] => 0 | F _ _ n _ :: _ => n end.

Definition tcol (t : tree) : color := match t with E => Black | T c _ _ _ => c end.
Definition paint (c : color) (t : tree) : tree := match t with E => E | T _ l n r => T c l n r end.

Fixpoint rep (nd : Z -> rb_node) (par : Z) (t : tree) : Prop :=
  match t with
  | E => True
  | T c l n r =>
      n <> 0 /\ addr n /\ nd n = Node (pcv par c) (rid l) (rid r) /\ rep nd n l /\ rep nd n r
  end.

Fixpoint rep_ctx (st : store) (k : list frame) (hid : Z) : Prop :=
  match k with
  | [] => root st = hid
  | F d c n s :: k' =>
      n <> 0 /\ addr n /\ nodes st n = mkn d (pcv (cid k') c) hid (rid s) /\ rep (nodes st) n s /\
      rep_ctx st k' n
  end.

(** The store holds the tree [plug k t]. *)
Definition zrep (st : store) (k : list frame) (t : tree) : Prop :=
  rep (nodes st) (cid k) t /\ rep_ctx st k (rid t) /\ NoDup (ids t ++ cids k).

(** *** Structural lemmas *)

Lemma opp_opp d : opp (opp d) = d.
Proof. now destruct d. Qed.
Lemma mk_opp d c n a b : mk (opp d) c n a b = mk d c n b a.
Proof. now destruct d. Qed.
Lemma mkn_opp d p a b : mkn (opp d) p a b = mkn d p b a.
Proof. now destruct d. Qed.
Lemma rid_mk d c n a b : rid (mk d c n a b) = n.
Proof. now destruct d. Qed.
Lemma get_child_mkn d p a b : get_child d (mkn d p a b) = a.
Proof. now destruct d. Qed.
Lemma get_child_opp_mkn d p a b : get_child (opp d) (mkn d p a b) = b.
Proof. now destruct d. Qed.
Lemma pc_mkn d p a b : pc (mkn d p a b) = p.
Proof. now destruct d. Qed.
Lemma tcol_mk d c n a b : tcol (mk d c n a b) = c.
Proof. now destruct d. Qed.
Lemma paint_mk d c c' n a b : paint c' (mk d c n a b) = mk d c' n a b.
Proof. now destruct d. Qed.
Lemma rid_paint c t : rid (paint c t) = rid t.
Proof. now destruct t. Qed.
Lemma ids_paint c t : ids (paint c t) = ids t.
Proof. now destruct t. Qed.
Lemma inorder_paint c t : inorder (paint c t) = inorder t.
Proof. now destruct t. Qed.
Lemma paint_black t : tcol t = Black -> paint Black t = t.
Proof. now destruct t as [|[]]. Qed.

Lemma ids_mk d c n a b : ids (mk d c n a b) ≡ₚ n :: ids a ++ ids b.
Proof. destruct d; cbn; solve_Permutation. Qed.

Lemma rep_mk nd d par c n a b :
  rep nd par (mk d c n a b) <->
  n <> 0 /\ addr n /\ nd n = mkn d (pcv par c) (rid a) (rid b) /\ rep nd n a /\ rep nd n b.
Proof. destruct d; cbn; tauto. Qed.

Lemma ids_inorder t : ids t ≡ₚ inorder t.
Proof.
  induction t as [|c l IHl n r IHr]; cbn; [auto|]. rewrite IHl, IHr. solve_Permutation.
Qed.

Lemma ids_plug k t : ids (plug k t) ≡ₚ ids t ++ cids k.
Proof.
  revert t. induction k as [|[d c n s] k IH]; intros t; cbn; [now rewrite app_nil_r|].
  rewrite IH, ids_mk. solve_Permutation.
Qed.

(** The in-order sequences to the left and right of the hole. *)
Fixpoint lctx (k : list frame) : list Z :=
  match k with
  | [] => []
  | F Left _ _ _ :: k' => lctx k'
  | F Right _ n s :: k' => lctx k' ++ inorder s ++ [n]
  end.
Fixpoint rctx (k : list frame) : list Z :=
  match k with
  | [] => []
  | F Left _ n s :: k' => n :: inorder s ++ rctx k'
  | F Right _ _ _ :: k' => rctx k'
  end.

Lemma inorder_plug k t : inorder (plug k t) = lctx k ++ inorder t ++ rctx k.
Proof.
  revert t. induction k as [|[[] c n s] k IH]; intros t; cbn; [now rewrite app_nil_r|..].
  - rewrite IH. cbn. now rewrite <- !app_assoc.
  - rewrite IH. cbn. now rewrite <- !app_assoc.
Qed.

Lemma inorder_plug_eq k t t' : inorder t = inorder t' -> inorder (plug k t) = inorder (plug k t').
Proof. intros H. now rewrite !inorder_plug, H. Qed.

Lemma rep_frame nd nd' par t : (forall m, m ∈ ids t -> nd' m = nd m) -> rep nd par t -> rep nd' par t.
Proof.
  revert par. induction t as [|c l IHl n r IHr]; intros par Heq; cbn; [auto|]. intros (? & ? & Hn & ? & ?).
  split_and!; auto; [rewrite Heq; [auto|set_solver]|apply IHl|apply IHr]; auto; intros; apply Heq; set_solver.
Qed.

Lemma rep_insert nd par t n x : n ∉ ids t -> rep nd par t -> rep (<[n := x]> nd) par t.
Proof. intros Hn. apply rep_frame. intros m Hm. apply fn_lookup_insert_ne. intros ->. done. Qed.

Lemma rep_ctx_frame st st' k hid :
  (forall m, m ∈ cids k -> nodes st' m = nodes st m) -> root st' = root st ->
  rep_ctx st k hid -> rep_ctx st' k hid.
Proof.
  revert hid. induction k as [|[d c n s] k IH]; intros hid Heq Hr; cbn; [congruence|].
  intros (? & ? & ? & Hs & ?). split_and!; auto.
  - rewrite Heq by set_solver. auto.
  - eapply rep_frame; [|exact Hs]. intros. apply Heq. set_solver.
  - apply IH; auto. intros. apply Heq. set_solver.
Qed.

(** ** Symbolic execution of the store operations *)

Definition upd (st : store) (n : Z) (x : rb_node) : store :=
  Store (<[n := x]> (nodes st)) (aug st) (root st).

Lemma nodes_upd_eq st n x : nodes (upd st n x) n = x.
Proof. apply fn_lookup_insert. Qed.
Lemma nodes_upd_ne st n x m : n <> m -> nodes (upd st n x) m = nodes st m.
Proof. apply fn_lookup_insert_ne. Qed.

Lemma set_child_near st d n p a b v :
  nodes st n = mkn d p a b -> set_child st d n v = upd st n (mkn d p v b).
Proof. unfold set_child, upd. intros ->. now destruct d. Qed.
Lemma set_child_far st d n p a b v :
  nodes st n = mkn d p a b -> set_child st (opp d) n v = upd st n (mkn d p a v).
Proof. unfold set_child, upd. intros ->. now destruct d. Qed.
Lemma set_pc_mkn st d n p a b v :
  nodes st n = mkn d p a b -> set_pc st n v = upd st n (mkn d v a b).
Proof. unfold set_pc, upd. intros ->. now destruct d. Qed.

Lemma child_near st d n p a b : nodes st n = mkn d p a b -> child st d n = a.
Proof. unfold child. intros ->. apply get_child_mkn. Qed.
Lemma child_far st d n p a b : nodes st n = mkn d p a b -> child st (opp d) n = b.
Proof. unfold child. intros ->. apply get_child_opp_mkn. Qed.

(** Changes confined to the locations of a list. *)
Definition only (S : list Z) (st st' : store) : Prop :=
  forall m, m ∉ S -> nodes st' m = nodes st m.

Lemma only_refl S st : only S st st.
Proof. now intros m _. Qed.
Lemma only_trans S S' st st' st'' :
  only S st st' -> only S' st' st'' -> (forall m, m ∈ S' -> m ∈ S) -> only S st st''.
Proof. intros H1 H2 Hs m Hm. rewrite H2, H1; auto. Qed.
Lemma only_upd S st n x : n ∈ S -> only S st (upd st n x).
Proof. intros Hn m Hm. apply nodes_upd_ne. intros ->. done. Qed.

Lemma rep_only S st st' par t :
  only S st st' -> (forall m, m ∈ ids t -> m ∉ S) -> rep (nodes st) par t -> rep (nodes st') par t.
Proof. intros Ho Hd. apply rep_frame. intros m Hm. apply Ho, Hd, Hm. Qed.

Lemma rep_ctx_only S st st' k hid :
  only S st st' -> root st' = root st -> (forall m, m ∈ cids k -> m ∉ S) ->
  rep_ctx st k hid -> rep_ctx st' k hid.
Proof. intros Ho Hr Hd. apply rep_ctx_frame; auto. Qed.

(** *** Reading colours *)

Lemma rid_0 nd par t : rep nd par t -> (rid t =? NULL) = true <-> t = E.
Proof. destruct t; cbn; [easy|]. intros (? & _). rewrite Z.eqb_eq. split; [easy|discriminate]. Qed.

Lemma rb_color_mkn st d n p c a b : addr p -> nodes st n = mkn d (pcv p c) a b -> rb_color st n = colz c.
Proof. intros Hp Hn. unfold rb_color. rewrite Hn, pc_mkn. now apply color_pcv. Qed.

Lemma red_child st par t :
  addr par -> rep (nodes st) par t -> negb (rid t =? NULL) && rb_is_red st (rid t) = match tcol t with Red => true | Black => false end.
Proof.
  intros Hp Hr. destruct t as [|c l n r]; [reflexivity|]. destruct Hr as (Hn & _ & Hnd & _). cbn [rid tcol].
  unfold rb_is_red. rewrite (rb_color_mkn st Left n par c (rid l) (rid r)) by auto.
  replace (n =? NULL) with false by (symmetry; now apply Z.eqb_neq). destruct c; reflexivity.
Qed.

Lemma black_child st par t :
  addr par -> rep (nodes st) par t -> (rid t =? NULL) || rb_is_black st (rid t) = match tcol t with Red => false | Black => true end.
Proof.
  intros Hp Hr. destruct t as [|c l n r]; [reflexivity|]. destruct Hr as (Hn & _ & Hnd & _). cbn [rid tcol].
  unfold rb_is_black. rewrite (rb_color_mkn st Left n par c (rid l) (rid r)) by auto.
  replace (n =? NULL) with false by (symmetry; now apply Z.eqb_neq). destruct c; reflexivity.
Qed.

Lemma rep_root_node nd par t : rep nd par t -> addr (rid t).
Proof. destruct t; cbn; [intros; apply addr_0|tauto]. Qed.

Lemma rep_ctx_addr st k hid : rep_ctx st k hid -> addr (cid k).
Proof. destruct k as [|[]]; cbn; [intros; apply addr_0|tauto]. Qed.

Lemma rid_nonzero nd par t : rep nd par t -> t <> E -> rid t <> 0 /\ rid t ∈ ids t.
Proof. destruct t as [|c l n r]; [done|]. intros (Hn & _) _. split; [exact Hn|set_solver]. Qed.

Lemma rep_null nd par t : rep nd par t -> 0 ∉ ids t.
Proof.
  revert par. induction t as [|c l IHl m r IHr]; intros par; cbn; [set_solver|].
  intros (Hm & _ & _ & Hl & Hr). apply not_elem_of_cons. split; [auto|]. apply not_elem_of_app. eauto.
Qed.

Lemma rep_ctx_null st k hid : rep_ctx st k hid -> 0 ∉ cids k.
Proof.
  revert hid. induction k as [|[d c n s] k IH]; intros z; cbn; [set_solver|].
  intros (Hn & _ & _ & Hs & Hk). apply not_elem_of_cons. split; [auto|]. apply not_elem_of_app. eauto using rep_null.
Qed.

(** *** Giving a subtree a new parent *)

(** [if (t) rb_set_parent_color(t, par, c)] *)
Lemma reparent_color st par0 par t c :
  NoDup (ids t) -> rep (nodes st) par0 t ->
  let st' := if negb (rid t =? NULL) then rb_set_parent_color st (rid t) par (colz c) else st in
  rep (nodes st') par (paint c t) /\ only (ids t) st st' /\ aug st' = aug st /\ root st' = root st.
Proof.
  intros Hnd Hr. destruct t as [|c0 l n r]; [cbn; split_and!; auto; apply only_refl|].
  destruct Hr as (Hn & Ha & Hx & Hl & Hrr). cbn [rid paint].
  replace (n =? NULL) with false by (symmetry; now apply Z.eqb_neq). cbn [negb].
  cbn [ids] in Hnd. apply NoDup_cons in Hnd as [Hnin _]. apply not_elem_of_app in Hnin as [Hnl Hnr].
  unfold rb_set_parent_color. rewrite (set_pc_mkn st Left n _ _ _ _ Hx). split_and!; [|apply only_upd; set_solver|reflexivity..].
  cbn [rep]. split_and!; auto; [apply nodes_upd_eq|now apply rep_insert..].
Qed.

(** [if (t) rb_set_parent(t, par)], which keeps the colour *)
Lemma reparent_keep st par0 par t :
  addr par0 -> NoDup (ids t) -> rep (nodes st) par0 t ->
  let st' := if negb (rid t =? NULL) then rb_set_parent st (rid t) par else st in
  rep (nodes st') par t /\ only (ids t) st st' /\ aug st' = aug st /\ root st' = root st.
Proof.
  intros Hp Hnd Hr.
  assert (E : (if negb (rid t =? NULL) then rb_set_parent st (rid t) par else st) =
    (if negb (rid t =? NULL) then rb_set_parent_color st (rid t) par (colz (tcol t)) else st)).
  { destruct t as [|c l n r]; [reflexivity|]. destruct Hr as (_ & _ & Hx & _). cbn [rid tcol].
    unfold rb_set_parent, rb_set_parent_color. rewrite (rb_color_mkn st Left n par0 c (rid l) (rid r)) by auto.
    now rewrite lor_colz. }
  rewrite E. pose proof (reparent_color st par0 par t (tcol t) Hnd Hr) as H.
  replace (paint (tcol t) t) with t in H by now destruct t. exact H.
Qed.

(** [__rb_change_child]: the hole of a context gets a new root. *)
Lemma change_child_spec st k old new :
  rep_ctx st k old -> old <> 0 -> NoDup (old :: cids k) ->
  let st' := __rb_change_child st old new (cid k) in
  rep_ctx st' k new /\ only (cids k) st st' /\ aug st' = aug st.
Proof.
  intros Hc Ho Hnd. destruct k as [|[d c n s] k].
  { cbn. split_and!; auto. now intros m _. }
  destruct Hc as (Hn & Ha & Hx & Hs & Hk). cbn [cid cids] in *.
  apply NoDup_cons in Hnd as [Hold Hnd]. rewrite elem_of_cons, elem_of_app in Hold.
  apply NoDup_cons in Hnd as [Hnin _]. apply not_elem_of_app in Hnin as [Hns Hnk].
  assert (Hrs : rid s <> old) by (destruct s; cbn in *; [auto|set_solver]).
  assert (E : __rb_change_child st old new n = upd st n (mkn d (pcv (cid k) c) new (rid s))).
  { unfold __rb_change_child. replace (n =? NULL) with false by (symmetry; now apply Z.eqb_neq). cbn [negb].
    destruct d.
    - rewrite (child_near st Left n _ _ _ Hx), Z.eqb_refl. now apply (set_child_near st Left n _ old).
    - change Left with (opp Right) at 1. rewrite (child_far st Right n _ _ _ Hx).
      replace (rid s =? old) with false by (symmetry; now apply Z.eqb_neq).
      now apply (set_child_near st Right n _ old). }
  rewrite E. split_and!; [|apply only_upd; set_solver|reflexivity].
  cbn [rep_ctx]. split_and!; auto; [apply nodes_upd_eq|now apply rep_insert|].
  apply (rep_ctx_only [n] st); auto; [apply only_upd; set_solver|]. intros m Hm. set_solver.
Qed.

(** *** Rotations *)

(** Membership and disequality facts of a [NoDup] hypothesis. *)
Ltac nd_split H :=
  let a := fresh "Hd" in let b := fresh "Hd" in let c := fresh "Hd" in
  lazymatch type of H with
  | NoDup (_ :: _) => apply NoDup_cons in H; destruct H as [a b]; nd_split a; nd_split b
  | NoDup (_ ++ _) => apply NoDup_app in H; destruct H as (a & b & c); nd_split a; nd_split c
  | _ ∉ [] => clear H
  | _ ∉ _ :: _ => apply not_elem_of_cons in H; destruct H as [a b]; nd_split b
  | _ ∉ _ ++ _ => apply not_elem_of_app in H; destruct H as [a b]; nd_split a; nd_split b
  | _ => idtac
  end.
Ltac nd_facts H := let H' := fresh "Hd" in pose proof H as H'; nd_split H'.

(** Node contents after a sequence of updates. *)
Ltac rd :=
  repeat first
    [ rewrite nodes_upd_eq
    | rewrite nodes_upd_ne by congruence ].

(** A list of locations disjoint from a subtree. *)
Lemma disjoint_list (S T : list Z) :
  Forall (fun x => x ∉ T) S -> forall m, m ∈ T -> m ∉ S.
Proof. rewrite Forall_forall. intros H m Hm Hs. exact (H m Hs Hm). Qed.

Ltac disj := apply disjoint_list; repeat constructor; assumption.

Lemma NoDup_perm (l l' : list Z) : NoDup l -> l ≡ₚ l' -> NoDup l'.
Proof. intros H Hp. now rewrite <- Hp. Qed.

(** [__rb_rotate_set_parents], once the child pointers have been exchanged. *)
Lemma rotate_set_parents_spec st d k x y cx c py A B C :
  x <> 0 -> y <> 0 -> addr x -> addr y ->
  nodes st x = mkn d (pcv (cid k) cx) (rid B) (rid C) -> nodes st y = mkn d py (rid A) x ->
  rep (nodes st) y A -> rep (nodes st) x B -> rep (nodes st) x C -> rep_ctx st k x ->
  NoDup (x :: y :: ids A ++ ids B ++ ids C ++ cids k) ->
  let st' := __rb_rotate_set_parents st x y (colz c) in
  zrep st' k (mk d cx y A (mk d c x B C)) /\ only (x :: y :: cids k) st st' /\ aug st' = aug st /\
  nodes st' x = mkn d (pcv y c) (rid B) (rid C).
Proof.
  intros Hx0 Hy0 Hxa Hya Hx Hy HA HB HC Hk Hnd.
  assert (Hnd2 : NoDup (x :: cids k)) by (nd_facts Hnd; now apply NoDup_cons).
  assert (Hnd3 : NoDup (ids (mk d cx y A (mk d c x B C)) ++ cids k)).
  { eapply NoDup_perm; [exact Hnd|]. rewrite !ids_mk. solve_Permutation. }
  unfold __rb_rotate_set_parents, rb_set_parent_color, rb_parent.
  rewrite Hx, pc_mkn, parent_pcv by (eapply rep_ctx_addr; eauto). fold (pcv y c).
  nd_facts Hnd. rewrite (set_pc_mkn st d y _ _ _ _ Hy).
  set (st1 := upd st y _). assert (Hx1 : nodes st1 x = mkn d (pcv (cid k) cx) (rid B) (rid C)) by (unfold st1; rd; auto).
  rewrite (set_pc_mkn st1 d x _ _ _ _ Hx1). set (st2 := upd st1 x _).
  assert (Ho2 : only [x; y] st st2).
  { unfold st2, st1. intros m Hm. apply not_elem_of_cons in Hm as [? Hm]. apply not_elem_of_cons in Hm as [? _]. now rd. }
  assert (Hk2 : rep_ctx st2 k x) by (apply (rep_ctx_only [x; y] st); auto; disj).
  destruct (change_child_spec st2 k x y Hk2 Hx0 Hnd2) as (Hk3 & Ho3 & Ha3).
  set (st3 := __rb_change_child st2 x y (cid k)) in *.
  assert (Hrep : forall par t, (forall m, m ∈ ids t -> m ∉ [x; y]) -> (forall m, m ∈ ids t -> m ∉ cids k) ->
    rep (nodes st) par t -> rep (nodes st3) par t).
  { intros par t H1 H2 Ht. eapply rep_only; [exact Ho3|exact H2|]. eapply rep_only; [exact Ho2|exact H1|exact Ht]. }
  assert (Hx3 : nodes st3 x = mkn d (pcv y c) (rid B) (rid C)) by (rewrite Ho3 by auto; unfold st2; now rd).
  assert (Hy3 : nodes st3 y = mkn d (pcv (cid k) cx) (rid A) x) by (rewrite Ho3 by auto; unfold st2, st1; now rd).
  split_and!; auto.
  - split_and!; auto; [|rewrite rid_mk; exact Hk3].
    rewrite !rep_mk, rid_mk. split_and!; auto; apply Hrep; auto; try disj; set_solver.
  - intros m Hm. rewrite Ho3 by set_solver. apply Ho2. set_solver.
Qed.

(** *** Focus and context *)

Lemma zrep_up st d c n s k t : zrep st (F d c n s :: k) t <-> zrep st k (mk d c n t s).
Proof.
  unfold zrep. cbn [cid rep_ctx cids]. rewrite rep_mk, rid_mk.
  assert (Hp : NoDup (ids t ++ n :: ids s ++ cids k) <-> NoDup (ids (mk d c n t s) ++ cids k)).
  { split; intros H; (eapply NoDup_perm; [exact H|]); rewrite ids_mk; solve_Permutation. }
  rewrite <- Hp. cbn. tauto.
Qed.

Lemma zrep_plug st k t : zrep st k t <-> zrep st [] (plug k t).
Proof. revert t. induction k as [|[d c n s] k IH]; intros t; [easy|]. rewrite zrep_up. apply IH. Qed.

Lemma zrep_same st st' k t : nodes st' = nodes st -> root st' = root st -> zrep st k t -> zrep st' k t.
Proof.
  intros Hn Hr (H1 & H2 & H3). split_and!; [now rewrite Hn| |auto].
  apply (rep_ctx_frame st); auto. intros. now rewrite Hn.
Qed.

(** ** Red-black trees *)

Fixpoint rb (t : tree) (h : nat) : Prop :=
  match t with
  | E => h = O
  | T Red l _ r => tcol l = Black /\ tcol r = Black /\ rb l h /\ rb r h
  | T Black l _ r => match h with O => False | S h' => rb l h' /\ rb r h' end
  end.

Definition ctop (k : list frame) : option color :=
  match k with [] => None | F _ c _ _ :: _ => Some c end.

Fixpoint rb_ctx (k : list frame) (h : nat) : Prop :=
  match k with
  | [] => True
  | F _ Red _ s :: k' => tcol s = Black /\ rb s h /\ ctop k' = Some Black /\ rb_ctx k' h
  | F _ Black _ s :: k' => rb s h /\ rb_ctx k' (S h)
  end.

(** A red-black tree: black root, no red node with a red child, and the same
    number of black nodes on every path to a leaf. *)
Definition is_rb (t : tree) : Prop := tcol t = Black /\ exists h, rb t h.

Lemma rb_mk_red d n a b h :
  rb (mk d Red n a b) h <-> tcol a = Black /\ tcol b = Black /\ rb a h /\ rb b h.
Proof. destruct d; cbn; tauto. Qed.
Lemma rb_mk_black d n a b h : rb (mk d Black n a b) (S h) <-> rb a h /\ rb b h.
Proof. destruct d; cbn; tauto. Qed.

Lemma rb_plug k t h :
  rb t h -> rb_ctx k h -> tcol t = Black \/ ctop k = Some Black -> is_rb (plug k t).
Proof.
  revert t h. induction k as [|[d [] n s] k IH]; intros t h Ht Hk Hc; cbn [plug].
  - destruct Hc as [Hc|Hc]; [|discriminate]. split; eauto.
  - destruct Hc as [Hc|Hc]; [|discriminate]. destruct Hk as (Hs & Hbs & Htop & Hk).
    apply (IH _ h); auto. rewrite rb_mk_red. auto.
  - destruct Hk as (Hs & Hk). apply (IH _ (S h)); auto; [rewrite rb_mk_black; auto|].
    rewrite tcol_mk. auto.
Qed.

(** ** The augmented maximum *)

Section augmented.
Context (compute : Z -> Z).
Hypothesis compute_nonneg : forall n, 0 <= compute n.

Definition augz (au : Z -> Z) (t : tree) : Z := match t with E => 0 | T _ _ n _ => au n end.

(** Every node holds the maximum of its own scalar and its children's values. *)
Fixpoint aug_ok (au : Z -> Z) (t : tree) : Prop :=
  match t with
  | E => True
  | T _ l n r =>
      au n = Z.max (compute n) (Z.max (augz au l) (augz au r)) /\ aug_ok au l /\ aug_ok au r
  end.

(** The same for the nodes above a hole whose subtree has the value [v]. *)
Fixpoint aug_ctx (au : Z -> Z) (k : list frame) (v : Z) : Prop :=
  match k with
  | [] => True
  | F _ _ n s :: k' =>
      au n = Z.max (compute n) (Z.max v (augz au s)) /\ aug_ok au s /\ aug_ctx au k' (au n)
  end.

Lemma aug_ok_mk au d c n a b :
  aug_ok au (mk d c n a b) <->
  au n = Z.max (compute n) (Z.max (augz au a) (augz au b)) /\ aug_ok au a /\ aug_ok au b.
Proof. destruct d; cbn; rewrite ?(Z.max_comm (augz au b)); tauto. Qed.
Lemma augz_mk au d c n a b : augz au (mk d c n a b) = au n.
Proof. now destruct d. Qed.
Lemma augz_paint au c t : augz au (paint c t) = augz au t.
Proof. now destruct t. Qed.
Lemma aug_ok_paint au c t : aug_ok au (paint c t) <-> aug_ok au t.
Proof. now destruct t. Qed.

Lemma aug_nonneg au t : aug_ok au t -> 0 <= augz au t.
Proof. destruct t as [|c l n r]; cbn; [lia|]. intros [-> _]. pose proof (compute_nonneg n). lia. Qed.

Lemma aug_plug au k t : aug_ok au t -> aug_ctx au k (augz au t) -> aug_ok au (plug k t).
Proof.
  revert t. induction k as [|[d c n s] k IH]; intros t Ht; cbn; [auto|]. intros (Hn & Hs & Hk).
  apply IH; [rewrite aug_ok_mk; auto|now rewrite augz_mk].
Qed.

Lemma aug_up au d c n s k t :
  aug_ok au t /\ aug_ctx au (F d c n s :: k) (augz au t) <->
  aug_ok au (mk d c n t s) /\ aug_ctx au k (augz au (mk d c n t s)).
Proof. cbn. rewrite aug_ok_mk, augz_mk. tauto. Qed.

(** Frame: only the nodes of the tree matter. *)
Lemma augz_frame au au' t : (forall m, m ∈ ids t -> au' m = au m) -> augz au' t = augz au t.
Proof. clear dependent compute. destruct t; cbn; [auto|]. intros H. apply H. set_solver. Qed.

Lemma aug_ok_frame au au' t : (forall m, m ∈ ids t -> au' m = au m) -> aug_ok au t -> aug_ok au' t.
Proof. clear compute_nonneg.
  induction t as [|c l IHl n r IHr]; cbn; [auto|]. intros H (Hn & Hl & Hr).
  rewrite (augz_frame au au' l), (augz_frame au au' r), H by (intros; try apply H; set_solver).
  split_and!; auto; [apply IHl|apply IHr]; auto; intros; apply H; set_solver.
Qed.

Lemma aug_ctx_frame au au' k v : (forall m, m ∈ cids k -> au' m = au m) -> aug_ctx au k v -> aug_ctx au' k v.
Proof. clear compute_nonneg.
  revert v. induction k as [|[d c n s] k IH]; cbn; [auto|]. intros v H (Hn & Hs & Hk).
  rewrite (augz_frame au au' s), H by (intros; apply H || idtac; set_solver).
  split_and!; auto; [eapply aug_ok_frame; [|exact Hs]|apply IH; auto]; intros; apply H; set_solver.
Qed.

(** *** The callbacks *)

(** The pointer to a subtree is null only when it is empty. *)
Definition rid_ok (t : tree) : Prop := rid t = 0 -> t = E.

Lemma rep_rid_ok nd par t : rep nd par t -> rid_ok t.
Proof. destruct t; [done|]. intros (Hn & _) H0. now cbn in H0. Qed.

Lemma max_of_children_spec st d x p B C :
  nodes st x = mkn d p (rid B) (rid C) -> rid_ok B -> rid_ok C ->
  0 <= augz (aug st) B -> 0 <= augz (aug st) C ->
  max_of_children compute st x = Z.max (compute x) (Z.max (augz (aug st) B) (augz (aug st) C)).
Proof.
  intros Hx HB HC H1 H2. pose proof (compute_nonneg x).
  assert (Hch : forall t m, rid_ok t -> 0 <= augz (aug st) t -> 0 <= m ->
    (if negb (rid t =? NULL) then if m <? aug st (rid t) then aug st (rid t) else m else m) =
    Z.max m (augz (aug st) t)).
  { intros t m Ht Ht0 Hm. destruct t as [|c l n r]; cbn [rid augz] in *; [change (0 =? NULL) with true; cbn; lia|].
    replace (n =? NULL) with false by (symmetry; apply Z.eqb_neq; intros ->; now specialize (Ht eq_refl)). cbn [negb].
    case_bools; lia. }
  unfold max_of_children. destruct d.
  - rewrite (child_near st Left x _ _ _ Hx). change Right with (opp Left). rewrite (child_far st Left x _ _ _ Hx).
    rewrite (Hch B), (Hch C) by (auto; lia). lia.
  - change Left with (opp Right). rewrite (child_far st Right x _ _ _ Hx), (child_near st Right x _ _ _ Hx).
    rewrite (Hch C), (Hch B) by (auto; lia). lia.
Qed.

Lemma max_rotate_spec st d x y p B C :
  nodes st x = mkn d p (rid B) (rid C) -> rep (nodes st) x B -> rep (nodes st) x C ->
  aug_ok (aug st) B -> aug_ok (aug st) C -> y ∉ ids B -> y ∉ ids C ->
  let st' := max_rotate compute st x y in
  nodes st' = nodes st /\ root st' = root st /\
  aug st' = <[x := Z.max (compute x) (Z.max (augz (aug st) B) (augz (aug st) C))]> (<[y := aug st x]> (aug st)).
Proof.
  intros Hx HB HC HaB HaC HyB HyC. unfold max_rotate, compute_max. cbn [andb snd fst].
  assert (Hfr : forall t, y ∉ ids t -> augz (<[y := aug st x]> (aug st)) t = augz (aug st) t).
  { intros t Hy. apply augz_frame. intros m Hm. apply fn_lookup_insert_ne. intros ->. done. }
  rewrite (max_of_children_spec _ d x p B C); cbn [set_aug nodes aug root]; eauto using rep_rid_ok.
  - now rewrite !Hfr.
  - rewrite Hfr by auto. now apply aug_nonneg.
  - rewrite Hfr by auto. now apply aug_nonneg.
Qed.

Definition same_aug (S : list Z) (st st' : store) : Prop := forall m, m ∉ S -> aug st' m = aug st m.

(** Case 3 of insertion: [q] under [g] on side [d] is rotated above it. *)
Lemma insert_rotate_spec st d k g q pg pq A B U :
  g <> 0 -> q <> 0 -> addr g -> addr q ->
  nodes st g = mkn d (pcv (cid k) Black) pg (rid U) -> nodes st q = mkn d pq (rid A) (rid B) ->
  rep (nodes st) q A -> rep (nodes st) q B -> rep (nodes st) g U -> rep_ctx st k g ->
  NoDup (g :: q :: ids A ++ ids B ++ ids U ++ cids k) -> tcol B = Black ->
  aug_ok (aug st) A -> aug_ok (aug st) B -> aug_ok (aug st) U ->
  aug st q = Z.max (compute q) (Z.max (augz (aug st) A) (augz (aug st) B)) ->
  aug st g = Z.max (compute g) (Z.max (aug st q) (augz (aug st) U)) ->
  let tmp := rid B in
  let st' := set_child st d g tmp in
  let st' := set_child st' (opp d) q g in
  let st' := if negb (tmp =? NULL) then rb_set_parent_color st' tmp g RB_BLACK else st' in
  let st' := __rb_rotate_set_parents st' g q RB_RED in
  let st' := max_rotate compute st' g q in
  let t' := mk d Black q A (mk d Red g B U) in
  zrep st' k t' /\ aug_ok (aug st') t' /\ augz (aug st') t' = aug st g /\
  only (g :: q :: ids B ++ cids k) st st' /\ same_aug [g; q] st st'.
Proof.
  intros Hg0 Hq0 Hga Hqa Hg Hq HA HB HU Hk Hnd HcB HaA HaB HaU Hagq Hagg. nd_facts Hnd. cbv zeta.
  rewrite (set_child_near st d g _ _ _ _ Hg). set (st1 := upd st g _).
  assert (Hq1 : nodes st1 q = mkn d pq (rid A) (rid B)) by (unfold st1; now rd).
  rewrite (set_child_far st1 d q _ _ _ _ Hq1). set (st2 := upd st1 q _).
  assert (Ho2 : only [g; q] st st2).
  { unfold st2, st1. intros m Hm. nd_facts Hm. now rd. }
  assert (HB2 : rep (nodes st2) q B) by (eapply rep_only; [exact Ho2|disj|exact HB]).
  destruct (reparent_color st2 q g B Black) as (HB3 & Ho3 & Ha3 & Hr3); auto.
  rewrite paint_black in HB3 by auto. change (colz Black) with RB_BLACK in *.
  set (st3 := if negb (rid B =? NULL) then _ else _) in *.
  assert (Hrep3 : forall par t, (forall m, m ∈ ids t -> m ∉ [g; q]) -> (forall m, m ∈ ids t -> m ∉ ids B) ->
    rep (nodes st) par t -> rep (nodes st3) par t).
  { intros par t H1 H2 Ht. eapply rep_only; [exact Ho3|exact H2|]. eapply rep_only; [exact Ho2|exact H1|exact Ht]. }
  assert (Hk3 : rep_ctx st3 k g).
  { apply (rep_ctx_only (ids B) st2); auto; [set_solver|]. apply (rep_ctx_only [g; q] st); auto. disj. }
  destruct (rotate_set_parents_spec st3 d k g q Black Red pq A B U) as (Hz & Ho4 & Ha4 & Hg4); auto;
    try (rewrite Ho3 by auto; unfold st2, st1; now rd); try (apply Hrep3; auto; disj || set_solver).
  change (colz Red) with RB_RED in *. set (st4 := __rb_rotate_set_parents st3 g q RB_RED) in *.
  assert (Haug : aug st4 = aug st) by (rewrite Ha4, Ha3; reflexivity).
  pose proof (proj1 Hz) as Hrep4. rewrite !rep_mk in Hrep4. destruct Hrep4 as (_ & _ & _ & _ & _ & _ & _ & HB4 & HU4).
  destruct (max_rotate_spec st4 d g q _ B U Hg4) as (Hn5 & Hr5 & Ha5); auto; try (now rewrite Haug).
  set (st5 := max_rotate compute st4 g q) in *. rewrite Haug in Ha5.
  assert (Hfr : forall t, g ∉ ids t -> q ∉ ids t -> forall m, m ∈ ids t -> aug st5 m = aug st m).
  { intros t H1 H2 m Hm. rewrite Ha5, !fn_lookup_insert_ne; [auto|intros ->; done..]. }
  assert (Hag : aug st5 g = Z.max (compute g) (Z.max (augz (aug st) B) (augz (aug st) U)))
    by (rewrite Ha5; apply fn_lookup_insert).
  assert (Haq : aug st5 q = aug st g) by (rewrite Ha5, fn_lookup_insert_ne by auto; apply fn_lookup_insert).
  split_and!.
  - eapply zrep_same; eauto.
  - rewrite !aug_ok_mk, augz_mk, Hag, Haq, !(augz_frame (aug st) (aug st5)) by (apply Hfr; auto).
    split_and!; auto; try (eapply aug_ok_frame; [apply Hfr; auto|auto]). lia.
  - now rewrite augz_mk.
  - intros m Hm. rewrite Hn5, Ho4 by set_solver. rewrite Ho3 by set_solver. apply Ho2. set_solver.
  - intros m Hm. nd_facts Hm. now rewrite Ha5, !fn_lookup_insert_ne.
Qed.

(** The tree after cases 2 and 3 of insertion. *)
Definition insert_rotated (d d1 : dir) (n p g : Z) (a b s1 u : tree) : tree :=
  if decide (d1 = d) then mk d Black p (mk d Red n a b) (mk d Red g s1 u)
  else mk d Black n (mk d Red p s1 a) (mk d Red g b u).

Lemma insert_case23_spec st d d1 k n p g a b s1 u :
  zrep st (F d1 Red p s1 :: F d Black g u :: k) (mk d Red n a b) ->
  tcol a = Black -> tcol b = Black -> tcol s1 = Black ->
  aug_ok (aug st) (mk d Red n a b) ->
  aug_ctx (aug st) (F d1 Red p s1 :: F d Black g u :: k) (aug st n) ->
  let st' := insert_case23 (callbacks_max compute) st d n p g in
  let t' := insert_rotated d d1 n p g a b s1 u in
  zrep st' k t' /\ aug_ok (aug st') t' /\ augz (aug st') t' = aug st g /\
  only (n :: p :: g :: ids a ++ ids b ++ ids s1 ++ ids u ++ cids k) st st' /\ same_aug [n; p; g] st st'.
Proof.
  intros (Hrep & Hctx & Hnd) Hca Hcb Hcs Hau Hac.
  assert (Hnd' : NoDup (n :: p :: g :: ids a ++ ids b ++ ids s1 ++ ids u ++ cids k)).
  { eapply NoDup_perm; [exact Hnd|]. rewrite ids_mk. cbn [cids]. solve_Permutation. }
  clear Hnd. nd_facts Hnd'. cbn [cid] in Hrep. rewrite rep_mk in Hrep. destruct Hrep as (Hn0 & Hna & Hn & Ha & Hb).
  cbn [rep_ctx cid] in Hctx. rewrite rid_mk in Hctx. destruct Hctx as (Hp0 & Hpa & Hp & Hs1 & Hg0 & Hga & Hg & Hu & Hk).
  rewrite aug_ok_mk in Hau. destruct Hau as (Haun & Haua & Haub). cbn [aug_ctx] in Hac.
  destruct Hac as (Haup & Haus & Haug & Hauu & Hauk).
  unfold insert_case23, insert_rotated. cbv zeta. cbn [rotate callbacks_max].
  destruct (decide (d1 = d)) as [->|Hdir].
  - rewrite (child_far st d p _ _ _ Hp).
    replace (n =? rid s1) with false by (symmetry; apply Z.eqb_neq; destruct s1; cbn in *; set_solver).
    destruct (insert_rotate_spec st d k g p p (pcv g Red) (mk d Red n a b) s1 u) as (H1 & H2 & H3 & H4 & H5);
      rewrite ?rid_mk; auto.
    + rewrite rep_mk. auto.
    + eapply NoDup_perm; [exact Hnd'|]. rewrite ids_mk. solve_Permutation.
    + rewrite aug_ok_mk. auto.
    + rewrite augz_mk. exact Haup.
    + split_and!; auto.
      * intros m Hm. apply H4. set_solver.
      * intros m Hm. apply H5. set_solver.
  - assert (d1 = opp d) as -> by (destruct d, d1; done). rewrite mkn_opp in Hp.
    rewrite (child_far st d p _ _ _ Hp), Z.eqb_refl, (child_near st d n _ _ _ Hn).
    rewrite (set_child_far st d p _ _ _ _ Hp). set (st1 := upd st p _).
    assert (Hn1 : nodes st1 n = mkn d (pcv p Red) (rid a) (rid b)) by (unfold st1; now rd).
    rewrite (set_child_near st1 d n _ _ _ _ Hn1). set (st2 := upd st1 n _).
    assert (Ho2 : only [p; n] st st2) by (unfold st2, st1; intros m Hm; nd_facts Hm; now rd).
    destruct (reparent_color st2 n p a Black) as (Ha3 & Ho3 & Hag3 & Hr3);
      [auto|eapply rep_only; [exact Ho2|disj|exact Ha]|].
    rewrite paint_black in Ha3 by auto. change (colz Black) with RB_BLACK in *.
    set (st3 := if negb (rid a =? NULL) then _ else _) in *.
    assert (Hp3 : nodes st3 p = mkn d (pcv g Red) (rid s1) (rid a))
      by (rewrite Ho3 by auto; unfold st2, st1; now rd).
    assert (E4 : rb_set_parent_color st3 p n RB_RED = upd st3 p (mkn d (pcv n Red) (rid s1) (rid a)))
      by (apply (set_pc_mkn st3 d p _ _ _ _ Hp3)).
    rewrite E4. clear E4. set (st4 := upd st3 p _).
    assert (Ho4 : only (p :: n :: ids a) st st4).
    { intros m Hm. unfold st4. assert (p <> m) by set_solver. rd. rewrite Ho3 by set_solver. apply Ho2. set_solver. }
    assert (Hp4 : nodes st4 p = mkn d (pcv n Red) (rid s1) (rid a)) by (unfold st4; now rd).
    assert (Hn4 : nodes st4 n = mkn d (pcv p Red) p (rid b)).
    { unfold st4. rd. rewrite Ho3 by auto. unfold st2. now rd. }
    assert (Hs4 : rep (nodes st4) p s1) by (eapply rep_only; [exact Ho4|set_solver|exact Hs1]).
    assert (Ha4 : rep (nodes st4) p a) by (eapply rep_only; [apply (only_upd [p]); set_solver|disj|exact Ha3]).
    assert (Haug4 : aug st4 = aug st) by exact Hag3. assert (Hr4 : root st4 = root st) by exact Hr3.
    destruct (max_rotate_spec st4 d p n _ s1 a Hp4 Hs4 Ha4) as (Hn5 & Hr5 & Ha5); auto; try (now rewrite Haug4).
    set (st5 := max_rotate compute st4 p n) in *. rewrite Haug4 in Ha5. clearbody st4 st5. rewrite <- Hn5 in Hn4, Hp4, Hs4, Ha4.
    assert (Ho5 : only (p :: n :: ids a) st st5) by (intros m Hm; rewrite Hn5; now apply Ho4).
    rewrite (child_far st5 d n _ _ _ Hn4).
    assert (Hap : aug st5 p = Z.max (compute p) (Z.max (augz (aug st) s1) (augz (aug st) a)))
      by (rewrite Ha5; apply fn_lookup_insert).
    assert (Han : aug st5 n = aug st p) by (rewrite Ha5, fn_lookup_insert_ne by auto; apply fn_lookup_insert).
    assert (Hfr : forall m, m <> p -> m <> n -> aug st5 m = aug st m)
      by (intros m ? ?; rewrite Ha5, !fn_lookup_insert_ne by auto; auto).
    assert (Hfz : forall t, p ∉ ids t -> n ∉ ids t -> augz (aug st5) t = augz (aug st) t)
      by (intros t ? ?; apply augz_frame; intros m Hm; apply Hfr; intros ->; done).
    assert (Hfo : forall t, p ∉ ids t -> n ∉ ids t -> aug_ok (aug st) t -> aug_ok (aug st5) t)
      by (intros t ? ?; apply aug_ok_frame; intros m Hm; apply Hfr; intros ->; done).
    destruct (insert_rotate_spec st5 d k g n p (pcv p Red) (mk d Red p s1 a) b u) as (H1 & H2 & H3 & H4 & H5);
      rewrite ?rid_mk; auto.
    + rewrite Ho5 by set_solver. exact Hg.
    + rewrite rep_mk. auto.
    + eapply rep_only; [exact Ho5|set_solver|exact Hb].
    + eapply rep_only; [exact Ho5|set_solver|exact Hu].
    + apply (rep_ctx_only (p :: n :: ids a) st); auto; [congruence|set_solver].
    + eapply NoDup_perm; [exact Hnd'|]. rewrite ids_mk. solve_Permutation.
    + rewrite aug_ok_mk, Hap, !Hfz by auto. auto.
    + rewrite augz_mk, Han, Hap, Hfz by auto. rewrite Haup, Haun. clear. lia.
    + rewrite Han, Hfz, Hfr by auto. exact Haug.
    + split_and!; [exact H1|exact H2|rewrite H3; now apply Hfr|..].
      * intros m Hm. rewrite H4 by set_solver. apply Ho5. set_solver.
      * intros m Hm. rewrite H5 by set_solver. nd_facts Hm. now apply Hfr.
Qed.

(** Equality of in-order sequences. *)
Ltac inorder_eq := cbn; repeat (rewrite <- app_assoc || rewrite <- app_comm_cons); reflexivity.

(** A red tree seen from side [d]. *)
Lemma red_tree_mk d t : tcol t = Red -> exists n a b, t = mk d Red n a b.
Proof. destruct t as [|[] l n r]; try discriminate. intros _. destruct d; [exists n, l, r|exists n, r, l]; reflexivity. Qed.

(** The side the code computes from [parent != gparent->rb_right]. *)
Lemma side_spec st d n s p hid :
  nodes st n = mkn d p hid (rid s) -> hid <> rid s ->
  (if negb (hid =? child st Right n) then Left else Right) = d.
Proof.
  intros Hn Hne. destruct d.
  - change Right with (opp Left) at 1. rewrite (child_far st Left n _ _ _ Hn).
    now replace (hid =? rid s) with false by (symmetry; now apply Z.eqb_neq).
  - now rewrite (child_near st Right n _ _ _ Hn), Z.eqb_refl.
Qed.

(** What insertion and deletion establish, from a store holding [plug k t]. *)
Definition rb_result (st st' : store) (S : list Z) (xs : list Z) : Prop :=
  exists t', zrep st' [] t' /\ is_rb t' /\ inorder t' = xs /\ aug_ok (aug st') t' /\
    only S st st' /\ same_aug S st st'.

Lemma rb_result_trans st st1 st' S S1 xs :
  only S st st1 -> same_aug S st st1 -> (forall m, m ∈ S1 -> m ∈ S) ->
  rb_result st1 st' S1 xs -> rb_result st st' S xs.
Proof.
  intros Ho Ha Hs (t' & H1 & H2 & H3 & H4 & H5 & H6). exists t'. split_and!; auto.
  - eapply only_trans; eauto.
  - intros m Hm. rewrite H6, Ha; auto.
Qed.

Lemma rb_result_plug st st' S k t h xs :
  zrep st' k t -> rb t h -> rb_ctx k h -> tcol t = Black \/ ctop k = Some Black ->
  aug_ok (aug st') t -> aug_ctx (aug st') k (augz (aug st') t) -> inorder (plug k t) = xs ->
  only S st st' -> same_aug S st st' -> rb_result st st' S xs.
Proof.
  intros Hz Hrb Hk Hc Ha Hac Hx Ho Hs. exists (plug k t). split_and!; auto.
  - now apply (proj1 (zrep_plug st' k t)).
  - eapply rb_plug; eauto.
  - now apply aug_plug.
Qed.

Lemma rb_insert_rotated d d1 n p g a b s1 u h :
  rb (mk d Red n a b) h -> tcol s1 = Black -> rb s1 h -> tcol u = Black -> rb u h ->
  rb (insert_rotated d d1 n p g a b s1 u) (S h) /\
  inorder (insert_rotated d d1 n p g a b s1 u) = inorder (mk d Black g (mk d1 Red p (mk d Red n a b) s1) u).
Proof.
  intros Hn Hs Hs1 Hcu Hu. rewrite rb_mk_red in Hn. destruct Hn as (Ha & Hb & Hra & Hrb).
  unfold insert_rotated. destruct (decide (d1 = d)) as [->|Hd].
  - rewrite rb_mk_black, !rb_mk_red. split; [split_and!; auto|]. destruct d; inorder_eq.
  - rewrite rb_mk_black, !rb_mk_red. split; [split_and!; auto|].
    assert (d1 = opp d) as -> by (destruct d, d1; done). destruct d; inorder_eq.
Qed.

(** Case 1 of insertion: the colours of parent, uncle and grandparent flip. *)
Lemma insert_flip_spec st d d1 k t p g s1 ul un ur :
  zrep st (F d1 Red p s1 :: F d Black g (T Red ul un ur) :: k) t ->
  let st1 := rb_set_parent_color st un g RB_BLACK in
  let st2 := rb_set_parent_color st1 p g RB_BLACK in
  let st3 := rb_set_parent_color st2 g (cid k) RB_RED in
  rb_parent st2 g = cid k /\
  zrep st3 k (mk d Red g (mk d1 Black p t s1) (T Black ul un ur)) /\
  only [un; p; g] st st3 /\ aug st3 = aug st.
Proof.
  intros (Hrep & Hctx & Hnd). cbn [cid rep_ctx cids ids rid] in *.
  destruct Hctx as (Hp0 & Hpa & Hp & Hs1 & Hg0 & Hga & Hg & (Hu0 & Hua & Hu & Hul & Hur) & Hk).
  assert (Hnd' : NoDup (un :: p :: g :: ids t ++ ids s1 ++ ids ul ++ ids ur ++ cids k))
    by (eapply NoDup_perm; [exact Hnd|solve_Permutation]).
  nd_facts Hnd'. cbv zeta. unfold rb_set_parent_color.
  rewrite (set_pc_mkn st Left un _ _ _ _ Hu). set (st1 := upd st un _).
  assert (Hp1 : nodes st1 p = mkn d1 (pcv g Red) (rid t) (rid s1)) by (unfold st1; now rd).
  rewrite (set_pc_mkn st1 d1 p _ _ _ _ Hp1). set (st2 := upd st1 p _).
  assert (Hg2 : nodes st2 g = mkn d (pcv (cid k) Black) p un) by (unfold st2, st1; now rd).
  rewrite (set_pc_mkn st2 d g _ _ _ _ Hg2). set (st3 := upd st2 g _).
  assert (Ho : only [un; p; g] st st3) by (unfold st3, st2, st1; intros m Hm; nd_facts Hm; now rd).
  split_and!; auto.
  - unfold rb_parent. rewrite Hg2, pc_mkn. apply parent_pcv. eapply rep_ctx_addr; eauto.
  - split_and!.
    + rewrite !rep_mk, rid_mk. cbn [rid rep]. split_and!; auto; try (eapply rep_only; [exact Ho|disj|assumption]);
        unfold st3, st2, st1; now rd.
    + rewrite rid_mk. apply (rep_ctx_only [un; p; g] st); auto. disj.
    + eapply NoDup_perm; [exact Hnd|]. rewrite !ids_mk. cbn [ids]. solve_Permutation.
Qed.

Lemma insert_loop_spec fuel st k t h :
  zrep st k t -> tcol t = Red -> rb t h -> rb_ctx k h ->
  aug_ok (aug st) t -> aug_ctx (aug st) k (augz (aug st) t) -> (length k < fuel)%nat ->
  exists st', rb_insert_loop (callbacks_max compute) fuel st (rid t) (cid k) = Some st' /\
    rb_result st st' (ids t ++ cids k) (inorder (plug k t)).
Proof.
  revert st k t h. induction fuel as [|fuel IH]; intros st k t h Hz Hred Hrb Hk Ha Hac Hf; [lia|].
  assert (HtE : t <> E) by (intros ->; discriminate). pose proof Hz as (Hrep & Hctx & Hnd).
  cbn [rb_insert_loop]. destruct k as [|[d1 c1 p s1] k].
  - (* the root *)
    cbn [cid]. rewrite Z.eqb_refl. eexists. split; [reflexivity|].
    destruct (reparent_color st 0 NULL t Black) as (H1 & H2 & H3 & H4); auto; [rewrite app_nil_r in Hnd; auto|].
    destruct (rid_nonzero _ _ _ Hrep HtE) as [Hr0 _].
    replace (rid t =? NULL) with false in * by (symmetry; now apply Z.eqb_neq). cbn [negb] in *.
    change (colz Black) with RB_BLACK in *.
    assert (Hb : rb (paint Black t) (S h)) by (destruct t as [|[] l n r]; [done|cbn in *; tauto|discriminate]).
    apply (rb_result_plug _ _ _ [] (paint Black t) (S h)); auto.
    + split_and!; auto; [|now rewrite ids_paint]. rewrite rid_paint. exact Hctx.
    + left. destruct t; [done|reflexivity].
    + rewrite aug_ok_paint, H3. exact Ha.
    + apply inorder_paint.
    + intros m Hm. apply H2. set_solver.
    + intros m _. now rewrite H3.
  - destruct Hctx as (Hp0 & Hpa & Hp & Hs1 & Hctx). cbn [cid].
    replace (p =? NULL) with false by (symmetry; now apply Z.eqb_neq).
    assert (Hcp : addr (cid k)) by (eapply rep_ctx_addr; eauto).
    unfold rb_is_black. rewrite (rb_color_mkn st d1 p _ c1 _ _ Hcp Hp). destruct c1; cbn [colz].
    2:{ (* black parent *)
      change (RB_BLACK =? 0) with false. eexists. split; [reflexivity|].
      apply (rb_result_plug _ _ _ (F d1 Black p s1 :: k) t h); auto using only_refl. now intros m _. }
    destruct Hk as (Hcs & Hrs & Htop & Hk). destruct k as [|[d [] g u] k]; try discriminate.
    destruct Hk as (Hru & Hk). cbn [rep_ctx] in Hctx. destruct Hctx as (Hg0 & Hga & Hg & Hu & Hctx).
    change (negb (RB_RED =? 0)) with false. cbv iota.
    assert (Hrp : rb_red_parent st p = g) by (unfold rb_red_parent; rewrite Hp, pc_mkn; apply pcv_red).
    rewrite Hrp. cbn [cids] in Hnd. assert (Hpu : p <> rid u).
    { destruct u as [|cu ul un ur]; [exact Hp0|]. cbn [rid]. intros ->.
      apply (NoDup_perm _ (un :: un :: ids t ++ ids s1 ++ g :: ids ul ++ ids ur ++ cids k)) in Hnd; [|cbn [ids]; solve_Permutation].
      apply NoDup_cons in Hnd as [Hnd _]. set_solver. }
    rewrite (side_spec st d g u _ p Hg Hpu), (child_far st d g _ _ _ Hg), (red_child st g u Hga Hu).
    destruct (tcol u) eqn:Hcu.
    + (* red uncle *)
      destruct u as [|[] ul un ur]; try discriminate. cbn [rid].
      destruct (insert_flip_spec st d d1 k t p g s1 ul un ur Hz) as (Hpar & Hz' & Ho' & Ha'). cbv zeta in *.
      rewrite Hpar. cbn in Hru. destruct Hru as (Hul & Hur & Hrul & Hrur).
      set (st3 := rb_set_parent_color _ g (cid k) RB_RED) in *.
      set (t' := mk d Red g (mk d1 Black p t s1) (T Black ul un ur)) in *.
      destruct (IH st3 k t' (S h)) as (st' & E' & Hres); auto.
      * apply tcol_mk.
      * unfold t'. rewrite rb_mk_red, tcol_mk. split_and!; auto; [now apply rb_mk_black|cbn; auto].
      * rewrite Ha'. unfold t'. cbn in Hac. rewrite !aug_ok_mk, augz_mk. cbn. tauto.
      * rewrite Ha'. unfold t'. rewrite augz_mk. cbn in Hac. tauto.
      * cbn in Hf. lia.
      * exists st'. unfold t' in E'. rewrite rid_mk in E'. split; [exact E'|].
        replace (inorder (plug (F d1 Red p s1 :: F d Black g (T Red ul un ur) :: k) t)) with (inorder (plug k t'))
          by (cbn [plug]; apply inorder_plug_eq; unfold t'; destruct d, d1; inorder_eq).
        eapply rb_result_trans; [| | |exact Hres].
        -- intros m Hm. apply Ho'. cbn in Hm. set_solver.
        -- intros m _. now rewrite Ha'.
        -- intros m. unfold t'. rewrite !elem_of_app, !ids_mk. cbn. set_solver.
    + (* black uncle *)
      destruct (red_tree_mk d t Hred) as (n & a & b & ->). rewrite rid_mk.
      rewrite rb_mk_red in Hrb. destruct Hrb as (Hca & Hcb & Hra & Hrb).
      destruct (insert_case23_spec st d d1 k n p g a b s1 u) as (H1 & H2 & H3 & H4 & H5); auto;
        [now rewrite augz_mk in Hac|]. cbv zeta in *.
      set (st' := insert_case23 _ st d n p g) in *. eexists. split; [reflexivity|].
      destruct (rb_insert_rotated d d1 n p g a b s1 u h) as [Hrot Hin]; auto; [now rewrite rb_mk_red|].
      apply (rb_result_plug _ _ _ k (insert_rotated d d1 n p g a b s1 u) (S h)); auto.
      * left. unfold insert_rotated. destruct (decide (d1 = d)); apply tcol_mk.
      * rewrite H3. cbn [aug_ctx] in Hac. destruct Hac as (_ & _ & _ & _ & Hac).
        eapply aug_ctx_frame; [|exact Hac]. intros m Hm. apply H5.
        assert (Hnd' : NoDup (n :: p :: g :: ids a ++ ids b ++ ids s1 ++ ids u ++ cids k))
          by (eapply NoDup_perm; [exact Hnd|]; rewrite ids_mk; solve_Permutation).
        nd_facts Hnd'. revert m Hm. disj.
      * cbn [plug]. apply inorder_plug_eq, Hin.
      * intros m Hm. apply H4. rewrite elem_of_app, ids_mk in Hm. cbn in Hm. set_solver.
      * intros m Hm. apply H5. rewrite elem_of_app, ids_mk in Hm. cbn in Hm. set_solver.
Qed.

(** *** Propagation

    [propagate(rb, stop)] climbs the nodes of a path [k] whose topmost parent
    pointer is [stop]; [rep_seg] describes such a path. *)

Definition segcid (base : Z) (k : list frame) : Z := match k with [] => base | F _ _ n _ :: _ => n end.

Fixpoint rep_seg (nd : Z -> rb_node) (base : Z) (k : list frame) (hid : Z) : Prop :=
  match k with
  | [] => True
  | F d c n s :: k' =>
      n <> 0 /\ addr n /\ nd n = mkn d (pcv (segcid base k') c) hid (rid s) /\ rep nd n s /\ rep_seg nd base k' n
  end.

Lemma segcid_0 k : segcid 0 k = cid k.
Proof. now destruct k as [|[]]. Qed.

Lemma rep_ctx_seg st k hid : rep_ctx st k hid -> rep_seg (nodes st) 0 k hid.
Proof.
  revert hid. induction k as [|[d c n s] k IH]; intros hid; cbn [rep_ctx rep_seg]; [auto|].
  intros (? & ? & ? & ? & ?). split_and!; auto.
Qed.

Lemma segcid_addr nd base k hid : addr base -> rep_seg nd base k hid -> addr (segcid base k).
Proof. destruct k as [|[]]; cbn; tauto. Qed.

(** All nodes of the path but the lowest are consistent with the values stored below them. *)
Definition aug_stale (au : Z -> Z) (k : list frame) : Prop :=
  match k with [] => True | F _ _ n s :: k' => aug_ok au s /\ aug_ctx au k' (au n) end.

Lemma aug_ctx_stale au k v : aug_ctx au k v -> aug_stale au k.
Proof. destruct k as [|[]]; cbn; tauto. Qed.

Lemma propagate_spec fuel st base k t :
  addr base -> rep_seg (nodes st) base k (rid t) -> rid_ok t ->
  NoDup (ids t ++ cids k) -> base ∉ cids k -> aug_ok (aug st) t -> aug_stale (aug st) k ->
  (length k <= fuel)%nat ->
  exists st', max_propagate compute fuel st (segcid base k) base = Some st' /\
    nodes st' = nodes st /\ root st' = root st /\ same_aug (cids k) st st' /\
    aug_ok (aug st') t /\ aug_ctx (aug st') k (augz (aug st') t).
Proof.
  intros Hb. revert fuel st t. induction k as [|[d c n s] k IH]; intros fuel st t Hk Ht Hnd Hbn Ha Hst Hf.
  { exists st. destruct fuel; cbn; rewrite Z.eqb_refl; split_and!; auto; now intros m _. }
  destruct Hk as (Hn0 & Hna & Hn & Hs & Hk). destruct Hst as (Has & Hac). cbn [segcid cids] in *.
  assert (Hnd' : NoDup (n :: ids t ++ ids s ++ cids k)) by (eapply NoDup_perm; [exact Hnd|solve_Permutation]).
  nd_facts Hnd'. destruct fuel as [|fuel]; [cbn in Hf; lia|]. cbn [max_propagate].
  replace (n =? base) with false by (symmetry; apply Z.eqb_neq; set_solver). unfold compute_max.
  rewrite (max_of_children_spec st d n _ t s Hn) by eauto using aug_nonneg, rep_rid_ok.
  set (m := Z.max _ _). cbn [andb]. destruct (Z.eqb_spec (aug st n) m) as [Hm|Hm].
  { exists st. cbn [aug_ctx]. split_and!; auto. now intros ? _. }
  set (st1 := set_aug st n m).
  assert (Hfr : forall x, x <> n -> aug st1 x = aug st x) by (intros; now apply fn_lookup_insert_ne).
  assert (Hn1 : aug st1 n = m) by apply fn_lookup_insert.
  assert (Hz : forall u, n ∉ ids u -> augz (aug st1) u = augz (aug st) u)
    by (intros u Hu; apply augz_frame; intros x Hx; apply Hfr; intros ->; done).
  assert (Ho : forall u, n ∉ ids u -> aug_ok (aug st) u -> aug_ok (aug st1) u)
    by (intros u Hu; apply aug_ok_frame; intros x Hx; apply Hfr; intros ->; done).
  assert (Hpar : rb_parent st1 n = segcid base k).
  { unfold rb_parent. cbn. rewrite Hn, pc_mkn. eapply parent_pcv, segcid_addr; eauto. }
  rewrite Hpar. destruct (IH fuel st1 (mk d c n t s)) as (st' & E' & Hns & Hrs & Hsa & Hok & Hcx).
  - now rewrite rid_mk.
  - intros H0. now rewrite rid_mk in H0.
  - eapply NoDup_perm; [exact Hnd'|]. rewrite ids_mk. solve_Permutation.
  - set_solver.
  - rewrite aug_ok_mk, Hn1, !Hz by auto. auto.
  - apply (aug_ctx_stale _ _ (aug st n)). eapply aug_ctx_frame; [|exact Hac]. intros x Hx. apply Hfr. intros ->. done.
  - cbn in Hf. lia.
  - exists st'. pose proof (proj2 (aug_up (aug st') d c n s k t) (conj Hok Hcx)) as [Hok' Hcx']. split_and!; auto.
    intros x Hx. rewrite Hsa by set_solver. apply Hfr. set_solver.
Qed.

(** Up to the root. *)
Lemma propagate_root fuel st k t :
  zrep st k t -> aug_ok (aug st) t -> aug_stale (aug st) k -> (length k <= fuel)%nat ->
  exists st', max_propagate compute fuel st (cid k) NULL = Some st' /\
    nodes st' = nodes st /\ root st' = root st /\ same_aug (cids k) st st' /\
    aug_ok (aug st') t /\ aug_ctx (aug st') k (augz (aug st') t).
Proof.
  intros (Hr & Hc & Hnd) Ha Hs Hf. rewrite <- segcid_0 in *.
  apply propagate_spec; eauto using addr_0, rep_ctx_seg, rep_ctx_null, rep_rid_ok.
Qed.

(** *** Insertion of a new leaf *)

Lemma rb_unplug k t :
  is_rb (plug k t) -> exists h, rb t h /\ rb_ctx k h /\ (tcol t = Black \/ ctop k = Some Black).
Proof.
  revert t. induction k as [|[d c n s] k IH]; intros t; cbn [plug].
  { intros [Hc [h Hh]]. exists h. cbn. auto. }
  intros H. destruct (IH _ H) as (h & Ht & Hk & Hc). rewrite tcol_mk in Hc. destruct c.
  - rewrite rb_mk_red in Ht. destruct Ht as (? & ? & ? & ?). destruct Hc as [|Hc]; [discriminate|].
    exists h. cbn. split_and!; auto.
  - destruct h as [|h]; [destruct d; now cbn in Ht|]. rewrite rb_mk_black in Ht. exists h. cbn. tauto.
Qed.

Lemma aug_unplug au k t : aug_ok au (plug k t) -> aug_ok au t /\ aug_ctx au k (augz au t).
Proof.
  revert t. induction k as [|[d c n s] k IH]; intros t; cbn [plug]; [cbn; auto|].
  intros H. apply aug_up. now apply IH.
Qed.

Definition top_dir (k : list frame) : dir := match k with [] => Left | F d _ _ _ :: _ => d end.

Lemma link_spec st k n :
  zrep st k E -> n <> 0 -> addr n -> n ∉ cids k ->
  let st' := write_link (rb_link_node st n (cid k)) (cid k) (top_dir k) n in
  zrep st' k (T Red E n E) /\ aug st' = aug st /\ only (n :: cids k) st st' /\ rb_red_parent st' n = cid k.
Proof. clear dependent compute.
  intros (_ & Hk & Hnd) Hn0 Hna Hn. cbv zeta. unfold rb_link_node.
  change (Store _ _ _) with (upd st n (Node (cid k) NULL NULL)). set (st1 := upd st n _).
  assert (Hk1 : rep_ctx st1 k 0).
  { apply (rep_ctx_only [n] st); [apply only_upd; set_solver|reflexivity|disj|exact Hk]. }
  assert (Hn1 : nodes st1 n = Node (pcv (cid k) Red) 0 0) by (rewrite pcv_red; apply nodes_upd_eq).
  assert (Ho1 : only [n] st st1) by (apply only_upd; set_solver).
  assert (Hnd' : NoDup (ids (T Red E n E) ++ cids k)) by (cbn; now apply NoDup_cons).
  assert (Hpar : forall st', nodes st' n = nodes st1 n -> rb_red_parent st' n = cid k)
    by (intros st' E; unfold rb_red_parent; rewrite E, Hn1; apply pcv_red).
  unfold write_link. destruct k as [|[d c p s] k]; cbn [cid top_dir cids] in *.
  { change (0 =? NULL) with true. cbv iota. split_and!; auto. split_and!; [cbn [rep]; auto|reflexivity|auto]. }
  destruct Hk1 as (Hp0 & Hpa & Hp & Hs & Hk1). replace (p =? NULL) with false by (symmetry; now apply Z.eqb_neq).
  rewrite (set_child_near st1 d p _ _ _ _ Hp). set (st2 := upd st1 p _).
  cbn in Hnd. nd_facts Hnd. nd_facts Hn.
  assert (Hn2 : nodes st2 n = nodes st1 n) by (apply nodes_upd_ne; congruence).
  assert (Ho2 : only [p] st1 st2) by (apply only_upd; set_solver). split_and!; auto.
  - split_and!; auto.
    + cbn [rep cid]. split_and!; auto. rewrite Hn2. exact Hn1.
    + cbn [rep_ctx rid]. split_and!; auto; [apply nodes_upd_eq|now apply rep_insert|].
      apply (rep_ctx_only [p] st1); auto. disj.
  - intros m Hm. rewrite Ho2, Ho1 by set_solver. reflexivity.
Qed.

(** The sequence of calls with which an augmented entry enters the tree. *)
Definition insert_entry (fuel : nat) (st : store) (parent : Z) (d : dir) (n : Z) : option store :=
  let st := rb_link_node st n parent in
  let st := write_link st parent d n in
  let st := set_aug st n 0 in
  st ← max_propagate compute fuel st n NULL;
  rb_insert_augmented compute fuel st n.

Lemma insert_entry_spec fuel st k n :
  zrep st k E -> is_rb (plug k E) -> aug_ok (aug st) (plug k E) ->
  n <> 0 -> addr n -> n ∉ cids k -> (length k < fuel)%nat ->
  exists st', insert_entry fuel st (cid k) (top_dir k) n = Some st' /\
    rb_result st st' (n :: cids k) (lctx k ++ n :: rctx k).
Proof.
  intros Hz Hrb Ha Hn0 Hna Hn Hf. destruct (rb_unplug k E Hrb) as (h & Hh & Hk & _).
  destruct (aug_unplug _ k E Ha) as [_ Hac].
  unfold insert_entry. destruct (link_spec st k n Hz Hn0 Hna Hn) as (Hz1 & Ha1 & Ho1 & Hp1). cbv zeta in *.
  set (st1 := write_link _ _ _ _) in *. set (st2 := set_aug st1 n 0).
  assert (Hz2 : zrep st2 k (T Red E n E)) by now apply (zrep_same st1).
  assert (Ha2 : forall m, m <> n -> aug st2 m = aug st m) by (intros; rewrite <- Ha1; now apply fn_lookup_insert_ne).
  assert (Hac2 : aug_ctx (aug st2) k 0) by (eapply aug_ctx_frame; [|exact Hac]; intros m Hm; apply Ha2; intros ->; done).
  assert (Hz3 : zrep st2 (F Left Red n E :: k) E) by now apply zrep_up.
  destruct (propagate_root fuel st2 (F Left Red n E :: k) E Hz3) as (st3 & E3 & Hn3 & Hr3 & Hs3 & Ho3 & Hc3).
  - done.
  - cbn. split; [done|]. change (<[n:=0]> (aug st1) n) with (aug st2 n). replace (aug st2 n) with 0; [auto|].
    symmetry. apply fn_lookup_insert.
  - cbn. lia.
  - cbn [cid] in E3. rewrite E3. cbn [mbind option_bind]. unfold rb_insert_augmented, __rb_insert.
    pose proof (proj1 (aug_up (aug st3) Left Red n E k E) (conj Ho3 Hc3)) as [Hok Hcx].
    assert (Hp3 : rb_red_parent st3 n = cid k) by (unfold rb_red_parent in *; rewrite Hn3; exact Hp1).
    rewrite Hp3. destruct (insert_loop_spec fuel st3 k (T Red E n E) h) as (st' & E' & Hres); auto.
    + now apply (zrep_same st2).
    + cbn in *. auto.
    + exists st'. split; [exact E'|]. rewrite inorder_plug in Hres. cbn in Hres.
      eapply rb_result_trans; [| | |exact Hres]; [| |set_solver].
      * intros m Hm. rewrite Hn3. now apply Ho1.
      * intros m Hm. rewrite Hs3 by set_solver. apply Ha2. set_solver.
Qed.

(** *** Deletion: rebalancing *)

(** Case 4: [q], the sibling, is rotated above [p]; its far child [B] turns black. *)
Lemma erase_rotate_spec st d k p q c ps pq par0 t A B :
  p <> 0 -> q <> 0 -> addr p -> addr q ->
  nodes st p = mkn d (pcv (cid k) c) (rid t) ps -> nodes st q = mkn d pq (rid A) (rid B) ->
  rep (nodes st) p t -> rep (nodes st) q A -> rep (nodes st) par0 B -> B <> E -> rep_ctx st k p ->
  NoDup (p :: q :: ids t ++ ids A ++ ids B ++ cids k) ->
  aug_ok (aug st) t -> aug_ok (aug st) A -> aug_ok (aug st) B ->
  aug st q = Z.max (compute q) (Z.max (augz (aug st) A) (augz (aug st) B)) ->
  aug st p = Z.max (compute p) (Z.max (augz (aug st) t) (aug st q)) ->
  let st' := set_child st (opp d) p (rid A) in
  let st' := set_child st' d q p in
  let st' := rb_set_parent_color st' (rid B) q RB_BLACK in
  let st' := if negb (rid A =? NULL) then rb_set_parent st' (rid A) p else st' in
  let st' := __rb_rotate_set_parents st' p q RB_BLACK in
  let st' := max_rotate compute st' p q in
  let t' := mk d c q (mk d Black p t A) (paint Black B) in
  zrep st' k t' /\ aug_ok (aug st') t' /\ augz (aug st') t' = aug st p /\
  only (p :: q :: ids A ++ ids B ++ cids k) st st' /\ same_aug [p; q] st st'.
Proof.
  intros Hp0 Hq0 Hpa Hqa Hp Hq Ht HA HB HBE Hk Hnd Hat HaA HaB Haq Hap. nd_facts Hnd. cbv zeta.
  rewrite (set_child_far st d p _ _ _ _ Hp). set (st1 := upd st p _).
  assert (Hq1 : nodes st1 q = mkn d pq (rid A) (rid B)) by (unfold st1; now rd).
  rewrite (set_child_near st1 d q _ _ _ _ Hq1). set (st2 := upd st1 q _).
  assert (Ho2 : only [p; q] st st2) by (unfold st2, st1; intros m Hm; nd_facts Hm; now rd).
  destruct (reparent_color st2 par0 q B Black) as (HB3 & Ho3 & Ha3 & Hr3); auto;
    [eapply rep_only; [exact Ho2|disj|exact HB]|].
  destruct (rid_nonzero _ _ _ HB HBE) as [HrB _].
  replace (rid B =? NULL) with false in * by (symmetry; now apply Z.eqb_neq). cbn [negb] in *.
  change (colz Black) with RB_BLACK in *. set (st3 := rb_set_parent_color st2 (rid B) q RB_BLACK) in *.
  assert (HA3 : rep (nodes st3) q A).
  { eapply rep_only; [exact Ho3|set_solver|]. eapply rep_only; [exact Ho2|disj|exact HA]. }
  destruct (reparent_keep st3 q p A Hqa) as (HA4 & Ho4 & Ha4 & Hr4); auto.
  set (st4 := if negb (rid A =? NULL) then _ else _) in *.
  assert (Ho : only (p :: q :: ids A ++ ids B) st st4).
  { intros m Hm. rewrite Ho4, Ho3 by set_solver. apply Ho2. set_solver. }
  assert (Hp4 : nodes st4 p = mkn (opp d) (pcv (cid k) c) (rid A) (rid t))
    by (rewrite mkn_opp, Ho4, Ho3 by auto; unfold st2, st1; now rd).
  assert (Hq4 : nodes st4 q = mkn (opp d) pq (rid (paint Black B)) p)
    by (rewrite mkn_opp, rid_paint, Ho4, Ho3 by auto; unfold st2, st1; now rd).
  assert (HB4 : rep (nodes st4) q (paint Black B))
    by (eapply rep_only; [exact Ho4|rewrite ids_paint; set_solver|exact HB3]).
  assert (Ht4 : rep (nodes st4) p t) by (eapply rep_only; [exact Ho|clear - Hnd; intros m Hm; nd_facts Hnd; set_solver|exact Ht]).
  assert (Hk4 : rep_ctx st4 k p)
    by (apply (rep_ctx_only (p :: q :: ids A ++ ids B) st); [exact Ho|rewrite Hr4, Hr3; reflexivity|clear - Hnd; nd_facts Hnd; set_solver|exact Hk]).
  destruct (rotate_set_parents_spec st4 (opp d) k p q c Black pq (paint Black B) A t) as (Hz & Ho5 & Ha5 & Hp5); auto.
  { rewrite ids_paint. eapply NoDup_perm; [exact Hnd|solve_Permutation]. }
  change (colz Black) with RB_BLACK in *. set (st5 := __rb_rotate_set_parents st4 p q RB_BLACK) in *.
  assert (Haug : aug st5 = aug st) by (rewrite Ha5, Ha4, Ha3; reflexivity).
  pose proof (proj1 Hz) as Hr5. rewrite !rep_mk in Hr5. destruct Hr5 as (_ & _ & _ & _ & _ & _ & _ & HA5 & Ht5).
  destruct (max_rotate_spec st5 (opp d) p q _ A t Hp5) as (Hn6 & Hr6 & Ha6); auto; try (now rewrite Haug).
  set (st6 := max_rotate compute st5 p q) in *. rewrite Haug in Ha6. rewrite !mk_opp in Hz.
  assert (Hfr : forall u, p ∉ ids u -> q ∉ ids u -> forall m, m ∈ ids u -> aug st6 m = aug st m).
  { intros u H1 H2 m Hm. rewrite Ha6, !fn_lookup_insert_ne; [auto|intros ->; done..]. }
  assert (Hap6 : aug st6 p = Z.max (compute p) (Z.max (augz (aug st) A) (augz (aug st) t)))
    by (rewrite Ha6; apply fn_lookup_insert).
  assert (Haq6 : aug st6 q = aug st p) by (rewrite Ha6, fn_lookup_insert_ne by auto; apply fn_lookup_insert).
  split_and!.
  - eapply zrep_same; eauto.
  - rewrite !aug_ok_mk, augz_mk, aug_ok_paint, augz_paint, Hap6, Haq6, !(augz_frame (aug st) (aug st6)) by (apply Hfr; auto).
    split_and!; try (eapply aug_ok_frame; [apply Hfr; auto|auto]); clear - Haq Hap; lia.
  - now rewrite augz_mk.
  - intros m Hm. rewrite Hn6, Ho5 by set_solver. apply Ho. set_solver.
  - intros m Hm. nd_facts Hm. now rewrite Ha6, !fn_lookup_insert_ne.
Qed.

Lemma erase_case4_spec st d k p sg c t a b :
  zrep st (F d c p (mk d Black sg a b) :: k) t -> tcol b = Red ->
  aug_ok (aug st) t -> aug_ctx (aug st) (F d c p (mk d Black sg a b) :: k) (augz (aug st) t) ->
  let st' := erase_case34 (callbacks_max compute) st d p sg (rid b) in
  let t' := mk d c sg (mk d Black p t a) (paint Black b) in
  zrep st' k t' /\ aug_ok (aug st') t' /\ augz (aug st') t' = aug st p /\
  only (p :: sg :: ids a ++ ids b ++ cids k) st st' /\ same_aug [p; sg] st st'.
Proof.
  intros (Ht & Hctx & Hnd) Hb Ha Hac. cbn [cid rep_ctx cids] in *.
  destruct Hctx as (Hp0 & Hpa & Hp & Hs & Hk). rewrite rep_mk in Hs. rewrite rid_mk in Hp.
  destruct Hs as (Hs0 & Hsa & Hs & Hra & Hrb). cbn [aug_ctx] in Hac. rewrite aug_ok_mk, augz_mk in Hac.
  destruct Hac as (Hap & (Has & Haa & Hab) & _).
  unfold erase_case34, erase_case4. cbv zeta. rewrite (black_child st sg b Hsa Hrb), Hb, (child_near st d sg _ _ _ Hs).
  apply (erase_rotate_spec st d k p sg c sg (pcv p Black) sg t a b); auto; [intros ->; discriminate|].
  eapply NoDup_perm; [exact Hnd|]. rewrite ids_mk. solve_Permutation.
Qed.

(** Case 3: the red near child [an] of the sibling moves between it and [p]. *)
Lemma erase_case3_spec st d k p sg c t an a1 a2 b :
  zrep st (F d c p (mk d Black sg (mk d Red an a1 a2) b) :: k) t -> tcol b = Black -> tcol a2 = Black ->
  aug_ok (aug st) t ->
  aug_ctx (aug st) (F d c p (mk d Black sg (mk d Red an a1 a2) b) :: k) (augz (aug st) t) ->
  let st' := erase_case34 (callbacks_max compute) st d p sg (rid b) in
  let t' := mk d c an (mk d Black p t a1) (mk d Black sg a2 b) in
  zrep st' k t' /\ aug_ok (aug st') t' /\ augz (aug st') t' = aug st p /\
  only (p :: sg :: an :: ids a1 ++ ids a2 ++ ids b ++ cids k) st st' /\ same_aug [p; sg; an] st st'.
Proof.
  intros (Ht & Hctx & Hnd) Hb Hca2 Ha Hac. cbn [cid rep_ctx cids] in *.
  destruct Hctx as (Hp0 & Hpa & Hp & Hs & Hk). rewrite !rep_mk, !rid_mk in Hs. rewrite rid_mk in Hp.
  destruct Hs as (Hs0 & Hsa & Hs & (Hn0 & Hna & Hn & Hr1 & Hr2) & Hrb).
  cbn [aug_ctx] in Hac. rewrite !aug_ok_mk, !augz_mk in Hac. destruct Hac as (Hap & (Has & (Han & Ha1 & Ha2) & Hab) & _).
  assert (Hnd' : NoDup (p :: sg :: an :: ids t ++ ids a1 ++ ids a2 ++ ids b ++ cids k))
    by (eapply NoDup_perm; [exact Hnd|]; rewrite !ids_mk; solve_Permutation).
  clear Hnd. nd_facts Hnd'. unfold erase_case34, erase_case4. cbv zeta. cbn [rotate callbacks_max].
  rewrite (black_child st sg b Hsa Hrb), Hb, (child_near st d sg _ _ _ Hs), (child_far st d an _ _ _ Hn).
  rewrite (set_child_near st d sg _ _ _ _ Hs). set (st1 := upd st sg _).
  assert (Hn1 : nodes st1 an = mkn d (pcv sg Red) (rid a1) (rid a2)) by (unfold st1; now rd).
  rewrite (set_child_far st1 d an _ _ _ _ Hn1). set (st2 := upd st1 an _).
  assert (Hp2 : nodes st2 p = mkn d (pcv (cid k) c) (rid t) sg) by (unfold st2, st1; now rd).
  rewrite (set_child_far st2 d p _ _ _ _ Hp2). set (st3 := upd st2 p _).
  assert (Ho3 : only [p; sg; an] st st3) by (unfold st3, st2, st1; intros m Hm; nd_facts Hm; now rd).
  destruct (reparent_color st3 an sg a2 Black) as (H24 & Ho4 & Hag4 & Hr4);
    [auto|eapply rep_only; [exact Ho3|disj|exact Hr2]|].
  rewrite paint_black in H24 by auto. change (colz Black) with RB_BLACK in *.
  set (st4 := if negb (rid a2 =? NULL) then _ else _) in *.
  assert (Ho : only (p :: sg :: an :: ids a2) st st4) by (intros m Hm; rewrite Ho4 by set_solver; apply Ho3; set_solver).
  assert (Hs4 : nodes st4 sg = mkn d (pcv p Black) (rid a2) (rid b)) by (rewrite Ho4 by auto; unfold st3, st2, st1; now rd).
  assert (Hn4 : nodes st4 an = mkn d (pcv sg Red) (rid a1) sg) by (rewrite Ho4 by auto; unfold st3, st2; now rd).
  assert (Hp4 : nodes st4 p = mkn d (pcv (cid k) c) (rid t) an) by (rewrite Ho4 by auto; unfold st3; now rd).
  assert (Hrp : forall par u, (forall m, m ∈ ids u -> m ∉ [p; sg; an]) -> (forall m, m ∈ ids u -> m ∉ ids a2) ->
    rep (nodes st) par u -> rep (nodes st4) par u).
  { intros par u H1 H2 Hu. eapply rep_only; [exact Ho4|exact H2|]. eapply rep_only; [exact Ho3|exact H1|exact Hu]. }
  assert (Hb4 : rep (nodes st4) sg b) by (apply Hrp; [disj|clear - Hnd'; nd_facts Hnd'; set_solver|auto]).
  assert (Haug : aug st4 = aug st) by exact Hag4.
  destruct (max_rotate_spec st4 d sg an _ a2 b Hs4 H24 Hb4) as (Hn5 & Hr5 & Ha5); auto; try (now rewrite Haug).
  rewrite Haug in Ha5. set (st5 := max_rotate compute st4 sg an) in *.
  assert (Hfr : forall m, m <> sg -> m <> an -> aug st5 m = aug st m)
    by (intros m ? ?; rewrite Ha5, !fn_lookup_insert_ne by auto; auto).
  assert (Hfz : forall u, sg ∉ ids u -> an ∉ ids u -> augz (aug st5) u = augz (aug st) u)
    by (intros u ? ?; apply augz_frame; intros m Hm; apply Hfr; intros ->; done).
  assert (Hfo : forall u, sg ∉ ids u -> an ∉ ids u -> aug_ok (aug st) u -> aug_ok (aug st5) u)
    by (intros u ? ?; apply aug_ok_frame; intros m Hm; apply Hfr; intros ->; done).
  assert (Has5 : aug st5 sg = Z.max (compute sg) (Z.max (augz (aug st) a2) (augz (aug st) b)))
    by (rewrite Ha5; apply fn_lookup_insert).
  assert (Han5 : aug st5 an = aug st sg) by (rewrite Ha5, fn_lookup_insert_ne by auto; apply fn_lookup_insert).
  rewrite <- Hn5 in *. assert (Ho5 : only (p :: sg :: an :: ids a2) st st5) by exact Ho.
  rewrite (child_near st5 d an _ _ _ Hn4). clearbody st4 st5.
  destruct (erase_rotate_spec st5 d k p an c an (pcv sg Red) p t a1 (mk d Black sg a2 b)) as (H1 & H2 & H3 & H4 & H5);
    rewrite ?rid_mk; auto.
  - apply Hrp; [disj|clear - Hnd'; nd_facts Hnd'; set_solver|auto].
  - apply Hrp; [disj|clear - Hnd'; nd_facts Hnd'; set_solver|auto].
  - rewrite rep_mk. auto.
  - now destruct d.
  - apply (rep_ctx_only (p :: sg :: an :: ids a2) st); auto; [rewrite Hr5, Hr4; reflexivity|clear - Hnd'; nd_facts Hnd'; set_solver].
  - eapply NoDup_perm; [exact Hnd'|]. rewrite ids_mk. solve_Permutation.
  - rewrite aug_ok_mk, Has5, !Hfz by auto. auto.
  - rewrite augz_mk, Han5, Has5, Hfz by auto. rewrite Has, Han. clear. lia.
  - rewrite Hfr, Hfz, Han5 by auto. exact Hap.
  - rewrite rid_mk in *. rewrite paint_mk in *. split_and!; auto; [rewrite H3; now apply Hfr|..].
    + intros m Hm. rewrite H4 by (rewrite ids_mk; set_solver). apply Ho5. set_solver.
    + intros m Hm. nd_facts Hm. rewrite H5 by set_solver. now apply Hfr.
Qed.

(** A sibling of a node with black height [h] below a context of height [S h]
    is a node. *)
Lemma rb_node_inv d t h : rb t (S h) -> exists c n a b, t = mk d c n a b.
Proof. destruct t as [|c l n r]; [done|]. intros _. destruct d; [exists c, n, l, r|exists c, n, r, l]; reflexivity. Qed.

Lemma erase_case1_spec st d c p s k t h :
  zrep st (F d c p s :: k) t -> rb_ctx (F d c p s :: k) (S h) ->
  aug_ok (aug st) t -> aug_ctx (aug st) (F d c p s :: k) (augz (aug st) t) ->
  exists st1 c1 sg a b k1,
    erase_case1 (callbacks_max compute) st d p (rid s) = (st1, sg) /\
    let kk := F d c1 p (mk d Black sg a b) :: k1 in
    zrep st1 kk t /\ rb_ctx kk (S h) /\ aug_ok (aug st1) t /\ aug_ctx (aug st1) kk (augz (aug st1) t) /\
    inorder (plug kk t) = inorder (plug (F d c p s :: k) t) /\ (c1 = Black -> k1 = k) /\
    (forall m, m ∈ cids kk <-> m ∈ cids (F d c p s :: k)) /\
    only (cids (F d c p s :: k)) st st1 /\ same_aug (cids (F d c p s :: k)) st st1.
Proof.
  intros Hz Hk Ha Hac.
  assert (exists cs sg a b, s = mk d cs sg a b) as (cs & sg & a & b & ->)
    by (destruct c; [destruct Hk as (_ & Hs & _)|destruct Hk as (Hs & _)]; eapply rb_node_inv; eauto).
  pose proof Hz as (Ht & Hctx & Hnd). cbn [cid rep_ctx cids] in Ht, Hctx, Hnd. rewrite rep_mk, rid_mk in Hctx.
  destruct Hctx as (Hp0 & Hpa & Hp & (Hs0 & Hsa & Hs & Hra & Hrb) & Hctx). rewrite rid_mk.
  unfold erase_case1, rb_is_red. rewrite (rb_color_mkn st d sg p cs _ _ Hpa Hs). destruct cs; cbn [colz].
  2:{ change (RB_BLACK =? 0) with false. exists st, c, sg, a, b, k. split; [reflexivity|].
      split_and!; auto using only_refl. now intros m _. }
  change (RB_RED =? 0) with true. destruct c; [destruct Hk as (Hk & _); rewrite tcol_mk in Hk; discriminate|].
  destruct Hk as (Hrs & Hk). rewrite rb_mk_red in Hrs. destruct Hrs as (Hca & Hcb & Hrba & Hrbb).
  cbn [aug_ctx] in Hac. rewrite aug_ok_mk, augz_mk in Hac. destruct Hac as (Hap & (Has & Haa & Hab) & Hac).
  assert (Hnd' : NoDup (p :: sg :: ids b ++ ids a ++ ids t ++ cids k))
    by (eapply NoDup_perm; [exact Hnd|]; rewrite ids_mk; solve_Permutation).
  destruct (rb_node_inv d a h Hrba) as (ca & an & a1 & a2 & Ea).
  destruct (insert_rotate_spec st (opp d) k p sg sg (pcv p Red) b a t) as (H1 & H2 & H3 & H4 & H5);
    rewrite ?mkn_opp; auto; try (clear - Has Hap; lia).
  cbv zeta in *. rewrite opp_opp, !mk_opp in *. rewrite (child_near st d sg _ _ _ Hs).
  assert (Ean : (rid a =? NULL) = false) by (apply Z.eqb_neq; subst a; rewrite rep_mk in Hra; rewrite rid_mk; tauto).
  rewrite Ean in *. cbn [negb] in *. cbn [rotate callbacks_max]. set (st1 := max_rotate compute _ p sg) in *.
  assert (ca = Black) as -> by (rewrite Ea, tcol_mk in Hca; exact Hca).
  exists st1, Red, an, a1, a2, (F d Black sg b :: k). rewrite <- Ea. split; [rewrite Ea, rid_mk; reflexivity|].
  assert (Hcid : forall m, m ∈ cids (F d Red p a :: F d Black sg b :: k) <-> m ∈ cids (F d Black p (mk d Red sg a b) :: k))
    by (intros m; cbn [cids]; rewrite !elem_of_cons, !elem_of_app, elem_of_cons, elem_of_app, ids_mk, elem_of_cons, elem_of_app; clear; tauto).
  rewrite !aug_ok_mk, augz_mk in H2. rewrite augz_mk in H3. destruct H2 as (H2 & (H21 & H22 & H23) & H24).
  split_and!; auto; try discriminate.
  - now apply zrep_up, zrep_up.
  - cbn. auto.
  - cbn [aug_ctx]. split_and!; auto; try (clear - H2 H21; lia). rewrite H3. eapply aug_ctx_frame; [|exact Hac].
    intros m Hm. apply H5. clear - Hnd' Hm. nd_facts Hnd'. set_solver.
  - cbn [plug]. apply inorder_plug_eq. destruct d; inorder_eq.
  - intros m Hm. apply H4. rewrite <- Hcid in Hm. cbn [cids] in Hm. clear - Hm. set_solver.
  - intros m Hm. apply H5. rewrite <- Hcid in Hm. cbn [cids] in Hm. clear - Hm. set_solver.
Qed.

(** Case 2: the sibling turns red, and a red parent black. *)
Lemma erase_flip_spec st d c p sg a b k t :
  zrep st (F d c p (mk d Black sg a b) :: k) t ->
  let st1 := rb_set_parent_color st sg p RB_RED in
  zrep st1 (F d c p (mk d Red sg a b) :: k) t /\ only [sg] st st1 /\ aug st1 = aug st.
Proof. clear dependent compute.
  intros (Ht & Hctx & Hnd). cbn [cid rep_ctx cids] in *. rewrite rep_mk, rid_mk in Hctx.
  destruct Hctx as (Hp0 & Hpa & Hp & (Hs0 & Hsa & Hs & Hra & Hrb) & Hctx).
  assert (Hnd' : NoDup (p :: sg :: ids t ++ ids a ++ ids b ++ cids k))
    by (eapply NoDup_perm; [exact Hnd|]; rewrite ids_mk; solve_Permutation).
  nd_facts Hnd'. cbv zeta. unfold rb_set_parent_color. rewrite (set_pc_mkn st d sg _ _ _ _ Hs).
  change (Z.lor p RB_RED) with (pcv p Red). set (st1 := upd st sg _).
  assert (Ho : only [sg] st st1) by (apply only_upd; set_solver). split_and!; auto.
  assert (Hr : forall par u, sg ∉ ids u -> rep (nodes st) par u -> rep (nodes st1) par u)
    by (intros; now apply rep_insert). split_and!.
  - now apply Hr.
  - cbn [rep_ctx]. rewrite rep_mk, rid_mk. split_and!; auto; try (unfold st1; now rd).
    apply (rep_ctx_only [sg] st); auto. disj.
  - eapply NoDup_perm; [exact Hnd|]. cbn [cids]. rewrite !ids_mk. solve_Permutation.
Qed.

Lemma set_black_spec st d c p s k t :
  zrep st (F d c p s :: k) t ->
  zrep (rb_set_black st p) (F d Black p s :: k) t /\ only [p] st (rb_set_black st p).
Proof. clear dependent compute.
  intros (Ht & Hctx & Hnd). cbn [cid rep_ctx cids] in *. destruct Hctx as (Hp0 & Hpa & Hp & Hs & Hctx).
  assert (Hnd' : NoDup (p :: ids t ++ ids s ++ cids k)) by (eapply NoDup_perm; [exact Hnd|solve_Permutation]).
  nd_facts Hnd'. unfold rb_set_black. rewrite Hp, pc_mkn, pcv_black, (set_pc_mkn st d p _ _ _ _ Hp).
  set (st1 := upd st p _). split; [|apply only_upd; set_solver]. split_and!; [now apply rep_insert| |exact Hnd].
  cbn [rep_ctx]. split_and!; auto; [apply nodes_upd_eq|now apply rep_insert|].
  apply (rep_ctx_only [p] st); auto; [apply only_upd; set_solver|disj].
Qed.

(** The node that replaces [p] in its context, with its colour. *)
Lemma rb_replace_frame d c p s k h q X Y :
  rb_ctx (F d c p s :: k) h -> tcol X = Black -> tcol Y = Black -> rb X h -> rb Y h ->
  exists h', rb (mk d c q X Y) h' /\ rb_ctx k h' /\ (tcol (mk d c q X Y) = Black \/ ctop k = Some Black).
Proof.
  intros Hk HX HY HrX HrY. rewrite tcol_mk. destruct c.
  - destruct Hk as (_ & _ & Hk & Hk'). exists h. rewrite rb_mk_red. auto 6.
  - destruct Hk as (_ & Hk). exists (S h). rewrite rb_mk_black. auto.
Qed.

Lemma rb_result_replace st st' d c p s k h q X Y t v :
  zrep st' k (mk d c q X Y) -> rb_ctx (F d c p s :: k) h ->
  tcol X = Black -> tcol Y = Black -> rb X h -> rb Y h ->
  aug_ok (aug st') (mk d c q X Y) -> augz (aug st') (mk d c q X Y) = v -> aug_ctx (aug st) k v ->
  inorder (mk d c q X Y) = inorder (mk d c p t s) ->
  only (ids t ++ cids (F d c p s :: k)) st st' -> same_aug (ids t ++ p :: ids s) st st' ->
  NoDup (ids t ++ cids (F d c p s :: k)) ->
  rb_result st st' (ids t ++ cids (F d c p s :: k)) (inorder (plug (F d c p s :: k) t)).
Proof. clear compute_nonneg.
  intros Hz Hk HX HY HrX HrY Ha Hv Hac Hin Ho Hs Hnd.
  destruct (rb_replace_frame d c p s k h q X Y) as (h' & H1 & H2 & H3); auto.
  apply (rb_result_plug _ _ _ k (mk d c q X Y) h'); auto.
  - rewrite Hv. eapply aug_ctx_frame; [|exact Hac]. intros m Hm. apply Hs. cbn [cids] in Hnd.
    rewrite app_comm_cons, app_assoc in Hnd. apply NoDup_app in Hnd as (_ & Hnd & _). intros Hm'. now apply (Hnd m).
  - cbn [plug]. now apply inorder_plug_eq.
  - intros m Hm. apply Hs. cbn [cids] in Hm. clear - Hm. set_solver.
Qed.

Lemma erase_case234_spec loop st d c p sg a b k t h :
  let kk := F d c p (mk d Black sg a b) :: k in
  zrep st kk t -> tcol t = Black -> rb t h -> rb_ctx kk (S h) ->
  aug_ok (aug st) t -> aug_ctx (aug st) kk (augz (aug st) t) ->
  (c = Black -> k <> [] -> forall st t, zrep st k t -> tcol t = Black -> rb t (S h) ->
    aug_ok (aug st) t -> aug_ctx (aug st) k (augz (aug st) t) ->
    exists st', loop st (rid t) (cid k) = Some st' /\ rb_result st st' (ids t ++ cids k) (inorder (plug k t))) ->
  exists st', erase_case234 (callbacks_max compute) loop st d p sg = Some st' /\
    rb_result st st' (ids t ++ cids kk) (inorder (plug kk t)).
Proof.
  intros kk Hz Hct Hrb Hk Ha Hac Hloop. unfold kk in *. clear kk.
  pose proof Hz as (Ht & (Hp0 & Hpa & Hp & Hs & Hctx) & Hnd). rewrite rep_mk in Hs.
  destruct Hs as (Hs0 & Hsa & Hs & Hra & Hrb').
  assert (Hrs : rb a h /\ rb b h).
  { destruct c; [destruct Hk as (_ & Hk & _)|destruct Hk as (Hk & _)]; now apply rb_mk_black in Hk. }
  destruct Hrs as [Hrba Hrbb]. unfold erase_case234. cbv zeta.
  rewrite (child_far st d sg _ _ _ Hs), (child_near st d sg _ _ _ Hs), (black_child st sg a Hsa Hra), (black_child st sg b Hsa Hrb').
  assert (Hids : forall m, m ∈ cids (F d c p (mk d Black sg a b) :: k) <-> m = p \/ m = sg \/ m ∈ ids a \/ m ∈ ids b \/ m ∈ cids k)
    by (intros m; cbn [cids]; rewrite elem_of_cons, elem_of_app, ids_mk, elem_of_cons, elem_of_app; clear; tauto).
  pose proof Hac as (_ & _ & Hack).
  destruct (tcol b) eqn:Hcb.
  { destruct (erase_case4_spec st d k p sg c t a b Hz Hcb Ha Hac) as (H1 & H2 & H3 & H4 & H5). cbv zeta in *.
    eexists. split; [reflexivity|]. eapply (rb_result_replace _ _ d c p _ k (S h) sg); eauto.
    - apply tcol_mk.
    - now destruct b.
    - now apply rb_mk_black.
    - destruct b as [|[] l n r]; [done| |done]. cbn in *. tauto.
    - destruct d, b; inorder_eq.
    - intros m Hm. apply H4. rewrite elem_of_app, Hids in Hm. clear - Hm. set_solver.
    - intros m Hm. apply H5. rewrite ids_mk in Hm. clear - Hm. set_solver. }
  destruct (tcol a) eqn:Hca; cbn [andb].
  { destruct (red_tree_mk d a Hca) as (an & a1 & a2 & ->). rewrite rb_mk_red in Hrba. destruct Hrba as (Hc1 & Hc2 & Hr1 & Hr2).
    destruct (erase_case3_spec st d k p sg c t an a1 a2 b Hz Hcb Hc2 Ha Hac) as (H1 & H2 & H3 & H4 & H5). cbv zeta in *.
    eexists. split; [reflexivity|]. eapply (rb_result_replace _ _ d c p _ k (S h) an); eauto; rewrite ?tcol_mk, ?rb_mk_black; auto.
    - destruct d; inorder_eq.
    - intros m Hm. apply H4. rewrite elem_of_app, Hids, ids_mk in Hm. clear - Hm. set_solver.
    - intros m Hm. apply H5. rewrite !ids_mk in Hm. clear - Hm. set_solver. }
  destruct (erase_flip_spec st d c p sg a b k t Hz) as (Hz1 & Ho1 & Ha1). cbv zeta in *.
  set (st1 := rb_set_parent_color st sg p RB_RED) in *.
  pose proof Hz1 as (_ & (_ & _ & Hp1 & _ & Hctx1) & _).
  assert (Hcp : addr (cid k)) by (eapply rep_ctx_addr; eauto).
  unfold rb_is_red. rewrite (rb_color_mkn st1 d p _ c _ _ Hcp Hp1).
  assert (Hmk : aug_ok (aug st1) (mk d Black p t (mk d Red sg a b)))
    by (rewrite Ha1; cbn [aug_ctx] in Hac; rewrite !aug_ok_mk, !augz_mk in *; tauto).
  assert (Hrmk : rb (mk d Black p t (mk d Red sg a b)) (S h)) by (rewrite rb_mk_black, rb_mk_red; auto 6).
  assert (Hin : inorder (plug k (mk d Black p t (mk d Red sg a b))) = inorder (plug (F d c p (mk d Black sg a b) :: k) t))
    by (cbn [plug]; apply inorder_plug_eq; destruct d; inorder_eq).
  destruct c; cbn [colz].
  - change (RB_RED =? 0) with true. eexists. split; [reflexivity|].
    destruct (set_black_spec st1 d Red p _ k t Hz1) as (Hz2 & Ho2). destruct Hk as (_ & _ & Htop & Hk).
    apply (rb_result_plug _ _ _ k (mk d Black p t (mk d Red sg a b)) (S h)); auto.
    + now apply zrep_up.
    + rewrite augz_mk. exact (eq_rect_r (fun au => aug_ctx au k (au p)) Hack Ha1).
    + intros m Hm. rewrite elem_of_app, Hids in Hm. rewrite Ho2, Ho1; auto; clear - Hm; set_solver.
    + intros m _. exact (f_equal (fun f => f m) Ha1).
  - change (RB_BLACK =? 0) with false. unfold rb_parent. rewrite Hp1, pc_mkn, parent_pcv by auto.
    destruct Hk as (_ & Hk). destruct k as [|f k].
    { change (cid [] =? NULL) with true. eexists. split; [reflexivity|].
      apply (rb_result_plug _ _ _ [] (mk d Black p t (mk d Red sg a b)) (S h)); auto.
      - now apply zrep_up.
      - left. apply tcol_mk.
      - intros m Hm. rewrite elem_of_app, Hids in Hm. apply Ho1. clear - Hm. set_solver.
      - intros m _. exact (f_equal (fun f => f m) Ha1). }
    assert (Hf0 : (cid (f :: k) =? NULL) = false) by (apply Z.eqb_neq; destruct f; cbn in *; tauto).
    rewrite Hf0. destruct (Hloop eq_refl ltac:(done) st1 (mk d Black p t (mk d Red sg a b))) as (st' & E' & Hr); auto.
    + now apply zrep_up.
    + apply tcol_mk.
    + rewrite augz_mk, Ha1. exact Hack.
    + rewrite rid_mk in E'. exists st'. split; [exact E'|]. rewrite <- Hin. eapply rb_result_trans; [| | |exact Hr]; intros m Hm.
      * apply Ho1. rewrite elem_of_app, Hids in Hm. clear - Hm. set_solver.
      * now rewrite Ha1.
      * rewrite elem_of_app, Hids. rewrite !elem_of_app, !ids_mk in Hm. clear - Hm. set_solver.
Qed.

Lemma erase_loop_spec fuel st k t h :
  zrep st k t -> tcol t = Black -> rb t h -> rb_ctx k (S h) -> k <> [] ->
  aug_ok (aug st) t -> aug_ctx (aug st) k (augz (aug st) t) -> (length k <= fuel)%nat ->
  exists st', rb_erase_loop (callbacks_max compute) fuel st (rid t) (cid k) = Some st' /\
    rb_result st st' (ids t ++ cids k) (inorder (plug k t)).
Proof.
  revert st k t h. induction fuel as [|fuel IH]; intros st k t h Hz Hct Hrb Hk Hne Ha Hac Hf;
    [destruct k; [done|cbn in Hf; lia]|].
  destruct k as [|[d c p s] k]; [done|]. clear Hne. cbn [rb_erase_loop cid].
  pose proof Hz as (Ht & (Hp0 & Hpa & Hp & Hs & Hctx) & Hnd).
  assert (Hts : rid t <> rid s).
  { assert (HsE : s <> E) by (intros ->; destruct c; cbn in Hk; [destruct Hk as (_ & Hk & _)|destruct Hk as (Hk & _)]; discriminate).
    destruct (rid_nonzero _ _ _ Hs HsE) as [Hs0 Hsi]. destruct t as [|ct l n r]; cbn [rid]; [auto|]. intros E.
    cbn in Hnd. rewrite E in Hnd. apply NoDup_cons in Hnd as [Hnd _]. apply Hnd. clear - Hsi. set_solver. }
  rewrite (side_spec st d p s _ _ Hp Hts), (child_far st d p _ _ _ Hp).
  destruct (erase_case1_spec st d c p s k t h Hz Hk Ha Hac)
    as (st1 & c1 & sg & a & b & k1 & E1 & Hz1 & Hk1 & Ha1 & Hac1 & Hin & Hc1 & Hcid & Ho1 & Hs1). cbv zeta in *.
  rewrite E1. destruct (erase_case234_spec (rb_erase_loop (callbacks_max compute) fuel) st1 d c1 p sg a b k1 t h)
    as (st' & E' & Hr); auto.
  - intros Hc1' Hne st2 t2 Hz2 Hct2 Hrb2 Ha2 Hac2. specialize (Hc1 Hc1'). subst c1 k1.
    eapply IH; eauto; [apply Hk1|cbn in Hf; lia].
  - exists st'. split; [exact E'|]. rewrite <- Hin.
    eapply rb_result_trans; [| | |exact Hr]; intros m Hm; [apply Ho1|apply Hs1|];
      rewrite elem_of_app, ?Hcid in *; clear - Hm; tauto.
Qed.

(** *** Deletion: removing the node

    After the removal the tree is [plug k t]; either it is already balanced and
    [rebalance] is null, or the hole of [k] lacks one black node. *)
Definition erased (st st' : store) (S : list Z) (xs : list Z) (rebalance : Z) : Prop :=
  exists k t h, zrep st' k t /\ rb t h /\ inorder (plug k t) = xs /\
    aug_ok (aug st') t /\ aug_ctx (aug st') k (augz (aug st') t) /\ only S st st' /\ same_aug S st st' /\
    (forall m, m ∈ ids t ++ cids k -> m ∈ S) /\ (length k <= length S)%nat /\
    (rebalance = 0 /\ rb_ctx k h /\ (tcol t = Black \/ ctop k = Some Black) \/
     rebalance = cid k /\ t = E /\ k <> [] /\ rb_ctx k (Datatypes.S h)).

Lemma erased_rebalance fuel st st1 S xs rebalance :
  erased st st1 S xs rebalance -> (length S <= fuel)%nat ->
  exists st', (if negb (rebalance =? NULL) then __rb_erase_color (callbacks_max compute) fuel st1 rebalance
               else Some st1) = Some st' /\ rb_result st st' S xs.
Proof.
  intros (k & t & h & Hz & Hrb & Hin & Ha & Hac & Ho & Hs & HS & Hlen & [(-> & Hk & Hc)|(-> & -> & Hne & Hk)]) Hf.
  - exists st1. split; [reflexivity|]. apply (rb_result_plug _ _ _ k t h); auto.
  - destruct (erase_loop_spec fuel st1 k E h) as (st' & E' & Hr); auto; [lia|].
    assert (H0 : (cid k =? NULL) = false) by (apply Z.eqb_neq; destruct Hz as (_ & Hz & _); destruct k as [|[]]; [done|cbn in *; tauto]).
    rewrite H0. exists st'. split; [exact E'|]. rewrite <- Hin. eapply rb_result_trans; eauto.
Qed.

(** Propagation from the parent of the hole, after the subtree in it changed. *)
Lemma erased_propagate fuel st st1 k t h v S rebalance :
  zrep st1 k t -> rb t h -> aug_ok (aug st1) t -> aug_ctx (aug st1) k v ->
  only S st st1 -> same_aug S st st1 ->
  (forall m, m ∈ ids t ++ cids k -> m ∈ S) -> (length k <= length S)%nat -> (length S <= fuel)%nat ->
  (rebalance = 0 /\ rb_ctx k h /\ (tcol t = Black \/ ctop k = Some Black) \/
   rebalance = cid k /\ t = E /\ k <> [] /\ rb_ctx k (Datatypes.S h)) ->
  exists st', max_propagate compute fuel st1 (cid k) NULL = Some st' /\ erased st st' S (inorder (plug k t)) rebalance.
Proof.
  intros Hz Hrb Ha Hac Ho Hs HS Hlen Hf Hcase.
  destruct (propagate_root fuel st1 k t Hz Ha (aug_ctx_stale _ _ _ Hac)) as (st' & E' & Hn & Hr & Hsa & Hok & Hcx); [lia|].
  exists st'. split; [exact E'|]. exists k, t, h. split_and!; auto.
  - now apply (zrep_same st1).
  - intros m Hm. rewrite Hn. now apply Ho.
  - intros m Hm. rewrite Hsa by (intros ?; apply Hm, HS; set_solver). now apply Hs.
Qed.

End augmented.
