(* ===== verification/RbErase.v ===== *)
(** * Deletion and traversal of red-black trees

    Continues [RbTreeProofs]: removal of a node with at most one child, removal
    of a node with two children through its in-order successor, the complete
    [rb_erase_augmented], and the traversals [rb_first], [rb_last], [rb_next],
    [rb_prev], [rb_replace_node] and the post-order walk. *)

From stdpp Require Import functions.
From S2P Require Import Prelude RbTree RbTreeProofs.

#[local] Set Warnings "-clear-no-such-hyp".

(** ** Paths *)

Lemma plug_app k1 k2 t : plug (k1 ++ k2) t = plug k2 (plug k1 t).
Proof. revert t. induction k1 as [|[d c n s] k1 IH]; intros t; cbn; auto. Qed.

Lemma cids_app k1 k2 : cids (k1 ++ k2) = cids k1 ++ cids k2.
Proof. induction k1 as [|[d c n s] k1 IH]; cbn; [auto|]. now rewrite IH, <- app_assoc. Qed.

Lemma lctx_app k1 k2 : lctx (k1 ++ k2) = lctx k2 ++ lctx k1.
Proof. induction k1 as [|[[] c n s] k1 IH]; cbn; rewrite ?IH, ?app_nil_r, <- ?app_assoc; auto. Qed.
Lemma rctx_app k1 k2 : rctx (k1 ++ k2) = rctx k1 ++ rctx k2.
Proof. induction k1 as [|[[] c n s] k1 IH]; cbn; rewrite ?IH, <- ?app_assoc; auto. Qed.

Lemma segcid_app base k1 k2 : segcid base (k1 ++ k2) = segcid (segcid base k2) k1.
Proof. now destruct k1 as [|[]]. Qed.

Lemma length_cids k : (length k <= length (cids k))%nat.
Proof. induction k as [|[d c n s] k IH]; cbn; [auto|]. rewrite length_app. lia. Qed.

(** The node at the top of a path over a subtree with root [hid]. *)
Fixpoint topid (hid : Z) (k : list frame) : Z :=
  match k with [] => hid | F _ _ n _ :: k' => topid n k' end.

Lemma rid_plug k t : rid (plug k t) = topid (rid t) k.
Proof. revert t. induction k as [|[d c n s] k IH]; intros t; cbn [plug topid]; [auto|]. now rewrite IH, rid_mk. Qed.

Lemma topid_app hid k1 k2 : topid hid (k1 ++ k2) = topid (topid hid k1) k2.
Proof. revert hid. induction k1 as [|[d c n s] k1 IH]; intros; cbn; auto. Qed.

Lemma rep_seg_app nd base k1 k2 hid :
  rep_seg nd base (k1 ++ k2) hid <-> rep_seg nd (segcid base k2) k1 hid /\ rep_seg nd base k2 (topid hid k1).
Proof.
  revert hid. induction k1 as [|[d c n s] k1 IH]; intros hid; cbn [app rep_seg topid]; [tauto|].
  rewrite IH, segcid_app. tauto.
Qed.

Lemma rep_plug nd base k t :
  rep nd base (plug k t) <-> rep_seg nd base k (rid t) /\ rep nd (segcid base k) t.
Proof.
  revert t. induction k as [|[d c n s] k IH]; intros t; cbn [plug rep_seg segcid]; [tauto|].
  rewrite IH, rid_mk, rep_mk. tauto.
Qed.

Lemma rep_seg_frame nd nd' base k hid :
  (forall m, m ∈ cids k -> nd' m = nd m) -> rep_seg nd base k hid -> rep_seg nd' base k hid.
Proof.
  revert hid. induction k as [|[d c n s] k IH]; intros hid Heq; cbn; [auto|].
  intros (? & ? & ? & Hs & ?). split_and!; auto.
  - rewrite Heq by set_solver. auto.
  - eapply rep_frame; [|exact Hs]. intros. apply Heq. set_solver.
  - apply IH; auto. intros. apply Heq. set_solver.
Qed.

Lemma rep_seg_only S st st' base k hid :
  only S st st' -> (forall m, m ∈ cids k -> m ∉ S) ->
  rep_seg (nodes st) base k hid -> rep_seg (nodes st') base k hid.
Proof. intros Ho Hd. apply rep_seg_frame. auto. Qed.

(** A subtree in a hole: the path up to the root, in two parts. *)
Lemma rep_ctx_app st k1 k2 hid :
  rep_ctx st (k1 ++ k2) hid <-> rep_seg (nodes st) (cid k2) k1 hid /\ rep_ctx st k2 (topid hid k1).
Proof.
  revert hid. induction k1 as [|[d c n s] k1 IH]; intros hid; cbn [app rep_ctx rep_seg topid]; [tauto|].
  rewrite IH. replace (cid (k1 ++ k2)) with (segcid (cid k2) k1) by now destruct k1 as [|[]]. tauto.
Qed.

(** ** Removing a node with at most one child *)

(** The colours left behind when a node with one child [x], or none, goes. *)
Lemma rb_only_child c n x h k :
  rb (T c E n x) h \/ rb (T c x n E) h -> rb_ctx k h -> c = Black \/ ctop k = Some Black ->
  (x <> E -> c = Black) /\
  exists h', rb (paint Black x) h' /\
    let rebalance := if negb (rid x =? NULL) then NULL else if negb (colz c =? 0) then cid k else NULL in
    (rid_ok x -> rebalance = 0 /\ rb_ctx k h' /\ (tcol (paint Black x) = Black \/ ctop k = Some Black) \/
     rebalance = cid k /\ paint Black x = E /\ k <> [] /\ rb_ctx k (S h')).
Proof.
  intros Hrb Hk Hc.
  assert (Hx : x = E \/ exists m, x = T Red E m E /\ c = Black /\ h = 1%nat).
  { destruct x as [|cx l m r]; [auto|]. right. exists m.
    destruct c; [destruct Hrb as [Hrb|Hrb]; cbn in Hrb; destruct cx; intuition (subst; discriminate || done)|].
    destruct h as [|h]; [now destruct Hrb|].
    assert (rb (T cx l m r) h /\ h = O) as [Hr ->] by (destruct Hrb; cbn in *; tauto).
    destruct cx; cbn in Hr; [|done]. destruct Hr as (Hcl & Hcr & Hl & Hr).
    destruct l as [|[] ? ? ?]; [|discriminate|done]. destruct r as [|[] ? ? ?]; [|discriminate|done]. auto. }
  destruct Hx as [->|(m & -> & -> & ->)].
  - split; [done|]. exists O. split; [done|]. cbn. intros _. destruct c; cbn.
    + left. split_and!; auto. destruct h; [auto|]. destruct Hrb as [Hrb|Hrb]; cbn in Hrb; lia.
    + destruct h as [|h]; [now destruct Hrb|]. assert (h = O) as -> by (destruct Hrb; cbn in *; tauto).
      destruct k as [|f k]; [left; auto|]. right. auto.
  - split; [done|]. exists 1%nat. split; [cbn; auto|]. cbn. intros Hm.
    replace (m =? NULL) with false; [left; auto|]. symmetry. apply Z.eqb_neq. intros ->. now specialize (Hm eq_refl).
Qed.

Section erase.
Context (compute : Z -> Z).
Hypothesis compute_nonneg : forall n, 0 <= compute n.

(** The only child [x] of [n] takes its place: the hole first, then the child's
    parent word, and the other order. *)
Lemma replace_hole_first st k c n x :
  rep (nodes st) n x -> rep_ctx st k n -> n <> 0 -> NoDup (n :: ids x ++ cids k) ->
  let st1 := __rb_change_child st n (rid x) (cid k) in
  let st2 := if negb (rid x =? NULL) then set_pc st1 (rid x) (pcv (cid k) c) else st1 in
  zrep st2 k (paint c x) /\ only (ids x ++ cids k) st st2 /\ aug st2 = aug st.
Proof.
  intros Hx Hk Hn0 Hnd. nd_facts Hnd.
  destruct (change_child_spec st k n (rid x) Hk Hn0) as (Hk1 & Ho1 & Ha1); [now apply NoDup_cons|]. cbv zeta.
  set (st1 := __rb_change_child st n (rid x) (cid k)) in *.
  destruct (reparent_color st1 n (cid k) x c) as (Hx2 & Ho2 & Ha2 & Hr2);
    [auto|eapply rep_only; [exact Ho1|set_solver|exact Hx]|].
  unfold rb_set_parent_color in *. change (Z.lor (cid k) (colz c)) with (pcv (cid k) c) in *.
  set (st2 := if negb _ then _ else _) in *. split_and!; auto; try congruence.
  - split_and!; auto; [|rewrite ids_paint; now apply NoDup_app].
    rewrite rid_paint. apply (rep_ctx_only (ids x) st1); auto. set_solver.
  - intros m Hm. rewrite Ho2, Ho1; auto; set_solver.
Qed.

Lemma replace_child_first st k c n x :
  rep (nodes st) n x -> x <> E -> rep_ctx st k n -> n <> 0 -> NoDup (n :: ids x ++ cids k) ->
  let st2 := __rb_change_child (set_pc st (rid x) (pcv (cid k) c)) n (rid x) (cid k) in
  zrep st2 k (paint c x) /\ only (ids x ++ cids k) st st2 /\ aug st2 = aug st.
Proof.
  intros Hx HxE Hk Hn0 Hnd. nd_facts Hnd. cbv zeta. destruct (rid_nonzero _ _ _ Hx HxE) as [Hr0 _].
  destruct (reparent_color st n (cid k) x c) as (Hx1 & Ho1 & Ha1 & Hr1); auto.
  replace (rid x =? NULL) with false in * by (symmetry; now apply Z.eqb_neq). cbn [negb] in *.
  unfold rb_set_parent_color in *. change (Z.lor (cid k) (colz c)) with (pcv (cid k) c) in *.
  set (st1 := set_pc st _ _) in *.
  destruct (change_child_spec st1 k n (rid x)) as (Hk2 & Ho2 & Ha2); auto;
    [apply (rep_ctx_only (ids x) st); auto; set_solver|now apply NoDup_cons|].
  set (st2 := __rb_change_child _ _ _ _) in *. split_and!; auto; try congruence.
  - split_and!; [|now rewrite rid_paint|rewrite ids_paint; now apply NoDup_app].
    eapply rep_only; [exact Ho2|rewrite ids_paint; set_solver|exact Hx1].
  - intros m Hm. rewrite Ho2, Ho1; auto; set_solver.
Qed.

(** Cases 1 and 2 of [__rb_erase_augmented]. *)
Lemma erase_one_child fuel st k c l n r :
  zrep st k (T c l n r) -> is_rb (plug k (T c l n r)) ->
  aug_ok compute (aug st) l -> aug_ok compute (aug st) r -> aug_ctx compute (aug st) k (aug st n) ->
  l = E \/ r = E -> (length (ids (T c l n r) ++ cids k) <= fuel)%nat ->
  exists reb st', __rb_erase_augmented (callbacks_max compute) fuel st n = Some (reb, st') /\
    erased compute st st' (ids (T c l n r) ++ cids k) (lctx k ++ inorder l ++ inorder r ++ rctx k) reb.
Proof.
  intros ((Hn0 & Hna & Hn & Hl & Hr) & Hk & Hnd) Hrb Hal Har Hac Hlr Hf.
  destruct (rb_unplug _ _ Hrb) as (h & Hh & Hkh & Hc). cbn [tcol rid ids] in *.
  assert (Hcp : addr (cid k)) by (eapply rep_ctx_addr; eauto). pose proof (length_cids k) as Hlen.
  unfold __rb_erase_augmented, child. rewrite Hn. cbn [get_child rb_left rb_right pc]. rewrite parent_pcv, color_pcv by auto.
  cbn [propagate callbacks_max].
  set (S0 := (n :: ids l ++ ids r) ++ cids k).
  assert (Hfin : forall st1 x, zrep st1 k (paint c x) -> only (ids x ++ cids k) st st1 -> aug st1 = aug st ->
    (x = r /\ l = E \/ x = l /\ r = E) -> rid_ok x ->
    let reb := if negb (rid x =? NULL) then NULL else if negb (colz c =? 0) then cid k else NULL in
    exists st', max_propagate compute fuel st1 (cid k) NULL = Some st' /\
      erased compute st st' S0 (lctx k ++ inorder l ++ inorder r ++ rctx k) reb).
  { intros st1 x Hz1 Ho1 Ha1 Hx Hxo. cbv zeta.
    destruct (rb_only_child c n x h k) as [Hxc (h' & Hh' & Hcase)]; auto;
      [destruct Hx as [[-> ->]|[-> ->]]; auto|]. cbv zeta in Hcase. specialize (Hcase Hxo).
    assert (Hp : paint c x = paint Black x) by (destruct x; [auto|rewrite Hxc by done; auto]). rewrite Hp in Hz1.
    assert (Hin : inorder (plug k (paint Black x)) = lctx k ++ inorder l ++ inorder r ++ rctx k).
    { rewrite inorder_plug, inorder_paint. destruct Hx as [[-> ->]|[-> ->]]; auto. }
    assert (Hsub : forall m, m ∈ ids x ++ cids k -> m ∈ S0) by (unfold S0; destruct Hx as [[-> ->]|[-> ->]]; set_solver).
    rewrite <- Hin. eapply (erased_propagate compute compute_nonneg fuel st st1 k _ h'); eauto.
    - rewrite aug_ok_paint, Ha1. destruct Hx as [[-> ->]|[-> ->]]; auto.
    - rewrite Ha1. exact Hac.
    - intros m Hm. apply Ho1. auto.
    - intros m _. now rewrite Ha1.
    - rewrite ids_paint. exact Hsub.
    - unfold S0. rewrite length_app. lia. }
  assert (Hlr' : l = E \/ l <> E /\ r = E) by (destruct l; [auto|right; destruct Hlr; [done|split; done]]).
  destruct Hlr' as [->|[HlE ->]].
  - cbn [rid]. change (0 =? NULL) with true. cbv iota.
    assert (Hnd' : NoDup (n :: ids r ++ cids k)) by exact Hnd.
    destruct (replace_hole_first st k c n r Hr Hk Hn0 Hnd') as (Hz1 & Ho1 & Ha1). cbv zeta in *.
    destruct (Hfin _ r Hz1 Ho1 Ha1) as (st' & E' & Her); eauto using rep_rid_ok.
    exists (if negb (rid r =? NULL) then NULL else if negb (colz c =? 0) then cid k else NULL), st'.
    split; [|exact Her]. destruct (rid r =? NULL); cbn [negb] in *; rewrite E'; reflexivity.
  - destruct (rid_nonzero _ _ _ Hl HlE) as [Hl0 _]. replace (rid l =? NULL) with false by (symmetry; now apply Z.eqb_neq).
    cbn [rid]. change (0 =? NULL) with true. cbv iota.
    assert (Hnd' : NoDup (n :: ids l ++ cids k)) by (cbn in Hnd; rewrite app_nil_r in Hnd; exact Hnd).
    destruct (replace_child_first st k c n l Hl HlE Hk Hn0 Hnd') as (Hz1 & Ho1 & Ha1). cbv zeta in *.
    destruct (Hfin _ l Hz1 Ho1 Ha1) as (st' & E' & Her); eauto using rep_rid_ok.
    replace (rid l =? NULL) with false in * by (symmetry; now apply Z.eqb_neq). cbn [negb] in *.
    exists NULL, st'. split; [|exact Her]. rewrite E'. reflexivity.
Qed.

(** ** Removing a node with two children *)

(** The leftmost node of a subtree, and the loop that finds it. *)
Lemma leftmost_exists t :
  t <> E -> exists k c s x, t = plug k (T c E s x) /\ lctx k = [] /\ top_dir k = Left /\
    forall fuel st par, rep (nodes st) par t -> (length (ids t) <= fuel)%nat ->
      successor_loop fuel st par (rid t) (child st Left (rid t)) = Some (segcid par k, s).
Proof.
  induction t as [|c l IHl n r _]; [done|]. intros _.
  assert (Hl : l = E \/ l <> E) by (destruct l; auto). destruct Hl as [->|Hl].
  { exists [], c, n, r. split_and!; auto. intros fuel st par (_ & _ & Hn & _) Hf. destruct fuel; [cbn in Hf; lia|].
    unfold child. cbn [rid]. rewrite Hn. reflexivity. }
  destruct (IHl Hl) as (k & cs & s & x & -> & Hk & Hd & Hloop). exists (k ++ [F Left c n r]), cs, s, x. split_and!.
  - now rewrite plug_app.
  - now rewrite lctx_app.
  - now destruct k as [|[[]]].
  - intros fuel st par (_ & _ & Hn & Hrep & _) Hf. destruct fuel; [cbn in Hf; lia|]. unfold child at 1. cbn [rid].
    rewrite Hn. cbn [get_child rb_left successor_loop]. destruct (rid_nonzero _ _ _ Hrep Hl) as [H0 _].
    replace (rid _ =? NULL) with false by (symmetry; now apply Z.eqb_neq). rewrite segcid_app. apply Hloop; auto.
    cbn [ids length] in Hf. rewrite length_app in Hf. lia.
Qed.

(** A new subtree at the bottom of a path. *)
Lemma seg_set_child st base d c p sib k hid v :
  rep_seg (nodes st) base (F d c p sib :: k) hid -> NoDup (p :: ids sib ++ cids k) ->
  rep_seg (nodes (set_child st d p v)) base (F d c p sib :: k) v /\ only [p] st (set_child st d p v).
Proof.
  intros (Hp0 & Hpa & Hp & Hs & Hk) Hnd. nd_facts Hnd. rewrite (set_child_near st d p _ _ _ _ Hp).
  assert (Ho : only [p] st (upd st p (mkn d (pcv (segcid base k) c) v (rid sib)))) by (apply only_upd; set_solver).
  split; [|exact Ho]. cbn [rep_seg]. split_and!; auto; [apply nodes_upd_eq|now apply rep_insert|].
  eapply rep_seg_only; [exact Ho| |exact Hk]. disj.
Qed.

(** A new parent at the top of a path. *)
Lemma seg_set_parent st base base' k d c n s hid :
  rep_seg (nodes st) base (k ++ [F d c n s]) hid -> addr base -> NoDup (n :: ids s ++ cids k) ->
  let st' := rb_set_parent st n base' in
  rep_seg (nodes st') base' (k ++ [F d c n s]) hid /\ only [n] st st' /\ aug st' = aug st /\ root st' = root st.
Proof.
  intros H Hb Hnd. nd_facts Hnd. apply rep_seg_app in H as [Hk (Hn0 & Hna & Hn & Hs & _)]. cbn [segcid] in *. cbv zeta.
  unfold rb_set_parent. rewrite (rb_color_mkn st d n base c _ _ Hb Hn), lor_colz, (set_pc_mkn st d n _ _ _ _ Hn).
  set (st' := upd st n _). assert (Ho : only [n] st st') by (apply only_upd; set_solver). split_and!; auto.
  apply rep_seg_app. split; [eapply rep_seg_only; [exact Ho|disj|exact Hk]|].
  cbn [rep_seg segcid]. split_and!; auto; [apply nodes_upd_eq|now apply rep_insert].
Qed.

(** The stores that unlink the leftmost node [s] of a subtree and hang the rest
    of the subtree below it. *)
Lemma unlink_successor st n k cr rn rr cs s x :
  let kseg := k ++ [F Left cr rn rr] in
  rep (nodes st) n (plug kseg (T cs E s x)) -> top_dir kseg = Left -> addr n ->
  NoDup (n :: s :: ids x ++ cids kseg) ->
  let st' := set_child st Left (segcid s kseg) (rid x) in
  let st' := set_child st' Right s rn in
  let st' := rb_set_parent st' rn s in
  only (s :: cids kseg) st st' /\ root st' = root st /\ aug st' = aug st /\
  nodes st' s = Node (pcv (segcid n kseg) cs) 0 rn /\ addr (segcid n kseg) /\ addr s /\
  rep_seg (nodes st') s kseg (rid x) /\ rep (nodes st') s x.
Proof.
  intros kseg Hrep Hd Hna Hnd. cbv zeta. apply rep_plug in Hrep as [Hseg (Hs0 & Hsa & Hs & _ & Hx)].
  assert (Hpa : addr (segcid n kseg)) by (eapply segcid_addr; eauto).
  assert (Hks : exists c1 p1 s1 k1, kseg = F Left c1 p1 s1 :: k1).
  { unfold kseg in *. destruct k as [|[d1 c1 p1 s1] k]; [do 4 eexists; reflexivity|]. cbn in Hd. subst d1. do 4 eexists. reflexivity. }
  assert (Hrn : rn ∈ cids kseg) by (unfold kseg; rewrite cids_app; set_solver).
  assert (HndK : NoDup (cids kseg)) by (nd_facts Hnd; auto).
  assert (Hn1 : NoDup (rn :: ids rr ++ cids k)).
  { eapply NoDup_perm; [exact HndK|]. unfold kseg. rewrite cids_app. cbn. rewrite app_nil_r. solve_Permutation. }
  assert (Hp1 : segcid s kseg ∈ cids kseg) by (destruct Hks as (? & ? & ? & ? & ->); cbn; set_solver).
  assert (H1 : rep_seg (nodes (set_child st Left (segcid s kseg) (rid x))) n kseg (rid x) /\
    only [segcid s kseg] st (set_child st Left (segcid s kseg) (rid x))).
  { destruct Hks as (c1 & p1 & s1 & k1 & Ek). rewrite Ek in *. cbn [segcid]. eapply seg_set_child; eauto. }
  destruct H1 as [Hseg1 Ho1]. assert (Hr1 : root (set_child st Left (segcid s kseg) (rid x)) = root st) by reflexivity.
  assert (Ha1 : aug (set_child st Left (segcid s kseg) (rid x)) = aug st) by reflexivity.
  set (st1 := set_child st Left _ _) in *. clearbody st1. clear Hks.
  assert (Hsk : (s ∉ cids kseg) /\ (s ∉ ids x)) by (nd_facts Hnd; auto). destruct Hsk as [Hsk Hsx].
  assert (Hs1 : nodes st1 s = mkn Left (pcv (segcid n kseg) cs) 0 (rid x)) by (rewrite Ho1; [exact Hs|]; rewrite list_elem_of_singleton; intros E; apply Hsk; rewrite E; exact Hp1).
  change Right with (opp Left). rewrite (set_child_far st1 Left s _ _ _ _ Hs1). set (st2 := upd st1 s _).
  assert (Ho2 : only [s] st1 st2) by (apply only_upd; set_solver).
  destruct (seg_set_parent st2 n s k Left cr rn rr (rid x)) as (Hseg3 & Ho3 & Ha3 & Hr3); auto.
  { eapply rep_seg_only; [exact Ho2| |exact Hseg1]. set_solver. }
  cbv zeta in *. set (st3 := rb_set_parent st2 rn s) in *.
  assert (Ho : only (s :: cids kseg) st st3).
  { clear - Ho1 Ho2 Ho3 Hrn Hp1. intros m Hm. rewrite Ho3, Ho2, Ho1; auto; set_solver. }
  split_and!; auto; try congruence.
  - rewrite Ho3; [apply nodes_upd_eq|set_solver].
  - eapply rep_only; [exact Ho| |exact Hx]. nd_facts Hnd. set_solver.
Qed.

(** What [erase_successor] leaves: the right subtree without its leftmost node
    [s], hanging below [s]. *)
Lemma erase_successor_spec fuel st n r :
  rep (nodes st) n r -> r <> E -> aug_ok compute (aug st) r -> addr n -> NoDup (n :: ids r) ->
  (length (ids r) <= fuel)%nat ->
  exists kseg cs s x st1 p,
    r = plug kseg (T cs E s x) /\ lctx kseg = [] /\
    erase_successor (callbacks_max compute) fuel st n (rid r) = Some (segcid s kseg, s, rid x, st1) /\
    only (ids r) st st1 /\ root st1 = root st /\ same_aug (ids r) st st1 /\ aug st1 s = aug st n /\
    addr p /\ nodes st1 s = Node (pcv p cs) 0 (topid (rid x) kseg) /\
    rep_seg (nodes st1) s kseg (rid x) /\ rep (nodes st1) s x /\ aug_ok compute (aug st1) (plug kseg x).
Proof.
  intros Hr HrE Har Hna Hnd Hf. destruct r as [|cr rl rn rr]; [done|]. clear HrE.
  destruct Hr as (Hrn0 & Hrna & Hrn & Hrl & Hrr). unfold erase_successor. cbv zeta. cbn [rid].
  rewrite (child_near st Left rn _ _ _ Hrn). assert (Hl : rl = E \/ rl <> E) by (destruct rl; auto). destruct Hl as [->|Hl].
  { change (rid E =? NULL) with true. cbv iota.
    exists [], cr, rn, rr, (max_copy st n rn), n. cbn in Har. destruct Har as (_ & _ & Har).
    cbn in Hnd. nd_facts Hnd. split_and!; auto.
    - unfold child. rewrite Hrn. reflexivity.
    - intros m _. reflexivity.
    - intros m Hm. cbn in Hm. apply fn_lookup_insert_ne. set_solver.
    - apply fn_lookup_insert.
    - cbn. eapply aug_ok_frame; [|exact Har]. intros m Hm. apply fn_lookup_insert_ne. intros ->. done. }
  destruct (leftmost_exists rl Hl) as (k & cs & s & x & -> & Hk & Hd & Hloop).
  destruct (rid_nonzero _ _ _ Hrl Hl) as [H0 _]. replace (rid _ =? NULL) with false by (symmetry; now apply Z.eqb_neq).
  rewrite (Hloop fuel st rn Hrl) by (cbn [ids length] in Hf; rewrite length_app in Hf; lia). cbn [mbind option_bind].
  assert (Hnx : child st Right s = rid x).
  { apply rep_plug in Hrl as [_ (_ & _ & Hs & _)]. unfold child. now rewrite Hs. }
  rewrite Hnx. set (kseg := k ++ [F Left cr rn rr]).
  assert (Hpl : T cr (plug k (T cs E s x)) rn rr = plug kseg (T cs E s x)) by (unfold kseg; now rewrite plug_app).
  assert (Hids : ids (T cr (plug k (T cs E s x)) rn rr) ≡ₚ s :: ids x ++ cids kseg) by (rewrite Hpl, ids_plug; reflexivity).
  assert (Hnd' : NoDup (n :: s :: ids x ++ cids kseg)) by (rewrite <- Hids; exact Hnd).
  assert (Hpar : segcid rn k = segcid s kseg) by (unfold kseg; now rewrite segcid_app). rewrite Hpar.
  rewrite Hpl in Har. destruct (aug_unplug compute _ _ _ Har) as [(_ & _ & Hax) Hac].
  destruct (unlink_successor st n k cr rn rr cs s x) as (Ho3 & Hr3 & Ha3 & Hs3 & Hpa & Hsa & Hseg3 & Hx3); auto.
  { change (rep (nodes st) n (plug kseg (T cs E s x))). rewrite <- Hpl. cbn. auto. }
  { now destruct k as [|[[]]]. }
  cbv zeta in *. fold kseg in Ho3, Hs3, Hpa, Hseg3. set (st3 := rb_set_parent _ rn s) in *. clearbody st3.
  cbn [copy propagate callbacks_max]. set (st4 := max_copy st3 n s).
  assert (Hfr : forall m, m <> s -> aug st4 m = aug st m) by (intros m Hm; rewrite <- Ha3; now apply fn_lookup_insert_ne).
  nd_facts Hnd'. destruct (propagate_spec compute compute_nonneg fuel st4 s kseg x) as (st5 & E5 & Hn5 & Hr5 & Hs5 & Hok5 & Hcx5); auto.
  - eapply rep_rid_ok; eauto.
  - now apply NoDup_app.
  - eapply aug_ok_frame; [|exact Hax]. intros m Hm. apply Hfr. intros ->. done.
  - eapply aug_ctx_stale, aug_ctx_frame; [|exact Hac]. intros m Hm. apply Hfr. intros ->. done.
  - pose proof (length_cids kseg). rewrite (Permutation_length Hids) in Hf. cbn in Hf. rewrite length_app in Hf. lia.
  - rewrite E5. exists kseg, cs, s, x, st5, (segcid n kseg). rewrite Hn5.
    assert (Hsub : forall m, m ∈ ids (T cr (plug k (T cs E s x)) rn rr) <-> m ∈ s :: ids x ++ cids kseg) by (intros m; now rewrite Hids).
    split_and!; auto.
    + unfold kseg. now rewrite lctx_app.
    + intros m Hm. rewrite Hsub in Hm. rewrite Hn5. apply Ho3. clear - Hm. set_solver.
    + now rewrite Hr5.
    + intros m Hm. rewrite Hsub in Hm. rewrite Hs5, Hfr; auto; clear - Hm; set_solver.
    + rewrite Hs5 by auto. unfold st4, max_copy. cbn. rewrite fn_lookup_insert. now rewrite Ha3.
    + change (nodes st4) with (nodes st3). rewrite Hs3. unfold kseg. now rewrite topid_app.
    + apply aug_plug; auto.
Qed.

(** The stores that put the successor in the place of the node. *)
Lemma splice_successor st k c n l nr kseg cs s x p :
  nodes st n = mkn Left (pcv (cid k) c) (rid l) nr -> rep (nodes st) n l -> l <> E -> rep_ctx st k n ->
  n <> 0 -> addr n -> s <> 0 -> addr s -> addr p ->
  nodes st s = mkn Left (pcv p cs) 0 (topid (rid x) kseg) ->
  rep_seg (nodes st) s kseg (rid x) -> rep (nodes st) s x ->
  NoDup (n :: s :: ids l ++ ids x ++ cids kseg ++ cids k) ->
  let st2 := rb_set_parent (set_child st Left s (rid l)) (rid l) s in
  let st3 := __rb_change_child st2 n s (cid k) in
  let st4 := if negb (rid x =? NULL) then rb_set_parent_color st3 (rid x) (segcid s kseg) RB_BLACK else st3 in
  let st5 := set_pc st4 s (pcv (cid k) c) in
  pc (nodes st2 n) = pcv (cid k) c /\
  rb_is_black st3 s = match cs with Red => false | Black => true end /\
  zrep st5 (kseg ++ F Right c s l :: k) (paint Black x) /\
  only (s :: ids l ++ ids x ++ cids k) st st5 /\ aug st5 = aug st.
Proof.
  intros Hn Hl HlE Hk Hn0 Hna Hs0 Hsa Hpa Hs Hseg Hx Hnd. nd_facts Hnd. cbv zeta.
  rewrite (set_child_near st Left s _ _ _ _ Hs). set (st1 := upd st s _).
  assert (Ho1 : only [s] st st1) by (apply only_upd; set_solver).
  destruct (rid_nonzero _ _ _ Hl HlE) as [Hl0 _].
  destruct (reparent_keep st1 n s l) as (Hl2 & Ho2 & Ha2 & Hr2); auto; [now apply rep_insert|].
  replace (rid l =? NULL) with false in * by (symmetry; now apply Z.eqb_neq). cbn [negb] in *.
  set (st2 := rb_set_parent st1 (rid l) s) in *.
  assert (Ho12 : only (s :: ids l) st st2) by (intros m Hm; rewrite Ho2, Ho1; auto; clear - Hm; set_solver).
  assert (Hk2 : rep_ctx st2 k n) by (apply (rep_ctx_only (s :: ids l) st); auto; clear - Hnd; nd_facts Hnd; set_solver).
  destruct (change_child_spec st2 k n s Hk2 Hn0) as (Hk3 & Ho3 & Ha3); [now apply NoDup_cons|]. cbv zeta in *.
  set (st3 := __rb_change_child st2 n s (cid k)) in *.
  assert (Hs3 : nodes st3 s = mkn Left (pcv p cs) (rid l) (topid (rid x) kseg))
    by (rewrite Ho3, Ho2 by auto; apply nodes_upd_eq).
  assert (Ho13 : only (s :: ids l ++ cids k) st st3)
    by (intros m Hm; rewrite Ho3, Ho12; auto; clear - Hm; set_solver).
  destruct (reparent_color st3 s (segcid s kseg) x Black) as (Hx4 & Ho4 & Ha4 & Hr4); auto.
  { eapply rep_only; [exact Ho13| |exact Hx]. clear - Hnd; nd_facts Hnd; set_solver. }
  change (colz Black) with RB_BLACK in *. set (st4 := if negb (rid x =? NULL) then _ else _) in *.
  assert (Hs4 : nodes st4 s = mkn Left (pcv p cs) (rid l) (topid (rid x) kseg)) by (rewrite Ho4; auto).
  rewrite (set_pc_mkn st4 Left s _ _ _ _ Hs4). set (st5 := upd st4 s _).
  assert (Ho5 : only [s] st4 st5) by (apply only_upd; set_solver).
  assert (Ho : only (s :: ids l ++ ids x ++ cids k) st st5).
  { clear - Ho13 Ho4 Ho5. intros m Hm. rewrite Ho5, Ho4, Ho13; auto; set_solver. }
  assert (Ha : aug st5 = aug st) by (transitivity (aug st4); [reflexivity|]; rewrite Ha4, Ha3, Ha2; reflexivity).
  split_and!; auto.
  - rewrite Ho12, Hn by (clear - Hnd; nd_facts Hnd; set_solver). reflexivity.
  - unfold rb_is_black. rewrite (rb_color_mkn st3 Left s p cs _ _ Hpa Hs3). now destruct cs.
  - split_and!.
    + replace (cid (kseg ++ F Right c s l :: k)) with (segcid s kseg) by now destruct kseg as [|[]].
      eapply rep_only; [exact Ho5| |exact Hx4]. rewrite ids_paint. disj.
    + rewrite rid_paint. apply rep_ctx_app. split.
      * cbn [cid]. eapply rep_seg_only; [exact Ho| |exact Hseg]. clear - Hnd; nd_facts Hnd; set_solver.
      * cbn [rep_ctx]. split_and!; auto; [apply nodes_upd_eq| |].
        -- eapply rep_only; [exact Ho5|disj|]. eapply rep_only; [exact Ho4|clear - Hnd; nd_facts Hnd; set_solver|].
           eapply rep_only; [exact Ho3|clear - Hnd; nd_facts Hnd; set_solver|exact Hl2].
        -- apply (rep_ctx_only [s] st4); auto; [disj|].
           apply (rep_ctx_only (ids x) st3); auto. clear - Hnd; nd_facts Hnd; set_solver.
    + rewrite ids_paint, cids_app. cbn [cids]. nd_facts Hnd.
      assert (Hnd2 : NoDup (s :: ids l ++ ids x ++ cids kseg ++ cids k)) by (apply NoDup_cons in Hnd as [_ Hnd]; exact Hnd).
      eapply NoDup_perm; [exact Hnd2|solve_Permutation].
Qed.

Lemma zrep_plug_app st k1 k2 t : zrep st (k1 ++ k2) t <-> zrep st k2 (plug k1 t).
Proof. clear dependent compute. revert t. induction k1 as [|[d c n s] k1 IH]; intros t; [easy|]. cbn [app plug]. rewrite zrep_up. apply IH. Qed.

Lemma aug_ok_plug_paint au k c t : aug_ok compute au (plug k (paint c t)) <-> aug_ok compute au (plug k t).
Proof.
  split; intros H; apply aug_unplug in H as [H1 H2]; rewrite ?aug_ok_paint, ?augz_paint in *;
    apply aug_plug; rewrite ?aug_ok_paint, ?augz_paint; auto.
Qed.

(** Balance does not depend on the identity of a node. *)
Lemma rb_ctx_rename kseg d c n n' l k h : rb_ctx (kseg ++ F d c n l :: k) h -> rb_ctx (kseg ++ F d c n' l :: k) h.
Proof.
  revert h. induction kseg as [|[d1 c1 n1 s1] kseg IH]; intros h; cbn [app]; [now destruct c|].
  destruct c1; cbn [rb_ctx]; [|naive_solver]. intros (? & ? & Hc & ?). split_and!; auto.
  destruct kseg as [|[]]; exact Hc.
Qed.

Lemma erase_two_children fuel st k c l n r :
  zrep st k (T c l n r) -> is_rb (plug k (T c l n r)) ->
  aug_ok compute (aug st) l -> aug_ok compute (aug st) r -> aug_ctx compute (aug st) k (aug st n) ->
  l <> E -> r <> E -> (length (ids (T c l n r) ++ cids k) <= fuel)%nat ->
  exists reb st', __rb_erase_augmented (callbacks_max compute) fuel st n = Some (reb, st') /\
    erased compute st st' (ids (T c l n r) ++ cids k) (lctx k ++ inorder l ++ inorder r ++ rctx k) reb.
Proof.
  intros ((Hn0 & Hna & Hn & Hl & Hr) & Hk & Hnd) Hrb Hal Har Hac HlE HrE Hf.
  assert (Hcp : addr (cid k)) by (eapply rep_ctx_addr; eauto).
  assert (Hnd1 : NoDup (n :: ids l ++ ids r ++ cids k)) by (cbn in Hnd; now rewrite <- app_assoc in Hnd).
  nd_facts Hnd1. pose proof (length_cids k) as Hlen. cbn [ids] in *. set (S0 := (n :: ids l ++ ids r) ++ cids k) in *.
  destruct (erase_successor_spec fuel st n r) as
    (kseg & cs & s & x & st1 & p & -> & Hlk & E1 & Ho1 & Hr1 & Hs1 & Has & Hpa & Hns & Hseg & Hx & Hax); auto;
    [now apply NoDup_cons|unfold S0 in Hf; rewrite length_app in Hf; cbn in Hf; rewrite length_app in Hf; lia|].
  set (r := plug kseg (T cs E s x)) in *.
  assert (Hids : forall m, m ∈ ids r <-> m ∈ s :: ids x ++ cids kseg) by (intros m; unfold r; now rewrite ids_plug).
  assert (Hnd2 : NoDup (n :: s :: ids l ++ ids x ++ cids kseg ++ cids k)).
  { eapply NoDup_perm; [exact Hnd1|]. unfold r. rewrite ids_plug. cbn. solve_Permutation. }
  assert (Hsaddr : s <> 0 /\ addr s) by (apply rep_plug in Hr as [_ (? & ? & _)]; auto). destruct Hsaddr as [Hs0 Hsa].
  destruct (splice_successor st1 k c n l (rid r) kseg cs s x p) as (Hpc & Hbl & Hz5 & Ho5 & Ha5); auto.
  { rewrite Ho1 by auto. exact Hn. }
  { eapply rep_only; [exact Ho1|auto|exact Hl]. set_solver. }
  { apply (rep_ctx_only (ids r) st); auto. clear - Hnd1; nd_facts Hnd1; set_solver. }
  cbv zeta in *. unfold __rb_erase_augmented. cbv zeta.
  assert (Hcl : child st Left n = rid l) by (unfold child; now rewrite Hn).
  assert (Hcr : child st Right n = rid r) by (unfold child; now rewrite Hn).
  rewrite Hcl, Hcr. destruct (rid_nonzero _ _ _ Hl HlE) as [Hl0 _]. destruct (rid_nonzero _ _ _ Hr HrE) as [Hr0 _].
  replace (rid l =? NULL) with false by (symmetry; now apply Z.eqb_neq).
  replace (rid r =? NULL) with false by (symmetry; now apply Z.eqb_neq).
  rewrite E1. cbn [mbind option_bind propagate callbacks_max].
  assert (Hnl : child st1 Left n = rid l) by (unfold child; rewrite Ho1, Hn by auto; reflexivity).
  rewrite Hnl, Hpc, parent_pcv, Hbl by auto. set (st3 := __rb_change_child _ n s (cid k)) in *.
  set (k2 := F Right c s l :: k) in *.
  destruct (rb_unplug (kseg ++ F Right c n l :: k) (T cs E s x)) as (h & Hh & Hkh & Hc); [rewrite plug_app; exact Hrb|].
  apply (rb_ctx_rename _ _ _ _ s) in Hkh.
  assert (Hc' : cs = Black \/ ctop (kseg ++ k2) = Some Black) by (destruct Hc as [Hc|Hc]; [auto|right; destruct kseg as [|[]]; exact Hc]).
  destruct (rb_only_child cs s x h (kseg ++ k2)) as [_ (h' & Hh' & Hcase)]; auto. cbv zeta in Hcase.
  specialize (Hcase (rep_rid_ok _ _ _ Hx)). set (t' := paint Black x) in *.
  assert (Hz2 : forall st5, zrep st5 (kseg ++ k2) t' -> aug st5 = aug st1 -> exists st',
    max_propagate compute fuel st5 s NULL = Some st' /\ nodes st' = nodes st5 /\ root st' = root st5 /\
    same_aug (cids k2) st5 st' /\ aug_ok compute (aug st') t' /\ aug_ctx compute (aug st') (kseg ++ k2) (augz (aug st') t')).
  { intros st5 Hz Hau. destruct (propagate_root compute compute_nonneg fuel st5 k2 (plug kseg t')) as (st' & E' & ? & ? & ? & Hok & Hcx).
    - now apply zrep_plug_app.
    - rewrite Hau. now apply aug_ok_plug_paint.
    - rewrite Hau. cbn. rewrite Has. split; [eapply aug_ok_frame; [|exact Hal]|eapply aug_ctx_frame; [|exact Hac]];
        intros m Hm; apply Hs1; clear - Hnd1 Hm; nd_facts Hnd1; set_solver.
    - unfold S0 in Hf. rewrite length_app in Hf. cbn in *. lia.
    - exists st'. split_and!; auto; pose proof (aug_plug compute _ _ _ Hok Hcx) as Hall; rewrite <- plug_app in Hall;
        apply aug_unplug in Hall as [? ?]; auto. }
  assert (Hpar : segcid s kseg = cid (kseg ++ k2)) by now destruct kseg as [|[]].
  destruct (Hz2 _ Hz5 Ha5) as (st' & E' & Hn' & Hr' & Hs' & Hok & Hcx). rewrite Hpar in *.
  exists (if negb (rid x =? NULL) then NULL else if negb (colz cs =? 0) then cid (kseg ++ k2) else NULL), st'. split.
  { destruct (rid x =? NULL); cbn [negb] in *; rewrite E'; destruct cs; reflexivity. }
  assert (Hsub : forall m, m ∈ s :: ids x ++ cids kseg -> m ∈ S0) by (intros m; rewrite <- Hids; unfold S0; clear; set_solver).
  exists (kseg ++ k2), t', h'. split_and!; auto.
  - eapply zrep_same; [exact Hn'|exact Hr'|exact Hz5].
  - unfold t'. rewrite inorder_plug, inorder_paint. unfold r. rewrite inorder_plug, Hlk. cbn [inorder app].
    rewrite lctx_app, rctx_app, Hlk, app_nil_r. cbn. now rewrite <- !app_assoc.
  - intros m Hm. rewrite Hn', Ho5, Ho1; [auto|..]; unfold S0 in Hm; clear - Hm Hids; specialize (Hids m); set_solver.
  - intros m Hm. rewrite Hs' by (cbn [cids k2]; intros Hm'; apply Hm; clear - Hm' Hsub; unfold S0 in *; set_solver).
    rewrite Ha5. apply Hs1. unfold S0 in Hm. clear - Hm. set_solver.
  - intros m Hm. unfold t' in Hm. rewrite ids_paint, cids_app in Hm. cbn [cids k2] in Hm. specialize (Hsub m).
    clear - Hm Hsub. unfold S0 in *. set_solver.
  - unfold S0, r, k2. rewrite length_app. cbn [length]. rewrite !length_app, ids_plug. cbn. rewrite !length_app.
    cbn [length]. rewrite length_app. pose proof (length_cids kseg). lia.
Qed.

(** Deletion: any node of a red-black tree can be erased; the result is a
    red-black tree of the other nodes, in order, with consistent maxima.  The
    value of the erased node itself need not be consistent. *)
Lemma rb_erase_augmented_spec fuel st k c l n r :
  zrep st k (T c l n r) -> is_rb (plug k (T c l n r)) ->
  aug_ok compute (aug st) l -> aug_ok compute (aug st) r -> aug_ctx compute (aug st) k (aug st n) ->
  (length (ids (T c l n r) ++ cids k) <= fuel)%nat ->
  exists st', rb_erase_augmented (callbacks_max compute) fuel st n = Some st' /\
    rb_result compute st st' (ids (T c l n r) ++ cids k) (lctx k ++ inorder l ++ inorder r ++ rctx k).
Proof.
  intros Hz Hrb Hal Har Hac Hf. unfold rb_erase_augmented.
  assert (exists reb st1, __rb_erase_augmented (callbacks_max compute) fuel st n = Some (reb, st1) /\
    erased compute st st1 (ids (T c l n r) ++ cids k) (lctx k ++ inorder l ++ inorder r ++ rctx k) reb)
    as (reb & st1 & E1 & He).
  { assert (Hlr : (l = E \/ r = E) \/ (l <> E /\ r <> E)) by (destruct l, r; auto; right; split; done).
    destruct Hlr as [Hlr|[HlE HrE]]; [now apply erase_one_child|now apply erase_two_children]. }
  rewrite E1. cbn [mbind option_bind]. eapply erased_rebalance; eauto.
Qed.
End erase.

(** ** The plain trees: [rb_insert_color] and [rb_erase]

    The dummy callbacks change no augmented value.  Links and colours do not
    depend on the callbacks: the runs with two sets of callbacks on stores that
    agree on nodes and root stay in lockstep. *)

Definition sim (s1 s2 : store) : Prop := nodes s1 = nodes s2 /\ root s1 = root s2.
Definition osim (o1 o2 : option store) : Prop :=
  forall s1, o1 = Some s1 -> exists s2, o2 = Some s2 /\ sim s1 s2.

Create HintDb sim.

Lemma sim_child s1 s2 d n : sim s1 s2 -> child s1 d n = child s2 d n.
Proof. intros [H _]. unfold child. now rewrite H. Qed.
Lemma sim_pc s1 s2 n : sim s1 s2 -> pc (nodes s1 n) = pc (nodes s2 n).
Proof. intros [H _]. now rewrite H. Qed.
Lemma sim_red s1 s2 n : sim s1 s2 -> rb_is_red s1 n = rb_is_red s2 n.
Proof. intros [H _]. unfold rb_is_red, rb_color. now rewrite H. Qed.
Lemma sim_black s1 s2 n : sim s1 s2 -> rb_is_black s1 n = rb_is_black s2 n.
Proof. intros [H _]. unfold rb_is_black, rb_color. now rewrite H. Qed.
Lemma sim_parent s1 s2 n : sim s1 s2 -> rb_parent s1 n = rb_parent s2 n.
Proof. intros [H _]. unfold rb_parent. now rewrite H. Qed.
Lemma sim_set_pc s1 s2 n v : sim s1 s2 -> sim (set_pc s1 n v) (set_pc s2 n v).
Proof. intros [H1 H2]. split; [cbn; now rewrite H1|exact H2]. Qed.
Lemma sim_set_child s1 s2 d n v : sim s1 s2 -> sim (set_child s1 d n v) (set_child s2 d n v).
Proof. intros [H1 H2]. split; [cbn; now rewrite H1|exact H2]. Qed.
Lemma sim_set_parent_color s1 s2 n p c : sim s1 s2 -> sim (rb_set_parent_color s1 n p c) (rb_set_parent_color s2 n p c).
Proof. apply sim_set_pc. Qed.
Lemma sim_set_parent s1 s2 n p : sim s1 s2 -> sim (rb_set_parent s1 n p) (rb_set_parent s2 n p).
Proof. intros H. unfold rb_set_parent, rb_color. rewrite (sim_pc s1 s2) by auto. now apply sim_set_pc. Qed.
Lemma sim_set_black s1 s2 n : sim s1 s2 -> sim (rb_set_black s1 n) (rb_set_black s2 n).
Proof. intros H. unfold rb_set_black. rewrite (sim_pc s1 s2) by auto. now apply sim_set_pc. Qed.
Lemma sim_change_child s1 s2 o n p : sim s1 s2 -> sim (__rb_change_child s1 o n p) (__rb_change_child s2 o n p).
Proof.
  intros H. unfold __rb_change_child. rewrite (sim_child s1 s2) by auto. destruct (negb _); [destruct (_ =? _)|];
    auto using sim_set_child. destruct H. now split.
Qed.
Lemma sim_rotate_set_parents s1 s2 o n c :
  sim s1 s2 -> sim (__rb_rotate_set_parents s1 o n c) (__rb_rotate_set_parents s2 o n c).
Proof.
  intros H. unfold __rb_rotate_set_parents. rewrite (sim_parent s1 s2), (sim_pc s1 s2) by auto.
  apply sim_change_child, sim_set_parent_color, sim_set_pc, H.
Qed.
#[export] Hint Resolve sim_set_pc sim_set_child sim_set_parent_color sim_set_parent sim_set_black sim_change_child
  sim_rotate_set_parents : sim.

(** Callbacks that change augmented values only. *)
Record pure_cb (cb : rb_augment_callbacks) : Prop := {
  pure_rotate : forall st a b, sim (rotate cb st a b) st;
  pure_copy : forall st a b, sim (copy cb st a b) st;
  pure_propagate : forall f st a b st', propagate cb f st a b = Some st' -> sim st' st;
}.

Lemma sim_trans s1 s2 s3 : sim s1 s2 -> sim s2 s3 -> sim s1 s3.
Proof. intros [] []. split; congruence. Qed.

Section lockstep.
Context (cb : rb_augment_callbacks) (Hcb : pure_cb cb).

Lemma sim_rotate s1 s2 a b : sim s1 s2 -> sim (rotate cb s1 a b) (rotate dummy_callbacks s2 a b).
Proof. intros H. eapply sim_trans; [apply pure_rotate, Hcb|exact H]. Qed.
Lemma sim_copy s1 s2 a b : sim s1 s2 -> sim (copy cb s1 a b) (copy dummy_callbacks s2 a b).
Proof. intros H. eapply sim_trans; [apply pure_copy, Hcb|exact H]. Qed.
Hint Resolve sim_rotate sim_copy : sim.

Lemma insert_case23_sim s1 s2 d n p g :
  sim s1 s2 -> sim (insert_case23 cb s1 d n p g) (insert_case23 dummy_callbacks s2 d n p g).
Proof.
  intros H. unfold insert_case23. rewrite (sim_child s1 s2 (opp d) p H), (sim_child s1 s2 d n H).
  destruct (n =? _); cbv zeta.
  - set (a1 := if negb _ then rb_set_parent_color (set_child (set_child s1 _ _ _) _ _ _) _ _ _ else _).
    set (a2 := if negb _ then rb_set_parent_color (set_child (set_child s2 _ _ _) _ _ _) _ _ _ else _).
    assert (Ha : sim a1 a2) by (unfold a1, a2; destruct (negb _); eauto with sim). clearbody a1 a2.
    assert (Hr : sim (rotate cb (rb_set_parent_color a1 p n RB_RED) p n)
      (rotate dummy_callbacks (rb_set_parent_color a2 p n RB_RED) p n)) by eauto with sim.
    revert Hr. generalize (rotate cb (rb_set_parent_color a1 p n RB_RED) p n)
      (rotate dummy_callbacks (rb_set_parent_color a2 p n RB_RED) p n). intros b1 b2 Hb.
    rewrite (sim_child b1 b2) by auto. destruct (negb _); eauto 10 with sim.
  - destruct (negb _); eauto 10 with sim.
Qed.

Lemma insert_loop_sim fuel s1 s2 n p :
  sim s1 s2 -> osim (rb_insert_loop cb fuel s1 n p) (rb_insert_loop dummy_callbacks fuel s2 n p).
Proof.
  revert s1 s2 n p. induction fuel as [|fuel IH]; intros s1 s2 n p H; [now intros s|]. cbn [rb_insert_loop].
  unfold rb_red_parent. rewrite (sim_black s1 s2), (sim_pc s1 s2), (sim_child s1 s2 Right) by auto.
  set (d := if negb (p =? _) then Left else Right). rewrite (sim_child s1 s2 (opp d)), (sim_red s1 s2) by auto.
  assert (Hret : forall a b, sim a b -> osim (Some a) (Some b)) by (intros a b Hab s [= <-]; eauto).
  destruct (p =? NULL); [auto with sim|]. destruct (rb_is_black s2 p); [auto|]. destruct (_ && _).
  - rewrite (sim_parent (rb_set_parent_color (rb_set_parent_color s1 _ _ _) _ _ _) (rb_set_parent_color (rb_set_parent_color s2 (child s2 (opp d) (pc (nodes s2 p))) (pc (nodes s2 p)) RB_BLACK) p (pc (nodes s2 p)) RB_BLACK)) by eauto with sim.
    apply IH. eauto with sim.
  - apply Hret, insert_case23_sim, H.
Qed.

Lemma erase_case4_sim s1 s2 d p q t :
  sim s1 s2 -> sim (erase_case4 cb s1 d p q t) (erase_case4 dummy_callbacks s2 d p q t).
Proof.
  intros H. unfold erase_case4. rewrite (sim_child s1 s2) by auto. cbv zeta. destruct (negb _); eauto 10 with sim.
Qed.

Lemma erase_case34_sim s1 s2 d p q t :
  sim s1 s2 -> sim (erase_case34 cb s1 d p q t) (erase_case34 dummy_callbacks s2 d p q t).
Proof.
  intros H. unfold erase_case34. rewrite (sim_black s1 s2), (sim_child s1 s2 d q) by auto. cbv zeta.
  destruct (_ || _); [|now apply erase_case4_sim].
  rewrite (sim_child s1 s2 (opp d) (child s2 d q)) by auto. apply erase_case4_sim. destruct (negb _); eauto 10 with sim.
Qed.

Lemma erase_loop_sim fuel s1 s2 n p :
  sim s1 s2 -> osim (rb_erase_loop cb fuel s1 n p) (rb_erase_loop dummy_callbacks fuel s2 n p).
Proof.
  revert s1 s2 n p. induction fuel as [|fuel IH]; intros s1 s2 n p H; [now intros s|]. cbn [rb_erase_loop].
  rewrite (sim_child s1 s2 Right) by auto. set (d := if negb (n =? _) then Left else Right).
  rewrite (sim_child s1 s2 (opp d)) by auto.
  assert (H1 : snd (erase_case1 cb s1 d p (child s2 (opp d) p)) = snd (erase_case1 dummy_callbacks s2 d p (child s2 (opp d) p)) /\
    sim (fst (erase_case1 cb s1 d p (child s2 (opp d) p))) (fst (erase_case1 dummy_callbacks s2 d p (child s2 (opp d) p)))).
  { unfold erase_case1. rewrite (sim_red s1 s2) by auto. destruct (rb_is_red _ _); [|now split].
    cbn [fst snd]. rewrite (sim_child s1 s2 d) by auto. split; [auto|]. cbv zeta. eauto 10 with sim. }
  destruct (erase_case1 cb _ _ _ _) as [a1 q1], (erase_case1 dummy_callbacks _ _ _ _) as [a2 q2]. cbn [fst snd] in H1.
  destruct H1 as [-> Ha]. unfold erase_case234. cbv zeta.
  rewrite (sim_child a1 a2 (opp d)), (sim_child a1 a2 d), !(sim_black a1 a2) by auto.
  assert (Hret : forall a b, sim a b -> osim (Some a) (Some b)) by (intros a b Hab s [= <-]; eauto).
  destruct (_ && _); [|apply Hret, erase_case34_sim, Ha].
  assert (Hb : sim (rb_set_parent_color a1 q2 p RB_RED) (rb_set_parent_color a2 q2 p RB_RED)) by auto with sim.
  revert Hb. generalize (rb_set_parent_color a1 q2 p RB_RED) (rb_set_parent_color a2 q2 p RB_RED). intros b1 b2 Hb.
  rewrite (sim_red b1 b2), (sim_parent b1 b2) by auto. destruct (rb_is_red _ _); [apply Hret; auto with sim|].
  destruct (negb (rb_parent b2 p =? NULL)); [now apply IH|now apply Hret].
Qed.

Lemma successor_loop_sim fuel s1 s2 p n t : sim s1 s2 -> successor_loop fuel s1 p n t = successor_loop fuel s2 p n t.
Proof.
  intros H. revert p n t. induction fuel as [|fuel IH]; intros p n t; cbn [successor_loop]; [auto|].
  now rewrite (sim_child s1 s2), IH by auto.
Qed.

Lemma erase_successor_sim fuel s1 s2 n ch p q x st' :
  sim s1 s2 -> erase_successor cb fuel s1 n ch = Some (p, q, x, st') ->
  exists st'', erase_successor dummy_callbacks fuel s2 n ch = Some (p, q, x, st'') /\ sim st' st''.
Proof.
  intros H. unfold erase_successor. rewrite (sim_child s1 s2 Left ch) by auto.
  destruct (_ =? _); [rewrite (sim_child s1 s2 Right ch) by auto; intros [= <- <- <- <-];
    eexists; split; [reflexivity|now apply sim_copy]|].
  rewrite (sim_child s1 s2 Left (child s2 Left ch)), (successor_loop_sim fuel s1 s2) by auto.
  destruct (successor_loop _ _ _ _ _) as [[p' q']|]; [|discriminate]. cbn [mbind option_bind].
  rewrite (sim_child s1 s2) by auto.
  destruct (propagate cb _ _ _ _) as [s3|] eqn:E; [|discriminate]. intros [= <- <- <- <-].
  eexists. split; [reflexivity|]. eapply sim_trans; [eapply pure_propagate; eauto|]. apply sim_copy. eauto 10 with sim.
Qed.

Lemma erase_augmented_sim fuel s1 s2 n reb st' :
  sim s1 s2 -> __rb_erase_augmented cb fuel s1 n = Some (reb, st') ->
  exists st'', __rb_erase_augmented dummy_callbacks fuel s2 n = Some (reb, st'') /\ sim st' st''.
Proof.
  intros H. unfold __rb_erase_augmented.
  rewrite (sim_child s1 s2 Right n), (sim_child s1 s2 Left n), (sim_pc s1 s2) by auto. cbv zeta.
  assert (Hp : forall s a b s' t, propagate cb fuel s a b = Some s' -> sim s t -> sim s' t)
    by (intros s a b s' t E Hs; eapply sim_trans; [eapply pure_propagate; eauto|exact Hs]).
  destruct (child s2 Left n =? NULL); [|destruct (child s2 Right n =? NULL)].
  - destruct (negb (child s2 Right n =? NULL)); cbn [propagate dummy_callbacks mbind option_bind];
      (destruct (propagate cb _ _ _ _) as [s3|] eqn:E; [|discriminate]); intros [= <- <-];
      (eexists; split; [reflexivity|]; eapply Hp; eauto with sim).
  - cbn [propagate dummy_callbacks mbind option_bind].
    destruct (propagate cb _ _ _ _) as [s3|] eqn:E; [|discriminate]. intros [= <- <-].
    eexists. split; [reflexivity|]. eapply Hp; eauto with sim.
  - destruct (erase_successor cb _ _ _ _) as [[[[p q] x] s3]|] eqn:E; [|discriminate]. cbn [mbind option_bind].
    destruct (erase_successor_sim _ _ _ _ _ _ _ _ _ H E) as (s4 & -> & H4). cbn [mbind option_bind].
    rewrite (sim_child s3 s4) by auto. set (a1 := rb_set_parent (set_child s3 _ _ _) _ _). set (a2 := rb_set_parent (set_child s4 _ _ _) _ _).
    assert (Ha : sim a1 a2) by (unfold a1, a2; eauto with sim). clearbody a1 a2.
    rewrite (sim_pc a1 a2) by auto. set (b1 := __rb_change_child a1 _ _ _). set (b2 := __rb_change_child a2 _ _ _).
    assert (Hb : sim b1 b2) by (unfold b1, b2; eauto with sim). clearbody b1 b2. rewrite (sim_black b1 b2) by auto.
    destruct (negb (x =? NULL)); cbn [propagate dummy_callbacks mbind option_bind];
      (destruct (propagate cb _ _ _ _) as [s5|] eqn:E5; [|discriminate]); intros [= <- <-];
      (eexists; split; [reflexivity|]; eapply Hp; eauto with sim).
Qed.

Lemma rb_erase_sim fuel s1 s2 n :
  sim s1 s2 -> osim (rb_erase_augmented cb fuel s1 n) (rb_erase fuel s2 n).
Proof.
  intros H st'. unfold rb_erase, rb_erase_augmented.
  destruct (__rb_erase_augmented cb fuel s1 n) as [[reb s3]|] eqn:E; [|discriminate]. cbn [mbind option_bind].
  destruct (erase_augmented_sim _ _ _ _ _ _ H E) as (s4 & -> & H4). cbn [mbind option_bind].
  destruct (negb _); [apply erase_loop_sim, H4|]. intros [= <-]. eauto.
Qed.
End lockstep.

Lemma max_propagate_sim compute fuel st a b st' : max_propagate compute fuel st a b = Some st' -> sim st' st.
Proof.
  revert st a. induction fuel as [|fuel IH]; intros st a; cbn [max_propagate]; (destruct (_ =? _); [intros [= <-]; now split|]);
    [discriminate|]. unfold compute_max. destruct (_ && _); [intros [= <-]; now split|]. intros H%IH. exact H.
Qed.

Lemma callbacks_max_pure compute : pure_cb (callbacks_max compute).
Proof. split; [now intros|now intros|]. intros f st a b st'. apply max_propagate_sim. Qed.
