(* ===== verification/RbSpec.v ===== *)
(** * Red-black trees: what the operations do

    The theorems about insertion, deletion and traversal, stated on a store that
    holds a tree ([zrep], of [RbTreeProofs]), with the bounds on the loops. *)

From stdpp Require Import functions.
From S2P Require Import Prelude RbTree RbTreeProofs RbErase.

#[local] Set Warnings "-clear-no-such-hyp".

(** ** Height *)

Lemma rb_size t h : rb t h -> (2 ^ h <= S (length (inorder t)))%nat.
Proof.
  revert h. induction t as [|c l IHl n r IHr]; intros h; cbn [rb inorder]; [intros ->; cbn; lia|].
  rewrite length_app. cbn [length]. destruct c.
  - intros (_ & _ & Hl%IHl & _). lia.
  - destruct h as [|h]; [done|]. intros (Hl%IHl & Hr%IHr). cbn [Nat.pow]. lia.
Qed.

(** Going up, every red node is followed by a black one. *)
Lemma rb_depth k t h :
  rb t h -> rb_ctx k h -> tcol t = Black \/ ctop k = Some Black ->
  exists H, rb (plug k t) H /\ (length k + match ctop k with Some Black => 1 | _ => 0 end + 2 * h <= 2 * H)%nat.
Proof.
  revert t h. induction k as [|[d c n s] k IH]; intros t h Ht Hk Hc; cbn [plug length ctop fcol].
  { exists h. split; [exact Ht|cbn; lia]. }
  destruct c; cbn [rb_ctx] in Hk.
  - destruct Hk as (Hcs & Hs & Htop & Hk). destruct Hc as [Hc|Hc]; [|discriminate].
    destruct (IH (mk d Red n t s) h) as (H & HH & Hl); auto; [rewrite rb_mk_red; auto|].
    exists H. split; [exact HH|]. rewrite Htop in Hl. lia.
  - destruct Hk as (Hs & Hk). destruct (IH (mk d Black n t s) (S h)) as (H & HH & Hl); auto.
    + rewrite rb_mk_black. auto.
    + rewrite tcol_mk. auto.
    + exists H. split; [exact HH|]. destruct (ctop k) as [[]|]; lia.
Qed.

(** The number of levels a loop can climb from a position. *)
Definition rb_fuel (size : nat) : nat := 2 * Nat.log2 (S size).

Lemma rb_path_bound k t : is_rb (plug k t) -> (length k <= rb_fuel (length (inorder (plug k t))))%nat.
Proof.
  intros Hrb. destruct (rb_unplug k t Hrb) as (h & Ht & Hk & Hc). destruct (rb_depth k t h Ht Hk Hc) as (H & HH & Hl).
  unfold rb_fuel. apply rb_size in HH. apply Nat.log2_le_mono in HH. rewrite Nat.log2_pow2 in HH by lia. lia.
Qed.

(** ** Traversal *)

(** The end of a sequence on side [d], or null. *)
Definition end_of (d : dir) (xs : list Z) : Z := match d with Left => hd 0 xs | Right => List.last xs 0 end.
(** The nodes of a tree or outside it, on side [d] of a position. *)
Definition beside (d : dir) (k : list frame) : list Z := match d with Left => lctx k | Right => rctx k end.

Lemma last_app_ne (xs ys : list Z) : ys <> [] -> List.last (xs ++ ys) 0 = List.last ys 0.
Proof.
  intros Hy. induction xs as [|x xs IH]; [reflexivity|]. cbn [app List.last]. rewrite IH.
  destruct (xs ++ ys) eqn:E; [|reflexivity]. apply app_eq_nil in E as [-> ->]. done.
Qed.

Lemma inorder_ne t : t <> E -> inorder t <> [].
Proof. destruct t; [done|]. intros _ H. cbn in H. now apply app_eq_nil in H as [_ H]. Qed.

Lemma end_of_mk d c n a b :
  end_of d (inorder (mk d c n a b)) = match a with E => n | _ => end_of d (inorder a) end.
Proof.
  destruct d; cbn [mk end_of inorder].
  - destruct a as [|ca la na ra]; [reflexivity|]. pose proof (inorder_ne (T ca la na ra) ltac:(done)) as H.
    destruct (inorder (T ca la na ra)); [done|reflexivity].
  - destruct a as [|ca la na ra]; [now rewrite last_app_ne|].
    rewrite last_app_ne by done. change (?x :: ?xs) with ([x] ++ xs) at 1. now rewrite last_app_ne by now apply inorder_ne.
Qed.

Lemma tree_mk d t : t <> E -> exists c n a b, t = mk d c n a b.
Proof. destruct t as [|c l n r]; [done|]. intros _. destruct d; [exists c, n, l, r|exists c, n, r, l]; reflexivity. Qed.

Lemma deepest_spec d fuel st par t :
  rep (nodes st) par t -> t <> E -> (length (ids t) <= fuel)%nat ->
  deepest fuel st d (rid t) = Some (end_of d (inorder t)).
Proof.
  revert par t. induction fuel as [|fuel IH]; intros par t Hr HE Hf; [destruct t; [done|cbn in Hf; lia]|].
  destruct (tree_mk d t HE) as (c & n & a & b & ->). rewrite rep_mk in Hr. destruct Hr as (Hn0 & _ & Hn & Ha & _).
  rewrite end_of_mk, rid_mk. cbn [deepest]. rewrite (child_near st d n _ _ _ Hn).
  assert (HaE : a = E \/ a <> E) by (destruct a; auto). destruct HaE as [->|HaE]; [reflexivity|].
  destruct (rid_nonzero _ _ _ Ha HaE) as [H0 _]. replace (rid a =? NULL) with false by (symmetry; now apply Z.eqb_neq).
  cbn [negb]. rewrite (IH n a); auto; [destruct a; [done|reflexivity]|].
  rewrite ids_mk in Hf. cbn in Hf. rewrite length_app in Hf. lia.
Qed.

Lemma climb_spec d fuel st k t :
  zrep st k t -> t <> E -> (length k < fuel)%nat -> climb fuel st d (rid t) = Some (end_of (opp d) (beside d k)).
Proof.
  revert k t. induction fuel as [|fuel IH]; intros k t Hz HE Hf; [lia|]. cbn [climb].
  pose proof Hz as (Hr & Hk & Hnd). assert (Hp : rb_parent st (rid t) = cid k).
  { destruct t as [|c l n r]; [done|]. destruct Hr as (_ & _ & Hn & _). unfold rb_parent. cbn [rid]. rewrite Hn.
    apply parent_pcv. eapply rep_ctx_addr; eauto. }
  rewrite Hp. destruct k as [|[d1 c p s] k]; [now destruct d|]. destruct Hk as (Hp0 & Hpa & Hpn & Hs & Hk). cbn [cid].
  replace (p =? NULL) with false by (symmetry; now apply Z.eqb_neq). cbn [negb andb].
  destruct (decide (d1 = d)) as [->|Hd].
  - rewrite (child_near st d p _ _ _ Hpn), Z.eqb_refl. specialize (IH k (mk d c p t s)). rewrite rid_mk in IH.
    rewrite IH; [now destruct d|now apply zrep_up|now destruct d|cbn in Hf; lia].
  - assert (d = opp d1) as -> by (destruct d, d1; done). rewrite (child_far st d1 p _ _ _ Hpn).
    replace (rid t =? rid s) with false.
    + destruct d1; cbn; [reflexivity|]. now rewrite app_assoc, last_app_ne.
    + symmetry. apply Z.eqb_neq. destruct (rid_nonzero _ _ _ Hr HE) as [Ht0 Hti]. intros E.
      apply NoDup_app in Hnd as (_ & Hnd & _). apply (Hnd _ Hti). cbn [cids].
      destruct s as [|cs sl sn sr]; cbn [rid] in E; [congruence|]. rewrite E. set_solver.
Qed.

Lemma not_empty_node st k c l n r : zrep st k (T c l n r) -> RB_EMPTY_NODE st n = false.
Proof.
  intros ((Hn0 & Hna & Hn & _) & Hk & Hnd). unfold RB_EMPTY_NODE. apply Z.eqb_neq. rewrite Hn. cbn [pc]. intros E.
  assert (Hcp : addr (cid k)) by (eapply rep_ctx_addr; eauto).
  assert (Hq : cid k = n).
  { rewrite <- (parent_pcv (cid k) c), E by auto. rewrite <- (pcv_red n) at 1. now apply parent_pcv. }
  destruct k as [|[]]; cbn [cid] in Hq; [congruence|]. subst. cbn in Hnd. apply NoDup_cons in Hnd as [Hnd _]. set_solver.
Qed.

Lemma rb_step_spec d fuel st k c l n r :
  zrep st k (T c l n r) -> (length (ids (T c l n r)) + length k < fuel)%nat ->
  rb_step d fuel st n =
  Some (match d with Right => hd 0 (inorder r ++ rctx k) | Left => List.last (lctx k ++ inorder l) 0 end).
Proof.
  intros Hz Hf. unfold rb_step. rewrite (not_empty_node _ _ _ _ _ _ Hz). pose proof Hz as ((Hn0 & _ & Hn & Hl & Hr) & _ & _).
  set (x := match d with Left => l | Right => r end).
  assert (Hc : child st d n = rid x) by (unfold child, x; rewrite Hn; now destruct d).
  assert (Hx : rep (nodes st) n x) by (unfold x; destruct d; auto). rewrite Hc.
  cbn [ids length] in Hf. rewrite length_app in Hf.
  assert (HxE : x = E \/ x <> E) by (destruct x; auto). destruct HxE as [HxE|HxE].
  - rewrite HxE. cbn [rid]. change (negb (0 =? NULL)) with false. cbv iota. change n with (rid (T c l n r)).
    rewrite (climb_spec d fuel st k (T c l n r)) by (auto; done || lia). destruct d; cbn in *; subst x; rewrite HxE; cbn; [now rewrite app_nil_r|reflexivity].
  - destruct (rid_nonzero _ _ _ Hx HxE) as [H0 _]. replace (rid x =? NULL) with false by (symmetry; now apply Z.eqb_neq).
    cbn [negb]. rewrite (deepest_spec (opp d) fuel st n x) by (auto; unfold x; destruct d; lia).
    pose proof (inorder_ne x HxE). unfold x in *. destruct d; cbn [opp end_of]; [now rewrite last_app_ne|].
    destruct (inorder r); [done|reflexivity].
Qed.

(** *** Post-order *)

Fixpoint postorder (t : tree) : list Z :=
  match t with E => [] | T _ l n r => postorder l ++ postorder r ++ [n] end.
(** What follows a position in post-order. *)
Fixpoint post_after (k : list frame) : list Z :=
  match k with
  | [] => []
  | F Left _ n s :: k' => postorder s ++ n :: post_after k'
  | F Right _ n s :: k' => n :: post_after k'
  end.

Lemma postorder_ne t : t <> E -> postorder t <> [].
Proof. destruct t; [done|]. intros _ H. cbn in H. now apply app_eq_nil in H as [_ [_ H]%app_eq_nil]. Qed.

Lemma hd_app_ne (xs ys : list Z) : xs <> [] -> hd 0 (xs ++ ys) = hd 0 xs.
Proof. now destruct xs. Qed.

Lemma left_deepest_spec fuel st par t :
  rep (nodes st) par t -> t <> E -> (length (ids t) <= fuel)%nat ->
  rb_left_deepest_node fuel st (rid t) = Some (hd 0 (postorder t)).
Proof.
  revert par t. induction fuel as [|fuel IH]; intros par t Hr HE Hf; [destruct t; [done|cbn in Hf; lia]|].
  destruct t as [|c l n r]; [done|]. destruct Hr as (Hn0 & _ & Hn & Hl & Hr). cbn [rid rb_left_deepest_node].
  cbn [ids length] in Hf. rewrite length_app in Hf. unfold child. rewrite Hn. cbn [get_child rb_left rb_right postorder].
  assert (Hx : forall x, rep (nodes st) n x -> x = E \/ x <> E /\ (rid x =? NULL) = false).
  { intros x Hx. destruct x; [auto|]. right. split; [done|]. apply Z.eqb_neq. now destruct Hx. }
  destruct (Hx l Hl) as [->|[HlE ->]]; cbn [rid negb]; [change (0 =? NULL) with true; cbv iota|].
  - destruct (Hx r Hr) as [->|[HrE ->]]; [reflexivity|]. cbn [negb].
    rewrite (IH n r) by (auto; lia). cbn [postorder app]. now rewrite hd_app_ne by now apply postorder_ne.
  - rewrite (IH n l) by (auto; lia). now rewrite hd_app_ne by now apply postorder_ne.
Qed.

Lemma next_postorder_spec fuel st k t :
  zrep st k t -> t <> E -> (length (cids k) <= fuel)%nat ->
  rb_next_postorder fuel st (rid t) = Some (hd 0 (post_after k)).
Proof.
  intros (Hr & Hk & Hnd) HE Hf. destruct (rid_nonzero _ _ _ Hr HE) as [Ht0 Hti]. unfold rb_next_postorder.
  replace (rid t =? NULL) with false by (symmetry; now apply Z.eqb_neq).
  assert (Hp : rb_parent st (rid t) = cid k).
  { destruct t as [|c l n r]; [done|]. destruct Hr as (_ & _ & Hn & _). unfold rb_parent. cbn [rid]. rewrite Hn.
    apply parent_pcv. eapply rep_ctx_addr; eauto. }
  rewrite Hp. destruct k as [|[d c p s] k]; [reflexivity|]. destruct Hk as (Hp0 & _ & Hpn & Hs & _). cbn [cid].
  replace (p =? NULL) with false by (symmetry; now apply Z.eqb_neq). cbn [negb andb].
  destruct d; unfold child; rewrite Hpn; cbn [mkn get_child rb_left rb_right post_after].
  - rewrite Z.eqb_refl. assert (HsE : s = E \/ s <> E) by (destruct s; auto). destruct HsE as [->|HsE]; [reflexivity|].
    destruct (rid_nonzero _ _ _ Hs HsE) as [Hs0 _]. replace (rid s =? NULL) with false by (symmetry; now apply Z.eqb_neq).
    cbn [negb andb]. rewrite (left_deepest_spec fuel st p s), hd_app_ne; auto using postorder_ne.
    cbn [cids length] in Hf. rewrite length_app in Hf. lia.
  - replace (rid t =? rid s) with false; [reflexivity|]. symmetry. apply Z.eqb_neq. intros E.
    apply NoDup_app in Hnd as (_ & Hnd & _). apply (Hnd _ Hti). cbn [cids].
    destruct s as [|cs sl sn sr]; cbn [rid] in E; [congruence|]. rewrite E. set_solver.
Qed.

(** *** Replacement *)

Lemma rb_replace_node_spec st k c l n r m :
  zrep st k (T c l n r) -> m <> 0 -> addr m -> m ∉ n :: ids l ++ ids r ++ cids k ->
  let st' := rb_replace_node st n m in
  zrep st' k (T c l m r) /\ only (m :: ids l ++ ids r ++ cids k) st st' /\ aug st' = aug st.
Proof.
  intros ((Hn0 & Hna & Hn & Hl & Hr) & Hk & Hnd) Hm0 Hma Hm. cbv zeta.
  assert (Hnd' : NoDup (m :: n :: ids l ++ ids r ++ cids k)).
  { cbn in Hnd. rewrite <- app_assoc in Hnd. apply NoDup_cons. split; [exact Hm|exact Hnd]. }
  nd_facts Hnd'. unfold rb_replace_node, rb_parent. rewrite Hn. cbn [pc].
  rewrite parent_pcv by (eapply rep_ctx_addr; eauto).
  change (Store _ _ _) with (upd st m (Node (pcv (cid k) c) (rid l) (rid r))). set (st1 := upd st m _).
  assert (Ho1 : only [m] st st1) by (apply only_upd; set_solver).
  assert (Hn1 : nodes st1 n = Node (pcv (cid k) c) (rid l) (rid r)) by (unfold st1; now rd).
  assert (Hc1 : child st1 Left n = rid l) by (unfold child; now rewrite Hn1). rewrite Hc1.
  destruct (reparent_keep st1 n m l Hna) as (Hl2 & Ho2 & Ha2 & Hr2); auto; [now apply rep_insert|].
  cbv zeta in *. set (st2 := if negb (rid l =? NULL) then _ else _) in *.
  assert (Hc2 : child st2 Right n = rid r) by (unfold child; rewrite Ho2, Hn1 by auto; reflexivity). rewrite Hc2.
  destruct (reparent_keep st2 n m r Hna) as (Hr3 & Ho3 & Ha3 & Hro3); auto.
  { eapply rep_only; [exact Ho2|clear - Hnd'; nd_facts Hnd'; set_solver|now apply rep_insert]. }
  set (st3 := if negb (rid r =? NULL) then _ else _) in *.
  assert (Ho : only (m :: ids l ++ ids r) st st3).
  { clear - Ho1 Ho2 Ho3. intros q Hq. rewrite Ho3, Ho2, Ho1; auto; set_solver. }
  assert (Hk3 : rep_ctx st3 k n).
  { apply (rep_ctx_only (m :: ids l ++ ids r) st); auto; [rewrite Hro3, Hr2; reflexivity|].
    clear - Hnd'; nd_facts Hnd'; set_solver. }
  destruct (change_child_spec st3 k n m Hk3 Hn0) as (Hk4 & Ho4 & Ha4); [now apply NoDup_cons|]. cbv zeta in *.
  set (st4 := __rb_change_child _ _ _ _) in *. split_and!.
  - split_and!; [|exact Hk4|cbn; rewrite <- app_assoc; apply NoDup_cons in Hnd' as [_ Hnd'%NoDup_cons]; apply NoDup_cons; split; [set_solver|tauto]].
    cbn [rep]. split_and!; auto.
    + rewrite Ho4, Ho3, Ho2 by auto. apply nodes_upd_eq.
    + eapply rep_only; [exact Ho4|clear - Hnd'; nd_facts Hnd'; set_solver|].
      eapply rep_only; [exact Ho3|clear - Hnd'; nd_facts Hnd'; set_solver|exact Hl2].
    + eapply rep_only; [exact Ho4|clear - Hnd'; nd_facts Hnd'; set_solver|exact Hr3].
  - intros q Hq. rewrite Ho4, Ho; [auto|..]; clear - Hq; set_solver.
  - rewrite Ha4, Ha3, Ha2. reflexivity.
Qed.

(** ** The theorems *)

(** C39: entering a node into an augmented tree ([rb_link_node], the store through the link, a zero
    maximum, propagation to the root and [__rb_insert] with the callbacks of
    [RB_DECLARE_CALLBACKS_MAX]) returns as soon as twice the logarithm of the size is allowed for
    the loops, and the store then holds a red-black tree whose in-order sequence has the node at the
    chosen position and whose nodes all hold the maximum over their subtree; no node outside the
    tree is written. *)
Theorem rb_insertion_correct compute fuel st k n :
  (forall m, 0 <= compute m) -> zrep st k E -> is_rb (plug k E) -> aug_ok compute (aug st) (plug k E) ->
  n <> 0 -> addr n -> n ∉ cids k -> (rb_fuel (length (inorder (plug k E))) < fuel)%nat ->
  exists st' t', insert_entry compute fuel st (cid k) (top_dir k) n = Some st' /\
    zrep st' [] t' /\ is_rb t' /\ inorder t' = lctx k ++ n :: rctx k /\ aug_ok compute (aug st') t' /\
    (forall m, m ∉ n :: cids k -> nodes st' m = nodes st m /\ aug st' m = aug st m).
Proof.
  intros Hc Hz Hrb Ha Hn0 Hna Hn Hf. pose proof (rb_path_bound k E Hrb).
  destruct (insert_entry_spec compute Hc fuel st k n) as (st' & E' & t' & H1 & H2 & H3 & H4 & H5 & H6); auto; [lia|].
  exists st', t'. split_and!; auto.
Qed.

(** C40: [rb_erase_augmented] of any node of a red-black tree, with the same callbacks, returns, and the
    store then holds a red-black tree of the remaining nodes in the same order, all maxima right;
    no node outside the tree is written. *)
Theorem rb_deletion_correct compute fuel st k c l n r :
  (forall m, 0 <= compute m) -> zrep st k (T c l n r) -> is_rb (plug k (T c l n r)) ->
  aug_ok compute (aug st) (plug k (T c l n r)) -> (length (inorder (plug k (T c l n r))) <= fuel)%nat ->
  exists st' t', rb_erase_augmented (callbacks_max compute) fuel st n = Some st' /\
    zrep st' [] t' /\ is_rb t' /\ inorder t' = (lctx k ++ inorder l) ++ inorder r ++ rctx k /\
    aug_ok compute (aug st') t' /\
    (forall m, m ∉ inorder (plug k (T c l n r)) -> nodes st' m = nodes st m /\ aug st' m = aug st m).
Proof.
  intros Hc Hz Hrb Ha Hf.
  assert (Hp : ids (T c l n r) ++ cids k ≡ₚ inorder (plug k (T c l n r))) by (rewrite <- ids_plug; apply ids_inorder).
  destruct (rb_erase_augmented_spec compute Hc fuel st k c l n r) as (st' & E' & t' & H1 & H2 & H3 & H4 & H5 & H6); auto.
  { apply (aug_unplug compute _ k) in Ha as [(_ & Ha & _) _]. exact Ha. }
  { apply (aug_unplug compute _ k) in Ha as [(_ & _ & Ha) _]. exact Ha. }
  { apply (aug_unplug compute _ k) in Ha as [_ Ha]. exact Ha. }
  { now rewrite Hp. }
  exists st', t'. rewrite <- app_assoc. split_and!; auto.
  intros m Hm. rewrite <- Hp in Hm. auto.
Qed.

(** The plain operations keep the links of a run with callbacks for maxima that are all zero. *)
Definition strip (st : store) : store := Store (nodes st) (fun _ => 0) (root st).

Lemma zero_aug_ok t : aug_ok (fun _ => 0) (fun _ => 0) t.
Proof. induction t as [|c l IHl n r IHr]; cbn; [auto|]. split_and!; auto. now destruct l, r. Qed.

(** [rb_insert_color] after linking a leaf, and [rb_erase] of any node, of a tree without augmented
    values return, and leave a red-black tree with the expected in-order sequence. *)
Theorem rb_plain_correct fuel st k n t :
  zrep st k t -> is_rb (plug k t) -> n <> 0 -> addr n -> n ∉ cids k ->
  (length (inorder (plug k t)) < fuel)%nat ->
  match t with
  | E => exists st' t',
      rb_insert_color fuel (write_link (rb_link_node st n (cid k)) (cid k) (top_dir k) n) n = Some st' /\
      zrep st' [] t' /\ is_rb t' /\ inorder t' = lctx k ++ n :: rctx k
  | T c l m r => exists st' t', rb_erase fuel st m = Some st' /\
      zrep st' [] t' /\ is_rb t' /\ inorder t' = (lctx k ++ inorder l) ++ inorder r ++ rctx k
  end.
Proof.
  intros Hz Hrb Hn0 Hna Hn Hf. assert (Hnn : forall m : Z, 0 <= (fun _ : Z => 0) m) by (intros; lia).
  assert (Hp : ids (plug k t) ≡ₚ inorder (plug k t)) by apply ids_inorder. rewrite ids_plug in Hp.
  apply Permutation_length in Hp. rewrite length_app in Hp. pose proof (length_cids k) as Hlk.
  destruct t as [|c l m r].
  - destruct (rb_unplug k E Hrb) as (h & Hh & Hk & _). destruct (link_spec st k n Hz Hn0 Hna Hn) as (Hz1 & _ & _ & Hp1).
    cbv zeta in *. set (st1 := write_link _ _ _ _) in *.
    destruct (insert_loop_spec (fun _ => 0) Hnn fuel (strip st1) k (T Red E n E) h) as (st' & E' & t' & H1 & H2 & H3 & _); auto.
    + now apply (zrep_same st1).
    + cbn in *. auto.
    + apply zero_aug_ok.
    + apply (aug_unplug (fun _ => 0) (fun _ => 0) k E), zero_aug_ok.
    + lia.
    + destruct (insert_loop_sim _ (callbacks_max_pure (fun _ => 0)) fuel (strip st1) st1 n (cid k)) with (s1 := st')
        as (st2 & E2 & Hs & Hr); [now split|exact E'|].
      exists st2, t'. unfold rb_insert_color, __rb_insert. rewrite Hp1. rewrite inorder_plug in H3.
      split_and!; auto. now apply (zrep_same st').
  - destruct (rb_erase_augmented_spec (fun _ => 0) Hnn fuel (strip st) k c l m r) as (st' & E' & t' & H1 & H2 & H3 & _); auto.
    + now apply (zrep_same st).
    + apply zero_aug_ok.
    + apply zero_aug_ok.
    + apply (aug_unplug (fun _ => 0) (fun _ => 0) k (T c l m r)), zero_aug_ok.
    + rewrite length_app. lia.
    + destruct (rb_erase_sim _ (callbacks_max_pure (fun _ => 0)) fuel (strip st) st m) with (s1 := st')
        as (st2 & E2 & Hs & Hr); [now split|exact E'|].
      exists st2, t'. rewrite <- app_assoc. split_and!; auto. now apply (zrep_same st').
Qed.

(** The traversals of a tree return the ends of its in-order and post-order sequences and,
    from any node, the neighbour in the sequence, or null at its end. *)
Theorem rb_traversals_correct fuel st k c l n r :
  zrep st k (T c l n r) -> (length (inorder (plug k (T c l n r))) < fuel)%nat ->
  rb_first fuel st = Some (hd 0 (inorder (plug k (T c l n r)))) /\
  rb_last fuel st = Some (List.last (inorder (plug k (T c l n r))) 0) /\
  rb_next fuel st n = Some (hd 0 (inorder r ++ rctx k)) /\
  rb_prev fuel st n = Some (List.last (lctx k ++ inorder l) 0) /\
  rb_first_postorder fuel st = Some (hd 0 (postorder (plug k (T c l n r)))) /\
  rb_next_postorder fuel st n = Some (hd 0 (post_after k)).
Proof.
  intros Hz Hf. pose proof (proj1 (zrep_plug _ _ _) Hz) as (Hr & Hroot & _). cbn [rep_ctx cid] in *.
  assert (Hlen : length (ids (plug k (T c l n r))) = length (inorder (plug k (T c l n r)))) by now rewrite ids_inorder.
  pose proof (length_cids k) as Hlk. pose proof Hlen as Hlen2. rewrite ids_plug, length_app in Hlen2.
  set (t := plug k (T c l n r)) in *.
  assert (HE : t <> E).
  { intros HE. assert (Hi : ids t = []) by now rewrite HE. unfold t in Hi. rewrite <- (app_nil_l []) in Hi.
    apply (f_equal length) in Hi. rewrite ids_plug, length_app in Hi. cbn in Hi. lia. }
  destruct (rid_nonzero _ _ _ Hr HE) as [H0 _]. assert (Hn0 : (rid t =? NULL) = false) by now apply Z.eqb_neq.
  unfold rb_first, rb_last, rb_first_postorder, rb_next, rb_prev. rewrite Hroot, Hn0.
  rewrite (deepest_spec Left fuel st 0 t), (deepest_spec Right fuel st 0 t), (left_deepest_spec fuel st 0 t) by (auto; lia).
  rewrite !(rb_step_spec _ fuel st k c l n r) by (auto; lia).
  pose proof (next_postorder_spec fuel st k (T c l n r) Hz) as Hnp. cbn [rid] in Hnp. rewrite Hnp by (done || lia).
  auto 6.
Qed.

(** [rb_replace_node] puts a fresh node in the place of another: same tree shape, colours and
    order, only the neighbours of the victim and the new node are written. *)
Theorem rb_replace_node_correct st k c l n r m :
  zrep st k (T c l n r) -> m <> 0 -> addr m -> m ∉ inorder (plug k (T c l n r)) ->
  let st' := rb_replace_node st n m in
  zrep st' k (T c l m r) /\ inorder (plug k (T c l m r)) = lctx k ++ inorder l ++ m :: inorder r ++ rctx k /\
  (forall q, q ∉ m :: inorder (plug k (T c l n r)) -> nodes st' q = nodes st q) /\ nodes st' n = nodes st n /\ aug st' = aug st.
Proof.
  intros Hz Hm0 Hma Hm. cbv zeta. rewrite <- ids_inorder, ids_plug in Hm. cbn [ids] in Hm.
  destruct (rb_replace_node_spec st k c l n r m Hz Hm0 Hma) as (H1 & H2 & H3); [clear - Hm; set_solver|]. cbv zeta in *.
  destruct Hz as (_ & _ & Hnd). cbn [ids] in Hnd. split_and!; auto.
  - rewrite inorder_plug. cbn. now rewrite <- !app_assoc.
  - intros q Hq. apply H2. rewrite <- ids_inorder, ids_plug in Hq. cbn [ids] in Hq. clear - Hq. set_solver.
  - apply H2. clear - Hnd Hm. cbn in Hnd. apply NoDup_cons in Hnd as [Hnd _]. set_solver.
Qed.

(** ** Witnesses *)

Section examples.

(** A black root 8 with the red children 4 and 12. *)
Definition ex_store : store :=
  Store (<[8 := Node 1 4 12]> (<[4 := Node 8 0 0]> (<[12 := Node 8 0 0]> (fun _ => Node 0 0 0))))
    (<[8 := 12]> (<[4 := 4]> (<[12 := 12]> (fun _ => 0)))) 8.
Definition ex_left : tree := T Red E 4 E.
Definition ex_right : tree := T Red E 12 E.

Lemma ex_addr n : n = 4 \/ n = 8 \/ n = 12 \/ n = 16 -> addr n.
Proof. unfold addr. intros [->|[->|[->| ->]]]; split; (lia || reflexivity). Qed.
Lemma ex_zrep : zrep ex_store [] (T Black ex_left 8 ex_right).
Proof.
  split_and!.
  - cbn [rep ex_left ex_right rid cid]. split_and!; try lia; try (apply ex_addr; lia); reflexivity.
  - reflexivity.
  - cbn. repeat (apply NoDup_cons; split; [rewrite list_elem_of_In; cbn; lia|]). apply NoDup_nil_2.
Qed.
Lemma ex_rb : is_rb (T Black ex_left 8 ex_right).
Proof. split; [reflexivity|]. exists 1%nat. cbn. auto 10. Qed.
Lemma ex_aug : aug_ok (Z.max 0) (aug ex_store) (T Black ex_left 8 ex_right).
Proof. cbn. split_and!; reflexivity || exact I. Qed.
Lemma ex_nonneg m : 0 <= Z.max 0 m.
Proof. lia. Qed.

(** Insertion of 16 to the right of 12. *)
Definition ex_ctx : list frame := [F Right Red 12 E; F Right Black 8 ex_left].
Lemma rb_insertion_correct_witness :
  exists st' t', insert_entry (Z.max 0) 5 ex_store 12 Right 16 = Some st' /\ zrep st' [] t' /\ is_rb t' /\
    inorder t' = [4; 8; 12; 16].
Proof.
  destruct (rb_insertion_correct (Z.max 0) 5 ex_store ex_ctx 16) as (st' & t' & H1 & H2 & H3 & H4 & _);
    [exact ex_nonneg|exact (proj2 (zrep_plug _ ex_ctx E) ex_zrep)|exact ex_rb|exact ex_aug|lia|apply ex_addr; lia
    |cbn; rewrite list_elem_of_In; cbn; lia|vm_compute; lia|].
  exists st', t'. split_and!; assumption.
Defined.

Lemma rb_deletion_correct_witness :
  exists st' t', rb_erase_augmented (callbacks_max (Z.max 0)) 3 ex_store 8 = Some st' /\ zrep st' [] t' /\
    is_rb t' /\ inorder t' = [4; 12].
Proof.
  destruct (rb_deletion_correct (Z.max 0) 3 ex_store [] Black ex_left 8 ex_right) as (st' & t' & H1 & H2 & H3 & H4 & _);
    [exact ex_nonneg|exact ex_zrep|exact ex_rb|exact ex_aug|cbn; lia|].
  exists st', t'. split_and!; assumption.
Defined.

Lemma rb_plain_correct_witness :
  exists st' t', rb_erase 4 ex_store 8 = Some st' /\ zrep st' [] t' /\ is_rb t' /\ inorder t' = [4; 12].
Proof.
  exact (rb_plain_correct 4 ex_store [] 16 (T Black ex_left 8 ex_right) ex_zrep ex_rb ltac:(lia) (ex_addr 16 ltac:(lia))
    ltac:(apply not_elem_of_nil) ltac:(cbn; lia)).
Defined.

Lemma rb_traversals_correct_witness :
  rb_first 4 ex_store = Some 4 /\ rb_last 4 ex_store = Some 12 /\ rb_next 4 ex_store 8 = Some 12 /\
  rb_prev 4 ex_store 8 = Some 4 /\ rb_first_postorder 4 ex_store = Some 4 /\ rb_next_postorder 4 ex_store 8 = Some 0.
Proof. exact (rb_traversals_correct 4 ex_store [] Black ex_left 8 ex_right ex_zrep ltac:(cbn; lia)). Defined.

Lemma rb_replace_node_correct_witness :
  zrep (rb_replace_node ex_store 8 16) [] (T Black ex_left 16 ex_right).
Proof.
  exact (proj1 (rb_replace_node_correct ex_store [] Black ex_left 8 ex_right 16 ex_zrep ltac:(lia) (ex_addr 16 ltac:(lia))
    ltac:(cbn; rewrite list_elem_of_In; cbn; lia))).
Defined.
End examples.
