(* ===== verification/Vma.v ===== *)
(** * Virtual memory areas of a vRegion (board/soc/core/vm.c)

    A vRegion keeps its areas ([struct vm_area_struct]) in a list sorted by
    address ([mmap], [vm_next], [vm_prev]) and in a red-black tree ([mm_rb]) whose
    nodes are augmented with [rb_subtree_gap], the largest gap that precedes an
    area of the subtree.  An area is named by the address of its [vm_rb] node, so
    that [rb_entry] is the identity.  [mm] is the tree store of [RbTree], with
    [aug] for [rb_subtree_gap]; the other fields of the areas are functions of the
    address.  [malloc] takes its results from [pool], the sequence of addresses
    the C library hands out (0, or the end of the list, is a failed allocation).

    Loops take the fuel of the section; an operation is [None] when the fuel does
    not suffice, on [BUG()] and on a null dereference.  Page-table work is left to
    the caller: [unmap_region] and the operations above it return the ranges for
    which the code calls [free_fpga_pte_range].

    The properties are proved in [VmaTree], [VmaOps], [VmaFree], [VmaSearch] and
    [VmaSpec]. *)

From stdpp Require Import functions.
From S2P Require Import Prelude RbTree.

Definition LEGOMEM_VM_FLAGS_CONFLICT : Z := 8.

Record vregion := VRegion {
  mm : store;
  vm_start : Z -> Z; vm_end : Z -> Z; vm_next : Z -> Z; vm_prev : Z -> Z; vm_flags : Z -> Z;
  mmap : Z; nr_vmas : Z; highest_vm_end : Z;
  pool : list Z;
}.

Definition set_mm (v : vregion) (x : store) : vregion :=
  VRegion x (vm_start v) (vm_end v) (vm_next v) (vm_prev v) (vm_flags v) (mmap v) (nr_vmas v) (highest_vm_end v) (pool v).
Definition set_vm_start (v : vregion) (n x : Z) : vregion :=
  VRegion (mm v) (<[n := x]> (vm_start v)) (vm_end v) (vm_next v) (vm_prev v) (vm_flags v) (mmap v) (nr_vmas v) (highest_vm_end v) (pool v).
Definition set_vm_end (v : vregion) (n x : Z) : vregion :=
  VRegion (mm v) (vm_start v) (<[n := x]> (vm_end v)) (vm_next v) (vm_prev v) (vm_flags v) (mmap v) (nr_vmas v) (highest_vm_end v) (pool v).
Definition set_vm_next (v : vregion) (n x : Z) : vregion :=
  VRegion (mm v) (vm_start v) (vm_end v) (<[n := x]> (vm_next v)) (vm_prev v) (vm_flags v) (mmap v) (nr_vmas v) (highest_vm_end v) (pool v).
Definition set_vm_prev (v : vregion) (n x : Z) : vregion :=
  VRegion (mm v) (vm_start v) (vm_end v) (vm_next v) (<[n := x]> (vm_prev v)) (vm_flags v) (mmap v) (nr_vmas v) (highest_vm_end v) (pool v).
Definition set_vm_flags (v : vregion) (n x : Z) : vregion :=
  VRegion (mm v) (vm_start v) (vm_end v) (vm_next v) (vm_prev v) (<[n := x]> (vm_flags v)) (mmap v) (nr_vmas v) (highest_vm_end v) (pool v).
Definition set_mmap (v : vregion) (x : Z) : vregion :=
  VRegion (mm v) (vm_start v) (vm_end v) (vm_next v) (vm_prev v) (vm_flags v) x (nr_vmas v) (highest_vm_end v) (pool v).
Definition set_nr_vmas (v : vregion) (x : Z) : vregion :=
  VRegion (mm v) (vm_start v) (vm_end v) (vm_next v) (vm_prev v) (vm_flags v) (mmap v) x (highest_vm_end v) (pool v).
Definition set_highest_vm_end (v : vregion) (x : Z) : vregion :=
  VRegion (mm v) (vm_start v) (vm_end v) (vm_next v) (vm_prev v) (vm_flags v) (mmap v) (nr_vmas v) x (pool v).
Definition set_pool (v : vregion) (x : list Z) : vregion :=
  VRegion (mm v) (vm_start v) (vm_end v) (vm_next v) (vm_prev v) (vm_flags v) (mmap v) (nr_vmas v) (highest_vm_end v) x.

(** *** vRegions of a process, by index in its [vregion] array *)

Definition vregion_index_to_va (idx : Z) : Z := idx <<w VREGION_SIZE_SHIFT.
Definition va_to_vregion_index (va : Z) : Z := wrap32 (va >>w VREGION_SIZE_SHIFT).
(** [index_to_vregion] and [vregion_to_index]; [None] is [BUG]. *)
Definition index_to_vregion (index : Z) : option Z := if NR_VREGIONS <=? index then None else Some index.
Definition vregion_to_index (vi : Z) : option Z := if NR_VREGIONS <=? vi then None else Some vi.
Definition vregion_to_start_va (vi : Z) : option Z :=
  idx ← vregion_to_index vi;
  if idx =? 0 then Some 0x1000 else Some (idx *w VREGION_SIZE).
Definition vregion_to_end_va (vi : Z) : option Z :=
  idx ← vregion_to_index vi;
  Some ((idx +w 1) *w VREGION_SIZE).

(** [init_vregion] *)
Definition init_vregion (v : vregion) : vregion :=
  let v := set_mmap v NULL in
  let v := set_mm v (set_root (mm v) NULL) in
  let v := set_nr_vmas v 0 in
  set_highest_vm_end v 0.

(** ** Allocation of areas *)

Definition malloc (v : vregion) : Z * vregion :=
  match pool v with
  | [] => (NULL, v)
  | p :: ps => (p, set_pool v ps)
  end.

Definition vm_area_alloc (v : vregion) : Z * vregion :=
  let '(vma, v) := malloc v in
  if negb (vma =? NULL) then
    let v := set_vm_flags (set_vm_prev (set_vm_next (set_vm_end (set_vm_start v vma 0) vma 0) vma 0) vma 0) vma 0 in
    (vma, set_mm v (set_aug (rb_link_node (mm v) vma 0) vma 0))
  else (vma, v).

Definition vm_area_dup (v : vregion) (orig : Z) : Z * vregion :=
  let '(new, v) := malloc v in
  if negb (new =? NULL) then
    let v := set_vm_start v new (vm_start v orig) in
    let v := set_vm_end v new (vm_end v orig) in
    let v := set_vm_next v new (vm_next v orig) in
    let v := set_vm_prev v new (vm_prev v orig) in
    let v := set_vm_flags v new (vm_flags v orig) in
    let m := Store (<[new := nodes (mm v) orig]> (nodes (mm v))) (<[new := aug (mm v) orig]> (aug (mm v))) (root (mm v)) in
    (new, set_mm v m)
  else (new, v).

(** ** The list *)

Definition __vma_link_list (v : vregion) (vma prev : Z) : vregion :=
  let v := set_vm_prev v vma prev in
  let '(next, v) :=
    if negb (prev =? NULL) then (vm_next v prev, set_vm_next v prev vma)
    else (mmap v, set_mmap v vma) in
  let v := set_vm_next v vma next in
  if negb (next =? NULL) then set_vm_prev v next vma else v.

Definition __vma_unlink_list (v : vregion) (vma : Z) : vregion :=
  let next := vm_next v vma in
  let prev := vm_prev v vma in
  let v := if negb (prev =? NULL) then set_vm_next v prev next else set_mmap v next in
  if negb (next =? NULL) then set_vm_prev v next prev else v.

(** ** The tree *)

Definition vma_compute_gap (v : vregion) (vma : Z) : Z :=
  let gap := vm_start v vma in
  if negb (vm_prev v vma =? NULL) then
    let prev_end := vm_end v (vm_prev v vma) in
    if prev_end <? gap then gap -w prev_end else 0
  else gap.

Section operations.
Context (fuel : nat).

Definition vma_gap_update (v : vregion) (vma : Z) : option vregion :=
  m ← max_propagate (vma_compute_gap v) fuel (mm v) vma NULL;
  Some (set_mm v m).

Definition vma_rb_insert (v : vregion) (vma : Z) : option vregion :=
  m ← rb_insert_augmented (vma_compute_gap v) fuel (mm v) vma;
  Some (set_mm v m).

Definition vma_rb_erase (v : vregion) (vma : Z) : option vregion :=
  m ← rb_erase_augmented (callbacks_max (vma_compute_gap v)) fuel (mm v) vma;
  Some (set_mm v m).

(** [rb_link] is a child pointer of [rb_parent], or the root pointer. *)
Definition __vma_link_rb (v : vregion) (vma : Z) (rb_link : dir) (rb_parent : Z) : option vregion :=
  v ← (if negb (vm_next v vma =? NULL) then vma_gap_update v (vm_next v vma)
       else Some (set_highest_vm_end v (vm_end v vma)));
  let v := set_mm v (write_link (rb_link_node (mm v) vma rb_parent) rb_parent rb_link vma) in
  let v := set_mm v (set_aug (mm v) vma 0) in
  v ← vma_gap_update v vma;
  vma_rb_insert v vma.

Definition __vma_link (v : vregion) (vma prev : Z) (rb_link : dir) (rb_parent : Z) : option vregion :=
  __vma_link_rb (__vma_link_list v vma prev) vma rb_link rb_parent.

Definition vma_link (v : vregion) (vma prev : Z) (rb_link : dir) (rb_parent : Z) : option vregion :=
  v ← __vma_link v vma prev rb_link rb_parent;
  Some (set_nr_vmas v (nr_vmas v + 1)).

(** ** Searches *)

Fixpoint find_vma_links_loop (fuel : nat) (v : vregion) (addr vend : Z) (node rb_parent : Z) (rb_link : dir)
    (rb_prev : Z) : option (Z + (Z * dir * Z)) :=
  match fuel with
  | O => None
  | S fuel' =>
      if node =? NULL then Some (inr (rb_prev, rb_link, rb_parent))
      else if addr <? vm_end v node then
        if vm_start v node <? vend then Some (inl (- ENOMEM))
        else find_vma_links_loop fuel' v addr vend (child (mm v) Left node) node Left rb_prev
      else find_vma_links_loop fuel' v addr vend (child (mm v) Right node) node Right node
  end.

(** The error, or [*pprev], [*rb_link] and [*rb_parent]. *)
Definition find_vma_links (v : vregion) (addr vend : Z) : option (Z + (Z * dir * Z)) :=
  find_vma_links_loop fuel v addr vend (root (mm v)) NULL Left NULL.

Fixpoint find_vma_loop (fuel : nat) (v : vregion) (addr : Z) (node vma : Z) : option Z :=
  match fuel with
  | O => None
  | S fuel' =>
      if node =? NULL then Some vma
      else if addr <? vm_end v node then
        if vm_start v node <=? addr then Some node
        else find_vma_loop fuel' v addr (child (mm v) Left node) node
      else find_vma_loop fuel' v addr (child (mm v) Right node) vma
  end.
Definition find_vma (v : vregion) (addr : Z) : option Z := find_vma_loop fuel v addr (root (mm v)) NULL.

(** ** Adjusting, splitting and merging *)

Definition __insert_vm_struct (v : vregion) (vma : Z) : option vregion :=
  r ← find_vma_links v (vm_start v vma) (vm_end v vma);
  match r with
  | inl _ => None (* BUG *)
  | inr (prev, rb_link, rb_parent) =>
      v ← __vma_link v vma prev rb_link rb_parent;
      Some (set_nr_vmas v (nr_vmas v + 1))
  end.

Definition __vma_unlink_common (v : vregion) (vma : Z) : option vregion :=
  v ← vma_rb_erase v vma;
  Some (__vma_unlink_list v vma).

(** The code after the label [again], up to the test for a second removal:
    the new [next] and the state. *)
Definition adjust_pass (v : vregion) (vma next start vend adjust_next remove_next insert : Z) : option (Z * vregion) :=
  let start_changed := negb (start =? vm_start v vma) in
  let v := if start_changed then set_vm_start v vma start else v in
  let end_changed := negb (vend =? vm_end v vma) in
  let v := if end_changed then set_vm_end v vma vend else v in
  let v := if negb (adjust_next =? 0) then set_vm_start v next (vm_start v next +w adjust_next) else v in
  if negb (remove_next =? 0) then
    v ← __vma_unlink_common v next;
    let v := set_nr_vmas v (nr_vmas v - 1) in
    Some (if negb (remove_next =? 3) then vm_next v vma else vma, v)
  else if negb (insert =? NULL) then
    v ← __insert_vm_struct v insert;
    Some (next, v)
  else
    v ← (if start_changed then vma_gap_update v vma else Some v);
    v ← (if end_changed then
           if next =? NULL then Some (set_highest_vm_end v (vm_end v vma))
           else if adjust_next =? 0 then vma_gap_update v next
           else Some v
         else Some v);
    Some (next, v).

Definition __vma_adjust (v : vregion) (vma start vend insert expand : Z) : option vregion :=
  let next := vm_next v vma in
  let '(vma, next, vend, adjust_next, remove_next) :=
    if negb (next =? NULL) && (insert =? NULL) then
      if vm_end v next <=? vend then
        if next =? expand then (next, vma, vend, 0, 3)
        else (vma, next, vm_end v next, 0, 1 + (if vm_end v next <? vend then 1 else 0))
      else if vm_start v next <? vend then (vma, next, vend, vend -w vm_start v next, 0)
      else if vend <? vm_end v vma then (vma, next, vend, - (vm_end v vma -w vend), 0)
      else (vma, next, vend, 0, 0)
    else (vma, next, vend, 0, 0) in
  '(next', v) ← adjust_pass v vma next start vend adjust_next remove_next insert;
  if negb (remove_next =? 0) then
    if remove_next =? 2 then
      if next' =? NULL then None
      else
        '(next'', v) ← adjust_pass v vma next' start (vm_end v next') adjust_next 1 insert;
        if negb (next'' =? NULL) then vma_gap_update v next'' else Some v
    else if negb (next' =? NULL) then vma_gap_update v next'
    else Some v
  else Some v.

Definition vma_adjust (v : vregion) (vma start vend insert : Z) : option vregion :=
  __vma_adjust v vma start vend insert NULL.

Definition split_vma (v : vregion) (vma addr : Z) (new_below : bool) : option (Z * vregion) :=
  let '(new, v) := vm_area_dup v vma in
  if new =? NULL then Some (- ENOMEM, v)
  else
    let v := if new_below then set_vm_end v new addr else set_vm_start v new addr in
    v ← (if new_below then vma_adjust v vma addr (vm_end v vma) new
         else vma_adjust v vma (vm_start v vma) addr new);
    Some (0, v).

Definition can_vma_merge (v : vregion) (vma vm_flags : Z) : bool := true.

(** Returns the merged area, or [NULL]. *)
Definition vma_merge (v : vregion) (prev addr vend vm_flags : Z) : option (Z * vregion) :=
  let next := if negb (prev =? NULL) then vm_next v prev else mmap v in
  let area := next in
  let next := if negb (area =? NULL) && (vm_end v area =? vend) then vm_next v next else next in
  let merge_next := negb (next =? NULL) && (vend =? vm_start v next) && can_vma_merge v next vm_flags in
  if negb (prev =? NULL) && (vm_end v prev =? addr) && can_vma_merge v prev vm_flags then
    v ← (if merge_next then __vma_adjust v prev (vm_start v prev) (vm_end v next) NULL prev
         else __vma_adjust v prev (vm_start v prev) vend NULL prev);
    Some (prev, v)
  else if merge_next then
    if negb (prev =? NULL) && (addr <? vm_end v prev) then
      v ← __vma_adjust v prev (vm_start v prev) addr NULL next;
      Some (area, v)
    else
      v ← __vma_adjust v area addr (vm_end v next) NULL next;
      Some (next, v)
  else Some (NULL, v).

(** ** Freeing *)

(** The range passed to [free_fpga_pte_range], if it is called. *)
Definition unmap_single_vma (v : vregion) (vma start_addr end_addr : Z) : list (Z * Z) :=
  let start := if start_addr <? vm_start v vma then vm_start v vma else start_addr in
  if vm_end v vma <=? start then []
  else
    let vend := if vm_end v vma <? end_addr then vm_end v vma else end_addr in
    if vend <=? vm_start v vma then []
    else if negb (start =? vend) && negb (vm_flags v vma =? LEGOMEM_VM_FLAGS_CONFLICT) then [(start, vend)]
    else [].

Fixpoint unmap_region_loop (fuel : nat) (v : vregion) (vma start vend : Z) : option (list (Z * Z)) :=
  match fuel with
  | O => None
  | S fuel' =>
      if negb (vma =? NULL) && (vm_start v vma <? vend) then
        rs ← unmap_region_loop fuel' v (vm_next v vma) start vend;
        Some (unmap_single_vma v vma start vend ++ rs)
      else Some []
  end.
Definition unmap_region (v : vregion) (vma start vend : Z) : option (list (Z * Z)) :=
  unmap_region_loop fuel v vma start vend.

(** The [do ... while]: the area after the last one erased, and that one. *)
Fixpoint detach_loop (fuel' : nat) (v : vregion) (vma vend : Z) : option (Z * Z * vregion) :=
  match fuel' with
  | O => None
  | S fuel'' =>
      v ← vma_rb_erase v vma;
      let v := set_nr_vmas v (nr_vmas v - 1) in
      let tail_vma := vma in
      let vma := vm_next v vma in
      if negb (vma =? NULL) && (vm_start v vma <? vend) then detach_loop fuel'' v vma vend
      else Some (vma, tail_vma, v)
  end.

Definition detach_vmas_to_be_unmapped (v : vregion) (vma prev vend : Z) : option vregion :=
  if vma =? NULL then None (* null dereference *)
  else
  let v := set_vm_prev v vma NULL in
  '(vma, tail_vma, v) ← detach_loop fuel v vma vend;
  let v := if negb (prev =? NULL) then set_vm_next v prev vma else set_mmap v vma in
  v ← (if negb (vma =? NULL) then vma_gap_update (set_vm_prev v vma prev) vma
       else Some (set_highest_vm_end v (if negb (prev =? NULL) then vm_end v prev else 0)));
  Some (set_vm_next v tail_vma NULL).

(** The result code, the ranges taken out of the page table, and the state. *)
Definition __free_va (v : vregion) (start len : Z) : option (Z * list (Z * Z) * vregion) :=
  if len =? 0 then Some (- EINVAL, [], v)
  else
    let vend := start +w len in
    vma ← find_vma v start;
    if vma =? NULL then Some (0, [], v)
    else
      let prev := vm_prev v vma in
      if vend <=? vm_start v vma then Some (0, [], v)
      else if (vm_start v vma <? start) && (vend <? vm_end v vma) then Some (- ENOMEM, [], v)
      else
        '(error, prev, v) ←
          (if vm_start v vma <? start then
             '(error, v) ← split_vma v vma start false;
             Some (error, vma, v)
           else Some (0, prev, v));
        if negb (error =? 0) then Some (error, [], v)
        else
          last ← find_vma v vend;
          '(error, v) ←
            (if negb (last =? NULL) && (vm_start v last <? vend) then split_vma v last vend true else Some (0, v));
          if negb (error =? 0) then Some (error, [], v)
          else
            let vma := if negb (prev =? NULL) then vm_next v prev else mmap v in
            v ← detach_vmas_to_be_unmapped v vma prev vend;
            rs ← unmap_region v vma start vend;
            Some (0, rs, v).

(** ** Mapping a range *)

(** [while (find_vma_links(...)) if (__free_va(...)) return -ENOMEM;] *)
Fixpoint clear_old_maps (fuel' : nat) (v : vregion) (addr len : Z) (rs : list (Z * Z)) :
    option (option (Z * dir * Z) * list (Z * Z) * vregion) :=
  match fuel' with
  | O => None
  | S fuel'' =>
      r ← find_vma_links v addr (addr +w len);
      match r with
      | inr pos => Some (Some pos, rs, v)
      | inl _ =>
          '(err, rs', v) ← __free_va v addr len;
          if negb (err =? 0) then Some (None, rs ++ rs', v)
          else clear_old_maps fuel'' v addr len (rs ++ rs')
      end
  end.

(** After the loop: merge with a neighbour or link a new area. *)
Definition new_mapping (v : vregion) (pos : Z * dir * Z) (addr len flags : Z) : option (Z * vregion) :=
  let '(prev, rb_link, rb_parent) := pos in
  '(vma, v) ← vma_merge v prev addr (addr +w len) flags;
  if negb (vma =? NULL) then Some (addr, v)
  else
    let '(vma, v) := vm_area_alloc v in
    if vma =? NULL then Some (wrap64 (- ENOMEM), v)
    else
      let v := set_vm_start v vma addr in
      let v := set_vm_end v vma (addr +w len) in
      let v := set_vm_flags v vma flags in
      v ← vma_link v vma prev rb_link rb_parent;
      Some (addr, v).

Definition vma_tree_new (v : vregion) (addr len flags : Z) : option (Z * list (Z * Z) * vregion) :=
  '(pos, rs, v) ← clear_old_maps fuel v addr len [];
  match pos with
  | None => Some (wrap64 (- ENOMEM), rs, v)
  | Some pos =>
      '(ret, v) ← new_mapping v pos addr len flags;
      Some (ret, rs, v)
  end.

(** ** Searching for a free range *)

Definition prev_end (v : vregion) (vma : Z) : Z :=
  if negb (vm_prev v vma =? NULL) then vm_end v (vm_prev v vma) else 0.

(** The points of the search loops: entering a node, the label
    [check_current] with [gap_start] (and [gap_end], bottom-up), and the way back
    up from a node. *)
Inductive search_point := Visit | Check (gap_start : Z) | Climb.

(** The gap found, or [-ENOMEM] (top-down) and [check_highest] (bottom-up) as
    [inl]. *)
Fixpoint topdown_loop (fuel : nat) (v : vregion) (length low_limit high_limit : Z) (vma : Z) (pt : search_point) :
    option (unit + (Z * Z)) :=
  match fuel with
  | O => None
  | S fuel' =>
      let loop := topdown_loop fuel' v length low_limit high_limit in
      match pt with
      | Visit =>
          let gap_start := prev_end v vma in
          let right := child (mm v) Right vma in
          if (gap_start <=? high_limit) && negb (right =? NULL) && (length <=? aug (mm v) right) then loop right Visit
          else loop vma (Check gap_start)
      | Check gap_start =>
          let gap_end := vm_start v vma in
          if gap_end <? low_limit then Some (inl tt)
          else if (gap_start <=? high_limit) && (length <=? gap_end -w gap_start) then Some (inr (gap_start, gap_end))
          else
            let left := child (mm v) Left vma in
            if negb (left =? NULL) && (length <=? aug (mm v) left) then loop left Visit
            else loop vma Climb
      | Climb =>
          let prev := vma in
          let parent := rb_parent (mm v) prev in
          if parent =? NULL then Some (inl tt)
          else if prev =? child (mm v) Right parent then loop parent (Check (prev_end v parent))
          else loop parent Climb
      end
  end.

(** The gap the labels [found] and [found_highest] are reached with. *)
Definition topdown_gap (v : vregion) (length info_low info_high : Z) : option (option (Z * Z)) :=
  let high_limit := info_high -w length in
  let low_limit := info_low +w length in
  let gap_start := highest_vm_end v in
  if gap_start <=? high_limit then Some (Some (gap_start, info_high))
  else if root (mm v) =? NULL then Some None
  else if aug (mm v) (root (mm v)) <? length then Some None
  else
    r ← topdown_loop fuel v length low_limit high_limit (root (mm v)) Visit;
    match r with
    | inl _ => Some None
    | inr (gap_start, gap_end) => Some (Some (gap_start, if info_high <? gap_end then info_high else gap_end))
    end.

Definition __find_va_range_topdown (v : vregion) (length info_low info_high : Z) : option Z :=
  if info_high <? length then Some (wrap64 (- ENOMEM))
  else if info_high -w length <? info_low then Some (wrap64 (- ENOMEM))
  else
    g ← topdown_gap v length info_low info_high;
    match g with
    | None => Some (wrap64 (- ENOMEM))
    | Some (gap_start, gap_end) =>
        let gap_end := gap_end -w length in
        if (gap_end <? info_low) || (gap_end <? gap_start) then None (* BUG_ON *)
        else Some gap_end
    end.

(** Bottom-up: [inl false] is the early [-ENOMEM], [inl true] the jump to
    [check_highest]. *)
Fixpoint bottomup_loop (fuel : nat) (v : vregion) (length low_limit high_limit : Z) (vma : Z) (pt : search_point) :
    option (bool + Z) :=
  match fuel with
  | O => None
  | S fuel' =>
      let loop := bottomup_loop fuel' v length low_limit high_limit in
      match pt with
      | Visit =>
          let gap_end := vm_start v vma in
          let left := child (mm v) Left vma in
          if (low_limit <=? gap_end) && negb (left =? NULL) && (length <=? aug (mm v) left) then loop left Visit
          else loop vma (Check (prev_end v vma))
      | Check gap_start =>
          let gap_end := vm_start v vma in
          if high_limit <? gap_start then Some (inl false)
          else if (low_limit <=? gap_end) && (length <=? gap_end -w gap_start) then Some (inr gap_start)
          else
            let right := child (mm v) Right vma in
            if negb (right =? NULL) && (length <=? aug (mm v) right) then loop right Visit
            else loop vma Climb
      | Climb =>
          let prev := vma in
          let parent := rb_parent (mm v) prev in
          if parent =? NULL then Some (inl true)
          else if prev =? child (mm v) Left parent then
            if vm_prev v parent =? NULL then None (* null dereference *)
            else loop parent (Check (vm_end v (vm_prev v parent)))
          else loop parent Climb
      end
  end.

Definition __find_va_range_bottomup (v : vregion) (length info_low info_high : Z) : option Z :=
  if info_high <? length then Some (wrap64 (- ENOMEM))
  else
    let high_limit := info_high -w length in
    if high_limit <? info_low then Some (wrap64 (- ENOMEM))
    else
      let low_limit := info_low +w length in
      r ← (if (root (mm v) =? NULL) || (aug (mm v) (root (mm v)) <? length) then Some (inl true)
           else bottomup_loop fuel v length low_limit high_limit (root (mm v)) Visit);
      let clip (gap_start : Z) := if gap_start <? info_low then info_low else gap_start in
      match r with
      | inl false => Some (wrap64 (- ENOMEM))
      | inl true =>
          if high_limit <? highest_vm_end v then Some (wrap64 (- ENOMEM)) else Some (clip (highest_vm_end v))
      | inr gap_start => Some (clip gap_start)
      end.

(** [low], [high] are [vregion_to_start_va] and [vregion_to_end_va]; [topdown]
    is the flag [VREGION_INFO_FLAG_UNMAPPED_AREA_TOPDOWN] of the vRegion. *)
Definition __find_va_range (v : vregion) (topdown : bool) (low high len : Z) : option Z :=
  if VREGION_SIZE <? len then Some (wrap64 (- ENOMEM))
  else
    addr ← (if topdown then __find_va_range_topdown v len low high else __find_va_range_bottomup v len low high);
    if high -w len <? addr then Some (wrap64 (- ENOMEM)) else Some addr.
End operations.

(** A bound on the loops of every operation, from the number of areas. *)
Definition vm_fuel (v : vregion) : nat := (4 * Z.to_nat (nr_vmas v) + 3)%nat.
