(* ===== verification/VmaTree.v ===== *)
(** * The area tree and the area list

    What the operations of a vRegion rely on, in terms of the sequence of areas:
    the tree operations of [RbTree] as operations on the in-order sequence
    ([tree_ok]), the doubly linked list ([vlist]), and the invariant [vinv] of a
    vRegion that ties them to the address ranges. *)

From stdpp Require Import functions.
From S2P Require Import Prelude RbTree RbTreeProofs RbErase RbSpec Vma.

#[local] Set Warnings "-clear-no-such-hyp".

(** ** Trees over a sequence *)

(** The store holds a red-black tree with in-order sequence [xs] and maxima of [c]. *)
Definition tree_ok (c : Z -> Z) (m : store) (xs : list Z) : Prop :=
  exists t, zrep m [] t /\ is_rb t /\ inorder t = xs /\ aug_ok c (aug m) t.

(** The same, the value of [x] and the maxima above it excepted. *)
Definition tree_but (x : Z) (c : Z -> Z) (m : store) (xs : list Z) : Prop :=
  exists k cl l r, zrep m k (T cl l x r) /\ is_rb (plug k (T cl l x r)) /\ inorder (plug k (T cl l x r)) = xs /\
    aug_ok c (aug m) l /\ aug_ok c (aug m) r /\ aug_ctx c (aug m) k (aug m x).

Lemma aug_ok_ext c c' au t : (forall m, m ∈ ids t -> c m = c' m) -> aug_ok c au t -> aug_ok c' au t.
Proof.
  induction t as [|cl l IHl n r IHr]; cbn; [auto|]. intros H (Hn & Hl & Hr).
  rewrite <- H by set_solver. split_and!; auto; [apply IHl|apply IHr]; auto; intros; apply H; set_solver.
Qed.

Lemma aug_ctx_ext c c' au k z : (forall m, m ∈ cids k -> c m = c' m) -> aug_ctx c au k z -> aug_ctx c' au k z.
Proof.
  revert z. induction k as [|[d cl n s] k IH]; cbn; [auto|]. intros z H (Hn & Hs & Hk).
  rewrite <- H by set_solver. split_and!; auto; [eapply aug_ok_ext; [|exact Hs]|apply IH; auto]; intros; apply H; set_solver.
Qed.

(** A node of the sequence is a position of the tree. *)
Lemma inorder_position t x : x ∈ inorder t -> exists k cl l r, t = plug k (T cl l x r).
Proof.
  induction t as [|cl l IHl n r IHr]; cbn [inorder]; [set_solver|].
  rewrite elem_of_app, elem_of_cons. intros [Hx|[->|Hx]].
  - destruct (IHl Hx) as (k & c' & l' & r' & ->). exists (k ++ [F Left cl n r]), c', l', r'. now rewrite plug_app.
  - now exists [], cl, l, r.
  - destruct (IHr Hx) as (k & c' & l' & r' & ->). exists (k ++ [F Right cl n l]), c', l', r'. now rewrite plug_app.
Qed.

Lemma NoDup_split_eq (a b a' b' : list Z) x :
  NoDup (a ++ x :: b) -> a ++ x :: b = a' ++ x :: b' -> a = a' /\ b = b'.
Proof.
  revert a'. induction a as [|y a IH]; intros a' Hnd E.
  - destruct a' as [|z a']; injection E; [auto|]. intros -> ->. cbn in Hnd. apply NoDup_cons in Hnd as [Hnd _]. set_solver.
  - destruct a' as [|z a']; injection E.
    + intros <- ->. cbn in Hnd. apply NoDup_cons in Hnd as [Hnd _]. set_solver.
    + intros E' ->. cbn in Hnd. apply NoDup_cons in Hnd as [_ Hnd]. destruct (IH a' Hnd E') as [-> ->]. auto.
Qed.

Lemma zrep_NoDup m t : zrep m [] t -> NoDup (inorder t).
Proof. intros (_ & _ & H). rewrite app_nil_r in H. now rewrite <- ids_inorder. Qed.

Lemma tree_ok_NoDup c m xs : tree_ok c m xs -> NoDup xs.
Proof. intros (t & Hz & _ & <- & _). eapply zrep_NoDup; eauto. Qed.

(** Forgetting the value of one node. *)
Lemma tree_ok_but c c' m xs x :
  tree_ok c m xs -> x ∈ xs -> (forall y, y ∈ xs -> y <> x -> c y = c' y) -> tree_but x c' m xs.
Proof.
  intros (t & Hz & Hrb & <- & Ha) Hx Hc. destruct (inorder_position t x Hx) as (k & cl & l & r & ->).
  apply aug_unplug in Ha as [(_ & Hl & Hr) Hk]. pose proof (proj2 (zrep_plug m k _) Hz) as Hz'.
  assert (Hnd : NoDup (ids (T cl l x r) ++ cids k)) by apply Hz'. cbn in Hnd. apply NoDup_cons in Hnd as [Hnd _].
  assert (Hin : forall y, y ∈ ids l ++ ids r ++ cids k -> c y = c' y).
  { intros y Hy. apply Hc; [|intros ->; clear - Hy Hnd; set_solver].
    rewrite <- ids_inorder, ids_plug. cbn. clear - Hy. set_solver. }
  exists k, cl, l, r. split_and!; auto.
  - eapply aug_ok_ext; [|exact Hl]. intros y Hy. apply Hin. set_solver.
  - eapply aug_ok_ext; [|exact Hr]. intros y Hy. apply Hin. set_solver.
  - eapply aug_ctx_ext; [|exact Hk]. intros y Hy. apply Hin. set_solver.
Qed.

Lemma tree_ok_ext c c' m xs : tree_ok c m xs -> (forall y, y ∈ xs -> c y = c' y) -> tree_ok c' m xs.
Proof.
  intros (t & Hz & Hrb & <- & Ha) Hc. exists t. split_and!; auto. eapply aug_ok_ext; [|exact Ha].
  intros y Hy. apply Hc. now rewrite <- ids_inorder.
Qed.

Section tree_ops.
Context (c : Z -> Z) (Hc : forall n, 0 <= c n).

(** Propagating from the inconsistent node. *)
Lemma tree_propagate fuel m xs x :
  tree_but x c m xs -> (length xs <= fuel)%nat ->
  exists m', max_propagate c fuel m x NULL = Some m' /\ tree_ok c m' xs /\ nodes m' = nodes m /\ root m' = root m /\
    same_aug xs m m'.
Proof.
  intros (k & cl & l & r & Hz & Hrb & <- & Hl & Hr & Hk) Hf.
  assert (Hz' : zrep m (F Left cl x r :: k) l) by now apply zrep_up.
  assert (Hp : ids l ++ x :: ids r ++ cids k ≡ₚ inorder (plug k (T cl l x r)))
    by (rewrite <- ids_inorder, ids_plug; cbn; solve_Permutation).
  destruct (propagate_root c Hc fuel m (F Left cl x r :: k) l) as (m' & E & Hn & Hro & Hs & Hok & Hcx); auto.
  { cbn. auto. }
  { rewrite <- Hp in Hf. pose proof (length_cids (F Left cl x r :: k)). rewrite length_app in Hf. cbn [cids] in *. lia. }
  exists m'. split_and!; auto.
  - exists (plug k (T cl l x r)). split_and!; auto; [|exact (aug_plug c _ _ _ Hok Hcx)].
    apply (zrep_same m); auto. exact (proj1 (zrep_plug m k _) Hz).
  - intros y Hy. apply Hs. rewrite <- Hp in Hy. cbn [cids]. clear - Hy. set_solver.
Qed.

(** Erasing a node whose value may be inconsistent. *)
Lemma tree_erase fuel m xs1 x xs2 :
  tree_but x c m (xs1 ++ x :: xs2) -> (length (xs1 ++ x :: xs2) <= fuel)%nat ->
  exists m', rb_erase_augmented (callbacks_max c) fuel m x = Some m' /\ tree_ok c m' (xs1 ++ xs2) /\
    only (xs1 ++ x :: xs2) m m' /\ same_aug (xs1 ++ x :: xs2) m m'.
Proof.
  intros (k & cl & l & r & Hz & Hrb & E & Hl & Hr & Hk) Hf.
  assert (Hp : ids (T cl l x r) ++ cids k ≡ₚ xs1 ++ x :: xs2) by (rewrite <- E, <- ids_inorder, ids_plug; reflexivity).
  destruct (rb_erase_augmented_spec c Hc fuel m k cl l x r) as (m' & E' & t' & H1 & H2 & H3 & H4 & H5 & H6); auto.
  { now rewrite Hp. }
  exists m'. split_and!; auto.
  - exists t'. split_and!; auto. rewrite H3.
    assert (E2 : (lctx k ++ inorder l) ++ x :: inorder r ++ rctx k = xs1 ++ x :: xs2)
      by (rewrite <- E, inorder_plug; cbn; now rewrite <- !app_assoc).
    apply NoDup_split_eq in E2 as [<- <-]; [now rewrite <- !app_assoc|]. rewrite E2, <- Hp. apply Hz.
  - intros y Hy. apply H5. now rewrite Hp.
  - intros y Hy. apply H6. now rewrite Hp.
Qed.
End tree_ops.

(** *** Positions between nodes *)

Lemma rep_unique nd par t t' : addr par -> rep nd par t -> rep nd par t' -> rid t = rid t' -> t = t'.
Proof.
  revert par t'. induction t as [|cl l IHl n r IHr]; intros par t' Hp Ht Ht' Hid; destruct t' as [|cl' l' n' r']; cbn in Hid.
  - reflexivity.
  - destruct Ht' as (? & _). congruence.
  - destruct Ht as (? & _). congruence.
  - subst n'. destruct Ht as (_ & Hna & Hn & Hl & Hr), Ht' as (_ & _ & Hn' & Hl' & Hr').
    rewrite Hn in Hn'. injection Hn' as Hpc Hrl Hrr. apply (f_equal __rb_color) in Hpc. rewrite !color_pcv in Hpc by auto.
    f_equal; [|eapply IHl; eauto|eapply IHr; eauto]. destruct cl, cl'; auto; discriminate.
Qed.

Lemma zrep_unique m t t' : zrep m [] t -> zrep m [] t' -> t = t'.
Proof. intros (H1 & R1 & _) (H2 & R2 & _). cbn in *. eapply rep_unique; eauto using addr_0. congruence. Qed.

(** The link [d] of [parent] is the hole between [xs1] and [xs2]. *)
Definition hole (m : store) (xs1 xs2 : list Z) (d : dir) (parent : Z) : Prop :=
  exists k, zrep m k E /\ lctx k = xs1 /\ rctx k = xs2 /\ cid k = parent /\ (k <> [] -> top_dir k = d).

Lemma hole_same m m' xs1 xs2 d p : nodes m' = nodes m -> root m' = root m -> hole m xs1 xs2 d p -> hole m' xs1 xs2 d p.
Proof. intros Hn Hr (k & Hz & ?). exists k. split; [now apply (zrep_same m)|auto]. Qed.

Lemma hole_frame m m' xs1 xs2 d p :
  (forall x, x ∈ xs1 ++ xs2 -> nodes m' x = nodes m x) -> root m' = root m -> hole m xs1 xs2 d p -> hole m' xs1 xs2 d p.
Proof.
  intros Hn Hr (k & (H1 & H2 & H3) & <- & <- & Hk). exists k. split_and!; try tauto. split_and!; auto.
  eapply rep_ctx_frame; [|exact Hr|exact H2]. intros x Hx. apply Hn.
  replace (lctx k ++ rctx k) with (inorder (plug k E)) by now rewrite inorder_plug. now rewrite <- ids_inorder, ids_plug.
Qed.

Lemma tree_insert c fuel m xs1 xs2 d p n :
  (forall m, 0 <= c m) -> tree_ok c m (xs1 ++ xs2) -> hole m xs1 xs2 d p ->
  n <> 0 -> addr n -> n ∉ xs1 ++ xs2 -> (length (xs1 ++ xs2) < fuel)%nat ->
  exists m', insert_entry c fuel m p d n = Some m' /\ tree_ok c m' (xs1 ++ n :: xs2) /\
    only (n :: xs1 ++ xs2) m m' /\ same_aug (n :: xs1 ++ xs2) m m'.
Proof.
  intros Hc (t & Hz & Hrb & Hin & Ha) (k & Hzk & <- & <- & <- & Hd) Hn0 Hna Hn Hf.
  pose proof (proj1 (zrep_plug m k E) Hzk) as Hz'. rewrite (zrep_unique m t _ Hz Hz') in *.
  assert (Hp : cids k ≡ₚ lctx k ++ rctx k) by (rewrite <- Hin, <- ids_inorder, ids_plug; reflexivity).
  destruct (insert_entry_spec c Hc fuel m k n) as (m' & E & t' & H1 & H2 & H3 & H4 & H5 & H6); auto.
  { now rewrite Hp. }
  { pose proof (length_cids k). rewrite <- Hp in Hf. lia. }
  exists m'. split_and!.
  - rewrite <- E. destruct k as [|f k]; [reflexivity|]. now rewrite Hd.
  - exists t'. auto.
  - intros y Hy. apply H5. rewrite elem_of_cons, Hp. now rewrite elem_of_cons in Hy.
  - intros y Hy. apply H6. rewrite elem_of_cons, Hp. now rewrite elem_of_cons in Hy.
Qed.

(** ** The list *)

(** [p] starts a list of the nodes [xs] that ends at [q]; [prev] precedes it. *)
Fixpoint lseg (nx pv : Z -> Z) (prev p : Z) (xs : list Z) (q : Z) : Prop :=
  match xs with
  | [] => p = q
  | x :: xs' => p = x /\ x <> 0 /\ pv x = prev /\ lseg nx pv x (nx x) xs' q
  end.

Lemma last_cons' (x a : Z) xs : List.last (x :: xs) a = List.last xs x.
Proof.
  revert x a. induction xs as [|y xs IH]; intros x a; [reflexivity|].
  change (List.last (y :: xs) a = List.last (y :: xs) x). now rewrite !IH.
Qed.

Lemma lseg_app nx pv prev p xs1 xs2 q :
  lseg nx pv prev p (xs1 ++ xs2) q <->
  exists r, lseg nx pv prev p xs1 r /\ lseg nx pv (List.last xs1 prev) r xs2 q.
Proof.
  revert prev p. induction xs1 as [|x xs1 IH]; intros prev p; cbn [app lseg].
  - split; [intros H; now exists p|]. now intros (r & -> & H).
  - rewrite IH. split.
    + intros (-> & Hx & Hp & r & H1 & H2). exists r. rewrite last_cons'. split_and!; auto.
    + intros (r & (-> & Hx & Hp & H1) & H2). rewrite last_cons' in H2. split_and!; eauto.
Qed.

Lemma lseg_ext nx pv nx' pv' prev p xs q :
  (forall x, x ∈ xs -> nx' x = nx x /\ pv' x = pv x) -> lseg nx pv prev p xs q -> lseg nx' pv' prev p xs q.
Proof.
  revert prev p. induction xs as [|x xs IH]; intros prev p H; cbn; [auto|]. intros (-> & Hx & Hp & Hr).
  destruct (H x) as [E1 E2]; [set_solver|]. rewrite E1, E2. split_and!; auto. apply IH; auto. set_solver.
Qed.

Lemma lseg_nonnull nx pv prev p xs q x : lseg nx pv prev p xs q -> x ∈ xs -> x <> 0.
Proof.
  revert prev p. induction xs as [|y xs IH]; intros prev p; cbn; [set_solver|]. intros (-> & Hy & _ & Hr).
  rewrite elem_of_cons. intros [->|Hx]; [auto|]. eauto.
Qed.

Lemma lseg_head nx pv prev p xs q : lseg nx pv prev p xs q -> p = hd q xs.
Proof. destruct xs; cbn; [auto|]. now intros [-> _]. Qed.

Lemma last_snoc' (xs : list Z) a x : List.last (xs ++ [x]) a = x.
Proof. induction xs as [|y xs IH]; [reflexivity|]. cbn [app List.last]. rewrite IH. destruct (xs ++ [x]) eqn:E; [|reflexivity]. now apply app_eq_nil in E as [_ E]. Qed.

Lemma last_case (xs : list Z) a : (xs = [] /\ List.last xs a = a) \/ exists ys y, xs = ys ++ [y] /\ List.last xs a = y.
Proof. destruct xs as [|x xs _] using rev_ind; [auto|]. right. exists xs, x. split; [reflexivity|apply last_snoc']. Qed.

(** A list segment after its last node has been redirected. *)
Lemma lseg_redirect nx pv nx' pv' prev p xs y q q' :
  lseg nx pv prev p (xs ++ [y]) q -> NoDup (xs ++ [y]) ->
  (forall x, x ∈ xs -> nx' x = nx x) -> nx' y = q' -> (forall x, x ∈ xs ++ [y] -> pv' x = pv x) ->
  lseg nx' pv' prev p (xs ++ [y]) q'.
Proof.
  intros H Hnd H1 H2 H3. apply lseg_app in H as (r & Ha & (-> & Hy & Hp & _)). apply lseg_app. exists y. split.
  - eapply lseg_ext; [|exact Ha]. intros x Hx. split; [auto|]. apply H3. set_solver.
  - cbn. split_and!; auto. rewrite H3; [auto|set_solver].
Qed.

Definition vlist (v : vregion) (xs : list Z) : Prop := lseg (vm_next v) (vm_prev v) 0 (mmap v) xs 0.

(** Projections of an updated vRegion. *)
Ltac vsimp :=
  cbn [negb mm vm_start vm_end vm_next vm_prev vm_flags mmap nr_vmas highest_vm_end pool set_mm set_vm_start set_vm_end
       set_vm_next set_vm_prev set_vm_flags set_mmap set_nr_vmas set_highest_vm_end set_pool].
Ltac fnl := repeat first [rewrite fn_lookup_insert | rewrite fn_lookup_insert_ne by (congruence || set_solver)].

Lemma vlist_at v xs1 x xs2 :
  vlist v (xs1 ++ x :: xs2) -> x <> 0 /\ vm_prev v x = List.last xs1 0 /\ vm_next v x = hd 0 xs2.
Proof.
  unfold vlist. rewrite lseg_app. intros (r & _ & (-> & Hx & Hp & H)). split_and!; auto. eapply lseg_head; eauto.
Qed.

Lemma vlist_mmap v xs : vlist v xs -> mmap v = hd 0 xs.
Proof. apply lseg_head. Qed.

(** The fields outside the list pointers. *)
Definition same_data (v v' : vregion) : Prop :=
  mm v' = mm v /\ vm_start v' = vm_start v /\ vm_end v' = vm_end v /\ vm_flags v' = vm_flags v /\
  nr_vmas v' = nr_vmas v /\ highest_vm_end v' = highest_vm_end v /\ pool v' = pool v.

Lemma link_list_spec v n xs1 xs2 :
  vlist v (xs1 ++ xs2) -> n <> 0 -> NoDup (n :: xs1 ++ xs2) ->
  let v' := __vma_link_list v n (List.last xs1 0) in
  vlist v' (xs1 ++ n :: xs2) /\ same_data v v'.
Proof.
  intros Hl Hn0 Hnd. cbv zeta. apply NoDup_cons in Hnd as [Hn Hnd].
  unfold vlist in Hl. pose proof Hl as Hl'. apply lseg_app in Hl as (r & H1 & H2).
  assert (Hr : r = hd 0 xs2) by (eapply lseg_head; eauto).
  assert (Hd : forall y, y ∈ xs1 -> y ∉ xs2) by (apply NoDup_app in Hnd; tauto).
  assert (Hxs2 : match xs2 with [] => r = 0 | y :: ys => r = y /\ y <> 0 /\ y ∉ ys /\ lseg (vm_next v) (vm_prev v) y (vm_next v y) ys 0 end).
  { destruct xs2 as [|y ys]; [exact H2|]. destruct H2 as (? & ? & _ & ?). apply NoDup_app in Hnd as (_ & _ & Hnd).
    apply NoDup_cons in Hnd as [? _]. auto. }
  unfold __vma_link_list. destruct (last_case xs1 0) as [[-> E]|(ys & y & -> & E)]; rewrite E.
  - change (negb (0 =? NULL)) with false. cbv iota. cbn [lseg app] in *. vsimp.
    rewrite H1. clear H1 Hl'. destruct xs2 as [|y ys].
    + subst r. cbn [hd]. change (negb (0 =? NULL)) with false. cbv iota. split; [|repeat split]. unfold vlist. vsimp. cbn [lseg]. fnl. auto.
    + destruct Hxs2 as (-> & Hy0 & Hyy & Hys). rewrite (proj2 (Z.eqb_neq y NULL) Hy0). cbn [negb]. split; [|repeat split].
      unfold vlist. vsimp. cbn [lseg]. assert (y <> n) by set_solver. fnl.
      split_and!; auto. eapply lseg_ext; [|exact Hys]. intros z Hz. assert (z <> y /\ z <> n) as [? ?] by set_solver. fnl. auto.
  - assert (Hy0 : y <> 0) by (eapply lseg_nonnull; [exact H1|set_solver]).
    rewrite (proj2 (Z.eqb_neq y NULL) Hy0). cbn [negb]. vsimp.
    assert (Hny : vm_next v y = r).
    { apply lseg_app in H1 as (? & _ & (_ & _ & _ & H)). exact H. }
    rewrite Hny. set (v1 := set_vm_next (set_vm_next (set_vm_prev v n y) y n) n r).
    assert (Hh : forall v', (forall z, z ∈ ys ++ [y] -> vm_next v' z = vm_next v1 z /\ vm_prev v' z = vm_prev v z) -> mmap v' = mmap v ->
      vm_prev v' n = y -> vm_next v' n = r -> n <> 0 -> lseg (vm_next v') (vm_prev v') n r xs2 0 -> vlist v' ((ys ++ [y]) ++ n :: xs2)).
    { intros v' Hz Hm Hp Hx _ Hrest. unfold vlist. rewrite Hm. apply lseg_app. exists n. split.
      - eapply (lseg_redirect (vm_next v) (vm_prev v)); [exact H1|apply NoDup_app in Hnd; tauto|..].
        + intros z Hz'. rewrite (proj1 (Hz z ltac:(set_solver))). unfold v1. vsimp. rewrite !fn_lookup_insert_ne; [auto|..];
          [intros ->; apply NoDup_app in Hnd as (Hnd & _ & _); apply NoDup_app in Hnd as (_ & Hnd & _); apply (Hnd z); set_solver|intros ->; set_solver].
        + rewrite (proj1 (Hz y ltac:(set_solver))). unfold v1. vsimp. rewrite fn_lookup_insert_ne by (intros ->; set_solver). apply fn_lookup_insert.
        + intros z Hz'. apply Hz, Hz'.
      - cbn [lseg]. rewrite E. split_and!; auto. now rewrite Hx. }
    destruct xs2 as [|z zs].
    + subst r. cbn [hd] in *. change (negb (0 =? NULL)) with false. cbv iota. split; [|repeat split]. apply Hh; auto.
      * intros z Hz. split; [auto|]. vsimp. apply fn_lookup_insert_ne. set_solver.
      * vsimp. apply fn_lookup_insert.
      * vsimp. apply fn_lookup_insert.
    + destruct Hxs2 as (-> & Hz0 & Hzz & Hzs). rewrite (proj2 (Z.eqb_neq z NULL) Hz0). cbn [negb].
      assert (Hzn : z <> n) by set_solver. split; [|repeat split]. apply Hh; auto.
      * intros w Hw. split; [auto|]. unfold v1; vsimp.
        assert (w <> n /\ w <> z) as [? ?] by (split; [set_solver|intros ->; apply (Hd z); set_solver]). fnl. auto.
      * unfold v1; vsimp. rewrite fn_lookup_insert_ne by auto. apply fn_lookup_insert.
      * unfold v1; vsimp. apply fn_lookup_insert.
      * unfold v1; vsimp. cbn [lseg]. assert (z <> y) by (intros ->; apply (Hd y); set_solver). fnl. split_and!; auto.
        eapply lseg_ext; [|exact Hzs]. intros w Hw.
        assert (w <> n /\ w <> z /\ w <> y) as (? & ? & ?) by (split_and!; [set_solver|set_solver|intros ->; apply (Hd y); set_solver]).
        fnl. auto.
Qed.

(** Two list segments joined by new pointers. *)
Lemma lseg_join nx pv nx' pv' m m' r p0 q xs1 xs2 :
  lseg nx pv 0 m xs1 r -> lseg nx pv p0 q xs2 0 -> NoDup xs1 -> NoDup xs2 ->
  (forall x, x ∈ xs1 -> pv' x = pv x) -> (forall x, x ∈ xs1 -> x <> List.last xs1 0 -> nx' x = nx x) ->
  match xs1 with [] => m' = q | _ => m' = m /\ nx' (List.last xs1 0) = q end ->
  (forall x, x ∈ xs2 -> nx' x = nx x) -> (forall x, x ∈ xs2 -> x <> q -> pv' x = pv x) ->
  (xs2 <> [] -> pv' q = List.last xs1 0) ->
  lseg nx' pv' 0 m' (xs1 ++ xs2) 0.
Proof.
  intros H1 H2 Hnd1 Hnd2 Hpv Hnx Hlast Hnx2 Hpv2 Hq. apply lseg_app. exists q. split.
  - destruct (last_case xs1 0) as [[-> E]|(ys & y & -> & E)]; [exact Hlast|]. rewrite E in *.
    assert (Hm : m' = m /\ nx' y = q) by (destruct (ys ++ [y]) eqn:E'; [now apply app_eq_nil in E' as [_ E']|exact Hlast]).
    destruct Hm as [-> Hy]. eapply (lseg_redirect nx pv); eauto. intros x Hx. apply Hnx; [set_solver|].
    intros ->. apply NoDup_app in Hnd1 as (_ & Hd & _). apply (Hd y Hx). set_solver.
  - destruct xs2 as [|y ys]; [exact H2|]. destruct H2 as (-> & Hy & _ & Hys). cbn [lseg].
    split_and!; auto. rewrite Hnx2 by set_solver. apply NoDup_cons in Hnd2 as [Hyy _].
    eapply lseg_ext; [|exact Hys]. intros x Hx. split; [apply Hnx2; set_solver|apply Hpv2; set_solver].
Qed.

(** Joining the areas [prev] and [next]. *)
Definition relink (v : vregion) (prev next : Z) : vregion :=
  let v := if negb (prev =? NULL) then set_vm_next v prev next else set_mmap v next in
  if negb (next =? NULL) then set_vm_prev v next prev else v.

Lemma relink_spec v xs1 xs2 r p0 :
  lseg (vm_next v) (vm_prev v) 0 (mmap v) xs1 r -> lseg (vm_next v) (vm_prev v) p0 (hd 0 xs2) xs2 0 -> NoDup (xs1 ++ xs2) ->
  let v' := relink v (List.last xs1 0) (hd 0 xs2) in vlist v' (xs1 ++ xs2) /\ same_data v v'.
Proof.
  intros H1 H2 Hnd. cbv zeta. apply NoDup_app in Hnd as (Hnd1 & Hd & Hnd2).
  assert (Hlast : match xs1 with [] => List.last xs1 0 = 0 | _ => List.last xs1 0 <> 0 /\ List.last xs1 0 ∈ xs1 end).
  { destruct (last_case xs1 0) as [[-> E]|(ys & y & -> & E)]; [reflexivity|]. rewrite E.
    assert (y <> 0) by (eapply lseg_nonnull; [exact H1|set_solver]).
    destruct (ys ++ [y]) eqn:E'; [now apply app_eq_nil in E' as [_ E']|]. rewrite <- E'. split; [auto|set_solver]. }
  assert (Hhead : match xs2 with [] => hd 0 xs2 = 0 | _ => hd 0 xs2 <> 0 /\ hd 0 xs2 ∈ xs2 end).
  { destruct xs2 as [|y ys]; [reflexivity|]. destruct H2 as (_ & Hy & _). cbn [hd]. split; [exact Hy|set_solver]. }
  assert (Hdis : forall x, x ∈ xs1 -> x ∈ xs2 -> False) by (intros x Hx1 Hx2; apply (Hd x Hx1 Hx2)).
  unfold relink.
  set (v1 := if negb (List.last xs1 0 =? NULL) then _ else _).
  assert (Hsd : forall v', v' = (if negb (hd 0 xs2 =? NULL) then set_vm_prev v1 (hd 0 xs2) (List.last xs1 0) else v1) -> same_data v v')
    by (intros v' ->; unfold v1; destruct (negb _), (negb _); repeat split).
  split; [|now apply Hsd]. clear Hsd. unfold vlist.
  apply (lseg_join (vm_next v) (vm_prev v) _ _ (mmap v) _ r p0 (hd 0 xs2)); auto.
  - intros x Hx1. unfold v1. destruct xs2 as [|y ys]; [rewrite Hhead; cbn; destruct (negb _); reflexivity|].
    destruct Hhead as [Hh0 Hhin]. rewrite (proj2 (Z.eqb_neq _ NULL) Hh0). cbn [negb]. vsimp.
    rewrite fn_lookup_insert_ne by (intros <-; eapply Hdis; eauto). destruct (negb _); reflexivity.
  - intros x Hx1 Hne. assert (E : forall v0 a b, vm_next (if negb (hd 0 xs2 =? NULL) then set_vm_prev v0 a b else v0) x = vm_next v0 x)
      by (intros; destruct (hd 0 xs2 =? NULL); reflexivity). rewrite E. unfold v1. destruct (List.last xs1 0 =? NULL); vsimp; [reflexivity|now rewrite fn_lookup_insert_ne by auto].
  - destruct xs1 as [|y ys]; [rewrite Hlast in *; cbn [hd]; unfold v1; change (negb (0 =? NULL)) with false; cbv iota; destruct (hd 0 xs2 =? NULL); reflexivity|].
    destruct Hlast as [Hl0 _]. unfold v1. rewrite (proj2 (Z.eqb_neq _ NULL) Hl0). cbn [negb]. split; destruct (hd 0 xs2 =? NULL); vsimp; auto; apply fn_lookup_insert.
  - intros x Hx2. assert (E : forall v0 a b, vm_next (if negb (hd 0 xs2 =? NULL) then set_vm_prev v0 a b else v0) x = vm_next v0 x)
      by (intros; destruct (hd 0 xs2 =? NULL); reflexivity). rewrite E. unfold v1. destruct xs1 as [|y ys]; [rewrite Hlast; reflexivity|].
    destruct Hlast as [Hl0 Hlin]. rewrite (proj2 (Z.eqb_neq _ NULL) Hl0). cbn [negb]. vsimp.
    apply fn_lookup_insert_ne. intros <-. eapply Hdis; eauto.
  - intros x Hx2 Hne. unfold v1. destruct (negb (hd 0 xs2 =? NULL)); vsimp; [rewrite fn_lookup_insert_ne by auto|]; destruct (List.last xs1 0 =? NULL); reflexivity.
  - intros Hne. destruct xs2 as [|y ys]; [done|]. destruct Hhead as [Hh0 _]. rewrite (proj2 (Z.eqb_neq _ NULL) Hh0). cbn [negb]. vsimp. apply fn_lookup_insert.
Qed.

Lemma unlink_list_spec v n xs1 xs2 :
  vlist v (xs1 ++ n :: xs2) -> NoDup (xs1 ++ n :: xs2) ->
  let v' := __vma_unlink_list v n in vlist v' (xs1 ++ xs2) /\ same_data v v'.
Proof.
  intros Hl Hnd. destruct (vlist_at v xs1 n xs2 Hl) as (Hn0 & Hp & Hx).
  unfold vlist in Hl. apply lseg_app in Hl as (r & H1 & (-> & _ & _ & H2)). rewrite Hx in H2.
  apply NoDup_app in Hnd as (Hnd1 & Hd & Hnd2). apply NoDup_cons in Hnd2 as [Hn2 Hnd2].
  change (__vma_unlink_list v n) with (relink v (vm_prev v n) (vm_next v n)). rewrite Hp, Hx.
  eapply relink_spec; eauto. apply NoDup_app. split_and!; auto. intros x Hx1 Hx2. apply (Hd x Hx1). set_solver.
Qed.

(** ** Address ranges *)

(** Areas in increasing order, disjoint and not empty, from [lo] on. *)
Fixpoint sorted (v : vregion) (lo : Z) (xs : list Z) : Prop :=
  match xs with
  | [] => True
  | x :: xs' => lo <= vm_start v x /\ vm_start v x < vm_end v x /\ sorted v (vm_end v x) xs'
  end.

(** The end of the last area, or [lo]. *)
Fixpoint lend (v : vregion) (lo : Z) (xs : list Z) : Z :=
  match xs with [] => lo | x :: xs' => lend v (vm_end v x) xs' end.

Lemma lend_app v lo xs1 xs2 : lend v lo (xs1 ++ xs2) = lend v (lend v lo xs1) xs2.
Proof. revert lo. induction xs1; intros; cbn; auto. Qed.

Lemma lend_last v lo xs : xs <> [] -> lend v lo xs = vm_end v (List.last xs 0).
Proof.
  destruct (last_case xs 0) as [[-> _]|(ys & y & -> & ->)]; [done|]. intros _. now rewrite lend_app.
Qed.

Lemma sorted_app v lo xs1 xs2 : sorted v lo (xs1 ++ xs2) <-> sorted v lo xs1 /\ sorted v (lend v lo xs1) xs2.
Proof. revert lo. induction xs1 as [|x xs1 IH]; intros lo; cbn; [tauto|]. rewrite IH. tauto. Qed.

Lemma sorted_ext v v' lo xs :
  (forall x, x ∈ xs -> vm_start v' x = vm_start v x /\ vm_end v' x = vm_end v x) -> sorted v lo xs -> sorted v' lo xs.
Proof.
  revert lo. induction xs as [|x xs IH]; intros lo H; cbn; [auto|]. intros (H1 & H2 & H3).
  destruct (H x) as [-> ->]; [set_solver|]. split_and!; auto. apply IH; auto. set_solver.
Qed.

Lemma lend_ext v v' lo xs : (forall x, x ∈ xs -> vm_end v' x = vm_end v x) -> lend v' lo xs = lend v lo xs.
Proof.
  revert lo. induction xs as [|x xs IH]; intros lo H; cbn; [auto|]. rewrite H by set_solver. apply IH. set_solver.
Qed.

Lemma sorted_mono v lo lo' xs : lo' <= lo -> sorted v lo xs -> sorted v lo' xs.
Proof. destruct xs; cbn; [auto|]. intros ? (? & ? & ?). split_and!; auto. lia. Qed.

Lemma sorted_lend v lo xs : sorted v lo xs -> lo <= lend v lo xs.
Proof. revert lo. induction xs as [|x xs IH]; intros lo; cbn; [lia|]. intros (H1 & H2 & H3%IH). lia. Qed.

Lemma sorted_elem v lo xs x : sorted v lo xs -> x ∈ xs -> lo <= vm_start v x /\ vm_start v x < vm_end v x /\ vm_end v x <= lend v lo xs.
Proof.
  revert lo. induction xs as [|y xs IH]; intros lo; cbn; [set_solver|]. intros (H1 & H2 & H3).
  rewrite elem_of_cons. intros [->|Hx]; [split_and!; auto; now apply sorted_lend|].
  destruct (IH _ H3 Hx) as (? & ? & ?). split_and!; auto. lia.
Qed.

(** An address of some area, and of some area with the flags [f]. *)
Definition covers (v : vregion) (z x : Z) : Prop := vm_start v x <= z < vm_end v x.
Definition mapped (v : vregion) (xs : list Z) (z : Z) : Prop := exists x, x ∈ xs /\ covers v z x.

Lemma mapped_app v xs1 xs2 z : mapped v (xs1 ++ xs2) z <-> mapped v xs1 z \/ mapped v xs2 z.
Proof.
  unfold mapped. split.
  - intros (x & Hx & Hc). apply elem_of_app in Hx as [Hx|Hx]; eauto.
  - intros [(x & Hx & Hc)|(x & Hx & Hc)]; exists x; (split; [set_solver|auto]).
Qed.

Lemma mapped_cons v x xs z : mapped v (x :: xs) z <-> covers v z x \/ mapped v xs z.
Proof.
  unfold mapped. split.
  - intros (y & Hy & Hc). apply elem_of_cons in Hy as [->|Hy]; eauto.
  - intros [Hc|(y & Hy & Hc)]; [exists x|exists y]; (split; [set_solver|auto]).
Qed.

Lemma mapped_nil v z : mapped v [] z <-> False.
Proof. unfold mapped. split; [|done]. intros (x & Hx & _). set_solver. Qed.

Lemma mapped_ext v v' xs z :
  (forall x, x ∈ xs -> vm_start v' x = vm_start v x /\ vm_end v' x = vm_end v x) -> mapped v' xs z <-> mapped v xs z.
Proof.
  intros H. unfold mapped, covers. split; intros (x & Hx & Hc); exists x; (split; [auto|]); destruct (H x Hx) as [E1 E2]; rewrite ?E1, ?E2 in *; auto.
Qed.

Lemma mapped_range v lo xs z : sorted v lo xs -> mapped v xs z -> lo <= z < lend v lo xs.
Proof. intros Hs (x & Hx & Hc). destruct (sorted_elem v lo xs x Hs Hx) as (? & ? & ?). unfold covers in Hc. lia. Qed.

(** ** The gap before an area *)

Lemma compute_gap_at v xs1 x xs2 :
  vlist v (xs1 ++ x :: xs2) -> (forall n, is_word (vm_start v n)) -> (forall n, is_word (vm_end v n)) ->
  vma_compute_gap v x = Z.max 0 (vm_start v x - lend v 0 xs1).
Proof.
  intros Hl Hs He. destruct (vlist_at v xs1 x xs2 Hl) as (_ & Hp & _). unfold vma_compute_gap. rewrite Hp.
  pose proof (Hs x) as Hsx. unfold is_word in Hsx.
  destruct (last_case xs1 0) as [[-> E]|(ys & y & -> & E)].
  - rewrite E. cbn. lia.
  - rewrite E, lend_app. cbn [lend]. assert (Hy0 : y <> 0).
    { unfold vlist in Hl. apply lseg_app in Hl as (r & H1 & _). eapply lseg_nonnull; [exact H1|set_solver]. }
    rewrite (proj2 (Z.eqb_neq y NULL) Hy0). cbn [negb]. pose proof (He y) as Hey. unfold is_word in Hey.
    destruct (Z.ltb_spec (vm_end v y) (vm_start v x)); [|lia].
    rewrite wrap64_small by (unfold is_word; lia). lia.
Qed.

Lemma compute_gap_nonneg v n : (forall n, is_word (vm_start v n)) -> 0 <= vma_compute_gap v n.
Proof.
  intros Hs. unfold vma_compute_gap. destruct (negb _); [|apply Hs]. destruct (_ <? _); [|lia]. apply wrap64_is_word.
Qed.

(** The addresses [malloc] has still to return are new. *)
Fixpoint pool_ok (xs ps : list Z) : Prop :=
  match ps with
  | [] => True
  | p :: ps' => (p <> 0 -> addr p /\ (p ∉ xs) /\ (p ∉ ps')) /\ pool_ok xs ps'
  end.

Lemma pool_ok_mono xs xs' ps : (forall x, x ∈ xs' -> x ∈ xs) -> pool_ok xs ps -> pool_ok xs' ps.
Proof.
  intros H. induction ps as [|p ps IH]; cbn; [auto|].
  intros [H1 H2]. split; [|auto]. intros Hp. destruct (H1 Hp) as (? & Hx & ?). split_and!; auto.
Qed.

Lemma pool_ok_cons xs p ps : pool_ok xs (p :: ps) -> p <> 0 -> pool_ok (p :: xs) ps.
Proof.
  cbn. intros [H1 H2] Hp. destruct (H1 Hp) as (_ & _ & Hps). clear H1. induction ps as [|q ps IH]; cbn in *; [auto|].
  destruct H2 as [H2 H3]. split; [|apply IH; auto; set_solver]. intros Hq. destruct (H2 Hq) as (? & ? & ?).
  split_and!; auto. set_solver.
Qed.

(** ** The invariant of a vRegion *)

Record vinv (v : vregion) (xs : list Z) : Prop := {
  inv_tree : tree_ok (vma_compute_gap v) (mm v) xs;
  inv_list : vlist v xs;
  inv_sorted : sorted v 0 xs;
  inv_nr : nr_vmas v = Z.of_nat (length xs);
  inv_high : highest_vm_end v = lend v 0 xs;
  inv_start : forall n, is_word (vm_start v n);
  inv_end : forall n, is_word (vm_end v n);
  inv_pool : pool_ok xs (pool v);
}.

Lemma vinv_NoDup v xs : vinv v xs -> NoDup xs.
Proof. intros H. eapply tree_ok_NoDup, inv_tree, H. Qed.

(** Gaps that two states share: same predecessor, start and end before it. *)
Lemma compute_gap_eq v v' a a' x b b' :
  vlist v (a ++ x :: b) -> vlist v' (a' ++ x :: b') ->
  (forall n, is_word (vm_start v n)) -> (forall n, is_word (vm_end v n)) ->
  (forall n, is_word (vm_start v' n)) -> (forall n, is_word (vm_end v' n)) ->
  vm_start v' x = vm_start v x -> lend v' 0 a' = lend v 0 a ->
  vma_compute_gap v' x = vma_compute_gap v x.
Proof.
  intros Hl Hl' Hs He Hs' He' E1 E2. rewrite (compute_gap_at v a x b), (compute_gap_at v' a' x b') by auto. now rewrite E1, E2.
Qed.
