(* ===== verification/VmaOps.v ===== *)
(** * Operations on the areas of a vRegion

    The searches, linking, splitting, merging, unlinking and the operations
    [__free_va] and [vma_tree_new] built from them: each returns, keeps the
    invariant [vinv] of [VmaTree], and changes the set of mapped addresses as it
    should. *)

From stdpp Require Import functions.
From S2P Require Import Prelude RbTree RbTreeProofs RbErase RbSpec Vma VmaTree.

#[local] Set Warnings "-clear-no-such-hyp".

Lemma rid_null nd par t : rep nd par t -> (rid t =? NULL) = match t with E => true | _ => false end.
Proof. destruct t; [reflexivity|]. intros (Hn & _). now apply Z.eqb_neq. Qed.

(** ** Searches *)

(** The first area of the sequence that ends above [addr]. *)
Fixpoint first_after (v : vregion) (addr d : Z) (xs : list Z) : Z :=
  match xs with [] => d | x :: xs' => if addr <? vm_end v x then x else first_after v addr d xs' end.

Lemma first_after_app v addr d xs1 xs2 :
  first_after v addr d (xs1 ++ xs2) = first_after v addr (first_after v addr d xs2) xs1.
Proof. induction xs1 as [|x xs1 IH]; cbn; [auto|]. now rewrite IH. Qed.

Lemma first_after_below v addr d lo xs : sorted v lo xs -> lend v lo xs <= addr -> first_after v addr d xs = d.
Proof.
  revert lo. induction xs as [|x xs IH]; intros lo; cbn; [auto|]. intros (H1 & H2 & H3) Hl.
  pose proof (sorted_lend _ _ _ H3). destruct (Z.ltb_spec addr (vm_end v x)); [lia|]. eauto.
Qed.

Lemma find_vma_loop_spec fuel v addr d par lo t :
  rep (nodes (mm v)) par t -> sorted v lo (inorder t) -> (length (inorder t) < fuel)%nat ->
  find_vma_loop fuel v addr (rid t) d = Some (first_after v addr d (inorder t)).
Proof.
  revert par lo t d. induction fuel as [|fuel IH]; intros par lo t d Hr Hs Hf; [lia|]. cbn [find_vma_loop].
  rewrite (rid_null _ _ _ Hr). destruct t as [|c l n r]; [reflexivity|]. destruct Hr as (_ & _ & Hn & Hl & Hr).
  cbn [inorder rid] in *. apply sorted_app in Hs as [Hsl (H1 & H2 & Hsr)]. rewrite length_app in Hf. cbn [length] in Hf.
  rewrite first_after_app. cbn [first_after]. unfold child. rewrite Hn. cbn [get_child rb_left rb_right].
  destruct (Z.ltb_spec addr (vm_end v n)).
  - destruct (Z.leb_spec (vm_start v n) addr); [|eapply IH; eauto; lia].
    rewrite (first_after_below v addr n lo) by (auto; lia). reflexivity.
  - rewrite (first_after_below v addr _ lo (inorder l)) by (auto; lia). eapply IH; eauto. lia.
Qed.

Lemma find_vma_spec fuel v xs addr :
  vinv v xs -> (length xs < fuel)%nat -> find_vma fuel v addr = Some (first_after v addr 0 xs).
Proof.
  intros Hv Hf. destruct (inv_tree v xs Hv) as (t & (Hr & Hroot & _) & _ & <- & _). unfold find_vma. rewrite Hroot.
  apply (find_vma_loop_spec _ _ _ _ 0 0); auto. apply (inv_sorted _ _ Hv).
Qed.

(** [first_after] divides the sequence. *)
Lemma first_after_split v addr lo xs :
  sorted v lo xs -> exists xs1 xs2, xs = xs1 ++ xs2 /\ first_after v addr 0 xs = hd 0 xs2 /\
    (xs1 <> [] -> lend v lo xs1 <= addr) /\ match xs2 with [] => True | x :: _ => addr < vm_end v x end.
Proof.
  revert lo. induction xs as [|x xs IH]; intros lo; cbn.
  - intros _. exists [], []. split_and!; done.
  - intros (H1 & H2 & H3). destruct (Z.ltb_spec addr (vm_end v x)).
    + exists [], (x :: xs). cbn. split_and!; done.
    + destruct (IH _ H3) as (xs1 & xs2 & -> & -> & Hl & Hx). exists (x :: xs1), xs2. cbn. split_and!; auto.
      intros _. destruct xs1; [cbn; lia|]. now apply Hl.
Qed.

Definition overlaps (v : vregion) (addr vend x : Z) : Prop := addr < vm_end v x /\ vm_start v x < vend.

(** What [find_vma_links] finds: an overlap, or the place between the areas
    before and after the range. *)
Definition links_result (v : vregion) (addr vend : Z) (xs : list Z) (r : Z + (Z * dir * Z)) : Prop :=
  match r with
  | inl e => e = - ENOMEM /\ exists x, x ∈ xs /\ overlaps v addr vend x
  | inr (prev, d, p) => exists xs1 xs2, xs = xs1 ++ xs2 /\ hole (mm v) xs1 xs2 d p /\ prev = List.last xs1 0 /\
      (xs1 <> [] -> lend v 0 xs1 <= addr) /\ (forall x, x ∈ xs2 -> vend <= vm_start v x)
  end.

Lemma find_vma_links_loop_spec fuel v addr vend k t d :
  zrep (mm v) k t -> sorted v 0 (inorder (plug k t)) -> (k <> [] -> top_dir k = d) ->
  (lctx k <> [] -> lend v 0 (lctx k) <= addr) -> (forall x, x ∈ rctx k -> vend <= vm_start v x) ->
  addr < vend -> (length (inorder t) < fuel)%nat ->
  exists r, find_vma_links_loop fuel v addr vend (rid t) (cid k) d (List.last (lctx k) 0) = Some r /\
    links_result v addr vend (inorder (plug k t)) r.
Proof.
  revert k t d. induction fuel as [|fuel IH]; intros k t d Hz Hs Hd Hlo Hhi Hav Hf; [lia|]. cbn [find_vma_links_loop].
  pose proof Hz as (Hr & Hk & Hnd). rewrite (rid_null _ _ _ Hr). destruct t as [|c l n r].
  { eexists. split; [reflexivity|]. exists (lctx k), (rctx k). rewrite inorder_plug. split_and!; auto. exists k. auto. }
  cbn [rid]. destruct Hr as (_ & _ & Hn & Hl & Hr). cbn [inorder] in Hf. rewrite length_app in Hf. cbn [length] in Hf.
  pose proof Hs as Hs'. rewrite inorder_plug in Hs'. cbn [inorder] in Hs'. rewrite <- app_assoc in Hs'. cbn in Hs'.
  rewrite !sorted_app in Hs'. destruct Hs' as (Hs1 & Hs2 & (Hs3 & Hs4 & Hs5)).
  unfold child. rewrite Hn. cbn [get_child rb_left rb_right].
  destruct (Z.ltb_spec addr (vm_end v n)).
  - destruct (Z.ltb_spec (vm_start v n) vend).
    + eexists. split; [reflexivity|]. split; [reflexivity|]. exists n. split; [|split; auto].
      rewrite inorder_plug. cbn. set_solver.
    + assert (Hz' : zrep (mm v) (F Left c n r :: k) l) by now apply zrep_up.
      destruct (IH (F Left c n r :: k) l Left) as (res & E & Hres); auto; [|lia|exists res; auto].
      cbn [rctx]. intros x Hx. apply elem_of_cons in Hx as [->|Hx]; [auto|].
      apply elem_of_app in Hx as [Hx|Hx]; [|auto]. apply sorted_app in Hs5 as [Hs5 _].
      pose proof (sorted_elem _ _ _ x Hs5 Hx). lia.
  - assert (Hz' : zrep (mm v) (F Right c n l :: k) r) by now apply zrep_up.
    destruct (IH (F Right c n l :: k) r Right) as (res & E & Hres); auto; [|lia|].
    + cbn [lctx]. intros _. rewrite app_assoc, lend_app. cbn. lia.
    + exists res. cbn [lctx cid] in E. rewrite app_assoc, last_snoc' in E. auto.
Qed.

Lemma find_vma_links_spec fuel v m xs addr vend :
  tree_ok m (mm v) xs -> sorted v 0 xs -> addr < vend -> (length xs < fuel)%nat ->
  exists r, find_vma_links fuel v addr vend = Some r /\ links_result v addr vend xs r.
Proof.
  intros (t & Hz & _ & <- & _) Hs Hav Hf. pose proof Hz as (_ & Hroot & _). unfold find_vma_links. rewrite Hroot.
  apply (find_vma_links_loop_spec fuel v addr vend [] t Left); auto; cbn; (done || set_solver).
Qed.

(** ** Updating gaps and linking *)

(** States that differ in the tree store and in [highest_vm_end] only. *)
Definition same_areas (v v' : vregion) : Prop :=
  vm_start v' = vm_start v /\ vm_end v' = vm_end v /\ vm_next v' = vm_next v /\ vm_prev v' = vm_prev v /\
  vm_flags v' = vm_flags v /\ mmap v' = mmap v /\ nr_vmas v' = nr_vmas v /\ pool v' = pool v.

Lemma same_areas_refl v : same_areas v v.
Proof. repeat split. Qed.
Lemma same_areas_trans v1 v2 v3 : same_areas v1 v2 -> same_areas v2 v3 -> same_areas v1 v3.
Proof. intros (?&?&?&?&?&?&?&?) (?&?&?&?&?&?&?&?). repeat split; congruence. Qed.
Lemma same_areas_gap v v' x : same_areas v v' -> vma_compute_gap v' x = vma_compute_gap v x.
Proof. intros (E1&E2&_&E3&_). unfold vma_compute_gap. now rewrite E1, E2, E3. Qed.
Lemma same_areas_vlist v v' xs : same_areas v v' -> vlist v xs -> vlist v' xs.
Proof. intros (_&_&E1&E2&_&E3&_). unfold vlist. now rewrite E1, E2, E3. Qed.
#[export] Hint Resolve same_areas_refl : core.

Section operations.
Context (fuel : nat).

Lemma vma_gap_update_spec v xs x :
  tree_but x (vma_compute_gap v) (mm v) xs -> (forall n, is_word (vm_start v n)) -> (length xs <= fuel)%nat ->
  exists v', vma_gap_update fuel v x = Some v' /\ tree_ok (vma_compute_gap v') (mm v') xs /\ same_areas v v' /\
    highest_vm_end v' = highest_vm_end v /\ nodes (mm v') = nodes (mm v) /\ root (mm v') = root (mm v).
Proof.
  intros Ht Hw Hf. unfold vma_gap_update.
  destruct (tree_propagate (vma_compute_gap v)) with (fuel := fuel) (m := mm v) (xs := xs) (x := x) as (m' & -> & Ht' & Hn & Hr & _); auto.
  { intros n. now apply compute_gap_nonneg. }
  exists (set_mm v m'). split_and!; auto. repeat split.
Qed.

(** Linking changes the gap of the following area only. *)
Lemma link_list_gap v n xs1 xs2 y :
  vlist v (xs1 ++ xs2) -> n <> 0 -> NoDup (n :: xs1 ++ xs2) ->
  (forall n, is_word (vm_start v n)) -> (forall n, is_word (vm_end v n)) -> y ∈ xs1 ++ xs2 -> y <> hd 0 xs2 ->
  vma_compute_gap (__vma_link_list v n (List.last xs1 0)) y = vma_compute_gap v y.
Proof.
  intros Hl Hn0 Hnd Hw He Hy Hne. destruct (link_list_spec v n xs1 xs2 Hl Hn0 Hnd) as (Hl1 & _ & Es & Ee & _).
  set (v1 := __vma_link_list v n (List.last xs1 0)) in *.
  assert (Hw1 : forall n, is_word (vm_start v1 n)) by (intros; rewrite Es; apply Hw).
  assert (He1 : forall n, is_word (vm_end v1 n)) by (intros; rewrite Ee; apply He).
  assert (Elend : forall lo a, lend v1 lo a = lend v lo a) by (intros; apply lend_ext; intros; now rewrite Ee).
  apply elem_of_app in Hy as [Hy|Hy]; apply list_elem_of_split in Hy as (a & b & E).
  - subst xs1. eapply (compute_gap_eq v v1 a a y (b ++ xs2) (b ++ n :: xs2)); auto.
    + rewrite <- app_assoc in Hl. exact Hl.
    + rewrite <- app_assoc in Hl1. exact Hl1.
    + now rewrite Es.
  - destruct a as [|a0 a]; [subst xs2; now cbn in Hne|]. subst xs2.
    eapply (compute_gap_eq v v1 (xs1 ++ a0 :: a) (xs1 ++ n :: a0 :: a) y b b); auto.
    + now rewrite <- app_assoc.
    + rewrite <- app_assoc. exact Hl1.
    + now rewrite Es.
    + rewrite Elend, !lend_app. reflexivity.
Qed.

Lemma vma_link_core v xs1 xs2 n d p c0 :
  vlist v (xs1 ++ xs2) -> tree_ok c0 (mm v) (xs1 ++ xs2) -> hole (mm v) xs1 xs2 d p ->
  n <> 0 -> addr n -> n ∉ xs1 ++ xs2 -> (forall n, is_word (vm_start v n)) -> (forall n, is_word (vm_end v n)) ->
  (length (xs1 ++ xs2) < fuel)%nat ->
  (forall y, y ∈ xs1 ++ xs2 -> y <> hd 0 xs2 -> c0 y = vma_compute_gap v y) ->
  exists v', __vma_link fuel v n (List.last xs1 0) d p = Some v' /\ vlist v' (xs1 ++ n :: xs2) /\
    tree_ok (vma_compute_gap v') (mm v') (xs1 ++ n :: xs2) /\ same_areas (__vma_link_list v n (List.last xs1 0)) v' /\
    highest_vm_end v' = match xs2 with [] => vm_end v n | _ => highest_vm_end v end.
Proof.
  intros Hl Ht Hh Hn0 Hna Hn Hw He Hf Hc0.
  assert (Hnd : NoDup (n :: xs1 ++ xs2)) by (apply NoDup_cons; split; [auto|eapply tree_ok_NoDup; eauto]).
  set (v1 := __vma_link_list v n (List.last xs1 0)).
  assert (Hc : forall y, y ∈ xs1 ++ xs2 -> y <> hd 0 xs2 -> c0 y = vma_compute_gap v1 y)
    by (intros y Hy Hne; rewrite Hc0 by auto; symmetry; now apply (link_list_gap v n xs1 xs2)).
  destruct (link_list_spec v n xs1 xs2 Hl Hn0 Hnd) as (Hl1 & Em & Es & Ee & Ef & Enr & Eh & Ep). fold v1 in Hl1, Em, Es, Ee, Ef, Enr, Eh, Ep.
  assert (Hw1 : forall n, is_word (vm_start v1 n)) by (intros; rewrite Es; apply Hw).
  destruct (vlist_at v1 xs1 n xs2 Hl1) as (_ & _ & Hnx).
  unfold __vma_link, __vma_link_rb. fold v1. rewrite Hnx.
  assert (H2 : exists v2, (if negb (hd 0 xs2 =? NULL) then vma_gap_update fuel v1 (hd 0 xs2)
      else Some (set_highest_vm_end v1 (vm_end v1 n))) = Some v2 /\ tree_ok (vma_compute_gap v2) (mm v2) (xs1 ++ xs2) /\
      same_areas v1 v2 /\ highest_vm_end v2 = match xs2 with [] => vm_end v n | _ => highest_vm_end v end /\
      nodes (mm v2) = nodes (mm v) /\ root (mm v2) = root (mm v)).
  { destruct xs2 as [|y ys]; cbn [hd].
    - change (negb (0 =? NULL)) with false. cbv iota. eexists. split; [reflexivity|]. vsimp. rewrite Em, Ee.
      split_and!; auto; [|repeat split]. eapply tree_ok_ext; [exact Ht|]. intros y Hy. apply Hc; [auto|].
      rewrite app_nil_r in *. intros ->. eapply lseg_nonnull in Hy; [|exact Hl]. now cbn in Hy.
    - assert (Hy0 : y <> 0) by (eapply lseg_nonnull; [exact Hl|set_solver]). rewrite (proj2 (Z.eqb_neq y NULL) Hy0). cbn [negb].
      destruct (vma_gap_update_spec v1 (xs1 ++ y :: ys) y) as (v2 & E2 & Ht2 & Ha2 & Hh2 & Hn2 & Hr2); auto; [|lia|].
      { rewrite Em. eapply tree_ok_but; [exact Ht|set_solver|]. intros z Hz Hne. apply Hc; auto. }
      exists v2. rewrite Hh2, Hn2, Hr2, Em, Eh. split_and!; auto. }
  destruct H2 as (v2 & -> & Ht2 & Ha2 & Hh2 & Hn2 & Hr2). cbn [mbind option_bind].
  pose proof Ha2 as (Es2 & _). destruct (tree_insert (vma_compute_gap v2) fuel (mm v2) xs1 xs2 d p n) as (m' & Em' & Ht' & _); auto.
  { intros y. apply compute_gap_nonneg. intros z. rewrite Es2. apply Hw1. }
  { eapply hole_same; eauto. }
  unfold vma_gap_update, vma_rb_insert. vsimp. unfold insert_entry in Em'.
  change (vma_compute_gap (set_mm (set_mm v2 ?a) ?b)) with (vma_compute_gap v2).
  destruct (max_propagate (vma_compute_gap v2) fuel _ n NULL) as [m3|] eqn:E3; [|discriminate]. cbn [mbind option_bind] in *. vsimp.
  change (vma_compute_gap (set_mm (set_mm (set_mm v2 ?a) ?b) ?x)) with (vma_compute_gap v2). rewrite Em'.
  eexists. split; [reflexivity|]. vsimp. split_and!; auto.
  eapply (same_areas_vlist v1); auto.
Qed.

(** Adding an area between two others; [c0] are the gaps the tree was last
    consistent with, that of the following area excepted. *)
Lemma vma_link_spec v xs1 xs2 n d p c0 :
  vlist v (xs1 ++ xs2) -> tree_ok c0 (mm v) (xs1 ++ xs2) -> hole (mm v) xs1 xs2 d p ->
  n <> 0 -> addr n -> pool_ok (n :: xs1 ++ xs2) (pool v) -> n ∉ xs1 ++ xs2 ->
  (forall n, is_word (vm_start v n)) -> (forall n, is_word (vm_end v n)) -> sorted v 0 (xs1 ++ n :: xs2) ->
  nr_vmas v = Z.of_nat (length (xs1 ++ xs2)) -> (xs2 <> [] -> highest_vm_end v = lend v 0 (xs1 ++ n :: xs2)) ->
  (forall y, y ∈ xs1 ++ xs2 -> y <> hd 0 xs2 -> c0 y = vma_compute_gap v y) -> (length (xs1 ++ xs2) < fuel)%nat ->
  exists v', vma_link fuel v n (List.last xs1 0) d p = Some v' /\ vinv v' (xs1 ++ n :: xs2) /\
    vm_start v' = vm_start v /\ vm_end v' = vm_end v /\ vm_flags v' = vm_flags v /\ pool v' = pool v.
Proof.
  intros Hl Ht Hh Hn0 Hna Hpool Hn Hw He Hs Hnr Hhigh Hc0 Hf.
  assert (Hnd : NoDup (n :: xs1 ++ xs2)) by (apply NoDup_cons; split; [auto|eapply tree_ok_NoDup; eauto]).
  destruct (link_list_spec v n xs1 xs2 Hl Hn0 Hnd) as (_ & Em & Es & Ee & Ef & Enr & Eh & Ep).
  destruct (vma_link_core v xs1 xs2 n d p c0) as (v' & E' & Hl' & Ht' & Ha' & Hh'); auto.
  unfold vma_link. rewrite E'. eexists. split; [reflexivity|].
  destruct Ha' as (A1 & A2 & A3 & A4 & A5 & A6 & A7 & A8). vsimp. rewrite A1, A2, A5, A8, Es, Ee, Ef, Ep. split_and!; auto.
  split; vsimp; auto.
  - apply (sorted_ext v); [|auto]. intros x _. vsimp. now rewrite A1, A2, Es, Ee.
  - rewrite A7, Enr, Hnr, !length_app. cbn. lia.
  - rewrite Hh'. assert (El : forall lo a, lend (set_nr_vmas v' (nr_vmas v' + 1)) lo a = lend v lo a)
      by (intros; apply lend_ext; intros; vsimp; now rewrite A2, Ee).
    rewrite El. destruct xs2 as [|y ys]; [now rewrite lend_app|]. now apply Hhigh.
  - intros. rewrite A1, Es. apply Hw.
  - intros. rewrite A2, Ee. apply He.
  - rewrite A8, Ep. eapply pool_ok_mono; [|exact Hpool]. set_solver.
Qed.

(** Locations outside the region's areas do not matter. *)
Lemma tree_ok_frame c m m' xs :
  (forall x, x ∈ xs -> nodes m' x = nodes m x /\ aug m' x = aug m x) -> root m' = root m -> tree_ok c m xs -> tree_ok c m' xs.
Proof.
  intros H Hr (t & (Hz & Hroot & Hnd) & Hrb & <- & Ha). assert (Hid : forall x, x ∈ ids t -> x ∈ inorder t) by (intros x; now rewrite ids_inorder).
  exists t. split_and!; auto.
  - split_and!; auto; [|cbn in *; congruence]. eapply rep_frame; [|exact Hz]. intros x Hx. now apply H, Hid.
  - eapply aug_ok_frame; [|exact Ha]. intros x Hx. now apply H, Hid.
Qed.

Lemma vinv_frame v v' xs :
  vinv v xs -> (forall x, x ∈ xs -> vm_start v' x = vm_start v x /\ vm_end v' x = vm_end v x /\
    vm_next v' x = vm_next v x /\ vm_prev v' x = vm_prev v x /\ nodes (mm v') x = nodes (mm v) x /\ aug (mm v') x = aug (mm v) x) ->
  mmap v' = mmap v -> nr_vmas v' = nr_vmas v -> highest_vm_end v' = highest_vm_end v -> root (mm v') = root (mm v) ->
  (forall n, is_word (vm_start v' n)) -> (forall n, is_word (vm_end v' n)) -> pool_ok xs (pool v') -> vinv v' xs.
Proof.
  intros [Ht Hl Hs Hnr Hhigh Hw He Hp] H E1 E2 E3 E4 Hw' He' Hp'.
  assert (Hl' : vlist v' xs) by (unfold vlist; rewrite E1; eapply lseg_ext; [|exact Hl]; intros x Hx; destruct (H x Hx); tauto).
  assert (El : forall lo a, (forall x, x ∈ a -> x ∈ xs) -> lend v' lo a = lend v lo a)
    by (intros lo a Ha; apply lend_ext; intros x Hx; apply H; auto).
  split; auto.
  - eapply tree_ok_frame; [|exact E4|]; [intros x Hx; destruct (H x Hx); tauto|]. eapply tree_ok_ext; [exact Ht|].
    intros x Hx. symmetry. apply list_elem_of_split in Hx as (a & b & ->).
    eapply (compute_gap_eq v v' a a x b b); auto; [apply H; set_solver|apply El; set_solver].
  - eapply sorted_ext; [|exact Hs]. intros x Hx. destruct (H x Hx); tauto.
  - now rewrite E2.
  - rewrite E3, El; auto.
Qed.

(** A range that lies between two areas has its place there. *)
Lemma links_between v xs1 xs2 addr vend r :
  sorted v 0 (xs1 ++ xs2) -> (xs1 <> [] -> lend v 0 xs1 <= addr) -> (forall x, x ∈ xs2 -> vend <= vm_start v x) ->
  0 <= addr < vend -> links_result v addr vend (xs1 ++ xs2) r ->
  exists d p, r = inr (List.last xs1 0, d, p) /\ hole (mm v) xs1 xs2 d p.
Proof.
  intros Hs Hlo Hhi Hav Hr. destruct r as [e|[[prev d] p]].
  { destruct Hr as (_ & x & Hx & Ho1 & Ho2). exfalso. apply elem_of_app in Hx as [Hx|Hx].
    - apply sorted_app in Hs as [Hs _]. pose proof (sorted_elem _ _ _ _ Hs Hx).
      destruct xs1; [set_solver|]. specialize (Hlo ltac:(done)). lia.
    - specialize (Hhi x Hx). lia. }
  destruct Hr as (ys1 & ys2 & E & Hh & -> & Hlo' & Hhi'). exists d, p.
  assert (ys1 = xs1 /\ ys2 = xs2) as [-> ->]; [|auto].
  symmetry in E. apply app_eq_inv in E as [(z & -> & ->)|(z & -> & ->)].
  - destruct z as [|z0 z]; [now rewrite app_nil_r|]. exfalso. specialize (Hhi z0 ltac:(set_solver)).
    specialize (Hlo' ltac:(intros ?%app_eq_nil; naive_solver)). rewrite lend_app in Hlo'.
    rewrite app_assoc, !sorted_app in Hs. destruct Hs as [[_ Hs] _]. pose proof (sorted_elem _ _ _ z0 Hs ltac:(set_solver)). lia.
  - destruct z as [|z0 z]; [now rewrite app_nil_r|]. exfalso. specialize (Hhi' z0 ltac:(set_solver)).
    specialize (Hlo ltac:(intros ?%app_eq_nil; naive_solver)). rewrite lend_app in Hlo.
    rewrite !sorted_app in Hs. destruct Hs as [[_ Hs] _]. pose proof (sorted_elem _ _ _ z0 Hs ltac:(set_solver)). lia.
Qed.

Lemma sorted_drop v lo xs1 n xs2 : sorted v lo (xs1 ++ n :: xs2) -> sorted v lo (xs1 ++ xs2).
Proof.
  rewrite !sorted_app. cbn. intros (H1 & H2 & H3 & H4). split; [auto|]. eapply sorted_mono; [|exact H4]. lia.
Qed.

Lemma sorted_after v lo n xs2 x : sorted v lo (n :: xs2) -> x ∈ xs2 -> vm_end v n <= vm_start v x.
Proof. cbn. intros (_ & _ & H) Hx. pose proof (sorted_elem _ _ _ _ H Hx). lia. Qed.

Lemma insert_struct_spec v xs1 xs2 n c0 :
  vlist v (xs1 ++ xs2) -> tree_ok c0 (mm v) (xs1 ++ xs2) ->
  n <> 0 -> addr n -> pool_ok (n :: xs1 ++ xs2) (pool v) -> n ∉ xs1 ++ xs2 ->
  (forall n, is_word (vm_start v n)) -> (forall n, is_word (vm_end v n)) -> sorted v 0 (xs1 ++ n :: xs2) ->
  nr_vmas v = Z.of_nat (length (xs1 ++ xs2)) -> (xs2 <> [] -> highest_vm_end v = lend v 0 (xs1 ++ n :: xs2)) ->
  (forall y, y ∈ xs1 ++ xs2 -> y <> hd 0 xs2 -> c0 y = vma_compute_gap v y) -> (length (xs1 ++ xs2) < fuel)%nat ->
  exists v', __insert_vm_struct fuel v n = Some v' /\ vinv v' (xs1 ++ n :: xs2) /\
    vm_start v' = vm_start v /\ vm_end v' = vm_end v /\ vm_flags v' = vm_flags v /\ pool v' = pool v.
Proof.
  intros Hl Ht Hn0 Hna Hpool Hn Hw He Hs Hnr Hhigh Hc0 Hf. pose proof Hs as Hs'. apply sorted_app in Hs' as [_ Hsn].
  pose proof Hsn as (Hs1 & Hs2 & Hs3). pose proof (Hw n) as Hwn. unfold is_word in Hwn.
  destruct (find_vma_links_spec fuel v c0 (xs1 ++ xs2) (vm_start v n) (vm_end v n)) as (r & Er & Hr); auto.
  { eapply sorted_drop; eauto. }
  destruct (links_between v xs1 xs2 (vm_start v n) (vm_end v n) r) as (d & p & -> & Hh); auto.
  { eapply sorted_drop; eauto. }
  { intros x Hx. eapply sorted_after; eauto. }
  { lia. }
  destruct (vma_link_spec v xs1 xs2 n d p c0) as (v' & E' & H'); auto. exists v'. split; [|exact H'].
  unfold __insert_vm_struct. rewrite Er. exact E'.
Qed.

(** ** Allocating area structures *)

Definition set_fields (v : vregion) (n s e nx pv f : Z) (x : rb_node) (a : Z) : vregion :=
  VRegion (Store (<[n := x]> (nodes (mm v))) (<[n := a]> (aug (mm v))) (root (mm v)))
    (<[n := s]> (vm_start v)) (<[n := e]> (vm_end v)) (<[n := nx]> (vm_next v)) (<[n := pv]> (vm_prev v))
    (<[n := f]> (vm_flags v)) (mmap v) (nr_vmas v) (highest_vm_end v) (pool v).

Lemma is_word_insert (f : Z -> Z) n x m : (forall n, is_word (f n)) -> is_word x -> is_word (<[n := x]> f m).
Proof. intros Hf Hx. destruct (decide (n = m)) as [->|Hne]; [now rewrite fn_lookup_insert|now rewrite fn_lookup_insert_ne]. Qed.

Lemma vinv_fields v xs n s e nx pv f x a ps :
  vinv v xs -> n ∉ xs -> is_word s -> is_word e -> pool_ok xs ps -> vinv (set_pool (set_fields v n s e nx pv f x a) ps) xs.
Proof.
  intros Hv Hn Hs He Hp. eapply vinv_frame; [exact Hv|..]; try reflexivity; try exact Hp.
  - intros y Hy. cbn [set_pool set_fields vm_start vm_end vm_next vm_prev mm nodes aug].
    assert (n <> y) by (intros ->; done). rewrite !fn_lookup_insert_ne by auto. auto 6.
  - intros m. apply is_word_insert; [apply (inv_start _ _ Hv)|exact Hs].
  - intros m. apply is_word_insert; [apply (inv_end _ _ Hv)|exact He].
Qed.

(** [malloc] hands out a new address or fails; [vm_area_dup] and
    [vm_area_alloc] write only the new structure. *)
Lemma vm_area_dup_spec v xs o :
  vinv v xs ->
  let '(n, v') := vm_area_dup v o in
  vinv v' xs /\ n = hd 0 (pool v) /\ pool v' = tl (pool v) /\
  (n = 0 /\ v' = set_pool v (tl (pool v)) \/
   n <> 0 /\ addr n /\ n ∉ xs /\ pool_ok (n :: xs) (pool v') /\
   v' = set_pool (set_fields v n (vm_start v o) (vm_end v o) (vm_next v o) (vm_prev v o) (vm_flags v o) (nodes (mm v) o) (aug (mm v) o)) (tl (pool v))).
Proof.
  intros Hv. pose proof (inv_pool _ _ Hv) as Hp. unfold vm_area_dup, malloc. destruct (pool v) as [|p ps] eqn:Ep.
  - cbn. split_and!; auto. left. split; [reflexivity|]. destruct v; cbn in *. now subst.
  - pose proof Hp as [Hp1 Hp2]. destruct (Z.eqb_spec p NULL) as [->|Hp0]; cbn [negb].
    + split_and!; auto. eapply vinv_frame; [exact Hv|..]; try reflexivity; try apply Hv; auto 7.
    + destruct (Hp1 Hp0) as (Hpa & Hpx & Hps). split_and!; auto.
      * change (vinv (set_pool (set_fields v p (vm_start v o) (vm_end v o) (vm_next v o) (vm_prev v o) (vm_flags v o) (nodes (mm v) o) (aug (mm v) o)) ps) xs).
        apply vinv_fields; auto; [apply (inv_start _ _ Hv)|apply (inv_end _ _ Hv)].
      * right. split_and!; auto. now apply pool_ok_cons.
Qed.

Lemma vm_area_alloc_spec v xs :
  vinv v xs ->
  let '(n, v') := vm_area_alloc v in
  vinv v' xs /\ n = hd 0 (pool v) /\ pool v' = tl (pool v) /\
  (n = 0 /\ v' = set_pool v (tl (pool v)) \/
   n <> 0 /\ addr n /\ n ∉ xs /\ pool_ok (n :: xs) (pool v') /\
   v' = set_pool (set_fields v n 0 0 0 0 0 (Node 0 0 0) 0) (tl (pool v))).
Proof.
  intros Hv. pose proof (inv_pool _ _ Hv) as Hp. unfold vm_area_alloc, malloc. destruct (pool v) as [|p ps] eqn:Ep.
  - cbn. split_and!; auto. left. split; [reflexivity|]. destruct v; cbn in *. now subst.
  - pose proof Hp as [Hp1 Hp2]. destruct (Z.eqb_spec p NULL) as [->|Hp0]; cbn [negb].
    + split_and!; auto. eapply vinv_frame; [exact Hv|..]; try reflexivity; try apply Hv; auto 7.
    + destruct (Hp1 Hp0) as (Hpa & Hpx & Hps). split_and!; auto.
      * change (vinv (set_pool (set_fields v p 0 0 0 0 0 (Node 0 0 0) 0) ps) xs).
        apply vinv_fields; auto; unfold is_word; lia.
      * right. split_and!; auto. now apply pool_ok_cons.
Qed.

(** ** Splitting *)

Lemma adjust_insert_unfold v vma start vend n :
  n <> 0 -> vma_adjust fuel v vma start vend n =
  '(_, v) ← adjust_pass fuel v vma (vm_next v vma) start vend 0 0 n; Some v.
Proof.
  intros Hn. unfold vma_adjust, __vma_adjust. rewrite (proj2 (Z.eqb_neq n NULL) Hn), andb_false_r. cbv zeta iota.
  destruct (adjust_pass _ _ _ _ _ _ _ _ _) as [[]|]; reflexivity.
Qed.

(** The sequence after a split, and the ranges of its two parts. *)
Definition split_seq (new_below : bool) (xs1 : list Z) (x n : Z) (xs2 : list Z) : list Z :=
  if new_below then xs1 ++ n :: x :: xs2 else xs1 ++ x :: n :: xs2.

Definition same_links (v v' : vregion) : Prop :=
  mm v' = mm v /\ vm_next v' = vm_next v /\ vm_prev v' = vm_prev v /\ vm_flags v' = vm_flags v /\ mmap v' = mmap v /\
  nr_vmas v' = nr_vmas v /\ highest_vm_end v' = highest_vm_end v /\ pool v' = pool v.

(** Gaps only depend on the ends before an area and its start. *)
Lemma gap_unchanged v v' a x b :
  vlist v (a ++ x :: b) -> same_links v v' ->
  (forall n, is_word (vm_start v n)) -> (forall n, is_word (vm_end v n)) ->
  (forall n, is_word (vm_start v' n)) -> (forall n, is_word (vm_end v' n)) ->
  vm_start v' x = vm_start v x -> lend v' 0 a = lend v 0 a -> vma_compute_gap v x = vma_compute_gap v' x.
Proof.
  intros Hl (_ & E1 & E2 & _ & E3 & _) Hw He Hw' He' Es El. symmetry. eapply (compute_gap_eq v v' a a x b b); auto.
  unfold vlist. now rewrite E1, E2, E3.
Qed.

(** An area [x] divided at [a] between itself and a new area [n], which is
    then inserted. *)
Lemma split_insert v v3 xs1 x xs2 n (new_below : bool) :
  vinv v (xs1 ++ x :: xs2) -> same_links v v3 -> (forall y, y <> n -> y <> x -> vm_start v3 y = vm_start v y /\ vm_end v3 y = vm_end v y) ->
  (forall m, is_word (vm_start v3 m)) -> (forall m, is_word (vm_end v3 m)) ->
  (if new_below then vm_start v3 n = vm_start v x /\ vm_end v3 n = vm_start v3 x /\ vm_end v3 x = vm_end v x
   else vm_start v3 x = vm_start v x /\ vm_end v3 x = vm_start v3 n /\ vm_end v3 n = vm_end v x) ->
  vm_start v3 x < vm_end v3 x -> vm_start v3 n < vm_end v3 n ->
  n <> 0 -> addr n -> n ∉ xs1 ++ x :: xs2 -> pool_ok (n :: xs1 ++ x :: xs2) (pool v) -> (length (xs1 ++ x :: xs2) < fuel)%nat ->
  exists v', __insert_vm_struct fuel v3 n = Some v' /\ vinv v' (split_seq new_below xs1 x n xs2) /\
    vm_start v' = vm_start v3 /\ vm_end v' = vm_end v3 /\ vm_flags v' = vm_flags v3 /\ pool v' = pool v3.
Proof.
  intros Hv Hsl Ho Hw3 He3 Hr Hx3 Hn3 Hn0 Hna Hn Hpool Hf. pose proof (vinv_NoDup _ _ Hv) as Hnd.
  destruct Hv as [Ht Hl Hs Hnr Hh Hw He _]. pose proof Hsl as (Em & Enx & Epv & Efl & Emm & Enr & Ehi & Epo).
  apply NoDup_app in Hnd as (_ & Hd & Hnd2). apply NoDup_cons in Hnd2 as [Hx2 _].
  assert (Hx1 : x ∉ xs1) by (intros H; apply (Hd x H); set_solver).
  assert (Hoth : forall y, y ∈ xs1 ++ xs2 -> vm_start v3 y = vm_start v y /\ vm_end v3 y = vm_end v y)
    by (intros y Hy; apply Ho; intros ->; set_solver).
  assert (Hl3 : vlist v3 (xs1 ++ x :: xs2)) by (unfold vlist; rewrite Enx, Epv, Emm; exact Hl).
  assert (El1 : forall lo b, (forall y, y ∈ b -> y ∈ xs1 ++ xs2) -> lend v3 lo b = lend v lo b)
    by (intros lo b Hb; apply lend_ext; intros y Hy; apply Hoth; auto).
  assert (Hs1 : sorted v3 0 xs1) by (apply sorted_app in Hs as [Hs _]; eapply sorted_ext; [|exact Hs]; intros y Hy; apply Hoth; set_solver).
  assert (Hs2 : forall lo, sorted v lo xs2 -> sorted v3 lo xs2) by (intros lo; apply sorted_ext; intros y Hy; apply Hoth; set_solver).
  apply sorted_app in Hs as [_ (Hsa & Hsb & Hsc)].
  rewrite (lend_app v 0 xs1) in Hh. cbn [lend] in Hh.
  destruct new_below; destruct Hr as (R1 & R2 & R3); unfold split_seq.
  - apply (insert_struct_spec v3 xs1 (x :: xs2) n (vma_compute_gap v)); auto.
    + now rewrite Em.
    + now rewrite Epo.
    + apply sorted_app. split; [exact Hs1|]. rewrite (El1 0 xs1) by set_solver. cbn [sorted]. rewrite R1. split_and!; auto; [lia..|].
      rewrite R3. auto.
    + now rewrite Enr.
    + intros _. rewrite Ehi, Hh, lend_app. cbn [lend]. rewrite R3. symmetry. apply El1. set_solver.
    + cbn [hd]. intros y Hy Hne. apply elem_of_app in Hy as [Hy|Hy]; [|apply elem_of_cons in Hy as [->|Hy]; [done|]];
        apply list_elem_of_split in Hy as (b1 & b2 & ->).
      * eapply (gap_unchanged v v3 b1 y (b2 ++ x :: xs2)); auto; [rewrite <- app_assoc in Hl; exact Hl|apply Hoth; set_solver|apply El1; set_solver].
      * eapply (gap_unchanged v v3 (xs1 ++ x :: b1) y b2); auto; [rewrite <- app_assoc; exact Hl|apply Hoth; set_solver|].
        rewrite !lend_app. cbn [lend]. rewrite R3. apply El1. set_solver.
  - replace (xs1 ++ x :: n :: xs2) with ((xs1 ++ [x]) ++ n :: xs2) by (rewrite <- app_assoc; reflexivity).
    assert (Eq : forall zs : list Z, (xs1 ++ [x]) ++ zs = xs1 ++ x :: zs) by (intros; now rewrite <- app_assoc).
    apply (insert_struct_spec v3 (xs1 ++ [x]) xs2 n (vma_compute_gap v)); rewrite ?Eq; auto.
    + now rewrite Em.
    + now rewrite Epo.
    + apply sorted_app. split; [exact Hs1|]. rewrite (El1 0 xs1) by set_solver. cbn [sorted]. rewrite R1, <- R2. split_and!; auto; [lia..|].
      rewrite R3. auto.
    + now rewrite Enr.
    + intros _. rewrite Ehi, Hh, lend_app. cbn [lend]. rewrite R3. symmetry. apply El1. set_solver.
    + intros y Hy Hne. apply elem_of_app in Hy as [Hy|Hy]; [|apply elem_of_cons in Hy as [->|Hy]].
      * apply list_elem_of_split in Hy as (b1 & b2 & ->).
        eapply (gap_unchanged v v3 b1 y (b2 ++ x :: xs2)); auto; [rewrite <- app_assoc in Hl; exact Hl|apply Hoth; set_solver|apply El1; set_solver].
      * eapply (gap_unchanged v v3 xs1 x xs2); auto. apply El1. set_solver.
      * apply list_elem_of_split in Hy as (b1 & b2 & ->). destruct b1 as [|b0 b1]; [now cbn in Hne|].
        eapply (gap_unchanged v v3 (xs1 ++ x :: b0 :: b1) y b2); auto; [rewrite <- app_assoc; exact Hl|apply Hoth; set_solver|].
        rewrite !lend_app. cbn [lend]. rewrite (proj2 (Hoth b0 ltac:(set_solver))). apply El1. set_solver.
Qed.

Lemma split_vma_spec v xs1 x xs2 a new_below :
  vinv v (xs1 ++ x :: xs2) -> vm_start v x < a < vm_end v x -> (length (xs1 ++ x :: xs2) < fuel)%nat ->
  exists err v', split_vma fuel v x a new_below = Some (err, v') /\
    pool v' = tl (pool v) /\
    (err = - ENOMEM /\ hd 0 (pool v) = 0 /\ v' = set_pool v (tl (pool v)) /\ vinv v' (xs1 ++ x :: xs2) \/
     err = 0 /\ exists n, n = hd 0 (pool v) /\ (n ∉ xs1 ++ x :: xs2) /\ vinv v' (split_seq new_below xs1 x n xs2) /\
       vm_start v' x = (if new_below then a else vm_start v x) /\ vm_end v' x = (if new_below then vm_end v x else a) /\
       vm_start v' n = (if new_below then vm_start v x else a) /\ vm_end v' n = (if new_below then a else vm_end v x) /\
       vm_flags v' n = vm_flags v x /\ vm_flags v' x = vm_flags v x /\
       forall y, y ∈ xs1 ++ xs2 -> vm_start v' y = vm_start v y /\ vm_end v' y = vm_end v y /\ vm_flags v' y = vm_flags v y).
Proof.
  intros Hv Ha Hf. unfold split_vma. pose proof (vm_area_dup_spec v _ x Hv) as Hdup.
  destruct (vm_area_dup v x) as [n v1]. destruct Hdup as (Hv1 & Hhd & Hp1 & [[-> ->]|(Hn0 & Hna & Hn & Hpool & Ev1)]).
  { exists (- ENOMEM), (set_pool v (tl (pool v))). change (0 =? NULL) with true. split; [reflexivity|]. split; [auto|]. left. auto. }
  rewrite (proj2 (Z.eqb_neq n NULL) Hn0).
  assert (Hnx : n <> x) by set_solver. pose proof (vinv_NoDup _ _ Hv) as Hnd. apply NoDup_app in Hnd as (_ & Hd & Hnd2). apply NoDup_cons in Hnd2 as [Hx2 _].
  assert (Hx1 : x ∉ xs1) by (intros H; apply (Hd x H); set_solver).
  assert (Hoth : forall y, y ∈ xs1 ++ xs2 -> y <> x /\ y <> n) by (intros y Hy; split; intros ->; set_solver).
  assert (Hfn : vm_start v1 n = vm_start v x /\ vm_end v1 n = vm_end v x /\ vm_flags v1 n = vm_flags v x)
    by (rewrite Ev1; cbn [set_pool set_fields vm_start vm_end vm_flags]; now rewrite !fn_lookup_insert).
  assert (Hfo : forall y, y <> n -> vm_start v1 y = vm_start v y /\ vm_end v1 y = vm_end v y /\ vm_flags v1 y = vm_flags v y)
    by (intros y Hy; rewrite Ev1; cbn [set_pool set_fields vm_start vm_end vm_flags]; now rewrite !fn_lookup_insert_ne by auto).
  clear Ev1. destruct Hfn as (Hns & Hne & Hnf). destruct (Hfo x ltac:(auto)) as (Hxs & Hxe & Hxf).
  pose proof (inv_start _ _ Hv1) as Hw1. pose proof (inv_end _ _ Hv1) as He1.
  pose proof (Hw1 x) as Hwx. pose proof (He1 x) as Hex. unfold is_word in Hwx, Hex. rewrite Hxs in Hwx. rewrite Hxe in Hex.
  assert (Haw : is_word a) by (unfold is_word; lia).
  set (v3 := if new_below then set_vm_start (set_vm_end v1 n a) x a else set_vm_end (set_vm_start v1 n a) x a).
  assert (E3 : (if new_below then vma_adjust fuel (set_vm_end v1 n a) x a (vm_end (set_vm_end v1 n a) x) n
      else vma_adjust fuel (set_vm_start v1 n a) x (vm_start (set_vm_start v1 n a) x) a n) = __insert_vm_struct fuel v3 n).
  { unfold v3. destruct new_below; rewrite adjust_insert_unfold by auto; unfold adjust_pass; vsimp.
    - replace (a =? vm_start v1 x) with false by (symmetry; apply Z.eqb_neq; lia). vsimp. rewrite !Z.eqb_refl.
      vsimp. rewrite (proj2 (Z.eqb_neq n NULL) Hn0). vsimp.
      match goal with |- _ = ?r => destruct r; reflexivity end.
    - rewrite !Z.eqb_refl. vsimp. replace (a =? vm_end v1 x) with false by (symmetry; apply Z.eqb_neq; lia).
      vsimp. rewrite (proj2 (Z.eqb_neq n NULL) Hn0). vsimp.
      match goal with |- _ = ?r => destruct r; reflexivity end. }
  destruct (split_insert v1 v3 xs1 x xs2 n new_below) as (v' & E' & Hv' & Es' & Ee' & Ef' & Ep'); auto.
  - unfold v3. destruct new_below; repeat split.
  - intros y Hyn Hyx. unfold v3. destruct new_below; vsimp; rewrite !fn_lookup_insert_ne by auto; auto.
  - intros m. unfold v3. destruct new_below; vsimp; repeat apply is_word_insert; auto.
  - intros m. unfold v3. destruct new_below; vsimp; repeat apply is_word_insert; auto.
  - unfold v3. destruct new_below; vsimp; fnl; rewrite ?Hns, ?Hne, ?Hxs, ?Hxe; auto.
  - unfold v3. destruct new_below; vsimp; fnl; rewrite ?Hns, ?Hne, ?Hxs, ?Hxe; lia.
  - unfold v3. destruct new_below; vsimp; fnl; rewrite ?Hns, ?Hne, ?Hxs, ?Hxe; lia.
  - exists 0, v'. destruct new_below; rewrite E3, E'; (split; [reflexivity|]); (split; [rewrite Ep'; exact Hp1|]); right; (split; [reflexivity|]); exists n;
      rewrite Es', Ee', Ef'; unfold v3; vsimp; fnl; (split_and!; auto); intros y Hy; destruct (Hoth y Hy) as [Hyx Hyn];
      destruct (Hfo y Hyn) as (? & ? & ?); rewrite ?fn_lookup_insert_ne by auto; auto.
Qed.

(** ** Extending and merging areas *)

(** The invariant without the tree. *)
Record vshape (v : vregion) (xs : list Z) : Prop := {
  sh_list : vlist v xs;
  sh_sorted : sorted v 0 xs;
  sh_nr : nr_vmas v = Z.of_nat (length xs);
  sh_high : highest_vm_end v = lend v 0 xs;
  sh_start : forall n, is_word (vm_start v n);
  sh_end : forall n, is_word (vm_end v n);
  sh_pool : pool_ok xs (pool v);
}.

Lemma vinv_shape v xs : vinv v xs <-> tree_ok (vma_compute_gap v) (mm v) xs /\ vshape v xs.
Proof. split; [intros []; split; [auto|split; auto]|intros [? []]; split; auto]. Qed.

Lemma vshape_same v v' xs : same_areas v v' -> highest_vm_end v' = highest_vm_end v -> vshape v xs -> vshape v' xs.
Proof.
  intros Ha Eh [Hl Hs Hnr Hh Hw He Hp]. pose proof Ha as (E1 & E2 & _ & _ & _ & _ & E3 & E4). split.
  - eapply same_areas_vlist; eauto.
  - eapply sorted_ext; [|exact Hs]. intros. now rewrite E1, E2.
  - congruence.
  - rewrite Eh, Hh. symmetry. apply lend_ext. intros. now rewrite E2.
  - now rewrite E1.
  - now rewrite E2.
  - now rewrite E4.
Qed.

(** Updating the one gap that has changed restores the invariant. *)
Lemma gap_update_restores v xs y c0 :
  vshape v xs -> tree_ok c0 (mm v) xs -> y ∈ xs -> (forall z, z ∈ xs -> z <> y -> c0 z = vma_compute_gap v z) ->
  (length xs <= fuel)%nat ->
  exists v', vma_gap_update fuel v y = Some v' /\ vinv v' xs /\ same_areas v v'.
Proof.
  intros Hsh Ht Hy Hc Hf.
  destruct (vma_gap_update_spec v xs y) as (v' & E & Ht' & Ha & Hh & _); auto; [|apply Hsh|].
  { eapply tree_ok_but; eauto. }
  exists v'. split_and!; auto. apply vinv_shape. split; [auto|]. eapply vshape_same; eauto.
Qed.

(** Gaps of a sequence when the ends and starts around them stay. *)
Lemma gaps_unchanged v v' xs y :
  vlist v xs -> same_links v v' ->
  (forall n, is_word (vm_start v n)) -> (forall n, is_word (vm_end v n)) ->
  (forall n, is_word (vm_start v' n)) -> (forall n, is_word (vm_end v' n)) ->
  (forall a z b, xs = a ++ z :: b -> z <> y -> vm_start v' z = vm_start v z /\ lend v' 0 a = lend v 0 a) ->
  forall z, z ∈ xs -> z <> y -> vma_compute_gap v z = vma_compute_gap v' z.
Proof.
  intros Hl Hs H1 H2 H3 H4 H z Hz Hne. apply list_elem_of_split in Hz as (a & b & ->).
  destruct (H a z b eq_refl Hne). eapply gap_unchanged; eauto.
Qed.

(** The ends of the areas satisfy [Q], their flags [R]. *)
Definition areas (Q R : Z -> Prop) (v : vregion) (xs : list Z) : Prop :=
  forall x, x ∈ xs -> Q (vm_start v x) /\ Q (vm_end v x) /\ R (vm_flags v x).

(** No ends but old ones and [cuts], no flags but old ones. *)
Definition no_new (cuts : list Z) (v : vregion) (xs : list Z) (v' : vregion) (xs' : list Z) : Prop :=
  forall Q R : Z -> Prop, areas Q R v xs -> Forall Q cuts -> areas Q R v' xs'.

Lemma no_new_same cuts v v' xs xs' :
  (forall x, x ∈ xs' -> x ∈ xs) -> (forall x, x ∈ xs' -> vm_start v' x = vm_start v x /\ vm_end v' x = vm_end v x /\ vm_flags v' x = vm_flags v x) ->
  no_new cuts v xs v' xs'.
Proof. intros Hin H Q R Ha _ x Hx. destruct (H x Hx) as (-> & -> & ->). auto. Qed.

(** What mapping [addr, vend) does to the areas. *)
Definition extended (v v' : vregion) (xs xs' : list Z) (addr vend : Z) : Prop :=
  vinv v' xs' /\ pool v' = pool v /\ (length xs' <= length xs)%nat /\
  (forall z, mapped v' xs' z <-> mapped v xs z \/ addr <= z < vend) /\ no_new [addr; vend] v xs v' xs'.

(** One area has got a new end or start. *)
Lemma no_new_end v v' xs x e c :
  vm_start v' = vm_start v -> vm_end v' = <[x := e]> (vm_end v) -> vm_flags v' = vm_flags v -> no_new [c; e] v xs v' xs.
Proof.
  intros E1 E2 E3 Q R Ha Hc y Hy. rewrite E1, E2, E3. apply Forall_cons in Hc as [_ Hc]. apply Forall_cons in Hc as [Hc _]. destruct (Ha y Hy) as (H1 & H2 & H3).
  destruct (decide (y = x)) as [->|]; [rewrite fn_lookup_insert|rewrite fn_lookup_insert_ne by auto]; auto.
Qed.

Lemma no_new_start v v' xs x a c :
  vm_start v' = <[x := a]> (vm_start v) -> vm_end v' = vm_end v -> vm_flags v' = vm_flags v -> no_new [a; c] v xs v' xs.
Proof.
  intros E1 E2 E3 Q R Ha Hc y Hy. rewrite E1, E2, E3. apply Forall_cons in Hc as [Hc _]. destruct (Ha y Hy) as (H1 & H2 & H3).
  destruct (decide (y = x)) as [->|]; [rewrite fn_lookup_insert|rewrite fn_lookup_insert_ne by auto]; auto.
Qed.

Lemma vinv_split_facts v xs1 x xs2 :
  vinv v (xs1 ++ x :: xs2) ->
  x ∉ xs1 /\ x ∉ xs2 /\ sorted v 0 xs1 /\ lend v 0 xs1 <= vm_start v x /\ vm_start v x < vm_end v x /\ sorted v (vm_end v x) xs2 /\
  x <> 0 /\ vm_prev v x = List.last xs1 0 /\ vm_next v x = hd 0 xs2.
Proof.
  intros Hv. pose proof (vinv_NoDup _ _ Hv) as Hnd. apply NoDup_app in Hnd as (_ & Hd & Hnd2). apply NoDup_cons in Hnd2 as [Hx2 _].
  pose proof (inv_sorted _ _ Hv) as Hs. apply sorted_app in Hs as (? & ? & ? & ?).
  split_and!; auto; try apply (vlist_at _ _ _ _ (inv_list _ _ Hv)). intros H'. apply (Hd x H'). set_solver.
Qed.

Lemma lend_set_end v x e lo a : x ∉ a -> lend (set_vm_end v x e) lo a = lend v lo a.
Proof. intros H. apply lend_ext. intros y Hy. vsimp. apply fn_lookup_insert_ne. congruence. Qed.

Lemma sorted_set_end v x e lo a : x ∉ a -> sorted v lo a -> sorted (set_vm_end v x e) lo a.
Proof. intros H. apply sorted_ext. intros y Hy. vsimp. split; [auto|]. apply fn_lookup_insert_ne. congruence. Qed.

Lemma sorted_set_start v x e lo a : x ∉ a -> sorted v lo a -> sorted (set_vm_start v x e) lo a.
Proof. intros H. apply sorted_ext. intros y Hy. vsimp. split; [|auto]. apply fn_lookup_insert_ne. congruence. Qed.

Lemma sorted_from v lo lo' a : sorted v lo a -> (forall y, y ∈ a -> lo' <= vm_start v y) -> sorted v lo' a.
Proof. destruct a as [|y a]; cbn; [auto|]. intros (_ & H1 & H2) H. split_and!; auto. apply H. set_solver. Qed.

Lemma sorted_hd v lo a y : sorted v lo a -> y ∈ a -> vm_start v (hd 0 a) <= vm_start v y.
Proof. destruct a as [|x a]; cbn; [set_solver|]. intros (_ & H1 & H2). rewrite elem_of_cons. intros [->|Hy]; [lia|]. pose proof (sorted_elem _ _ _ _ H2 Hy). lia. Qed.

(** The shape after the end of an area has been raised. *)
Lemma extend_up_shape v xs1 x xs2 e :
  vinv v (xs1 ++ x :: xs2) -> vm_end v x <= e -> is_word e -> (forall y, y ∈ xs2 -> e <= vm_start v y) ->
  vshape (set_highest_vm_end (set_vm_end v x e) (lend v e xs2)) (xs1 ++ x :: xs2) /\
  (forall z, z ∈ xs1 ++ x :: xs2 -> z <> hd 0 xs2 -> vma_compute_gap v z = vma_compute_gap (set_vm_end v x e) z) /\
  (forall z, mapped (set_vm_end v x e) (xs1 ++ x :: xs2) z <-> mapped v (xs1 ++ x :: xs2) z \/ vm_end v x <= z < e).
Proof.
  intros Hv He Hwe Hhi. destruct (vinv_split_facts _ _ _ _ Hv) as (Hx1 & Hx2 & Hs1 & Hlo & Hx & Hs2 & _).
  assert (He1 : forall n, is_word (vm_end (set_vm_end v x e) n)) by (intros; vsimp; apply is_word_insert; [apply Hv|auto]).
  assert (Hend : vm_end (set_vm_end v x e) x = e) by (vsimp; apply fn_lookup_insert).
  split_and!.
  - split; vsimp; try apply Hv; auto.
    + apply (sorted_ext (set_vm_end v x e)); [auto|]. apply sorted_app. split; [now apply sorted_set_end|].
      rewrite lend_set_end by auto. cbn [sorted]. rewrite Hend. vsimp. split_and!; [lia..|].
      apply sorted_set_end; [auto|]. eapply sorted_from; eauto.
    + transitivity (lend (set_vm_end v x e) 0 (xs1 ++ x :: xs2)); [|now apply lend_ext].
      rewrite lend_app. cbn [lend]. now rewrite Hend, lend_set_end.
  - apply gaps_unchanged; try apply Hv; auto; [repeat split|]. intros a z b E Hne. vsimp. split; [auto|].
    apply app_eq_inv in E as [(k & -> & E2)|(k & -> & E2)].
    + apply lend_set_end. set_solver.
    + destruct k as [|y k].
      * rewrite app_nil_r. apply lend_set_end. auto.
      * injection E2 as <- ->. destruct k as [|y k]; [now cbn in Hne|]. rewrite !lend_app. cbn [lend].
        vsimp. rewrite fn_lookup_insert_ne by set_solver. apply lend_set_end. set_solver.
  - intros z. rewrite !mapped_app, !mapped_cons. unfold covers at 1. rewrite Hend. vsimp.
    rewrite !(mapped_ext v (set_vm_end v x e)) by (intros y Hy; vsimp; split; [auto|]; apply fn_lookup_insert_ne; set_solver).
    unfold covers. assert (vm_start v x <= z < e <-> vm_start v x <= z < vm_end v x \/ vm_end v x <= z < e) by lia. tauto.
Qed.

Lemma extend_up v xs1 x xs2 e :
  vinv v (xs1 ++ x :: xs2) -> vm_end v x <= e -> is_word e -> (forall y, y ∈ xs2 -> e <= vm_start v y) -> (length (xs1 ++ x :: xs2) <= fuel)%nat ->
  exists v', (if hd 0 xs2 =? NULL then Some (set_highest_vm_end (set_vm_end v x e) e)
    else vma_gap_update fuel (set_vm_end v x e) (hd 0 xs2)) = Some v' /\
    extended v v' (xs1 ++ x :: xs2) (xs1 ++ x :: xs2) (vm_end v x) e.
Proof.
  intros Hv He Hwe Hhi Hf. destruct (extend_up_shape v xs1 x xs2 e) as (Hsh & Hgap & Hmap); auto.
  destruct xs2 as [|y ys]; cbn [hd] in *.
  - change (0 =? NULL) with true. cbv iota. eexists. split; [reflexivity|]. split_and!; auto; [|now apply (no_new_end _ _ _ x)].
    apply vinv_shape. split; [|exact Hsh]. vsimp. eapply tree_ok_ext; [apply Hv|]. intros z Hz. apply Hgap; [auto|]. intros ->. eapply lseg_nonnull; [apply (inv_list _ _ Hv)|exact Hz|reflexivity].
  - assert (Hy0 : y <> 0) by (eapply lseg_nonnull; [apply (inv_list _ _ Hv)|set_solver]). rewrite (proj2 (Z.eqb_neq y NULL) Hy0).
    assert (Hsh' : vshape (set_vm_end v x e) (xs1 ++ x :: y :: ys)).
    { destruct Hsh as [? Hso ? Hh ? ? ?]. split; auto; [eapply sorted_ext; [|exact Hso]; auto|]. vsimp. rewrite (inv_high _ _ Hv), lend_app. cbn [lend].
      rewrite lend_app. cbn [lend]. vsimp. destruct (vinv_split_facts _ _ _ _ Hv) as (_ & Hx2 & _).
      rewrite fn_lookup_insert_ne by set_solver. symmetry. apply lend_set_end. set_solver. }
    destruct (gap_update_restores (set_vm_end v x e) (xs1 ++ x :: y :: ys) y (vma_compute_gap v)) as (v' & E & Hv' & Ha); auto.
    { apply Hv. }
    { set_solver. }
    exists v'. split; [auto|]. pose proof Ha as (B1 & B2 & _ & _ & B5 & _ & _ & B8). split_and!; auto.
    + intros z. rewrite <- Hmap. apply mapped_ext. intros w _. rewrite B1, B2. auto.
    + apply (no_new_end _ _ _ x); auto.
Qed.

Lemma extend_down v xs1 x xs2 a :
  vinv v (xs1 ++ x :: xs2) -> lend v 0 xs1 <= a <= vm_start v x -> (length (xs1 ++ x :: xs2) <= fuel)%nat ->
  exists v', vma_gap_update fuel (set_vm_start v x a) x = Some v' /\
    extended v v' (xs1 ++ x :: xs2) (xs1 ++ x :: xs2) a (vm_start v x).
Proof.
  intros Hv Ha Hf. destruct (vinv_split_facts _ _ _ _ Hv) as (Hx1 & Hx2 & Hs1 & Hlo & Hx & Hs2 & _).
  pose proof (sorted_lend _ _ _ Hs1) as H0. pose proof (inv_start _ _ Hv x) as Hwx. unfold is_word in Hwx.
  assert (Hstart : vm_start (set_vm_start v x a) x = a) by (vsimp; apply fn_lookup_insert).
  assert (Hw1 : forall n, is_word (vm_start (set_vm_start v x a) n)) by (intros; vsimp; apply is_word_insert; [apply Hv|unfold is_word; lia]).
  assert (El : forall lo b, lend (set_vm_start v x a) lo b = lend v lo b) by (intros; now apply lend_ext).
  destruct (gap_update_restores (set_vm_start v x a) (xs1 ++ x :: xs2) x (vma_compute_gap v)) as (v' & E & Hv' & Har); auto.
  - split; vsimp; try apply Hv; auto.
    + apply sorted_app. split; [now apply sorted_set_start|]. rewrite El. cbn [sorted]. rewrite Hstart. vsimp.
      split_and!; [lia..|]. now apply sorted_set_start.
    + rewrite El. apply Hv.
  - apply Hv.
  - set_solver.
  - apply gaps_unchanged; try apply Hv; auto; [repeat split|]. intros b z c E Hne. vsimp.
    rewrite fn_lookup_insert_ne by auto. split; [reflexivity|apply El].
  - exists v'. split; [auto|]. pose proof Har as (B1 & B2 & _ & _ & B5 & _ & _ & B8). split_and!; auto; [|now apply (no_new_start _ _ _ x)].
    intros z. transitivity (mapped (set_vm_start v x a) (xs1 ++ x :: xs2) z).
    { apply mapped_ext. intros w _. rewrite B1, B2. auto. }
    rewrite !mapped_app, !mapped_cons. unfold covers at 1. rewrite Hstart. vsimp.
    rewrite !(mapped_ext v (set_vm_start v x a)) by (intros y Hy; vsimp; split; [|auto]; apply fn_lookup_insert_ne; set_solver).
    unfold covers. assert (a <= z < vm_end v x <-> vm_start v x <= z < vm_end v x \/ a <= z < vm_start v x) by lia. tauto.
Qed.

(** Erasing an area from tree and list when the gaps of the others have been
    consistent. *)
Lemma unlink_common_spec v xs1 x xs2 :
  tree_but x (vma_compute_gap v) (mm v) (xs1 ++ x :: xs2) -> vlist v (xs1 ++ x :: xs2) -> (forall n, is_word (vm_start v n)) ->
  (length (xs1 ++ x :: xs2) <= fuel)%nat ->
  exists v', __vma_unlink_common fuel v x = Some v' /\ tree_ok (vma_compute_gap v) (mm v') (xs1 ++ xs2) /\ vlist v' (xs1 ++ xs2) /\
    vm_start v' = vm_start v /\ vm_end v' = vm_end v /\ vm_flags v' = vm_flags v /\
    nr_vmas v' = nr_vmas v /\ highest_vm_end v' = highest_vm_end v /\ pool v' = pool v.
Proof.
  intros Ht Hl Hw Hf. unfold __vma_unlink_common, vma_rb_erase.
  destruct (tree_erase (vma_compute_gap v)) with (fuel := fuel) (m := mm v) (xs1 := xs1) (x := x) (xs2 := xs2) as (m' & -> & Ht' & _); auto.
  { intros n. now apply compute_gap_nonneg. }
  destruct (unlink_list_spec (set_mm v m') x xs1 xs2) as (Hl' & Em & H'); auto.
  { destruct Ht as (k & c & l & r & Hz & _ & <- & _). eapply zrep_NoDup. exact (proj1 (zrep_plug _ _ _) Hz). }
  eexists. split; [reflexivity|]. destruct H' as (?&?&?&?&?&?). rewrite Em. split_and!; auto.
Qed.

(** Cases 2 and 3 of [vma_merge]: an area grows up or down. *)
Lemma adjust_plain v xs1 x xs2 start e expand :
  vinv v (xs1 ++ x :: xs2) -> vm_end v x <= e -> (forall y, y ∈ xs2 -> e <= vm_start v y) ->
  __vma_adjust fuel v x start e NULL expand =
  '(_, v) ← adjust_pass fuel v x (hd 0 xs2) start e 0 0 NULL; Some v.
Proof.
  intros Hv He Hhi. destruct (vinv_split_facts _ _ _ _ Hv) as (_ & _ & _ & _ & Hx & Hs2 & _ & _ & Hnx).
  unfold __vma_adjust. rewrite Hnx. destruct xs2 as [|y ys]; cbn [hd].
  - change (negb (0 =? NULL)) with false. cbn [andb]. cbv iota beta zeta. destruct (adjust_pass _ _ _ _ _ _ _ _ _) as [[]|]; reflexivity.
  - assert (Hy0 : y <> 0) by (eapply lseg_nonnull; [apply (inv_list _ _ Hv)|set_solver]). rewrite (proj2 (Z.eqb_neq y NULL) Hy0).
    change (NULL =? NULL) with true. cbn [negb andb]. specialize (Hhi y ltac:(set_solver)). destruct Hs2 as (_ & Hy & _).
    rewrite (proj2 (Z.leb_gt (vm_end v y) e)), (proj2 (Z.ltb_ge (vm_start v y) e)), (proj2 (Z.ltb_ge e (vm_end v x))) by lia.
    cbv iota beta zeta. destruct (adjust_pass _ _ _ _ _ _ _ _ _) as [[]|]; reflexivity.
Qed.

Lemma adjust_case2 v xs1 x xs2 e :
  vinv v (xs1 ++ x :: xs2) -> vm_end v x < e -> is_word e -> (forall y, y ∈ xs2 -> e <= vm_start v y) -> (length (xs1 ++ x :: xs2) <= fuel)%nat ->
  exists v', __vma_adjust fuel v x (vm_start v x) e NULL x = Some v' /\
    extended v v' (xs1 ++ x :: xs2) (xs1 ++ x :: xs2) (vm_end v x) e.
Proof.
  intros Hv He Hwe Hhi Hf. destruct (extend_up v xs1 x xs2 e) as (v' & E & H'); auto; [lia|]. exists v'. split; [|exact H'].
  rewrite (adjust_plain v xs1 x xs2) by (auto; lia). unfold adjust_pass. rewrite !Z.eqb_refl. vsimp.
  rewrite (proj2 (Z.eqb_neq e (vm_end v x))) by lia. vsimp.
  change (NULL =? NULL) with true. vsimp. cbn [mbind option_bind]. vsimp. rewrite fn_lookup_insert, E. reflexivity.
Qed.

Lemma adjust_case3 v xs1 x xs2 a :
  vinv v (xs1 ++ x :: xs2) -> lend v 0 xs1 <= a < vm_start v x -> (length (xs1 ++ x :: xs2) <= fuel)%nat ->
  exists v', __vma_adjust fuel v x a (vm_end v x) NULL x = Some v' /\
    extended v v' (xs1 ++ x :: xs2) (xs1 ++ x :: xs2) a (vm_start v x).
Proof.
  intros Hv Ha Hf. destruct (extend_down v xs1 x xs2 a) as (v' & E & H'); auto; [lia|]. exists v'. split; [|exact H'].
  assert (Hhi : forall y, y ∈ xs2 -> vm_end v x <= vm_start v y)
    by (intros y; eapply sorted_after, (proj1 (sorted_app v 0 xs1 (x :: xs2))), Hv).
  rewrite (adjust_plain v xs1 x xs2) by (auto; lia).
  unfold adjust_pass. rewrite (proj2 (Z.eqb_neq a (vm_start v x))) by lia. vsimp. rewrite !Z.eqb_refl. vsimp.
  change (NULL =? NULL) with true. vsimp. rewrite E. reflexivity.
Qed.

(** Case 1: an area grows up to the end of the next one, which goes. *)
Lemma absorb_gap v v1 xs1 x y xs2 :
  vinv v (xs1 ++ x :: y :: xs2) -> v1 = set_vm_end v x (vm_end v y) ->
  (forall z, z ∈ xs1 ++ x :: y :: xs2 -> z <> y -> vma_compute_gap v z = vma_compute_gap v1 z) /\
  (forall v2 z, vlist v2 (xs1 ++ x :: xs2) -> vm_start v2 = vm_start v1 -> vm_end v2 = vm_end v1 ->
     z ∈ xs1 ++ x :: xs2 -> vma_compute_gap v1 z = vma_compute_gap v2 z).
Proof.
  intros Hv ->.
  destruct (vinv_split_facts _ _ _ _ Hv) as (Hx1 & Hx2 & _).
  set (v1 := set_vm_end v x (vm_end v y)).
  assert (He1 : forall n, is_word (vm_end v1 n)) by (intros; unfold v1; vsimp; apply is_word_insert; apply Hv).
  assert (Hw1 : forall n, is_word (vm_start v1 n)) by apply Hv.
  assert (Hl1 : vlist v1 (xs1 ++ x :: y :: xs2)) by apply (inv_list _ _ Hv).
  assert (Hend : vm_end v1 x = vm_end v y) by (unfold v1; vsimp; apply fn_lookup_insert).
  assert (Hendy : vm_end v1 y = vm_end v y) by (unfold v1; vsimp; apply fn_lookup_insert_ne; set_solver).
  split.
  - apply gaps_unchanged; try apply Hv; auto; [repeat split|]. intros a z b E Hne. split; [reflexivity|].
    apply app_eq_inv in E as [(k & -> & E2)|(k & -> & E2)]; [apply lend_set_end; set_solver|].
    destruct k as [|? k]; [rewrite app_nil_r; now apply lend_set_end|]. injection E2 as <- E2.
    destruct k as [|? k]; [cbn in E2; congruence|]. injection E2 as <- ->. rewrite !lend_app. cbn [lend]. fold v1. rewrite Hendy.
    apply lend_set_end. set_solver.
  - intros v2 z Hl2 Es Ee Hz. symmetry. rewrite elem_of_app, elem_of_cons in Hz.
    assert (El2 : forall lo b, lend v2 lo b = lend v1 lo b) by (intros; apply lend_ext; intros; now rewrite Ee).
    destruct Hz as [Hz|[->|Hz]].
    + apply list_elem_of_split in Hz as (a & b & ->).
      eapply (compute_gap_eq v1 v2 a a z (b ++ x :: y :: xs2) (b ++ x :: xs2)); rewrite ?Es, ?Ee; auto.
      * now rewrite <- app_assoc in Hl1.
      * now rewrite <- app_assoc in Hl2.
    + eapply (compute_gap_eq v1 v2 xs1 xs1 x (y :: xs2) xs2); rewrite ?Es, ?Ee; auto.
    + apply list_elem_of_split in Hz as (a & b & ->).
      eapply (compute_gap_eq v1 v2 (xs1 ++ x :: y :: a) (xs1 ++ x :: a) z b b); rewrite ?Es, ?Ee; auto.
      * now rewrite <- app_assoc.
      * now rewrite <- app_assoc.
      * rewrite El2, !lend_app. cbn [lend]. now rewrite Hend, Hendy.
Qed.

Lemma absorb_shape v v2 xs1 x y xs2 :
  vinv v (xs1 ++ x :: y :: xs2) -> vlist v2 (xs1 ++ x :: xs2) ->
  vm_start v2 = vm_start v -> vm_end v2 = <[x := vm_end v y]> (vm_end v) -> nr_vmas v2 = nr_vmas v - 1 ->
  highest_vm_end v2 = highest_vm_end v -> pool v2 = pool v ->
  vshape v2 (xs1 ++ x :: xs2) /\
  (forall z, mapped v2 (xs1 ++ x :: xs2) z <-> mapped v (xs1 ++ x :: y :: xs2) z \/ vm_end v x <= z < vm_start v y).
Proof.
  intros Hv Hl2 Es Ee Enr Eh Ep. destruct (vinv_split_facts _ _ _ _ Hv) as (Hx1 & Hx2 & Hs1 & Hlo & Hx & (Hy1 & Hy2 & Hs2) & _).
  assert (Hend : vm_end v2 x = vm_end v y) by (rewrite Ee; apply fn_lookup_insert).
  assert (Hoth : forall z, z ∈ xs1 ++ xs2 -> vm_start v2 z = vm_start v z /\ vm_end v2 z = vm_end v z).
  { intros z Hz. rewrite Es, Ee. split; [auto|]. apply fn_lookup_insert_ne. set_solver. }
  assert (El : forall lo b, (forall z, z ∈ b -> z ∈ xs1 ++ xs2) -> lend v2 lo b = lend v lo b) by (intros; apply lend_ext; intros; apply Hoth; auto).
  split.
  - split; auto.
    + apply sorted_app. split; [eapply sorted_ext; [|exact Hs1]; intros; apply Hoth; set_solver|]. rewrite El by set_solver. cbn [sorted].
      rewrite Hend, Es. split_and!; [lia..|]. eapply sorted_ext; [|exact Hs2]. intros; apply Hoth; set_solver.
    + rewrite Enr, (inv_nr _ _ Hv), !length_app. cbn. lia.
    + rewrite Eh, (inv_high _ _ Hv), !lend_app. cbn [lend]. rewrite Hend. symmetry. apply El. set_solver.
    + rewrite Es. apply Hv.
    + intros n. rewrite Ee. apply is_word_insert; apply Hv.
    + rewrite Ep. eapply pool_ok_mono; [|apply Hv]. set_solver.
  - intros z. rewrite !mapped_app, !mapped_cons. unfold covers at 1. rewrite Hend, Es.
    rewrite !(mapped_ext v v2) by (intros; apply Hoth; set_solver). unfold covers.
    assert (vm_start v x <= z < vm_end v y <-> vm_start v x <= z < vm_end v x \/ vm_start v y <= z < vm_end v y \/ vm_end v x <= z < vm_start v y) by lia.
    tauto.
Qed.

Lemma adjust_case1 v xs1 x y xs2 :
  vinv v (xs1 ++ x :: y :: xs2) -> vm_end v x < vm_start v y -> (length (xs1 ++ x :: y :: xs2) <= fuel)%nat ->
  exists v', __vma_adjust fuel v x (vm_start v x) (vm_end v y) NULL x = Some v' /\
    extended v v' (xs1 ++ x :: y :: xs2) (xs1 ++ x :: xs2) (vm_end v x) (vm_start v y).
Proof.
  intros Hv Hxy Hf. destruct (vinv_split_facts _ _ _ _ Hv) as (Hx1 & Hx2 & _ & _ & Hx & (_ & Hy & _) & _ & _ & Hnx). cbn [hd] in Hnx.
  assert (Hy0 : y <> 0) by (eapply lseg_nonnull; [apply (inv_list _ _ Hv)|set_solver]).
  set (v1 := set_vm_end v x (vm_end v y)).
  assert (Eq : xs1 ++ x :: y :: xs2 = (xs1 ++ [x]) ++ y :: xs2) by now rewrite <- app_assoc.
  assert (Eq' : (xs1 ++ [x]) ++ xs2 = xs1 ++ x :: xs2) by now rewrite <- app_assoc.
  assert (H2 : exists v2, __vma_unlink_common fuel v1 y = Some v2 /\ tree_ok (vma_compute_gap v1) (mm v2) (xs1 ++ x :: xs2) /\ vlist v2 (xs1 ++ x :: xs2) /\
    vm_start v2 = vm_start v1 /\ vm_end v2 = vm_end v1 /\ vm_flags v2 = vm_flags v1 /\
    nr_vmas v2 = nr_vmas v1 /\ highest_vm_end v2 = highest_vm_end v1 /\ pool v2 = pool v1).
  { rewrite <- Eq'. apply unlink_common_spec; rewrite <- ?Eq; auto; [|apply Hv..].
    eapply tree_ok_but; [apply Hv|set_solver|]. exact (proj1 (absorb_gap v v1 xs1 x y xs2 Hv eq_refl)). }
  destruct H2 as (v2 & E2 & Ht2 & Hl2 & A1 & A2 & A3 & A4 & A5 & A6).
  set (v3 := set_nr_vmas v2 (nr_vmas v2 - 1)).
  destruct (absorb_shape v v3 xs1 x y xs2) as (Hsh & Hmap); auto; [unfold v3; vsimp; now rewrite A4|].
  assert (Hgap : forall z, z ∈ xs1 ++ x :: xs2 -> vma_compute_gap v1 z = vma_compute_gap v3 z)
    by (intros z; apply (proj2 (absorb_gap v v1 xs1 x y xs2 Hv eq_refl)); auto).
  assert (Hlen : (length (xs1 ++ x :: xs2) <= length (xs1 ++ x :: y :: xs2))%nat) by (rewrite !length_app; cbn; lia).
  assert (Hnew : no_new [vm_end v x; vm_start v y] v (xs1 ++ x :: y :: xs2) v3 (xs1 ++ x :: xs2)).
  { intros Q R Hq _ z Hz. unfold v3. vsimp. rewrite A1, A2, A3. unfold v1. vsimp. assert (Hin : z ∈ xs1 ++ x :: y :: xs2) by set_solver.
    destruct (decide (z = x)) as [->|]; [rewrite fn_lookup_insert|rewrite fn_lookup_insert_ne by auto; apply Hq, Hin].
    destruct (Hq y) as (_ & Q2 & _); [set_solver|]. destruct (Hq x Hin) as (? & _ & ?). auto. }
  assert (E : __vma_adjust fuel v x (vm_start v x) (vm_end v y) NULL x =
    if negb (hd 0 xs2 =? NULL) then vma_gap_update fuel v3 (hd 0 xs2) else Some v3).
  { unfold __vma_adjust. rewrite Hnx, (proj2 (Z.eqb_neq y NULL) Hy0), (proj2 (Z.eqb_neq y x)) by set_solver.
    change (NULL =? NULL) with true. cbn [negb andb]. rewrite Z.leb_refl, Z.ltb_irrefl. cbv iota beta zeta.
    unfold adjust_pass. rewrite !Z.eqb_refl. vsimp. rewrite (proj2 (Z.eqb_neq (vm_end v y) (vm_end v x))) by lia.
    change (1 + 0) with 1. change (1 =? 0) with false. change (1 =? 3) with false. change (1 =? 2) with false. vsimp.
    fold v1. rewrite E2. cbn [mbind option_bind]. fold v3.
    destruct (vlist_at v2 xs1 x xs2 Hl2) as (_ & _ & ->). reflexivity. }
  rewrite E. destruct xs2 as [|w ws]; cbn [hd].
  - exists v3. split; [reflexivity|]. split_and!; auto. apply vinv_shape. split; [|auto]. eapply tree_ok_ext; eauto.
  - assert (Hw0 : w <> 0) by (eapply lseg_nonnull; [apply (inv_list _ _ Hv)|set_solver]). rewrite (proj2 (Z.eqb_neq w NULL) Hw0). cbn [negb].
    destruct (gap_update_restores v3 (xs1 ++ x :: w :: ws) w (vma_compute_gap v1)) as (v' & E' & Hv' & Ha); auto; [set_solver|lia|].
    exists v'. split; [auto|]. pose proof Ha as (B1 & B2 & _ & _ & B5 & _ & _ & B3). split_and!; auto.
    + rewrite B3. exact A6.
    + intros z. rewrite <- Hmap. apply mapped_ext. intros. now rewrite B1, B2.
    + intros Q R Hq Hc z Hz. rewrite B1, B2, B5. exact (Hnew Q R Hq Hc z Hz).
Qed.

(** The area after [prev]. *)
Lemma successor_of v xs1 xs2 :
  vlist v (xs1 ++ xs2) -> (if negb (List.last xs1 0 =? NULL) then vm_next v (List.last xs1 0) else mmap v) = hd 0 xs2.
Proof.
  intros Hl. destruct (last_case xs1 0) as [[-> E]|(ys & y & -> & E)]; rewrite E.
  - exact (vlist_mmap v xs2 Hl).
  - rewrite <- app_assoc in Hl. destruct (vlist_at v ys y xs2 Hl) as (Hy & _ & Hn). now rewrite (proj2 (Z.eqb_neq y NULL) Hy).
Qed.

Lemma hd_null v xs1 xs2 : vlist v (xs1 ++ xs2) -> (hd 0 xs2 =? NULL) = match xs2 with [] => true | _ => false end.
Proof. intros Hl. destruct xs2 as [|y ys]; [reflexivity|]. apply Z.eqb_neq. eapply lseg_nonnull; [exact Hl|set_solver]. Qed.

Lemma last_null v xs1 xs2 : vlist v (xs1 ++ xs2) -> (List.last xs1 0 =? NULL) = match xs1 with [] => true | _ => false end.
Proof.
  intros Hl. destruct (last_case xs1 0) as [[-> E]|(ys & y & -> & E)]; [reflexivity|]. rewrite E.
  assert (y <> 0) by (eapply lseg_nonnull; [exact Hl|set_solver]). rewrite (proj2 (Z.eqb_neq y NULL)) by auto.
  destruct ys; reflexivity.
Qed.

(** [vma_merge] for a range that is not mapped: [NULL] when neither neighbour
    is adjacent, else the neighbours grow to cover the range. *)
Lemma vma_merge_spec v xs1 xs2 a e flags :
  vinv v (xs1 ++ xs2) -> (xs1 <> [] -> lend v 0 xs1 <= a) -> (forall x, x ∈ xs2 -> e <= vm_start v x) -> 0 <= a < e -> is_word e ->
  (length (xs1 ++ xs2) <= fuel)%nat ->
  exists r v', vma_merge fuel v (List.last xs1 0) a e flags = Some (r, v') /\
    (r = 0 /\ v' = v \/ r <> 0 /\ exists xs', extended v v' (xs1 ++ xs2) xs' a e).
Proof.
  intros Hv Hlo Hhi Hae Hwe Hf. pose proof (inv_list _ _ Hv) as Hl. unfold vma_merge, can_vma_merge.
  rewrite (successor_of v xs1 xs2 Hl), (last_null v xs1 xs2 Hl).
  assert (Hne : (negb (hd 0 xs2 =? NULL) && (vm_end v (hd 0 xs2) =? e)) = false).
  { rewrite (hd_null v xs1 xs2 Hl). destruct xs2 as [|y ys]; [reflexivity|]. cbn [negb andb hd].
    pose proof (inv_sorted _ _ Hv) as Hs. apply sorted_app in Hs as (_ & _ & Hy & _). specialize (Hhi y ltac:(set_solver)). apply Z.eqb_neq. lia. }
  rewrite Hne. cbv zeta. rewrite (hd_null v xs1 xs2 Hl), !andb_true_r.
  assert (Hprev : forall ys x, xs1 = ys ++ [x] -> vm_end v x <= a) by (intros ys x ->; specialize (Hlo ltac:(intros ?%app_eq_nil; naive_solver)); now rewrite lend_app in Hlo).
  destruct (last_case xs1 0) as [[-> E]|(ys & x & E1 & E)]; rewrite E.
  - cbn [negb andb]. destruct xs2 as [|y ys]; cbn [negb andb hd]; [exists 0, v; auto|].
    destruct (Z.eqb_spec e (vm_start v y)) as [Ey|]; [|exists 0, v; auto].
    destruct (adjust_case3 v [] y ys a) as (v' & E' & H'); auto; [cbn; lia|]. rewrite E'. exists y, v'. split; [reflexivity|]. right.
    split; [eapply lseg_nonnull; [exact Hl|set_solver]|]. rewrite Ey. eauto.
  - assert (Hm : match xs1 with [] => true | _ => false end = false) by (subst xs1; destruct ys; reflexivity). rewrite Hm. clear Hm.
    specialize (Hprev ys x E1). subst xs1. rewrite <- app_assoc in Hl, Hv, Hf |- *. cbn [app] in *.
    assert (Hx0 : x <> 0) by (eapply lseg_nonnull; [exact Hl|set_solver]). cbn [negb andb].
    destruct (Z.eqb_spec (vm_end v x) a) as [Ex|Hxa].
    + assert (H2 : exists v', __vma_adjust fuel v x (vm_start v x) e NULL x = Some v' /\ extended v v' (ys ++ x :: xs2) (ys ++ x :: xs2) a e)
        by (rewrite <- Ex; apply adjust_case2; auto; lia).
      destruct xs2 as [|y zs]; cbn [negb andb hd].
      { destruct H2 as (v' & -> & H'). exists x, v'. eauto 6. }
      destruct (Z.eqb_spec e (vm_start v y)) as [Ey|].
      * destruct (adjust_case1 v ys x y zs) as (v' & E' & H'); auto; [lia|]. rewrite E'. exists x, v'. split; [reflexivity|]. right.
        rewrite <- Ex, Ey. eauto.
      * destruct H2 as (v' & -> & H'). exists x, v'. eauto 6.
    + destruct xs2 as [|y zs]; cbn [negb andb hd]; [exists 0, v; auto|].
      destruct (Z.eqb_spec e (vm_start v y)) as [Ey|]; [|exists 0, v; auto]. rewrite (proj2 (Z.ltb_ge a (vm_end v x))) by lia.
      destruct (adjust_case3 v (ys ++ [x]) y zs a) as (v' & E' & H'); rewrite <- ?app_assoc; auto; [rewrite lend_app; cbn; lia|].
      rewrite E'. exists y, v'. split; [reflexivity|]. right. split; [eapply lseg_nonnull; [exact Hl|set_solver]|].
      rewrite <- app_assoc in H'. rewrite Ey. eauto.
Qed.
End operations.
