(* ===== verification/VmaFree.v ===== *)
(** * Freeing and mapping ranges of a vRegion

    [detach_vmas_to_be_unmapped], [unmap_region], [__free_va] and
    [vma_tree_new]: the set of mapped addresses, with their flags, after each of
    them, and the ranges whose page-table entries are given back. *)

From stdpp Require Import functions.
From S2P Require Import Prelude RbTree RbTreeProofs RbErase RbSpec Vma VmaTree VmaOps.

#[local] Set Warnings "-clear-no-such-hyp".

(** ** Mapped addresses with their flags *)

Definition maps (v : vregion) (xs : list Z) (z f : Z) : Prop := exists x, x ∈ xs /\ covers v z x /\ vm_flags v x = f.

Lemma maps_app v xs1 xs2 z f : maps v (xs1 ++ xs2) z f <-> maps v xs1 z f \/ maps v xs2 z f.
Proof.
  unfold maps. split.
  - intros (x & Hx & Hc). apply elem_of_app in Hx as [Hx|Hx]; eauto.
  - intros [(x & Hx & Hc)|(x & Hx & Hc)]; exists x; (split; [set_solver|auto]).
Qed.

Lemma maps_cons v x xs z f : maps v (x :: xs) z f <-> covers v z x /\ vm_flags v x = f \/ maps v xs z f.
Proof.
  unfold maps. split.
  - intros (y & Hy & Hc). apply elem_of_cons in Hy as [->|Hy]; eauto.
  - intros [Hc|(y & Hy & Hc)]; [exists x|exists y]; (split; [set_solver|auto]).
Qed.

Lemma maps_mapped v xs z f : maps v xs z f -> mapped v xs z.
Proof. intros (x & Hx & Hc & _). now exists x. Qed.

Lemma mapped_maps v xs z : mapped v xs z <-> exists f, maps v xs z f.
Proof. split; [intros (x & Hx & Hc); now exists (vm_flags v x), x|intros (f & H); eapply maps_mapped; eauto]. Qed.

Definition same_ranges (v v' : vregion) (xs : list Z) : Prop :=
  forall x, x ∈ xs -> vm_start v' x = vm_start v x /\ vm_end v' x = vm_end v x /\ vm_flags v' x = vm_flags v x.

Lemma maps_ext v v' xs z f : same_ranges v v' xs -> maps v' xs z f <-> maps v xs z f.
Proof.
  intros H. unfold maps, covers. split; intros (x & Hx & Hc & Hf); exists x; destruct (H x Hx) as (E1 & E2 & E3);
    rewrite ?E1, ?E2, ?E3 in *; auto.
Qed.

(** ** Detaching areas *)

Lemma sorted_drop_list v lo xs1 mid xs2 : sorted v lo (xs1 ++ mid ++ xs2) -> sorted v lo (xs1 ++ xs2).
Proof.
  intros H. rewrite !sorted_app in *. destruct H as (H1 & H2 & H3). split; [auto|].
  eapply sorted_mono; [|exact H3]. now apply sorted_lend.
Qed.

Section operations.
Context (fuel : nat).

Lemma detach_loop_spec fuel' v pv prev xs1 x mid xs2 e :
  tree_but x (vma_compute_gap v) (mm v) (xs1 ++ x :: mid ++ xs2) -> lseg (vm_next v) pv prev x (x :: mid ++ xs2) 0 ->
  (forall n, is_word (vm_start v n)) -> (forall y, y ∈ mid -> vm_start v y < e) -> (forall y, y ∈ xs2 -> e <= vm_start v y) ->
  (length (xs1 ++ x :: mid ++ xs2) <= fuel)%nat -> (length mid < fuel')%nat ->
  exists m', detach_loop fuel fuel' v x e =
      Some (hd 0 xs2, List.last mid x, set_nr_vmas (set_mm v m') (nr_vmas v - Z.of_nat (S (length mid)))) /\
    tree_ok (vma_compute_gap v) m' (xs1 ++ xs2).
Proof.
  revert v pv prev x mid. induction fuel' as [|fuel' IH]; intros v pv prev x mid Ht Hl Hw Hmid Hxs2 Hf Hf'; [lia|].
  cbn [detach_loop]. unfold vma_rb_erase.
  destruct (tree_erase (vma_compute_gap v)) with (fuel := fuel) (m := mm v) (xs1 := xs1) (x := x) (xs2 := mid ++ xs2) as (m' & -> & Ht' & _); auto.
  { intros n. now apply compute_gap_nonneg. }
  cbn [mbind option_bind]. vsimp. destruct Hl as (_ & Hx0 & _ & Hl). pose proof (lseg_head _ _ _ _ _ _ Hl) as Hnx. rewrite Hnx in Hl |- *.
  destruct mid as [|y mid].
  - cbn [app] in *. assert (E : negb (hd 0 xs2 =? NULL) && (vm_start v (hd 0 xs2) <? e) = false).
    { destruct xs2 as [|y ys]; [reflexivity|]. cbn [hd]. rewrite (proj2 (Z.ltb_ge (vm_start v y) e)) by (apply Hxs2; set_solver). apply andb_false_r. }
    rewrite E. exists m'. split; [reflexivity|auto].
  - cbn [app hd] in *. pose proof Hl as (_ & Hy0 & _). rewrite (proj2 (Z.eqb_neq y NULL) Hy0), (proj2 (Z.ltb_lt (vm_start v y) e)) by (apply Hmid; set_solver).
    cbn [negb andb].
    destruct (IH (set_nr_vmas (set_mm v m') (nr_vmas v - 1)) pv x y mid) as (m2 & E2 & Ht2); auto.
    + eapply tree_ok_but; [exact Ht'|set_solver|reflexivity].
    + intros z Hz. apply Hmid. set_solver.
    + rewrite length_app in *. cbn in *. lia.
    + cbn in Hf'. lia.
    + exists m2. rewrite E2, last_cons'. split; [|exact Ht2]. unfold set_nr_vmas, set_mm. vsimp. do 3 f_equal. cbn [length]. lia.
Qed.

(** Outside the joined areas [relink] leaves the list alone. *)
Lemma relink_other v xs1 xs2 z : z ∉ xs1 -> z ∉ xs2 -> z <> 0 ->
  vm_next (relink v (List.last xs1 0) (hd 0 xs2)) z = vm_next v z /\ vm_prev (relink v (List.last xs1 0) (hd 0 xs2)) z = vm_prev v z.
Proof.
  intros H1 H2 H0. assert (List.last xs1 0 <> z).
  { destruct (last_case xs1 0) as [[-> E]|(ys & y & -> & E)]; rewrite E; [auto|set_solver]. }
  assert (hd 0 xs2 <> z) by (destruct xs2; cbn; [auto|set_solver]).
  unfold relink. split; destruct (negb (hd 0 xs2 =? NULL)), (negb (List.last xs1 0 =? NULL)); vsimp; rewrite ?fn_lookup_insert_ne by auto; auto.
Qed.

(** The detached areas stay chained to each other. *)
Lemma detached_chain v v' xs1 x mid xs2 prev :
  lseg (vm_next v) (vm_prev v) prev x (x :: mid) (hd 0 xs2) -> NoDup (xs1 ++ x :: mid ++ xs2) ->
  vm_next v' = <[List.last mid x := 0]> (vm_next (relink (set_vm_prev v x 0) (List.last xs1 0) (hd 0 xs2))) ->
  vm_prev v' = vm_prev (relink (set_vm_prev v x 0) (List.last xs1 0) (hd 0 xs2)) ->
  lseg (vm_next v') (vm_prev v') 0 x (x :: mid) 0.
Proof.
  intros Hl Hnd E1 E2.
  assert (Hd : forall z, z ∈ x :: mid -> (z ∉ xs1) /\ z ∉ xs2).
  { intros z Hz. apply NoDup_app in Hnd as (_ & N2 & N3). change (x :: mid ++ xs2) with ((x :: mid) ++ xs2) in N2, N3.
    apply NoDup_app in N3 as (_ & N3 & _). split; [intros Hz1; apply (N2 z Hz1); set_solver|now apply N3]. }
  assert (Hnn : forall z, z ∈ x :: mid -> z <> 0) by (intros z; eapply lseg_nonnull; exact Hl).
  assert (Hm : NoDup (x :: mid)).
  { apply NoDup_app in Hnd as (_ & _ & N). change (x :: mid ++ xs2) with ((x :: mid) ++ xs2) in N. now apply NoDup_app in N as (N & _ & _). }
  assert (Hr : forall z, z ∈ x :: mid -> vm_next (relink (set_vm_prev v x 0) (List.last xs1 0) (hd 0 xs2)) z = vm_next v z /\
     vm_prev v' z = <[x := 0]> (vm_prev v) z).
  { intros z Hz. rewrite E2. destruct (Hd z Hz) as [? ?]. destruct (relink_other (set_vm_prev v x 0) xs1 xs2 z) as [-> ->]; auto. }
  assert (Hl0 : lseg (vm_next v) (<[x := 0]> (vm_prev v)) 0 x (x :: mid) (hd 0 xs2)).
  { destruct Hl as (_ & Hx & _ & Hl). split_and!; auto; [apply fn_lookup_insert|]. eapply lseg_ext; [|exact Hl].
    intros z Hz. apply NoDup_cons in Hm as [Hm _]. split; [auto|]. apply fn_lookup_insert_ne. congruence. }
  rewrite <- (last_cons' x 0) in E1. destruct (last_case (x :: mid) 0) as [[E _]|(ys & y & E & Ey)]; [discriminate|].
  rewrite Ey in E1. rewrite E in *. eapply lseg_redirect; [exact Hl0|auto|..].
  - intros z Hz. rewrite E1, fn_lookup_insert_ne; [apply Hr; set_solver|]. intros ->. apply NoDup_app in Hm as (_ & Hm & _). apply (Hm z Hz). set_solver.
  - rewrite E1. apply fn_lookup_insert.
  - intros z Hz. now apply Hr.
Qed.

(** The state after the areas have been taken out of list and tree, before
    the gap of the following area is updated. *)
Lemma detach_relinked v xs1 x mid xs2 m' :
  vinv v (xs1 ++ x :: mid ++ xs2) -> tree_ok (vma_compute_gap (set_vm_prev v x 0)) m' (xs1 ++ xs2) ->
  let v2 := set_nr_vmas (set_mm (set_vm_prev v x 0) m') (nr_vmas v - Z.of_nat (S (length mid))) in
  let v3 := relink v2 (List.last xs1 0) (hd 0 xs2) in
  vshape (set_highest_vm_end v3 (lend v 0 (xs1 ++ xs2))) (xs1 ++ xs2) /\ same_data v2 v3 /\
  (forall z, z ∈ xs1 ++ xs2 -> z <> hd 0 xs2 -> vma_compute_gap (set_vm_prev v x 0) z = vma_compute_gap v3 z).
Proof.
  intros Hv Ht. cbv zeta. set (v2 := set_nr_vmas _ _). set (v3 := relink _ _ _).
  pose proof (vinv_NoDup _ _ Hv) as Hnd. pose proof (inv_list _ _ Hv) as Hl. unfold vlist in Hl.
  apply lseg_app in Hl as (r & H1 & H2). change (x :: mid ++ xs2) with ((x :: mid) ++ xs2) in H2. apply lseg_app in H2 as (r2 & H2 & H3).
  pose proof (lseg_head _ _ _ _ _ _ H3) as ->.
  assert (Hnd' : NoDup (xs1 ++ xs2) /\ x ∉ xs1 ++ xs2).
  { apply NoDup_app in Hnd as (N1 & N2 & N3). apply NoDup_cons in N3 as [N3 N4]. apply NoDup_app in N4 as (_ & _ & N4). split.
    - apply NoDup_app. split_and!; auto. intros z Hz1 Hz2. apply (N2 z Hz1). set_solver.
    - intros Hx. apply elem_of_app in Hx as [Hx|Hx]; [apply (N2 x Hx)|]; set_solver. }
  destruct Hnd' as [Hnd' Hx].
  assert (Hpv : forall z, z ∈ xs1 ++ xs2 -> vm_prev v2 z = vm_prev v z) by (intros z Hz; unfold v2; vsimp; apply fn_lookup_insert_ne; set_solver).
  destruct (relink_spec v2 xs1 xs2 r (List.last (x :: mid) (List.last xs1 0))) as (Hl3 & Hsd); auto.
  { eapply lseg_ext; [|exact H1]. intros z Hz. split; [auto|]. apply Hpv. set_solver. }
  { eapply lseg_ext; [|exact H3]. intros z Hz. split; [auto|]. apply Hpv. set_solver. }
  fold v3 in Hl3, Hsd. pose proof Hsd as (E1 & E2 & E3 & E4 & E5 & E6 & E7).
  split_and!; auto.
  - split; vsimp; auto.
    + apply (sorted_ext v); [|apply (sorted_drop_list v 0 xs1 (x :: mid) xs2), Hv]. intros z _. vsimp. now rewrite E2, E3.
    + rewrite E5. unfold v2. vsimp. rewrite (inv_nr _ _ Hv). rewrite !length_app. cbn [length]. rewrite length_app. lia.
    + symmetry. apply lend_ext. intros z _. vsimp. now rewrite E3.
    + rewrite E2. apply Hv.
    + rewrite E3. apply Hv.
    + rewrite E7. eapply pool_ok_mono; [|apply (inv_pool _ _ Hv)]. set_solver.
  - intros z Hz Hne. unfold vma_compute_gap. rewrite E2, E3. unfold v2. vsimp.
    assert (E : vm_prev v3 z = vm_prev v2 z); [|rewrite E; unfold v2; vsimp; reflexivity].
    unfold v3, relink. destruct (negb (hd 0 xs2 =? NULL)); vsimp; [rewrite fn_lookup_insert_ne by auto|]; destruct (negb _); reflexivity.
Qed.

(** The end of [detach_vmas_to_be_unmapped]. *)
Lemma detach_finish v2 xs1 xs2 c0 :
  let v3 := relink v2 (List.last xs1 0) (hd 0 xs2) in
  vshape (set_highest_vm_end v3 (lend v2 0 (xs1 ++ xs2))) (xs1 ++ xs2) -> same_data v2 v3 -> tree_ok c0 (mm v2) (xs1 ++ xs2) ->
  (forall z, z ∈ xs1 ++ xs2 -> z <> hd 0 xs2 -> c0 z = vma_compute_gap v3 z) ->
  (xs2 <> [] -> highest_vm_end v2 = lend v2 0 (xs1 ++ xs2)) -> (length (xs1 ++ xs2) <= fuel)%nat ->
  exists v4, (let w := if negb (List.last xs1 0 =? NULL) then set_vm_next v2 (List.last xs1 0) (hd 0 xs2) else set_mmap v2 (hd 0 xs2) in
      if negb (hd 0 xs2 =? NULL) then vma_gap_update fuel (set_vm_prev w (hd 0 xs2) (List.last xs1 0)) (hd 0 xs2)
      else Some (set_highest_vm_end w (if negb (List.last xs1 0 =? NULL) then vm_end w (List.last xs1 0) else 0))) = Some v4 /\
    vinv v4 (xs1 ++ xs2) /\ vm_start v4 = vm_start v2 /\ vm_end v4 = vm_end v2 /\ vm_flags v4 = vm_flags v2 /\ pool v4 = pool v2 /\
    vm_next v4 = vm_next v3 /\ vm_prev v4 = vm_prev v3.
Proof.
  intros v3 Hsh Hsd Ht Hgap Hhigh Hf. pose proof Hsd as (E1 & E2 & E3 & E4 & E5 & E6 & E7).
  set (w := if negb (List.last xs1 0 =? NULL) then _ else _). pose proof (hd_null _ _ _ (sh_list _ _ Hsh)) as Hhd. cbv zeta.
  destruct xs2 as [|y ys].
  - rewrite Hhd. cbn [negb]. assert (Ew : v3 = w) by reflexivity.
    assert (El : (if negb (List.last xs1 0 =? NULL) then vm_end w (List.last xs1 0) else 0) = lend v2 0 (xs1 ++ [])).
    { rewrite app_nil_r, (last_null _ _ _ (sh_list _ _ Hsh)), <- Ew, E3. destruct xs1 as [|z zs]; [reflexivity|].
      cbn [negb]. symmetry. now apply lend_last. }
    rewrite El, <- Ew. eexists. split; [reflexivity|]. vsimp. split_and!; auto. apply vinv_shape. split; [|exact Hsh]. vsimp. rewrite E1.
    eapply tree_ok_ext; [exact Ht|]. intros z Hz. apply Hgap; [auto|]. intros ->. eapply lseg_nonnull; [apply (sh_list _ _ Hsh)|exact Hz|reflexivity].
  - rewrite Hhd. cbn [negb]. assert (Ew : v3 = set_vm_prev w (hd 0 (y :: ys)) (List.last xs1 0)) by (unfold v3, relink; rewrite Hhd; reflexivity).
    rewrite <- Ew. destruct (gap_update_restores fuel v3 (xs1 ++ y :: ys) y c0) as (v4 & E & Hv4 & Ha); auto.
    + eapply (vshape_same (set_highest_vm_end v3 (lend v2 0 (xs1 ++ y :: ys)))); [repeat split| |exact Hsh]. vsimp. rewrite E6. now apply Hhigh.
    + now rewrite E1.
    + set_solver.
    + cbn [hd]. exists v4. destruct Ha as (A1&A2&A3&A4&A5&A6&A7&A8). rewrite A1, A2, A3, A4, A5, A8. split_and!; auto.
Qed.

Lemma detach_spec v xs1 x mid xs2 e :
  vinv v (xs1 ++ x :: mid ++ xs2) -> (forall y, y ∈ mid -> vm_start v y < e) -> (forall y, y ∈ xs2 -> e <= vm_start v y) ->
  (length (xs1 ++ x :: mid ++ xs2) <= fuel)%nat ->
  exists v', detach_vmas_to_be_unmapped fuel v x (List.last xs1 0) e = Some v' /\ vinv v' (xs1 ++ xs2) /\
    vm_start v' = vm_start v /\ vm_end v' = vm_end v /\ vm_flags v' = vm_flags v /\ pool v' = pool v /\
    lseg (vm_next v') (vm_prev v') 0 x (x :: mid) 0.
Proof.
  intros Hv Hmid Hxs2 Hf. destruct (vinv_split_facts _ _ _ _ Hv) as (Hx1 & Hx2 & _ & _ & _ & _ & Hx0 & _).
  pose proof (inv_list _ _ Hv) as Hl. unfold vlist in Hl. apply lseg_app in Hl as (r & H1 & H2).
  assert (Hlx : lseg (vm_next v) (vm_prev v) (List.last xs1 0) x (x :: mid ++ xs2) 0) by (destruct H2 as (-> & H2); split; auto).
  unfold detach_vmas_to_be_unmapped. rewrite (proj2 (Z.eqb_neq x NULL) Hx0). cbv zeta.
  destruct (detach_loop_spec fuel (set_vm_prev v x 0) (vm_prev v) (List.last xs1 0) xs1 x mid xs2 e) as (m' & E & Ht'); auto.
  { eapply tree_ok_but; [apply Hv|set_solver|]. intros y Hy Hne. unfold vma_compute_gap. vsimp. now rewrite fn_lookup_insert_ne by auto. }
  { apply Hv. }
  { rewrite !length_app in Hf. cbn in Hf. rewrite length_app in Hf. lia. }
  change (set_vm_prev v x NULL) with (set_vm_prev v x 0). rewrite E. cbn [mbind option_bind]. clear E.
  destruct (detach_relinked v xs1 x mid xs2 m' Hv Ht') as (Hsh & Hsd & Hgap). cbv zeta in Hsh, Hsd, Hgap.
  set (v2 := set_nr_vmas _ _) in *. set (v3 := relink v2 _ _) in *. pose proof Hsd as (E1 & E2 & E3 & E4 & E5 & E6 & E7).
  assert (Hhigh : xs2 <> [] -> highest_vm_end v2 = lend v2 0 (xs1 ++ xs2)).
  { intros Hne. unfold v2. vsimp. rewrite (inv_high _ _ Hv). destruct xs2 as [|y ys]; [done|]. rewrite !lend_app. cbn [lend]. rewrite lend_app.
    cbn [lend]. symmetry. now apply lend_ext. }
  assert (El : lend v 0 (xs1 ++ xs2) = lend v2 0 (xs1 ++ xs2)) by now apply lend_ext. rewrite El in Hsh.
  destruct (detach_finish v2 xs1 xs2 (vma_compute_gap (set_vm_prev v x 0))) as (v4 & E4' & Hv4 & F1 & F2 & F3 & F4 & F5 & F6); auto.
  { rewrite !length_app in *. cbn in Hf. rewrite length_app in Hf. lia. }
  cbv zeta in E4'. rewrite E4'. eexists. split; [reflexivity|]. vsimp. split_and!; auto.
  - assert (Htl : List.last mid x ∉ xs1 ++ xs2).
    { pose proof (vinv_NoDup _ _ Hv) as Hnd. apply NoDup_app in Hnd as (_ & N2 & N3). change (x :: mid ++ xs2) with ((x :: mid) ++ xs2) in N2, N3.
      apply NoDup_app in N3 as (_ & N3 & _). assert (Hin : List.last mid x ∈ x :: mid).
      { destruct (last_case mid x) as [[-> E]|(zs & z & -> & E)]; rewrite E; set_solver. }
      intros Hz. apply elem_of_app in Hz as [Hz|Hz]; [apply (N2 _ Hz)|apply (N3 _ Hin Hz)]. set_solver. }
    eapply vinv_frame; [exact Hv4|..]; vsimp; try reflexivity; try apply Hv4.
    intros z Hz. rewrite fn_lookup_insert_ne by congruence. auto 7.
  - apply (detached_chain v (set_vm_next v4 (List.last mid x) NULL) xs1 x mid xs2 (List.last xs1 0)).
    + change (x :: mid ++ xs2) with ((x :: mid) ++ xs2) in Hlx. apply lseg_app in Hlx as (q & Hq & Hq'). now rewrite <- (lseg_head _ _ _ _ _ _ Hq').
    + eapply vinv_NoDup, Hv.
    + vsimp. rewrite F5. f_equal. unfold v3, relink. destruct (negb (hd 0 xs2 =? NULL)), (negb (List.last xs1 0 =? NULL)); reflexivity.
    + vsimp. rewrite F6. unfold v3, relink. destruct (negb (hd 0 xs2 =? NULL)), (negb (List.last xs1 0 =? NULL)); reflexivity.
Qed.

(** ** Unmapping *)

(** The ranges given back to the page table: those of the areas that are not
    marked as conflicts. *)
Definition pte_ranges (v : vregion) (xs : list Z) : list (Z * Z) :=
  flat_map (fun x => if vm_flags v x =? LEGOMEM_VM_FLAGS_CONFLICT then [] else [(vm_start v x, vm_end v x)]) xs.

Definition in_ranges (rs : list (Z * Z)) (z : Z) : Prop := exists r, r ∈ rs /\ fst r <= z < snd r.

Lemma in_pte_ranges v xs z :
  in_ranges (pte_ranges v xs) z <-> exists f, maps v xs z f /\ f <> LEGOMEM_VM_FLAGS_CONFLICT.
Proof.
  unfold in_ranges, pte_ranges. split.
  - intros (r & Hr & Hz). apply list_elem_of_In, in_flat_map in Hr as (x & Hx & Hr). apply list_elem_of_In in Hx.
    destruct (Z.eqb_spec (vm_flags v x) LEGOMEM_VM_FLAGS_CONFLICT) as [|Hne]; [destruct Hr|]. destruct Hr as [<-|[]].
    exists (vm_flags v x). split; [|auto]. exists x. auto.
  - intros (f & (x & Hx & Hc & <-) & Hf). exists (vm_start v x, vm_end v x). split; [|exact Hc].
    apply list_elem_of_In, in_flat_map. exists x. split; [now apply list_elem_of_In|]. rewrite (proj2 (Z.eqb_neq _ _) Hf). now left.
Qed.

Lemma pte_ranges_ext v v' xs : same_ranges v v' xs -> pte_ranges v' xs = pte_ranges v xs.
Proof.
  unfold pte_ranges. induction xs as [|x xs IH]; intros H; [reflexivity|]. cbn. destruct (H x) as (-> & -> & ->); [set_solver|].
  rewrite IH; [auto|]. intros y Hy. apply H. set_solver.
Qed.

Lemma unmap_region_spec fuel' v pv prev xs start e :
  lseg (vm_next v) pv prev (hd 0 xs) xs 0 ->
  (forall y, y ∈ xs -> start <= vm_start v y /\ vm_start v y < vm_end v y /\ vm_end v y <= e) -> (length xs < fuel')%nat ->
  unmap_region_loop fuel' v (hd 0 xs) start e = Some (pte_ranges v xs).
Proof.
  revert prev xs. induction fuel' as [|fuel' IH]; intros prev xs Hl H Hf; [lia|]. cbn [unmap_region_loop].
  destruct xs as [|x xs]; [reflexivity|]. cbn [hd]. destruct Hl as (_ & Hx0 & _ & Hl). destruct (H x ltac:(set_solver)) as (H1 & H2 & H3).
  rewrite (proj2 (Z.eqb_neq x NULL) Hx0), (proj2 (Z.ltb_lt (vm_start v x) e)) by lia. cbn [negb andb].
  rewrite (lseg_head _ _ _ _ _ _ Hl) in Hl |- *. rewrite (IH x xs Hl); [|intros; apply H; set_solver|cbn in Hf; lia].
  cbn [mbind option_bind pte_ranges flat_map]. do 2 f_equal. unfold unmap_single_vma.
  destruct (Z.ltb_spec start (vm_start v x)); [|assert (start = vm_start v x) as -> by lia];
    rewrite (proj2 (Z.leb_gt (vm_end v x) (vm_start v x))) by lia;
    (destruct (Z.ltb_spec (vm_end v x) e); [|assert (e = vm_end v x) as -> by lia];
     rewrite (proj2 (Z.leb_gt (vm_end v x) (vm_start v x))) by lia;
     rewrite (proj2 (Z.eqb_neq (vm_start v x) (vm_end v x))) by lia; cbn [negb andb]; now destruct (_ =? _)).
Qed.

(** ** [__free_va] *)

(** The same addresses are mapped, with the same flags. *)
Definition same_maps (cuts : list Z) (v : vregion) (xs : list Z) (v' : vregion) (xs' : list Z) : Prop :=
  vinv v' xs' /\ (forall z f, maps v' xs' z f <-> maps v xs z f) /\ no_new cuts v xs v' xs'.

Lemma same_maps_trans cuts v xs v1 xs1 v2 xs2 : same_maps cuts v xs v1 xs1 -> same_maps cuts v1 xs1 v2 xs2 -> same_maps cuts v xs v2 xs2.
Proof. intros (_ & H1 & N1) (H2 & H3 & N2). split_and!; [auto|intros z f; now rewrite H3, H1|]. intros Q R Ha Hc. apply N2; auto. Qed.

(** A split, in terms of what is mapped. *)
Lemma split_maps cuts v xs1 x xs2 a new_below :
  a ∈ cuts -> vinv v (xs1 ++ x :: xs2) -> vm_start v x < a < vm_end v x -> (length (xs1 ++ x :: xs2) < fuel)%nat ->
  exists err v', split_vma fuel v x a new_below = Some (err, v') /\ pool v' = tl (pool v) /\
    (err = - ENOMEM /\ hd 0 (pool v) = 0 /\ same_maps cuts v (xs1 ++ x :: xs2) v' (xs1 ++ x :: xs2) \/
     err = 0 /\ exists n, same_maps cuts v (xs1 ++ x :: xs2) v' (split_seq new_below xs1 x n xs2) /\
       vm_start v' x = (if new_below then a else vm_start v x) /\ vm_end v' x = (if new_below then vm_end v x else a) /\
       vm_start v' n = (if new_below then vm_start v x else a) /\ vm_end v' n = (if new_below then a else vm_end v x) /\
       same_ranges v v' (xs1 ++ xs2)).
Proof.
  intros Hcut Hv Ha Hf. destruct (split_vma_spec fuel v xs1 x xs2 a new_below Hv Ha Hf) as (err & v' & E & Ep & H). exists err, v'. split_and!; auto.
  destruct H as [(-> & Hp & -> & Hv')|(-> & n & _ & Hn & Hv' & A1 & A2 & A3 & A4 & A5 & A6 & A7)]; [left; split_and!; auto; split_and!; try reflexivity; auto; now apply no_new_same|].
  right. split; [auto|]. exists n. split_and!; auto. split_and!; [auto| |].
  2:{ intros Q R Hq Hc y Hy. rewrite Forall_forall in Hc. specialize (Hc a Hcut). destruct (Hq x) as (Q1 & Q2 & Q3); [set_solver|].
    assert (Hy' : y = n \/ y = x \/ y ∈ xs1 ++ xs2) by (unfold split_seq in Hy; destruct new_below; set_solver).
    destruct Hy' as [->|[->|Hy']]; [rewrite A3, A4, ?A5, ?A6|rewrite A1, A2, ?A5, ?A6|destruct (A7 y Hy') as (-> & -> & ->); apply Hq; set_solver];
      destruct new_below; auto. }
  intros z f.
  assert (Hr : forall ys, (forall y, y ∈ ys -> y ∈ xs1 ++ xs2) -> maps v' ys z f <-> maps v ys z f) by (intros ys Hys; apply maps_ext; intros y Hy; apply A7; auto).
  unfold split_seq. destruct new_below; rewrite !maps_app, !maps_cons; unfold covers; rewrite A1, A2, A3, A4, A5, A6;
    rewrite (Hr xs1), (Hr xs2) by set_solver;
    (assert (vm_start v x <= z < vm_end v x <-> vm_start v x <= z < a \/ a <= z < vm_end v x) by lia); tauto.
Qed.

Lemma same_maps_refl cuts v xs : vinv v xs -> same_maps cuts v xs v xs.
Proof. intros Hv. split_and!; [auto|reflexivity|now apply no_new_same]. Qed.

(** The range starts inside the first area it meets: that area is split. *)
Lemma free_split_first v xs1 x xs2 start e :
  vinv v (xs1 ++ x :: xs2) -> lend v 0 xs1 <= start -> start < vm_end v x -> vm_start v x < e -> start < e ->
  (length (xs1 ++ x :: xs2) < fuel)%nat ->
  exists err prev v1,
    (if vm_start v x <? start then '(error, v) ← split_vma fuel v x start false; Some (error, x, v)
     else Some (0, vm_prev v x, v)) = Some (err, prev, v1) /\
    (err = - ENOMEM /\ hd 0 (pool v) = 0 /\ same_maps [start; e] v (xs1 ++ x :: xs2) v1 (xs1 ++ x :: xs2) \/
     err = 0 /\ (pool v1 = pool v \/ pool v1 = tl (pool v)) /\ exists A B, prev = List.last A 0 /\ same_maps [start; e] v (xs1 ++ x :: xs2) v1 (A ++ B) /\
       (length (A ++ B) <= S (length (xs1 ++ x :: xs2)))%nat /\ lend v1 0 A <= start /\
       B <> [] /\ vm_start v1 (hd 0 B) < e /\ forall y, y ∈ B -> start <= vm_start v1 y).
Proof.
  intros Hv Hlo Hx He Hse Hf. destruct (vinv_split_facts _ _ _ _ Hv) as (Hx1 & Hx2 & Hs1 & Hlx & Hxx & Hs2 & Hx0 & Hp & Hnx).
  destruct (Z.ltb_spec (vm_start v x) start) as [Hlt|Hge].
  - destruct (split_maps [start; e] v xs1 x xs2 start false) as (err & v1 & E & Ep & H); auto; [set_solver|]. rewrite E. exists err, x, v1. split; [reflexivity|].
    destruct H as [(-> & H)|(-> & n & Hm & A1 & A2 & A3 & A4 & A5)]; [left; auto|]. right. split; [auto|]. split; [auto|].
    exists (xs1 ++ [x]), (n :: xs2). unfold split_seq in Hm. rewrite last_snoc', <- app_assoc. cbn [app hd].
    split_and!; auto; [rewrite !length_app; cbn; lia|rewrite lend_app; cbn; lia|lia|].
    intros y Hy. apply elem_of_cons in Hy as [->|Hy]; [lia|]. destruct (A5 y ltac:(set_solver)) as (-> & _). pose proof (sorted_elem _ _ _ _ Hs2 Hy). lia.
  - exists 0, (vm_prev v x), v. split; [reflexivity|]. right. split; [auto|]. split; [auto|]. exists xs1, (x :: xs2).
    split_and!; auto using same_maps_refl. intros y Hy. apply elem_of_cons in Hy as [->|Hy]; [lia|]. pose proof (sorted_elem _ _ _ _ Hs2 Hy). lia.
Qed.

(** The areas up to the one that [find_vma] returns for the end of the range. *)
Lemma free_middle v A B start e :
  vinv v (A ++ B) -> lend v 0 A <= start -> start < e -> (length (A ++ B) < fuel)%nat ->
  exists mid D, B = mid ++ D /\ find_vma fuel v e = Some (hd 0 D) /\
    (forall y, y ∈ mid -> vm_end v y <= e) /\ match D with [] => True | l :: _ => e < vm_end v l end.
Proof.
  intros Hv HA Hse Hf. rewrite (find_vma_spec fuel v (A ++ B)) by auto. pose proof (inv_sorted _ _ Hv) as Hs.
  destruct (first_after_split v e 0 (A ++ B) Hs) as (C & D & E & -> & HC & HD).
  assert (Hmid : exists mid, C = A ++ mid /\ B = mid ++ D).
  { apply app_eq_inv in E as [(k & -> & ->)|(k & -> & ->)]; [|eauto]. destruct k as [|l k]; [exists []; now rewrite !app_nil_r|]. exfalso.
    rewrite lend_app in HA. rewrite !sorted_app in Hs. destruct Hs as [[_ (_ & _ & Hs)] _]. apply sorted_lend in Hs. cbn in HA, HD. lia. }
  destruct Hmid as (mid & -> & ->). exists mid, D. split_and!; auto. intros y Hy.
  specialize (HC ltac:(intros [_ ->]%app_eq_nil; set_solver)). rewrite lend_app in HC.
  rewrite !sorted_app in Hs. destruct Hs as (_ & Hs & _). pose proof (sorted_elem _ _ _ _ Hs Hy). lia.
Qed.

(** The range ends inside the last area it meets: that area is split. *)
Lemma free_split_last v A B start e :
  vinv v (A ++ B) -> lend v 0 A <= start -> start < e -> B <> [] -> vm_start v (hd 0 B) < e ->
  (forall y, y ∈ B -> start <= vm_start v y) -> (length (A ++ B) < fuel)%nat ->
  exists err v2,
    (last ← find_vma fuel v e;
     if negb (last =? NULL) && (vm_start v last <? e) then split_vma fuel v last e true else Some (0, v)) = Some (err, v2) /\
    (err = - ENOMEM /\ hd 0 (pool v) = 0 /\ same_maps [start; e] v (A ++ B) v2 (A ++ B) \/
     err = 0 /\ exists mid D, mid <> [] /\ lend v2 0 A <= start /\ same_maps [start; e] v (A ++ B) v2 (A ++ mid ++ D) /\ (length (A ++ mid ++ D) <= S (length (A ++ B)))%nat /\
       (forall y, y ∈ mid -> start <= vm_start v2 y /\ vm_end v2 y <= e) /\ (forall y, y ∈ D -> e <= vm_start v2 y)).
Proof.
  intros Hv HA Hse HB Hhd Hst Hf. destruct (free_middle v A B start e) as (mid & D & -> & -> & Hmid & HD); auto. cbn [mbind option_bind].
  pose proof (inv_list _ _ Hv) as Hl. rewrite app_assoc in Hl. rewrite (hd_null v _ _ Hl).
  destruct D as [|l D]; cbn [negb andb hd].
  - exists 0, v. split; [reflexivity|]. right. split; [auto|]. exists mid, []. rewrite app_nil_r in *. split_and!; auto using same_maps_refl; set_solver.
  - destruct (Z.ltb_spec (vm_start v l) e) as [Hlt|Hge].
    + assert (Hin : forall n, split_seq true (A ++ mid) l n D = A ++ (mid ++ [n]) ++ l :: D) by (intros; unfold split_seq; now rewrite <- !app_assoc).
      destruct (split_maps [start; e] v (A ++ mid) l D e true) as (err & v2 & E & Ep & H); [set_solver|now rewrite <- app_assoc|lia|now rewrite <- app_assoc|].
      rewrite <- app_assoc in H. exists err, v2. split; [auto|]. destruct H as [(-> & H)|(-> & n & Hm & A1 & A2 & A3 & A4 & A5)]; [left; auto|].
      right. split; [auto|]. rewrite Hin in Hm. exists (mid ++ [n]), (l :: D). split_and!; auto.
      * intros ?%app_eq_nil. naive_solver.
      * rewrite (lend_ext v v2); [auto|]. intros y Hy. apply A5. set_solver.
      * rewrite !length_app. cbn. lia.
      * intros y Hy. apply elem_of_app in Hy as [Hy|Hy].
        -- destruct (A5 y ltac:(set_solver)) as (-> & -> & _). split; [apply Hst; set_solver|auto].
        -- apply list_elem_of_singleton in Hy as ->. rewrite A3, A4. split; [apply Hst; set_solver|lia].
      * intros y Hy. apply elem_of_cons in Hy as [->|Hy]; [lia|]. destruct (A5 y ltac:(set_solver)) as (-> & _).
        pose proof (inv_sorted _ _ Hv) as Hs. rewrite !sorted_app in Hs. destruct Hs as (_ & _ & _ & _ & Hs). pose proof (sorted_elem _ _ _ _ Hs Hy). lia.
    + exists 0, v. split; [reflexivity|]. right. split; [auto|]. exists mid, (l :: D). split_and!; auto using same_maps_refl.
      * intros ->. cbn in Hhd. lia.
      * intros y Hy. split; [apply Hst; set_solver|auto].
      * intros y Hy. apply elem_of_cons in Hy as [->|Hy]; [lia|]. pose proof (inv_sorted _ _ Hv) as Hs. rewrite !sorted_app in Hs.
        destruct Hs as (_ & _ & _ & _ & Hs). pose proof (sorted_elem _ _ _ _ Hs Hy). lia.
Qed.

(** Two allocations in a row may fail. *)
Definition scarce (v : vregion) : Prop := hd 0 (pool v) = 0 \/ hd 0 (tl (pool v)) = 0.

(** Ranges whose ends are ends of areas or [cuts]. *)
Definition ranges_from (cuts : list Z) (v : vregion) (xs : list Z) (rs : list (Z * Z)) : Prop :=
  forall Q R : Z -> Prop, areas Q R v xs -> Forall Q cuts -> forall r, r ∈ rs -> Q (fst r) /\ Q (snd r) /\ fst r < snd r.

Lemma ranges_from_pre cuts v xs v1 xs1 rs : no_new cuts v xs v1 xs1 -> ranges_from cuts v1 xs1 rs -> ranges_from cuts v xs rs.
Proof. intros H1 H2 Q R Ha Hc. eapply H2; eauto. Qed.

Lemma ranges_from_areas cuts v lo xs rest : sorted v lo xs -> (forall x, x ∈ xs -> x ∈ rest) -> ranges_from cuts v rest (pte_ranges v xs).
Proof.
  intros Hs Hin Q R Ha _ r Hr. apply list_elem_of_In, in_flat_map in Hr as (x & Hx & Hr). apply list_elem_of_In in Hx.
  destruct (vm_flags v x =? _); [destruct Hr|]. destruct Hr as [<-|[]]. cbn. destruct (Ha x (Hin x Hx)) as (? & ? & _).
  pose proof (sorted_elem _ _ _ _ Hs Hx). split_and!; auto; lia.
Qed.

(** What a successful [__free_va] leaves of the mapped addresses, and the
    ranges it gives back to the page table. *)
Definition freed (v : vregion) (xs : list Z) (start e : Z) (rs : list (Z * Z)) (v' : vregion) (xs' : list Z) : Prop :=
  vinv v' xs' /\ (length xs' <= S (length xs))%nat /\
  (forall z f, maps v' xs' z f <-> maps v xs z f /\ ~ (start <= z < e)) /\
  (forall z, in_ranges rs z <-> start <= z < e /\ exists f, maps v xs z f /\ f <> LEGOMEM_VM_FLAGS_CONFLICT) /\
  no_new [start; e] v xs v' xs' /\ ranges_from [start; e] v xs rs.

Lemma freed_none v xs start e : vinv v xs -> (forall z, mapped v xs z -> ~ (start <= z < e)) -> freed v xs start e [] v xs.
Proof.
  intros Hv Hout. assert (Hf : forall z f, maps v xs z f -> ~ (start <= z < e)) by (intros z f Hm; eapply Hout, maps_mapped; eauto).
  split_and!; auto.
  - intros z f. specialize (Hf z f). tauto.
  - intros z. split; [intros (r & Hr & _); set_solver|]. intros (Hz & f & Hm & _). destruct (Hf z f Hm Hz).
  - now apply no_new_same.
  - intros Q R _ _ r Hr. set_solver.
Qed.

(** A range between two areas is not mapped. *)
Lemma between_unmapped v xs1 xs2 a e :
  sorted v 0 (xs1 ++ xs2) -> (xs1 <> [] -> lend v 0 xs1 <= a) -> (forall x, x ∈ xs2 -> e <= vm_start v x) ->
  forall z, mapped v (xs1 ++ xs2) z -> ~ (a <= z < e).
Proof.
  intros Hs H1 H2 z Hm Hz. apply mapped_app in Hm as [Hm|(y & Hy & Hc)].
  - apply sorted_app in Hs as [Hs _]. pose proof (mapped_range _ _ _ _ Hs Hm).
    destruct xs1; [now apply mapped_nil in Hm|]. specialize (H1 ltac:(done)). lia.
  - specialize (H2 y Hy). unfold covers in Hc. lia.
Qed.

(** Detaching and unmapping the areas of a range. *)
Lemma free_detach v A mid D start e :
  vinv v (A ++ mid ++ D) -> lend v 0 A <= start -> mid <> [] ->
  (forall y, y ∈ mid -> start <= vm_start v y /\ vm_end v y <= e) -> (forall y, y ∈ D -> e <= vm_start v y) ->
  (length (A ++ mid ++ D) < fuel)%nat ->
  exists rs v', (v' ← detach_vmas_to_be_unmapped fuel v (hd 0 mid) (List.last A 0) e;
     rs ← unmap_region fuel v' (hd 0 mid) start e; Some (0, rs, v')) = Some (0, rs, v') /\
    vinv v' (A ++ D) /\ pool v' = pool v /\
    (forall z f, maps v' (A ++ D) z f <-> maps v (A ++ mid ++ D) z f /\ ~ (start <= z < e)) /\
    (forall z, in_ranges rs z <-> start <= z < e /\ exists f, maps v (A ++ mid ++ D) z f /\ f <> LEGOMEM_VM_FLAGS_CONFLICT) /\
    no_new [start; e] v (A ++ mid ++ D) v' (A ++ D) /\ ranges_from [start; e] v (A ++ mid ++ D) rs.
Proof.
  intros Hv HA Hne Hmid HD Hf. destruct mid as [|x mid]; [done|]. cbn [hd]. pose proof (inv_sorted _ _ Hv) as Hs.
  rewrite !sorted_app in Hs. destruct Hs as (HsA & HsM & HsD).
  destruct (detach_spec v A x mid D e) as (v' & -> & Hv' & E1 & E2 & E3 & Ep & Hl); auto; [|cbn [app] in Hf; lia|].
  { intros y Hy. destruct (Hmid y ltac:(set_solver)). pose proof (sorted_elem _ _ _ y HsM ltac:(set_solver)). lia. }
  cbn [mbind option_bind]. unfold unmap_region.
  assert (Hin : forall y, y ∈ x :: mid -> start <= vm_start v' y /\ vm_start v' y < vm_end v' y /\ vm_end v' y <= e).
  { intros y Hy. rewrite E1, E2. destruct (Hmid y Hy). pose proof (sorted_elem _ _ _ y HsM Hy). lia. }
  assert (Hlen : (length (x :: mid) < fuel)%nat) by (rewrite !length_app in Hf; lia).
  rewrite (unmap_region_spec fuel v' (vm_prev v') 0 (x :: mid) start e Hl Hin Hlen : unmap_region_loop fuel v' x start e = _).
  cbn [mbind option_bind]. eexists _, v'. split; [reflexivity|]. split; [auto|]. split; [auto|].
  assert (Hsr : forall ys, same_ranges v v' ys) by (intros ys y _; rewrite E1, E2, E3; auto).
  assert (HA' : forall z f, maps v A z f -> z < start) by (intros z f Hz; apply maps_mapped in Hz; pose proof (mapped_range _ _ _ _ HsA Hz); lia).
  assert (HM' : forall z f, maps v (x :: mid) z f -> start <= z < e).
  { intros z f (y & Hy & Hc & _). destruct (Hmid y Hy). unfold covers in Hc. lia. }
  assert (HD' : forall z f, maps v D z f -> e <= z) by (intros z f (y & Hy & Hc & _); specialize (HD y Hy); unfold covers in Hc; lia).
  assert (Hse : start < e) by (destruct (Hin x ltac:(set_solver)); lia).
  split; [|split].
  - intros z f. rewrite !maps_app, !(maps_ext v v') by auto. specialize (HA' z f). specialize (HM' z f). specialize (HD' z f).
    split; [intros [H|H]; [specialize (HA' H)|specialize (HD' H)]; (split; [tauto|lia])|tauto].
  - intros z. rewrite in_pte_ranges. setoid_rewrite (maps_ext v v'); [|auto]. split.
    + intros (f & Hm & Hf'). split; [eauto|]. exists f. rewrite !maps_app. auto.
    + intros (Hz & f & Hm & Hf'). exists f. rewrite !maps_app in Hm. split; [|auto].
      destruct Hm as [H|[H|H]]; [specialize (HA' _ _ H); lia|auto|specialize (HD' _ _ H); lia].
  - split; [apply no_new_same; [set_solver|]; intros y _; rewrite E1, E2, E3; auto|].
    rewrite (pte_ranges_ext v v') by auto. eapply ranges_from_areas; [exact HsM|]. set_solver.
Qed.

(** [__free_va] on a range [start, start + len). *)
Lemma free_va_spec v xs start len :
  vinv v xs -> 0 <= start -> 0 < len -> start + len < 2 ^ 64 -> (length xs + 2 < fuel)%nat ->
  exists err rs v', __free_va fuel v start len = Some (err, rs, v') /\ exists xs',
    (err = 0 /\ freed v xs start (start + len) rs v' xs' \/
     err = - ENOMEM /\ rs = [] /\ same_maps [start; start + len] v xs v' xs' /\
     (scarce v \/ exists x, x ∈ xs /\ vm_start v x < start /\ start + len < vm_end v x)).
Proof.
  intros Hv Hst Hlen Hend Hf. unfold __free_va. rewrite (proj2 (Z.eqb_neq len 0)) by lia.
  rewrite wrap64_small by (unfold is_word; lia). set (e := start + len) in *. rewrite (find_vma_spec fuel v xs) by (auto; lia).
  pose proof (inv_sorted _ _ Hv) as Hs. destruct (first_after_split v start 0 xs Hs) as (xs1 & ys & -> & -> & Hlo & Hhi). cbn [mbind option_bind].
  assert (HA : lend v 0 xs1 <= start) by (destruct xs1; [cbn; lia|now apply Hlo]).
  rewrite (hd_null v xs1 ys) by apply Hv.
  assert (Hnone : (forall y, y ∈ ys -> e <= vm_start v y) ->
    exists xs', 0 = 0 /\ freed v (xs1 ++ ys) start e [] v xs' \/ 0 = - ENOMEM /\ @nil (Z * Z) = [] /\ same_maps [start; e] v (xs1 ++ ys) v xs' /\
     (scarce v \/ exists x, x ∈ xs1 ++ ys /\ vm_start v x < start /\ e < vm_end v x)).
  { intros Hys. exists (xs1 ++ ys). left. split; [auto|]. apply freed_none; [auto|]. now apply between_unmapped. }
  destruct ys as [|x ys]; cbn [hd] in *.
  { exists 0, [], v. split; [reflexivity|]. apply Hnone. set_solver. }
  destruct (Z.leb_spec e (vm_start v x)).
  { exists 0, [], v. split; [reflexivity|]. apply Hnone. intros y Hy. apply elem_of_cons in Hy as [->|Hy]; [auto|].
    apply sorted_app in Hs as [_ (_ & Hxx & Hs)]. pose proof (sorted_elem _ _ _ _ Hs Hy). lia. }
  clear Hnone. destruct ((vm_start v x <? start) && (e <? vm_end v x)) eqn:Hin.
  { apply andb_true_iff in Hin as [H1%Z.ltb_lt H2%Z.ltb_lt]. exists (- ENOMEM), [], v. split; [reflexivity|]. exists (xs1 ++ x :: ys). right.
    split_and!; auto using same_maps_refl. right. exists x. split; [set_solver|auto]. }
  destruct (free_split_first v xs1 x ys start e) as (err & prev & v1 & -> & H1); auto; try lia.
  cbn [mbind option_bind]. destruct H1 as [(-> & Hp & Hm)|(-> & Hpool & A & B & -> & Hm & Hln & HA1 & HB & Hhd & HB1)].
  { exists (- ENOMEM), [], v1. split; [reflexivity|]. exists (xs1 ++ x :: ys). right. split_and!; auto. left. left. auto. }
  change (negb (0 =? 0)) with false. cbv iota.
  destruct (free_split_last v1 A B start e) as (err & v2 & E2 & H2); auto; try lia; [apply Hm|].
  destruct (find_vma fuel v1 e) as [last|]; [|discriminate]. cbn [mbind option_bind] in E2 |- *. rewrite E2. cbn [mbind option_bind].
  destruct H2 as [(-> & Hp & Hm2)|(-> & mid & D & Hne & HA2 & Hm2 & Hln2 & Hmid & HD)].
  { exists (- ENOMEM), [], v2. split; [reflexivity|]. exists (A ++ B). right. split_and!; auto; [eapply same_maps_trans; eauto|].
    left. unfold scarce. destruct Hpool as [E|E]; rewrite <- E; auto. }
  change (negb (0 =? 0)) with false. cbv iota. destruct Hm2 as (Hv2 & Hm2 & Hn2). rewrite (successor_of v2 A (mid ++ D)) by apply Hv2.
  replace (hd 0 (mid ++ D)) with (hd 0 mid) by (destruct mid; done).
  destruct (free_detach v2 A mid D start e) as (rs & v' & E' & Hv' & _ & Hmaps & Hrs & Hn3 & Hr3); auto; [lia|].
  cbn [mbind option_bind] in E'. rewrite E'. exists 0, rs, v'. split; [reflexivity|]. exists (A ++ D). left. split; [auto|]. destruct Hm as (_ & Hm & Hn1).
  split_and!; auto.
  - assert (length mid <> 0%nat) by now destruct mid. rewrite !length_app in *. lia.
  - intros z f. now rewrite Hmaps, Hm2, Hm.
  - intros z. rewrite Hrs. setoid_rewrite Hm2. now setoid_rewrite Hm.
  - intros Q R Ha Hc. apply Hn3; auto.
  - eapply ranges_from_pre; [exact Hn1|]. eapply ranges_from_pre; eauto.
Qed.

(** ** [vma_tree_new] *)

Lemma overlap_mapped v xs a e lo : sorted v lo xs -> a < e -> (exists x, x ∈ xs /\ overlaps v a e x) -> exists z, a <= z < e /\ mapped v xs z.
Proof.
  intros Hs Hae (x & Hx & H1 & H2). destruct (sorted_elem _ _ _ _ Hs Hx) as (_ & H3 & _).
  exists (Z.max a (vm_start v x)). split; [lia|]. exists x. split; [auto|]. unfold covers. lia.
Qed.

(** The place found for a range that is not mapped. *)
Lemma links_free v xs a e :
  vinv v xs -> a < e -> (forall z, mapped v xs z -> ~ (a <= z < e)) -> (length xs < fuel)%nat ->
  exists xs1 xs2 d p, xs = xs1 ++ xs2 /\ find_vma_links fuel v a e = Some (inr (List.last xs1 0, d, p)) /\ hole (mm v) xs1 xs2 d p /\
    (xs1 <> [] -> lend v 0 xs1 <= a) /\ (forall x, x ∈ xs2 -> e <= vm_start v x).
Proof.
  intros Hv Hae Hfree Hf. destruct (find_vma_links_spec fuel v (vma_compute_gap v) xs a e) as (r & E & Hr); auto; try apply Hv.
  destruct r as [er|[[prev d] p]].
  - destruct Hr as [_ Hr]. eapply overlap_mapped in Hr as (z & Hz & Hm); [|apply Hv|auto]. destruct (Hfree z Hm Hz).
  - destruct Hr as (xs1 & xs2 & -> & Hh & -> & H1 & H2). exists xs1, xs2, d, p. auto.
Qed.

Lemma freed_unmapped v xs a e rs v' xs' : freed v xs a e rs v' xs' -> forall z, mapped v' xs' z -> ~ (a <= z < e).
Proof. intros (_ & _ & H & _) z [f Hm]%mapped_maps. now apply H in Hm as [_ Hm]. Qed.

(** The loop frees the range at most once. *)
Lemma clear_old_maps_spec fuel' v xs a len :
  vinv v xs -> 0 <= a -> 0 < len -> a + len < 2 ^ 64 -> (length xs + 2 < fuel)%nat -> (1 < fuel')%nat ->
  exists r rs v' xs', clear_old_maps fuel fuel' v a len [] = Some (r, rs, v') /\
    (freed v xs a (a + len) rs v' xs' /\ (exists xs1 xs2 d p, xs' = xs1 ++ xs2 /\ r = Some (List.last xs1 0, d, p) /\ hole (mm v') xs1 xs2 d p /\
       (xs1 <> [] -> lend v' 0 xs1 <= a) /\ (forall x, x ∈ xs2 -> a + len <= vm_start v' x)) \/
     r = None /\ rs = [] /\ same_maps [a; a + len] v xs v' xs' /\ (scarce v \/ exists x, x ∈ xs /\ vm_start v x < a /\ a + len < vm_end v x)).
Proof.
  intros Hv Ha Hlen Hend Hf Hf'. destruct fuel' as [|[|fuel']]; [lia..|]. cbn [clear_old_maps].
  rewrite wrap64_small by (unfold is_word; lia).
  destruct (find_vma_links_spec fuel v (vma_compute_gap v) xs a (a + len)) as (r & -> & Hr); try apply Hv; try lia.
  cbn [mbind option_bind]. destruct r as [er|[[prev d] p]].
  - destruct (free_va_spec v xs a len) as (err & rs & v' & -> & xs' & H); auto. cbn [mbind option_bind].
    destruct H as [(-> & Hfr)|(-> & -> & H1 & H2)].
    + change (negb (0 =? 0)) with false. cbv iota. pose proof Hfr as (Hv' & Hlen' & _).
      destruct (links_free v' xs' a (a + len)) as (xs1 & xs2 & d & p & -> & -> & H); auto; [lia|eapply freed_unmapped; eauto|lia|].
      cbn [mbind option_bind]. eexists _, _, v', _. split; [reflexivity|]. left. cbn [app]. split; [exact Hfr|].
      exists xs1, xs2, d, p. auto.
    + change (negb (- ENOMEM =? 0)) with true. cbv iota. eexists _, _, v', xs'. split; [reflexivity|]. right. auto.
  - destruct Hr as (xs1 & xs2 & -> & Hh & -> & H1 & H2). eexists _, _, v, (xs1 ++ xs2). split; [reflexivity|]. left. split; [|exists xs1, xs2, d, p; auto].
    apply freed_none; [auto|]. apply between_unmapped; auto. apply Hv.
Qed.

(** The fields of a new area, before it is linked. *)
Lemma new_area_inv v xs n s e f ps :
  vinv v xs -> n ∉ xs -> is_word s -> is_word e -> pool_ok xs ps ->
  vinv (set_vm_flags (set_vm_end (set_vm_start (set_pool (set_fields v n 0 0 0 0 0 (Node 0 0 0) 0) ps) n s) n e) n f) xs.
Proof.
  intros Hv Hn Hs He Hp. eapply vinv_frame; [apply (vinv_fields v xs n s e 0 0 f (Node 0 0 0) 0 ps Hv Hn Hs He Hp)|..]; vsimp; try reflexivity; auto.
  - intros x Hx. cbn [set_fields vm_start vm_end vm_next vm_prev mm nodes aug]. assert (n <> x) by congruence. rewrite !fn_lookup_insert_ne by auto. auto 7.
  - intros m. cbn [set_fields vm_start]. apply is_word_insert; auto. intros m'. apply is_word_insert; [apply Hv|unfold is_word; lia].
  - intros m. cbn [set_fields vm_end]. apply is_word_insert; auto. intros m'. apply is_word_insert; [apply Hv|unfold is_word; lia].
Qed.

Lemma link_new v xs1 xs2 d p a e flags n :
  vinv v (xs1 ++ xs2) -> hole (mm v) xs1 xs2 d p -> (xs1 <> [] -> lend v 0 xs1 <= a) -> (forall x, x ∈ xs2 -> e <= vm_start v x) ->
  0 <= a < e -> is_word e -> n <> 0 -> addr n -> n ∉ xs1 ++ xs2 -> pool_ok (n :: xs1 ++ xs2) (tl (pool v)) -> (length (xs1 ++ xs2) < fuel)%nat ->
  exists v', vma_link fuel (set_vm_flags (set_vm_end (set_vm_start
      (set_pool (set_fields v n 0 0 0 0 0 (Node 0 0 0) 0) (tl (pool v))) n a) n e) n flags) n (List.last xs1 0) d p = Some v' /\
    vinv v' (xs1 ++ n :: xs2) /\ vm_start v' n = a /\ vm_end v' n = e /\ vm_flags v' n = flags /\ same_ranges v v' (xs1 ++ xs2).
Proof.
  intros Hv Hh Hlo Hhi Hae Hwe Hn0 Hna Hn Hp Hf. set (v3 := set_vm_flags _ _ _).
  assert (Hp' : pool_ok (xs1 ++ xs2) (tl (pool v))) by (eapply pool_ok_mono; [|exact Hp]; set_solver).
  assert (Hwa : is_word a) by (unfold is_word in *; lia).
  pose proof (new_area_inv v (xs1 ++ xs2) n a e flags (tl (pool v)) Hv Hn Hwa Hwe Hp') as Hv3. fold v3 in Hv3.
  assert (Hsn : vm_start v3 n = a /\ vm_end v3 n = e /\ vm_flags v3 n = flags) by (unfold v3; vsimp; fnl; auto).
  destruct Hsn as (Hsn & Hen & Hfn).
  assert (Hso : same_ranges v v3 (xs1 ++ xs2)).
  { intros x Hx. assert (n <> x) by congruence. unfold v3. vsimp. cbn [set_fields vm_start vm_end vm_flags].
    rewrite !fn_lookup_insert_ne by auto. auto. }
  pose proof (inv_sorted _ _ Hv3) as Hs3. apply sorted_app in Hs3 as [Hs1 Hs2].
  assert (Hlo3 : lend v3 0 xs1 <= a).
  { rewrite (lend_ext v v3) by (intros x Hx; apply Hso; set_solver). destruct xs1; [cbn; lia|]. now apply Hlo. }
  destruct (vma_link_spec fuel v3 xs1 xs2 n d p (vma_compute_gap v3)) as (v' & E & Hv' & E1 & E2 & E3 & _); auto; try apply Hv3.
  - apply (hole_frame (mm v)); [|reflexivity|exact Hh]. intros x Hx. apply fn_lookup_insert_ne. congruence.
  - apply sorted_app. split; [auto|]. cbn [sorted]. rewrite Hsn, Hen. split_and!; [auto|lia|]. eapply sorted_from; [exact Hs2|].
    intros y Hy. destruct (Hso y ltac:(set_solver)) as (-> & _). auto.
  - intros Hne. rewrite (inv_high _ _ Hv3), !lend_app. destruct xs2; [done|]. reflexivity.
  - exists v'. split; [exact E|]. rewrite E1, E2, E3. split_and!; auto. intros x Hx. rewrite E1, E2, E3. now apply Hso.
Qed.

(** What is mapped once the place of a range has been found. *)
Lemma new_mapping_spec v A B d p a len flags :
  vinv v (A ++ B) -> hole (mm v) A B d p -> (A <> [] -> lend v 0 A <= a) -> (forall x, x ∈ B -> a + len <= vm_start v x) ->
  0 <= a -> 0 < len -> a + len < 2 ^ 64 -> (length (A ++ B) < fuel)%nat ->
  exists ret v' xs', new_mapping fuel v (List.last A 0, d, p) a len flags = Some (ret, v') /\ vinv v' xs' /\
    (ret = a /\ (forall z, mapped v' xs' z <-> mapped v (A ++ B) z \/ a <= z < a + len) /\
       (forall Q R : Z -> Prop, areas Q R v (A ++ B) -> Q a -> Q (a + len) -> R flags -> areas Q R v' xs') \/
     ret = wrap64 (- ENOMEM) /\ hd 0 (pool v) = 0 /\ xs' = A ++ B /\ v' = set_pool v (tl (pool v))).
Proof.
  intros Hv Hh Hlo Hhi Ha Hlen Hend Hf. unfold new_mapping. rewrite (wrap64_small (a + len)) by (unfold is_word; lia).
  destruct (vma_merge_spec fuel v A B a (a + len) flags) as (x & v2 & -> & H2); auto; [lia|unfold is_word; lia|lia|]. cbn [mbind option_bind].
  destruct H2 as [(-> & ->)|(Hx & xs2 & Hv2 & _ & _ & Hm2 & Hn2)].
  2:{ rewrite (proj2 (Z.eqb_neq x NULL) Hx). eexists _, v2, xs2. split; [reflexivity|]. split; [auto|]. left. split_and!; auto. }
  change (negb (0 =? NULL)) with false. cbv iota. pose proof (vm_area_alloc_spec v (A ++ B) Hv) as Hal.
  destruct (vm_area_alloc v) as [n v2]. destruct Hal as (Hv2 & Hn & Hp & [(-> & ->)|(Hn0 & Hna & Hnin & Hpool & Ev2)]).
  - change (0 =? NULL) with true. cbv iota. eexists _, _, (A ++ B). split; [reflexivity|]. split; [exact Hv2|]. right. auto.
  - rewrite (proj2 (Z.eqb_neq n NULL) Hn0). subst v2.
    destruct (link_new v A B d p a (a + len) flags n) as (v' & E' & Hv' & E1 & E2 & E3 & Hso); auto; [lia|unfold is_word; lia|].
    rewrite E'. eexists _, v', _. split; [reflexivity|]. split; [exact Hv'|]. left. split_and!; [auto|..].
    + intros z. rewrite !mapped_app, mapped_cons. unfold covers. rewrite E1, E2.
      rewrite !(mapped_ext v v') by (intros y Hy; destruct (Hso y ltac:(set_solver)) as (? & ? & _); auto). tauto.
    + intros Q R Hq Qa Qe Rf y Hy. destruct (decide (y = n)) as [->|]; [rewrite E1, E2, E3; auto|].
      assert (Hin : y ∈ A ++ B) by set_solver. destruct (Hso y Hin) as (-> & -> & ->). auto.
Qed.

(** [vma_tree_new] maps a range: old areas in it go, as by [__free_va]. *)
Lemma vma_tree_new_spec v xs a len flags :
  vinv v xs -> 0 <= a -> 0 < len -> a + len < 2 ^ 64 -> (length xs + 2 < fuel)%nat ->
  exists ret rs v' xs', vma_tree_new fuel v a len flags = Some (ret, rs, v') /\ vinv v' xs' /\
    (ret = a /\ (forall z, mapped v' xs' z <-> mapped v xs z \/ a <= z < a + len) /\
       (forall z, in_ranges rs z <-> a <= z < a + len /\ exists f, maps v xs z f /\ f <> LEGOMEM_VM_FLAGS_CONFLICT) \/
     ret = wrap64 (- ENOMEM) /\
       (same_maps [a; a + len] v xs v' xs' /\ rs = [] /\ (scarce v \/ exists x, x ∈ xs /\ vm_start v x < a /\ a + len < vm_end v x) \/
        freed v xs a (a + len) rs v' xs')).
Proof.
  intros Hv Ha Hlen Hend Hf. unfold vma_tree_new.
  destruct (clear_old_maps_spec fuel v xs a len) as (r & rs & v1 & xs1 & -> & H); auto; [lia|]. cbn [mbind option_bind].
  destruct H as [(Hfr & A & B & d & p & -> & -> & Hh & Hlo & Hhi)|(-> & -> & Hm & Hs)].
  2:{ eexists _, _, v1, xs1. split; [reflexivity|]. split; [apply Hm|]. right. auto. }
  pose proof Hfr as (Hv1 & Hl1 & Hmaps & Hrs & _).
  assert (Hmap : forall z, mapped v1 (A ++ B) z \/ a <= z < a + len <-> mapped v xs z \/ a <= z < a + len).
  { intros z. rewrite !mapped_maps. setoid_rewrite Hmaps. destruct (decide (a <= z < a + len)); [tauto|]. split; [|naive_solver].
    intros [(f & ? & _)|?]; [left; eauto|tauto]. }
  destruct (new_mapping_spec v1 A B d p a len flags) as (ret & v' & xs' & -> & Hv' & H'); auto; [lia|]. cbn [mbind option_bind].
  eexists _, _, v', xs'. split; [reflexivity|]. split; [exact Hv'|]. destruct H' as [(-> & Hm & _)|(-> & _ & -> & ->)].
  - left. split_and!; auto. intros z. now rewrite Hm.
  - right. split; [auto|]. right. split; [exact Hv'|]. exact (proj2 Hfr).
Qed.
End operations.
