(* ===== verification/VmaSearch.v ===== *)
(** * Searching a vRegion for a free range

    The top-down and bottom-up searches of vm.c walk the tree guided by
    [rb_subtree_gap].  They end, never hit a [BUG_ON] or a null pointer, return a
    free range within the limits whenever one exists, and the highest
    (top-down) or lowest (bottom-up) such range. *)

From stdpp Require Import functions.
From S2P Require Import Prelude RbTree RbTreeProofs RbErase RbSpec Vma VmaTree VmaOps.

#[local] Set Warnings "-clear-no-such-hyp".

(** ** Reading the tree *)

Lemma parent_of st k t : zrep st k t -> t <> E -> rb_parent st (rid t) = cid k.
Proof.
  intros (Hr & Hk & _) HE. destruct t as [|c l n r]; [done|]. destruct Hr as (_ & _ & Hn & _). unfold rb_parent. cbn [rid]. rewrite Hn.
  apply parent_pcv. eapply rep_ctx_addr; eauto.
Qed.

Lemma side_of st d c n s k t d' : zrep st (F d c n s :: k) t -> t <> E ->
  (rid t =? child st d' n) = match d, d' with Left, Left | Right, Right => true | _, _ => false end.
Proof.
  intros (Hr & Hk & Hnd) HE. destruct Hk as (Hp0 & Hpa & Hpn & Hs & Hk).
  assert (Hne : (rid t =? rid s) = false).
  { apply Z.eqb_neq. destruct (rid_nonzero _ _ _ Hr HE) as [Ht0 Hti]. intros E.
    apply NoDup_app in Hnd as (_ & Hnd & _). apply (Hnd _ Hti). cbn [cids].
    destruct s as [|cs sl sn sr]; cbn [rid] in E; [congruence|]. rewrite E. set_solver. }
  unfold child. rewrite Hpn. destruct d, d'; cbn [mkn get_child rb_left rb_right]; auto using Z.eqb_refl.
Qed.

Lemma aug_max c au t y : aug_ok c au t -> y ∈ ids t -> c y <= augz au t.
Proof.
  induction t as [|cl l IHl n r IHr]; cbn [aug_ok ids augz]; [set_solver|]. intros (Hn & Hl & Hr).
  rewrite elem_of_cons, elem_of_app. intros [->|[H|H]]; [lia|specialize (IHl Hl H); lia|specialize (IHr Hr H); lia].
Qed.

(** ** Gaps *)

(** The free space that ends at an area. *)
Lemma gap_at v a y b :
  vinv v (a ++ y :: b) ->
  prev_end v y = lend v 0 a /\ 0 <= prev_end v y <= vm_start v y /\ vma_compute_gap v y = vm_start v y - prev_end v y /\
  vm_start v y -w prev_end v y = vm_start v y - prev_end v y.
Proof.
  intros Hv. destruct (vinv_split_facts _ _ _ _ Hv) as (_ & _ & Hs & Hlo & Hy & _ & _ & Hp & _).
  assert (E : prev_end v y = lend v 0 a).
  { unfold prev_end. rewrite Hp, (last_null v a (y :: b)) by apply Hv. destruct a as [|x a]; [reflexivity|]. cbn [negb]. symmetry. now apply lend_last. }
  apply sorted_lend in Hs. pose proof (inv_start _ _ Hv y) as Hw. unfold is_word in Hw. split_and!; [auto|lia|lia| |].
  - rewrite (compute_gap_at v a y b) by apply Hv. lia.
  - apply wrap64_small. unfold is_word. lia.
Qed.

(** Areas in order have starts and preceding ends in order. *)
Lemma before_le v a w b y c :
  vinv v (a ++ w :: b ++ y :: c) -> vm_start v w < vm_start v y /\ prev_end v w <= prev_end v y.
Proof.
  intros Hv. destruct (gap_at v a w (b ++ y :: c) Hv) as (E1 & H1 & _).
  assert (Hv' : vinv v ((a ++ w :: b) ++ y :: c)) by now rewrite <- app_assoc.
  destruct (gap_at v (a ++ w :: b) y c Hv') as (E2 & H2 & _). rewrite E1, E2 in *. rewrite lend_app in *. cbn [lend] in *.
  destruct (vinv_split_facts _ _ _ _ Hv) as (_ & _ & Hs & _ & Hw & Hs2 & _). apply sorted_app in Hs2 as [Hs2 _]. apply sorted_lend in Hs2. lia.
Qed.

Lemma before_in v xs1 xs2 w y : vinv v (xs1 ++ xs2) -> w ∈ xs1 -> y ∈ xs2 -> vm_start v w < vm_start v y /\ prev_end v w <= prev_end v y.
Proof.
  intros Hv Hw Hy. apply list_elem_of_split in Hw as (a & b & ->). apply list_elem_of_split in Hy as (c & d & ->).
  rewrite <- app_assoc in Hv. cbn [app] in Hv. apply (before_le v a w (b ++ c) y d). now rewrite <- app_assoc.
Qed.

(** The gap before [y] holds [len] bytes within the limits (those of the loops:
    [lo] for the end of the gap, [hi] for its start). *)
Definition suitable (v : vregion) (len lo hi y : Z) : Prop :=
  prev_end v y <= hi /\ lo <= vm_start v y /\ len <= vm_start v y - prev_end v y.

Lemma small_gap v xs len lo hi au t y :
  vinv v xs -> aug_ok (vma_compute_gap v) au t -> augz au t < len -> y ∈ inorder t -> y ∈ xs -> ~ suitable v len lo hi y.
Proof.
  intros Hv Ha Hlt Hy Hx (_ & _ & H). rewrite <- ids_inorder in Hy. pose proof (aug_max _ _ _ _ Ha Hy) as Hm.
  apply list_elem_of_split in Hx as (a & b & ->). destruct (gap_at v a y b Hv) as (_ & _ & E & _). lia.
Qed.

(** ** The number of steps *)

(** The way up from a position; [d] is the side that leads to another check. *)
Fixpoint climb_cost (d : dir) (k : list frame) : nat :=
  match k with
  | [] => 1
  | F d' _ _ s :: k' => match d, d' with Left, Left | Right, Right => 3 + 4 * length (ids s) | _, _ => 1 end + climb_cost d k'
  end.

Definition cost (d : dir) (pt : search_point) (k : list frame) (t : tree) : nat :=
  match pt with
  | Visit => 4 * length (ids t)
  | Check _ => match t with E => 0 | T _ l _ r => 2 + 4 * length (ids match d with Left => r | Right => l end) end
  | Climb => 0
  end + climb_cost d k.

(** Top-down, what has been ruled out at each point. *)
Definition td_done (v : vregion) (len lo hi : Z) (pt : search_point) (k : list frame) (t : tree) : Prop :=
  let out ys := forall y, y ∈ ys -> ~ suitable v len lo hi y in
  match pt with
  | Visit => out (rctx k)
  | Check g => g = prev_end v (rid t) /\ out (match t with E => [] | T _ _ _ r => inorder r end ++ rctx k)
  | Climb => out (inorder t ++ rctx k)
  end.

Definition td_result (v : vregion) (len lo hi : Z) (xs : list Z) (r : unit + (Z * Z)) : Prop :=
  match r with
  | inl _ => forall y, y ∈ xs -> ~ suitable v len lo hi y
  | inr (gs, ge) => exists a y b, xs = a ++ y :: b /\ suitable v len lo hi y /\ gs = prev_end v y /\ ge = vm_start v y /\
      forall w, w ∈ b -> ~ suitable v len lo hi w
  end.

(** Below a tree node: nodes, gaps and what lies left and right of it. *)
Lemma at_node v xs k c l n r :
  vinv v xs -> zrep (mm v) k (T c l n r) -> aug_ok (vma_compute_gap v) (aug (mm v)) (plug k (T c l n r)) -> xs = inorder (plug k (T c l n r)) ->
  n <> 0 /\ child (mm v) Left n = rid l /\ child (mm v) Right n = rid r /\
  (rid l =? NULL) = (match l with E => true | _ => false end) /\ (rid r =? NULL) = (match r with E => true | _ => false end) /\
  aug_ok (vma_compute_gap v) (aug (mm v)) l /\ aug_ok (vma_compute_gap v) (aug (mm v)) r /\
  xs = (lctx k ++ inorder l) ++ n :: inorder r ++ rctx k.
Proof.
  intros Hv Hz Ha ->. pose proof Hz as ((Hn0 & _ & Hn & Hl & Hr) & _). apply aug_unplug in Ha as [(_ & Hal & Har) _].
  unfold child. rewrite Hn, inorder_plug. cbn [get_child rb_left rb_right inorder]. rewrite (rid_null _ _ _ Hl), (rid_null _ _ _ Hr).
  split_and!; auto. now rewrite <- !app_assoc.
Qed.

Lemma mk_ne d c n a b : mk d c n a b <> E.
Proof. now destruct d. Qed.

Lemma topdown_loop_spec fuel v xs len lo hi k t pt :
  vinv v xs -> zrep (mm v) k t -> t <> E -> aug_ok (vma_compute_gap v) (aug (mm v)) (plug k t) -> xs = inorder (plug k t) ->
  td_done v len lo hi pt k t -> (cost Right pt k t <= fuel)%nat ->
  exists r, topdown_loop fuel v len lo hi (rid t) pt = Some r /\ td_result v len lo hi xs r.
Proof.
  revert k t pt. induction fuel as [|fuel IH]; intros k t pt Hv Hz HE Ha Hxs Hd Hf.
  { exfalso. unfold cost in Hf. destruct k as [|[[] ? ? ?] ?]; cbn in Hf; lia. }
  destruct t as [|c l n r]; [done|]. clear HE.
  destruct (at_node v xs k c l n r Hv Hz Ha Hxs) as (Hn0 & Hcl & Hcr & Hln & Hrn & Hal & Har & Hx).
  assert (Hgap := Hv). rewrite Hx in Hgap. apply gap_at in Hgap as (_ & Hge & Hg & Hw).
  assert (Hright : forall y, y ∈ inorder r -> prev_end v n <= prev_end v y).
  { intros y Hy. apply (before_in v ((lctx k ++ inorder l) ++ [n]) (inorder r ++ rctx k)); [|set_solver..].
    rewrite <- (app_assoc (lctx k ++ inorder l) [n]). rewrite Hx in Hv. exact Hv. }
  assert (Hleft : forall y, y ∈ lctx k ++ inorder l -> vm_start v y < vm_start v n).
  { intros y Hy. apply (before_in v (lctx k ++ inorder l) (n :: inorder r ++ rctx k)); [now rewrite <- Hx|set_solver..]. }
  cbn [topdown_loop]. destruct pt as [|g|]; cbn [rid].
  - rewrite Hcr, Hrn. assert (Hz' : zrep (mm v) (F Right c n l :: k) r) by now apply zrep_up.
    destruct ((prev_end v n <=? hi) && negb (match r with E => true | _ => false end) && (len <=? aug (mm v) (rid r))) eqn:Hc.
    + apply (IH (F Right c n l :: k) r Visit); auto; [now destruct r; [rewrite andb_false_r in Hc|]|].
      unfold cost in *. cbn [ids length climb_cost] in *. rewrite length_app in Hf. lia.
    + apply (IH k (T c l n r) (Check (prev_end v n))); auto; [|unfold cost in *; cbn [ids length] in *; rewrite length_app in Hf; lia].
      split; [reflexivity|]. intros y Hy. apply elem_of_app in Hy as [Hy|Hy]; [|now apply Hd].
      apply andb_false_iff in Hc as [Hc|Hc]; [apply andb_false_iff in Hc as [Hc|Hc]|].
      * apply Z.leb_gt in Hc. intros (H & _). specialize (Hright y Hy). lia.
      * destruct r; [cbn in Hy; set_solver|discriminate].
      * apply Z.leb_gt in Hc. destruct r as [|rc rl rn rr]; [cbn in Hy; set_solver|].
        apply (small_gap v xs len lo hi (aug (mm v)) (T rc rl rn rr) y Hv Har Hc Hy). rewrite Hx, !elem_of_app, elem_of_cons, elem_of_app. tauto.
  - destruct Hd as [-> Hd]. cbn [rid]. destruct (Z.ltb_spec (vm_start v n) lo).
    { eexists. split; [reflexivity|]. intros y Hy Hs. rewrite Hx, elem_of_app, elem_of_cons in Hy.
      destruct Hy as [Hy|[->|Hy]]; [specialize (Hleft y Hy)| |exact (Hd y Hy Hs)]; destruct Hs as (_ & Hs & _); lia. }
    rewrite Hw. destruct ((prev_end v n <=? hi) && (len <=? vm_start v n - prev_end v n)) eqn:Hc.
    { apply andb_true_iff in Hc as [H1%Z.leb_le H2%Z.leb_le]. eexists. split; [reflexivity|].
      exists (lctx k ++ inorder l), n, (inorder r ++ rctx k). split_and!; auto. split_and!; auto. }
    assert (Hn : ~ suitable v len lo hi n) by (intros (H1 & H2 & H3); apply andb_false_iff in Hc as [Hc%Z.leb_gt|Hc%Z.leb_gt]; lia).
    rewrite Hcl, Hln. assert (Hz' : zrep (mm v) (F Left c n r :: k) l) by now apply zrep_up.
    destruct (negb (match l with E => true | _ => false end) && (len <=? aug (mm v) (rid l))) eqn:Hc'.
    + apply (IH (F Left c n r :: k) l Visit); auto; [now destruct l| |unfold cost in *; cbn [climb_cost] in *; lia].
      cbn [rctx td_done]. intros y Hy. apply elem_of_cons in Hy as [->|Hy]; [auto|now apply Hd].
    + apply (IH k (T c l n r) Climb); auto; [|unfold cost in *; lia].
      cbn [inorder td_done]. intros y Hy. rewrite <- app_assoc, elem_of_app in Hy. cbn in Hy. rewrite elem_of_cons in Hy. destruct Hy as [Hy|[->|Hy]]; [|auto|now apply Hd].
      destruct l as [|lc ll ln lr]; [cbn in Hy; set_solver|]. cbn [negb andb rid] in Hc'. apply Z.leb_gt in Hc'.
      apply (small_gap v xs len lo hi (aug (mm v)) (T lc ll ln lr) y Hv Hal Hc' Hy). rewrite Hx, !elem_of_app. tauto.
  - pose proof (parent_of _ _ _ Hz ltac:(done)) as Hp. cbn [rid] in Hp. rewrite Hp. destruct k as [|[d pc p s] k]; cbn [cid].
    + change (0 =? NULL) with true. cbv iota. eexists. split; [reflexivity|]. intros y Hy. apply Hd. cbn [rctx]. rewrite app_nil_r. cbn [plug] in Hxs. now rewrite <- Hxs.
    + pose proof (side_of _ _ _ _ _ _ _ Right Hz ltac:(done)) as Hside. cbn [rid] in Hside. rewrite Hside.
      pose proof Hz as (_ & (Hp0 & _) & _). rewrite (proj2 (Z.eqb_neq p NULL) Hp0).
      assert (Hz' : zrep (mm v) k (mk d pc p (T c l n r) s)) by now apply zrep_up.
      destruct d.
      * apply (IH k (mk Left pc p (T c l n r) s) Climb); auto using mk_ne; [|unfold cost in *; cbn [climb_cost] in *; lia]. cbn [mk td_done inorder rctx] in *.
        intros y Hy. apply Hd. rewrite <- app_assoc in Hy. exact Hy.
      * apply (IH k (mk Right pc p (T c l n r) s) (Check (prev_end v p))); auto using mk_ne; [|unfold cost in *; cbn [climb_cost mk] in *; lia]. cbn [mk td_done inorder rctx rid] in *. auto.
Qed.

(** Bottom-up. *)
Definition bu_done (v : vregion) (len lo hi : Z) (pt : search_point) (k : list frame) (t : tree) : Prop :=
  let out ys := forall y, y ∈ ys -> ~ suitable v len lo hi y in
  match pt with
  | Visit => out (lctx k)
  | Check g => g = prev_end v (rid t) /\ out (lctx k ++ match t with E => [] | T _ l _ _ => inorder l end)
  | Climb => out (lctx k ++ inorder t)
  end.

Definition bu_result (v : vregion) (len lo hi : Z) (xs : list Z) (r : bool + Z) : Prop :=
  match r with
  | inl early => (forall y, y ∈ xs -> ~ suitable v len lo hi y) /\ (early = false -> hi < highest_vm_end v)
  | inr gs => exists a y b, xs = a ++ y :: b /\ suitable v len lo hi y /\ gs = prev_end v y /\
      forall w, w ∈ a -> ~ suitable v len lo hi w
  end.

(** A node with a left subtree has a predecessor. *)
Lemma left_child_prev v xs k c l n r :
  vinv v xs -> xs = (lctx k ++ inorder (T c l n r)) ++ rctx k -> l <> E -> (vm_prev v n =? NULL) = false.
Proof.
  intros Hv Hx Hl. cbn [inorder] in Hx. rewrite app_assoc in Hx. rewrite Hx in Hv. rewrite <- app_assoc in Hv. cbn [app] in Hv.
  destruct (vlist_at _ _ _ _ (inv_list _ _ Hv)) as (_ & -> & _). rewrite (last_null v _ _ (inv_list _ _ Hv)).
  pose proof (inorder_ne l Hl). destruct (lctx k); [now destruct (inorder l)|reflexivity].
Qed.

Lemma bottomup_loop_spec fuel v xs len lo hi k t pt :
  vinv v xs -> zrep (mm v) k t -> t <> E -> aug_ok (vma_compute_gap v) (aug (mm v)) (plug k t) -> xs = inorder (plug k t) ->
  bu_done v len lo hi pt k t -> (cost Left pt k t <= fuel)%nat ->
  exists r, bottomup_loop fuel v len lo hi (rid t) pt = Some r /\ bu_result v len lo hi xs r.
Proof.
  revert k t pt. induction fuel as [|fuel IH]; intros k t pt Hv Hz HE Ha Hxs Hd Hf.
  { exfalso. unfold cost in Hf. destruct k as [|[[] ? ? ?] ?]; cbn in Hf; lia. }
  destruct t as [|c l n r]; [done|]. clear HE.
  destruct (at_node v xs k c l n r Hv Hz Ha Hxs) as (Hn0 & Hcl & Hcr & Hln & Hrn & Hal & Har & Hx).
  assert (Hgap := Hv). rewrite Hx in Hgap. apply gap_at in Hgap as (Hpe & Hge & Hg & Hw).
  assert (Hright : forall y, y ∈ inorder r ++ rctx k -> prev_end v n <= prev_end v y).
  { intros y Hy. apply (before_in v ((lctx k ++ inorder l) ++ [n]) (inorder r ++ rctx k)); [|set_solver..].
    rewrite <- (app_assoc (lctx k ++ inorder l) [n]). rewrite Hx in Hv. exact Hv. }
  assert (Hleft : forall y, y ∈ inorder l -> vm_start v y < vm_start v n).
  { intros y Hy. apply (before_in v (lctx k ++ inorder l) (n :: inorder r ++ rctx k)); [now rewrite <- Hx|set_solver..]. }
  cbn [bottomup_loop]. destruct pt as [|g|]; cbn [rid].
  - rewrite Hcl, Hln. assert (Hz' : zrep (mm v) (F Left c n r :: k) l) by now apply zrep_up.
    destruct ((lo <=? vm_start v n) && negb (match l with E => true | _ => false end) && (len <=? aug (mm v) (rid l))) eqn:Hc.
    + apply (IH (F Left c n r :: k) l Visit); auto; [now destruct l; [rewrite andb_false_r in Hc|]|].
      unfold cost in *. cbn [ids length climb_cost] in *. rewrite length_app in Hf. lia.
    + apply (IH k (T c l n r) (Check (prev_end v n))); auto; [|unfold cost in *; cbn [ids length] in *; rewrite length_app in Hf; lia].
      split; [reflexivity|]. intros y Hy. apply elem_of_app in Hy as [Hy|Hy]; [now apply Hd|].
      apply andb_false_iff in Hc as [Hc|Hc]; [apply andb_false_iff in Hc as [Hc|Hc]|].
      * apply Z.leb_gt in Hc. intros (_ & H & _). specialize (Hleft y Hy). lia.
      * destruct l; [cbn in Hy; set_solver|discriminate].
      * apply Z.leb_gt in Hc. destruct l as [|lc ll ln lr]; [cbn in Hy; set_solver|].
        apply (small_gap v xs len lo hi (aug (mm v)) (T lc ll ln lr) y Hv Hal Hc Hy). rewrite Hx, !elem_of_app. tauto.
  - destruct Hd as [-> Hd]. cbn [rid]. destruct (Z.ltb_spec hi (prev_end v n)).
    { eexists. split; [reflexivity|]. split.
      - intros y Hy Hs. rewrite Hx, elem_of_app, elem_of_cons in Hy.
        destruct Hy as [Hy|[->|Hy]]; [exact (Hd y Hy Hs)| |specialize (Hright y Hy)]; destruct Hs as (Hs & _); lia.
      - intros _. rewrite (inv_high _ _ Hv), Hx, lend_app, <- Hpe. pose proof (inv_sorted _ _ Hv) as Hs. rewrite Hx in Hs.
        apply sorted_app in Hs as [_ Hs]. rewrite <- Hpe in Hs. apply sorted_lend in Hs. lia. }
    rewrite Hw. destruct ((lo <=? vm_start v n) && (len <=? vm_start v n - prev_end v n)) eqn:Hc.
    { apply andb_true_iff in Hc as [H1%Z.leb_le H2%Z.leb_le]. eexists. split; [reflexivity|].
      exists (lctx k ++ inorder l), n, (inorder r ++ rctx k). split_and!; auto. split_and!; auto. }
    assert (Hn : ~ suitable v len lo hi n) by (intros (H1 & H2 & H3); apply andb_false_iff in Hc as [Hc%Z.leb_gt|Hc%Z.leb_gt]; lia).
    rewrite Hcr, Hrn. assert (Hz' : zrep (mm v) (F Right c n l :: k) r) by now apply zrep_up.
    destruct (negb (match r with E => true | _ => false end) && (len <=? aug (mm v) (rid r))) eqn:Hc'.
    + apply (IH (F Right c n l :: k) r Visit); auto; [now destruct r| |unfold cost in *; cbn [climb_cost] in *; lia].
      cbn [lctx bu_done]. intros y Hy. rewrite app_assoc, elem_of_app, list_elem_of_singleton in Hy. destruct Hy as [Hy| ->]; [now apply Hd|auto].
    + apply (IH k (T c l n r) Climb); auto; [|unfold cost in *; lia].
      cbn [inorder bu_done]. intros y Hy. rewrite app_assoc, elem_of_app, elem_of_cons in Hy. destruct Hy as [Hy|[->|Hy]]; [now apply Hd|auto|].
      destruct r as [|rc rl rn rr]; [cbn in Hy; set_solver|]. cbn [negb andb rid] in Hc'. apply Z.leb_gt in Hc'.
      apply (small_gap v xs len lo hi (aug (mm v)) (T rc rl rn rr) y Hv Har Hc' Hy). rewrite Hx, !elem_of_app, elem_of_cons, elem_of_app. tauto.
  - pose proof (parent_of _ _ _ Hz ltac:(done)) as Hp. cbn [rid] in Hp. rewrite Hp. destruct k as [|[d pc p s] k]; cbn [cid].
    + change (0 =? NULL) with true. cbv iota. eexists. split; [reflexivity|]. split; [|discriminate]. intros y Hy. apply Hd. cbn [lctx]. cbn [plug] in Hxs. now rewrite <- Hxs.
    + pose proof (side_of _ _ _ _ _ _ _ Left Hz ltac:(done)) as Hside. cbn [rid] in Hside. rewrite Hside.
      pose proof Hz as (_ & (Hp0 & _) & _). rewrite (proj2 (Z.eqb_neq p NULL) Hp0).
      assert (Hz' : zrep (mm v) k (mk d pc p (T c l n r) s)) by now apply zrep_up.
      destruct d.
      * assert (Hpv : (vm_prev v p =? NULL) = false).
        { apply (left_child_prev v xs k pc (T c l n r) p s); auto. cbn [plug mk] in Hxs. rewrite Hxs, inorder_plug. now rewrite <- app_assoc. }
        rewrite Hpv. replace (vm_end v (vm_prev v p)) with (prev_end v p) by (unfold prev_end; now rewrite Hpv).
        apply (IH k (mk Left pc p (T c l n r) s) (Check (prev_end v p))); auto using mk_ne; [|unfold cost in *; cbn [climb_cost mk] in *; lia].
        cbn [mk bu_done inorder lctx rid] in *. auto.
      * apply (IH k (mk Right pc p (T c l n r) s) Climb); auto using mk_ne; [|unfold cost in *; cbn [climb_cost] in *; lia].
        cbn [mk bu_done inorder lctx] in *. intros y Hy. apply Hd. rewrite <- !app_assoc. exact Hy.
Qed.

(** ** Free ranges *)

(** [len] free bytes at [b] within [low, high). *)
Definition fits (v : vregion) (xs : list Z) (len low high b : Z) : Prop :=
  low <= b /\ b + len <= high /\ forall z, b <= z < b + len -> ~ mapped v xs z.

(** A free range lies after all areas or in the gap before one of them. *)
Lemma free_place v lo xs len b :
  sorted v lo xs -> 0 < len -> lo <= b -> (forall z, b <= z < b + len -> ~ mapped v xs z) ->
  lend v lo xs <= b \/ exists a y c, xs = a ++ y :: c /\ lend v lo a <= b /\ b + len <= vm_start v y.
Proof.
  revert lo. induction xs as [|x xs IH]; intros lo Hs Hlen Hlo Hfree; cbn [lend]; [auto|]. destruct Hs as (H1 & H2 & H3).
  destruct (Z.le_gt_cases (b + len) (vm_start v x)) as [Hle|Hgt].
  - right. exists [], x, xs. auto.
  - assert (Hx : vm_end v x <= b).
    { destruct (Z.le_gt_cases (vm_end v x) b) as [|Hgt']; [auto|]. exfalso. apply (Hfree (Z.max b (vm_start v x))); [lia|].
      apply mapped_cons. left. unfold covers. lia. }
    destruct (IH (vm_end v x)) as [H|(a & y & c & -> & Ha & Hy)]; auto.
    + intros z Hz Hm. apply (Hfree z Hz). apply mapped_cons. auto.
    + right. exists (x :: a), y, c. auto.
Qed.

(** A free range below the last area is in a suitable gap. *)
Lemma fits_suitable v xs len low high b :
  vinv v xs -> 0 < len -> 0 <= low -> fits v xs len low high b ->
  highest_vm_end v <= b \/ exists a y c, xs = a ++ y :: c /\ suitable v len (low + len) (high - len) y /\
    prev_end v y <= b /\ b + len <= vm_start v y.
Proof.
  intros Hv Hlen Hlow (H1 & H2 & H3). destruct (free_place v 0 xs len b) as [H|(a & y & c & -> & Ha & Hy)]; auto; [apply Hv|lia| |].
  - left. now rewrite (inv_high _ _ Hv).
  - right. exists a, y, c. destruct (gap_at v a y c Hv) as (E & _). rewrite E. unfold suitable. rewrite E. split_and!; auto; lia.
Qed.

(** Addresses between an area and the one before it are free. *)
Lemma gap_free v a y c z : vinv v (a ++ y :: c) -> prev_end v y <= z < vm_start v y -> ~ mapped v (a ++ y :: c) z.
Proof.
  intros Hv Hz Hm. destruct (gap_at v a y c Hv) as (E & _). rewrite E in Hz. pose proof (inv_sorted _ _ Hv) as Hs.
  apply sorted_app in Hs as [Hs1 Hs2]. apply mapped_app in Hm as [Hm|Hm].
  - pose proof (mapped_range _ _ _ _ Hs1 Hm). lia.
  - eapply sorted_mono in Hs2; [|reflexivity]. destruct Hs2 as (_ & H1 & H2).
    apply mapped_cons in Hm as [Hm|Hm]; [unfold covers in Hm; lia|]. pose proof (mapped_range _ _ _ _ H2 Hm). lia.
Qed.

Lemma above_free v xs z : vinv v xs -> highest_vm_end v <= z -> ~ mapped v xs z.
Proof. intros Hv Hz Hm. pose proof (mapped_range _ _ _ _ (inv_sorted _ _ Hv) Hm). rewrite (inv_high _ _ Hv) in Hz. lia. Qed.

Section searches.
Context (fuel : nat) (v : vregion) (xs : list Z) (len low high : Z).
Context (Hv : vinv v xs) (Hlen : 0 < len) (Hlow : 0 <= low) (Hhigh : high < 2 ^ 64 - ENOMEM) (Hfuel : (4 * length xs + 1 <= fuel)%nat).

(** The tree at the start of a search. *)
Lemma search_root :
  xs = [] /\ (root (mm v) =? NULL) = true \/
  (root (mm v) =? NULL) = false /\ exists t, t <> E /\ root (mm v) = rid t /\ zrep (mm v) [] t /\ aug_ok (vma_compute_gap v) (aug (mm v)) t /\
     xs = inorder t /\ (4 * length (ids t) + 1 <= fuel)%nat.
Proof.
  destruct (inv_tree _ _ Hv) as (t & Hz & _ & Hin & Ha). pose proof Hz as (Hr & Hroot & _). cbn [rep_ctx] in Hroot.
  rewrite Hroot, (rid_null _ _ _ Hr). destruct t as [|c l n r]; [left; auto|]. right. split; [reflexivity|].
  exists (T c l n r). split_and!; auto. rewrite ids_inorder, Hin. exact Hfuel.
Qed.

(** What the top-down search returns: the highest range that fits, or
    [-ENOMEM] if there is none. *)
Definition topdown_result (r : Z) : Prop :=
  fits v xs len low high r /\ (forall b, fits v xs len low high b -> b <= r) \/
  r = wrap64 (- ENOMEM) /\ forall b, ~ fits v xs len low high b.

Lemma no_fit : (forall y, y ∈ xs -> ~ suitable v len (low + len) (high - len) y) -> high - len < highest_vm_end v ->
  forall b, ~ fits v xs len low high b.
Proof.
  intros Hn Hh b Hb. pose proof Hb as (_ & Hb2 & _). destruct (fits_suitable v xs len low high b) as [H|(a & y & c & E & Hs & _)]; auto; [lia|].
  apply (Hn y); [rewrite E; set_solver|exact Hs].
Qed.

Lemma topdown_gap_spec :
  low + len <= high ->
  exists g, topdown_gap fuel v len low high = Some g /\
    match g with
    | None => forall b, ~ fits v xs len low high b
    | Some (gs, ge) => gs <= ge - len /\ low <= ge - len /\ ge <= high /\ (forall z, gs <= z < ge -> ~ mapped v xs z) /\
        forall b, fits v xs len low high b -> b <= ge - len
    end.
Proof.
  intros Hlh. unfold topdown_gap. rewrite !wrap64_small by (unfold is_word, ENOMEM in *; lia). cbv zeta.
  destruct (Z.leb_spec (highest_vm_end v) (high - len)) as [Hle|Hgt].
  { eexists. split; [reflexivity|]. split_and!; try lia; [|intros b (_ & Hb & _); lia]. intros z Hz. apply above_free; auto; lia. }
  destruct search_root as [[E _]|(-> & t & HE & -> & Hz & Ha & Hin & Hf)].
  { exfalso. pose proof (inv_high _ _ Hv) as Hh. rewrite E in Hh. cbn in Hh. lia. }
  destruct (Z.ltb_spec (aug (mm v) (rid t)) len) as [Hlt|Hge].
  { eexists. split; [reflexivity|]. cbn iota. apply no_fit; [|auto]. intros y Hy. eapply small_gap; eauto; [destruct t; [done|exact Hlt]|now rewrite <- Hin]. }
  destruct (topdown_loop_spec fuel v xs len (low + len) (high - len) [] t Visit) as (r & -> & Hr); auto.
  { cbn. set_solver. }
  cbn [mbind option_bind]. destruct r as [[]|[gs ge]]; (eexists; split; [reflexivity|]); cbn iota.
  - apply no_fit; auto.
  - destruct Hr as (a & y & c & E & (S1 & S2 & S3) & -> & -> & Hc). assert (Hv' := Hv). rewrite E in Hv' |- *.
    destruct (gap_at v a y c Hv') as (Epe & Hpe & _).
    assert (Hb : forall b, fits v (a ++ y :: c) len low high b -> b <= vm_start v y - len /\ b <= high - len).
    { intros b Hb. pose proof Hb as (_ & Hb2 & _). split; [|lia].
      destruct (fits_suitable v (a ++ y :: c) len low high b) as [H|(a' & y' & c' & E' & Hs & _ & Hy')]; auto; [lia|].
      assert (Hin' : y' ∈ a ++ y :: c) by (rewrite E'; set_solver). rewrite elem_of_app, elem_of_cons in Hin'.
      destruct Hin' as [H|[->|H]]; [|lia|destruct (Hc _ H Hs)].
      destruct (before_in v a (y :: c) y' y Hv' H); [set_solver|lia]. }
    destruct (Z.ltb_spec high (vm_start v y)); split_and!; try lia; try (intros b Hb'; apply Hb in Hb'; lia).
    + intros z Hz'. apply gap_free; auto; lia.
    + intros z Hz'. apply gap_free; auto.
Qed.

Lemma find_topdown_spec : exists r, __find_va_range_topdown fuel v len low high = Some r /\ topdown_result r.
Proof.
  unfold __find_va_range_topdown, topdown_result.
  assert (Hnone : high < low + len -> forall b, ~ fits v xs len low high b) by (intros H b (H1 & H2 & _); lia).
  destruct (Z.ltb_spec high len) as [H1|H1]; [eexists; split; [reflexivity|]; right; split; [auto|]; apply Hnone; lia|].
  rewrite (wrap64_small (high - len)) by (unfold is_word, ENOMEM in *; lia).
  destruct (Z.ltb_spec (high - len) low) as [H2|H2]; [eexists; split; [reflexivity|]; right; split; [auto|]; apply Hnone; lia|].
  destruct topdown_gap_spec as (g & -> & Hg); [lia|]. cbn [mbind option_bind]. destruct g as [[gs ge]|]; [|eexists; split; [reflexivity|]; auto].
  destruct Hg as (G1 & G2 & G3 & G4 & G5). rewrite wrap64_small by (unfold is_word, ENOMEM in *; lia). cbv zeta.
  rewrite (proj2 (Z.ltb_ge (ge - len) low)), (proj2 (Z.ltb_ge (ge - len) gs)) by lia. eexists. split; [reflexivity|]. left.
  split; [|exact G5]. split_and!; [lia|lia|]. intros z Hz. apply G4. lia.
Qed.

(** What the bottom-up search returns: the lowest range that fits. *)
Definition bottomup_result (r : Z) : Prop :=
  fits v xs len low high r /\ (forall b, fits v xs len low high b -> r <= b) \/
  r = wrap64 (- ENOMEM) /\ forall b, ~ fits v xs len low high b.

Lemma bottomup_highest :
  low + len <= high -> (forall y, y ∈ xs -> ~ suitable v len (low + len) (high - len) y) ->
  bottomup_result (if high - len <? highest_vm_end v then wrap64 (- ENOMEM)
                   else if highest_vm_end v <? low then low else highest_vm_end v).
Proof.
  intros Hlh Hn. unfold bottomup_result. destruct (Z.ltb_spec (high - len) (highest_vm_end v)) as [H|H].
  { right. split; [auto|]. now apply no_fit. }
  left. assert (Hr : (if highest_vm_end v <? low then low else highest_vm_end v) = Z.max low (highest_vm_end v))
    by (destruct (Z.ltb_spec (highest_vm_end v) low); lia). rewrite Hr. split.
  - split_and!; [lia|lia|]. intros z Hz. apply above_free; auto. lia.
  - intros b Hb. pose proof Hb as (Hb1 & _). destruct (fits_suitable v xs len low high b) as [H'|(a & y & c & E & Hs & _)]; auto; [lia|].
    destruct (Hn y); [rewrite E; set_solver|exact Hs].
Qed.

Lemma find_bottomup_spec : exists r, __find_va_range_bottomup fuel v len low high = Some r /\ bottomup_result r.
Proof.
  unfold __find_va_range_bottomup.
  assert (Hnone : high < low + len -> bottomup_result (wrap64 (- ENOMEM))) by (intros H; right; split; [auto|]; intros b (H1 & H2 & _); lia).
  destruct (Z.ltb_spec high len) as [H1|H1]; [eexists; split; [reflexivity|]; apply Hnone; lia|].
  rewrite (wrap64_small (high - len)) by (unfold is_word, ENOMEM in *; lia).
  destruct (Z.ltb_spec (high - len) low) as [H2|H2]; [eexists; split; [reflexivity|]; apply Hnone; lia|].
  rewrite (wrap64_small (low + len)) by (unfold is_word, ENOMEM in *; lia). cbv zeta.
  assert (Hloop : exists r, (if (root (mm v) =? NULL) || (aug (mm v) (root (mm v)) <? len) then Some (inl true)
      else bottomup_loop fuel v len (low + len) (high - len) (root (mm v)) Visit) = Some r /\ bu_result v len (low + len) (high - len) xs r).
  { destruct search_root as [[E ->]|(-> & t & HE & -> & Hz & Ha & Hin & Hf)]; cbn [orb].
    { eexists. split; [reflexivity|]. rewrite E. split; [set_solver|discriminate]. }
    destruct (Z.ltb_spec (aug (mm v) (rid t)) len) as [Hlt|Hge].
    - eexists. split; [reflexivity|]. split; [|discriminate]. intros y Hy. eapply small_gap; eauto; [destruct t; [done|exact Hlt]|now rewrite <- Hin].
    - apply (bottomup_loop_spec fuel v xs len _ _ [] t Visit); auto. cbn. set_solver. }
  destruct Hloop as (r & -> & Hr). cbn [mbind option_bind]. destruct r as [[]|gs].
  - destruct Hr as [Hn _]. pose proof (bottomup_highest ltac:(lia) Hn) as Hb. destruct (high - len <? highest_vm_end v); eexists; (split; [reflexivity|exact Hb]).
  - destruct Hr as [Hn Hh]. pose proof (bottomup_highest ltac:(lia) Hn) as Hb. rewrite (proj2 (Z.ltb_lt (high - len) (highest_vm_end v))) in Hb by auto.
    eexists. split; [reflexivity|exact Hb].
  - destruct Hr as (a & y & c & E & (S1 & S2 & S3) & -> & Ha). assert (Hv' := Hv). rewrite E in Hv'.
    destruct (gap_at v a y c Hv') as (Epe & Hpe & _). eexists. split; [reflexivity|]. left.
    assert (Hr : (if prev_end v y <? low then low else prev_end v y) = Z.max low (prev_end v y)) by (destruct (Z.ltb_spec (prev_end v y) low); lia).
    rewrite Hr, E. split.
    + split_and!; [lia|lia|]. intros z Hz. apply gap_free; auto. lia.
    + intros b Hb. pose proof Hb as (Hb1 & Hb2 & _). destruct (fits_suitable v (a ++ y :: c) len low high b) as [H|(a' & y' & c' & E' & Hs & Hy' & _)]; auto.
      * rewrite (inv_high _ _ Hv'), lend_app, <- Epe in H. pose proof (inv_sorted _ _ Hv') as Hso. apply sorted_app in Hso as [_ Hso]. rewrite <- Epe in Hso.
        apply sorted_lend in Hso. lia.
      * assert (Hin' : y' ∈ a ++ y :: c) by (rewrite E'; set_solver). rewrite elem_of_app, elem_of_cons in Hin'.
        destruct Hin' as [H|[->|H]]; [destruct (Ha _ H Hs)|lia|].
        destruct (before_in v (a ++ [y]) c y y') as [_ H']; [rewrite <- app_assoc; exact Hv'|set_solver|exact H|lia].
Qed.
End searches.

(** The limits of the region with index [vi]. *)
Lemma vregion_limits vi : 0 <= vi < NR_VREGIONS ->
  vregion_to_start_va vi = Some (if vi =? 0 then 0x1000 else vi * VREGION_SIZE) /\ vregion_to_end_va vi = Some ((vi + 1) * VREGION_SIZE).
Proof.
  change NR_VREGIONS with (2 ^ 20). change VREGION_SIZE with (2 ^ 30). intros H. unfold vregion_to_start_va, vregion_to_end_va, vregion_to_index.
  change NR_VREGIONS with (2 ^ 20). rewrite (proj2 (Z.leb_gt (2 ^ 20) vi)) by lia. cbn [mbind option_bind]. change VREGION_SIZE with (2 ^ 30).
  rewrite (wrap64_small (vi * 2 ^ 30)), (wrap64_small (vi + 1)), (wrap64_small ((vi + 1) * 2 ^ 30)) by (unfold is_word; lia).
  destruct (vi =? 0); auto.
Qed.

(** A search of the whole region, in either direction. *)
Lemma find_va_range_spec fuel v xs vi low high len topdown :
  vinv v xs -> 0 <= vi < NR_VREGIONS -> vregion_to_start_va vi = Some low -> vregion_to_end_va vi = Some high ->
  0 < len -> (4 * length xs + 1 <= fuel)%nat ->
  exists r, __find_va_range fuel v topdown low high len = Some r /\
    (len <= VREGION_SIZE /\ fits v xs len low high r /\
       (forall b, fits v xs len low high b -> if topdown then b <= r else r <= b) \/
     r = wrap64 (- ENOMEM) /\ (len <= VREGION_SIZE -> forall b, ~ fits v xs len low high b)).
Proof.
  intros Hv Hvi Hlo Hhi Hlen Hf. destruct (vregion_limits vi Hvi) as [E1 E2]. rewrite E1 in Hlo. rewrite E2 in Hhi. injection Hlo as Hlo. injection Hhi as Hhi. clear E1 E2.
  change NR_VREGIONS with (2 ^ 20) in *. change VREGION_SIZE with (2 ^ 30) in *.
  assert (Hl0 : 0 <= low) by (subst low; destruct (vi =? 0); lia). clear Hlo.
  assert (Hh : high < 2 ^ 64 - ENOMEM) by (unfold ENOMEM; lia). unfold __find_va_range. change VREGION_SIZE with (2 ^ 30).
  destruct (Z.ltb_spec (2 ^ 30) len) as [Hl|Hl]; [eexists; split; [reflexivity|]; right; split; [auto|]; lia|].
  assert (Hr : exists r, (if topdown then __find_va_range_topdown fuel v len low high else __find_va_range_bottomup fuel v len low high) = Some r /\
    (fits v xs len low high r /\ (forall b, fits v xs len low high b -> if topdown then b <= r else r <= b) \/
     r = wrap64 (- ENOMEM) /\ forall b, ~ fits v xs len low high b)).
  { destruct topdown; [apply find_topdown_spec|apply find_bottomup_spec]; auto. }
  destruct Hr as (r & -> & H). cbn [mbind option_bind]. rewrite (wrap64_small (high - len)) by (unfold is_word; lia).
  destruct H as [[Hfit Hb]|[-> Hn]].
  - pose proof Hfit as (_ & H2 & _). rewrite (proj2 (Z.ltb_ge (high - len) r)) by lia. eexists. split; [reflexivity|]. left. auto.
  - destruct (_ <? _); eexists; (split; [reflexivity|]); right; auto.
Qed.
