(* ===== verification/VmaSpec.v ===== *)
(** * vRegions: the claims

    The correctness of the vRegion code of vm.c in terms of the addresses that
    are mapped: freeing, mapping, searching, and the states that can be reached
    from [init_vregion]. *)

From stdpp Require Import functions relations.
From S2P Require Import Prelude RbTree RbTreeProofs RbErase RbSpec Vma VmaTree VmaOps VmaFree VmaSearch.

#[local] Set Warnings "-clear-no-such-hyp".

Lemma vm_fuel_len v xs : vinv v xs -> vm_fuel v = (4 * length xs + 3)%nat.
Proof. intros Hv. unfold vm_fuel. rewrite (inv_nr _ _ Hv). lia. Qed.

(** A region as [init_vregion] leaves it, over any memory. *)
Lemma init_vregion_inv v :
  (forall n, is_word (vm_start v n)) -> (forall n, is_word (vm_end v n)) -> pool_ok [] (pool v) -> vinv (init_vregion v) [].
Proof.
  intros Hs He Hp. split; [|reflexivity|exact I|reflexivity|reflexivity|exact Hs|exact He|exact Hp].
  exists E. split; [split; [exact I|split; [reflexivity|constructor]]|]. split; [split; [reflexivity|now exists O]|]. split; [reflexivity|exact I].
Qed.

(** The operations that change a region, with the arguments the callers pass:
    nonempty ranges that do not wrap. *)
Inductive vm_step : vregion -> vregion -> Prop :=
  | vm_step_free v start len err rs v' :
      0 <= start -> 0 < len -> start + len < 2 ^ 64 ->
      __free_va (vm_fuel v) v start len = Some (err, rs, v') -> vm_step v v'
  | vm_step_new v a len flags ret rs v' :
      0 <= a -> 0 < len -> a + len < 2 ^ 64 ->
      vma_tree_new (vm_fuel v) v a len flags = Some (ret, rs, v') -> vm_step v v'.

Lemma vm_step_inv v v' : vm_step v v' -> (exists xs, vinv v xs) -> exists xs, vinv v' xs.
Proof.
  intros Hs (xs & Hv). pose proof (vm_fuel_len v xs Hv) as Hf. destruct Hs as [v start len err rs v' H1 H2 H3 E|v a len flags ret rs v' H1 H2 H3 E].
  - destruct (free_va_spec (vm_fuel v) v xs start len) as (e & r & w & E' & xs' & H); auto; [lia|]. rewrite E in E'. injection E' as <- <- <-.
    exists xs'. destruct H as [(_ & H & _)|(_ & _ & (H & _) & _)]; exact H.
  - destruct (vma_tree_new_spec (vm_fuel v) v xs a len flags) as (e & r & w & xs' & E' & H & _); auto; [lia|]. rewrite E in E'. injection E' as <- <- <-.
    now exists xs'.
Qed.

Lemma vm_reach_inv v v' : rtc vm_step v v' -> (exists xs, vinv v xs) -> exists xs, vinv v' xs.
Proof. induction 1 as [|v1 v2 v3 H _ IH]; [auto|]. intros Hv. apply IH. eapply vm_step_inv; eauto. Qed.

(** C37: From a freshly initialised region, over any memory and any behaviour of
    malloc that hands out new addresses, every state that a sequence of
    [__free_va] and [vma_tree_new] calls reaches satisfies the invariant: the list
    and the red-black tree hold the same areas, sorted and disjoint, with exact
    counters, gaps and maxima.  In every such state both operations and both
    searches return: no loop runs out, no BUG and no null pointer is met. *)
Theorem vregion_reachable_safe v0 v :
  (forall n, is_word (vm_start v0 n)) -> (forall n, is_word (vm_end v0 n)) -> pool_ok [] (pool v0) ->
  rtc vm_step (init_vregion v0) v ->
  (exists xs, vinv v xs) /\
  (forall start len, 0 <= start -> 0 < len -> start + len < 2 ^ 64 ->
     is_Some (__free_va (vm_fuel v) v start len) /\ forall flags, is_Some (vma_tree_new (vm_fuel v) v start len flags)) /\
  (forall low high len, 0 < len -> 0 <= low -> high < 2 ^ 64 - ENOMEM ->
     is_Some (__find_va_range_topdown (vm_fuel v) v len low high) /\ is_Some (__find_va_range_bottomup (vm_fuel v) v len low high)).
Proof.
  intros Hs He Hp Hr. destruct (vm_reach_inv _ _ Hr) as (xs & Hv).
  { exists []. now apply init_vregion_inv. }
  pose proof (vm_fuel_len v xs Hv) as Hf. split_and!; [eauto| |].
  - intros start len H1 H2 H3. split; [|intros flags].
    + destruct (free_va_spec (vm_fuel v) v xs start len) as (? & ? & ? & -> & _); eauto. lia.
    + destruct (vma_tree_new_spec (vm_fuel v) v xs start len flags) as (? & ? & ? & ? & -> & _); eauto. lia.
  - intros low high len H1 H2 H3. split.
    + destruct (find_topdown_spec (vm_fuel v) v xs len low high) as (? & -> & _); eauto. lia.
    + destruct (find_bottomup_spec (vm_fuel v) v xs len low high) as (? & -> & _); eauto. lia.
Qed.

(** An empty region, and one with two areas. *)
Definition ex_empty : vregion :=
  init_vregion (VRegion (Store (fun _ => Node 0 0 0) (fun _ => 0) 0) (fun _ => 0) (fun _ => 0) (fun _ => 0) (fun _ => 0) (fun _ => 0)
    0 0 0 [64; 128; 192; 256; 320]).
Definition ex_new (v : vregion) (a len flags : Z) : vregion :=
  match vma_tree_new (vm_fuel v) v a len flags with Some (_, _, v') => v' | None => v end.
Definition ex_two : vregion := ex_new (ex_new ex_empty 4096 4096 1) 16384 8192 2.

Lemma ex_empty_inv : vinv ex_empty [].
Proof.
  apply init_vregion_inv; cbn [vm_start vm_end pool]; intros; [unfold is_word; lia..|].
  unfold addr. cbn. split_and!; try lia; intros _; (split_and!; try lia; apply (bool_decide_unpack _); vm_compute; exact I).
Qed.

Lemma ex_new_step v xs a len flags :
  vinv v xs -> 0 <= a -> 0 < len -> a + len < 2 ^ 64 -> vm_step v (ex_new v a len flags) /\ exists xs', vinv (ex_new v a len flags) xs'.
Proof.
  intros Hv H1 H2 H3. pose proof (vm_fuel_len v xs Hv) as Hf. unfold ex_new.
  destruct (vma_tree_new_spec (vm_fuel v) v xs a len flags) as (ret & rs & v' & xs' & E & Hv' & _); auto; [lia|]. rewrite E.
  split; [|eauto]. eapply vm_step_new; eauto.
Qed.

Lemma ex_two_reach : rtc vm_step ex_empty ex_two /\ exists xs, vinv ex_two xs.
Proof.
  destruct (ex_new_step ex_empty [] 4096 4096 1 ex_empty_inv) as (H1 & xs & Hv); [lia..|].
  destruct (ex_new_step _ xs 16384 8192 2 Hv) as (H2 & H3); [lia..|].
  split; [|exact H3]. eapply rtc_l; [exact H1|]. now apply rtc_once.
Qed.

Lemma ex_empty_pool : pool_ok [] [64; 128; 192; 256; 320].
Proof. apply (inv_pool _ _ ex_empty_inv). Qed.

Lemma vregion_reachable_safe_witness :
  rtc vm_step ex_empty ex_two /\
  (exists xs, vinv ex_two xs) /\ is_Some (__free_va (vm_fuel ex_two) ex_two 4096 8192).
Proof.
  destruct ex_two_reach as [Hr _].
  destruct (vregion_reachable_safe ex_empty ex_two) as (H1 & H2 & _).
  - intros n. unfold is_word. cbn. lia.
  - intros n. unfold is_word. cbn. lia.
  - exact ex_empty_pool.
  - exact Hr.
  - split; [exact Hr|]. split; [exact H1|]. exact (proj1 (H2 4096 8192 ltac:(lia) ltac:(lia) ltac:(lia))).
Defined.

(** [__free_va] on a nonempty range returns.  On 0, exactly the addresses of
    the range have been unmapped, all others keep their flags, and the ranges
    whose page-table entries are given back are those of the range that were
    mapped and not marked as conflicts.  The only error is -ENOMEM: nothing has
    been unmapped, and either an area structure could not be allocated or the
    range lies strictly inside one area. *)
Theorem free_va_correct fuel v xs start len :
  vinv v xs -> 0 <= start -> 0 < len -> start + len < 2 ^ 64 -> (length xs + 2 < fuel)%nat ->
  exists err rs v' xs', __free_va fuel v start len = Some (err, rs, v') /\ vinv v' xs' /\
    (err = 0 /\
       (forall z f, maps v' xs' z f <-> maps v xs z f /\ ~ (start <= z < start + len)) /\
       (forall z, in_ranges rs z <-> start <= z < start + len /\ exists f, maps v xs z f /\ f <> LEGOMEM_VM_FLAGS_CONFLICT) \/
     err = - ENOMEM /\ rs = [] /\ (forall z f, maps v' xs' z f <-> maps v xs z f) /\
       (scarce v \/ exists x, x ∈ xs /\ vm_start v x < start /\ start + len < vm_end v x)).
Proof.
  intros Hv H1 H2 H3 Hf. destruct (free_va_spec fuel v xs start len) as (err & rs & v' & E & xs' & H); auto.
  exists err, rs, v', xs'. destruct H as [(-> & Hv' & _ & Hm & Hr & _)|(-> & -> & (Hv' & Hm & _) & Hs)]; auto 10.
Qed.

Lemma free_va_correct_witness :
  exists xs, vinv ex_two xs /\
  exists err rs v' xs', __free_va (4 * length xs + 3) ex_two 4096 8192 = Some (err, rs, v') /\ vinv v' xs'.
Proof.
  destruct ex_two_reach as (_ & xs & Hv). exists xs. split; [exact Hv|].
  destruct (free_va_correct (4 * length xs + 3) ex_two xs 4096 8192 Hv) as (err & rs & v' & xs' & E & H & _); [lia..|].
  exists err, rs, v', xs'. split; [exact E|exact H].
Defined.

(** [vma_tree_new] returns.  On success it returns the address, exactly the
    range has been added to the mapped addresses, and what was mapped there
    before has been given back as by [__free_va].  On -ENOMEM nothing new is
    mapped: either all is as before, or only the range has been freed. *)
Theorem vma_tree_new_correct fuel v xs a len flags :
  vinv v xs -> 0 <= a -> 0 < len -> a + len < 2 ^ 64 -> (length xs + 2 < fuel)%nat ->
  exists ret rs v' xs', vma_tree_new fuel v a len flags = Some (ret, rs, v') /\ vinv v' xs' /\
    (ret = a /\ (forall z, mapped v' xs' z <-> mapped v xs z \/ a <= z < a + len) /\
       (forall z, in_ranges rs z <-> a <= z < a + len /\ exists f, maps v xs z f /\ f <> LEGOMEM_VM_FLAGS_CONFLICT) \/
     ret = wrap64 (- ENOMEM) /\
       ((forall z f, maps v' xs' z f <-> maps v xs z f) /\ rs = [] \/
        (forall z f, maps v' xs' z f <-> maps v xs z f /\ ~ (a <= z < a + len)) /\
        (forall z, in_ranges rs z <-> a <= z < a + len /\ exists f, maps v xs z f /\ f <> LEGOMEM_VM_FLAGS_CONFLICT))).
Proof.
  intros Hv H1 H2 H3 Hf. destruct (vma_tree_new_spec fuel v xs a len flags) as (ret & rs & v' & xs' & E & Hv' & H); auto.
  exists ret, rs, v', xs'. split; [auto|]. split; [auto|].
  destruct H as [H|(-> & [((_ & Hm & _) & -> & _)|(_ & _ & Hm & Hr & _)])]; auto 10.
Qed.

Lemma vma_tree_new_correct_witness :
  exists xs, vinv ex_two xs /\
  exists ret rs v' xs', vma_tree_new (4 * length xs + 3) ex_two 8192 8192 1 = Some (ret, rs, v') /\ vinv v' xs'.
Proof.
  destruct ex_two_reach as (_ & xs & Hv). exists xs. split; [exact Hv|].
  destruct (vma_tree_new_correct (4 * length xs + 3) ex_two xs 8192 8192 1 Hv) as (ret & rs & v' & xs' & E & H & _); [lia..|].
  exists ret, rs, v', xs'. split; [exact E|exact H].
Defined.

(** Freeing succeeds whenever two area structures can be allocated and the
    range does not lie strictly inside one area. *)
Theorem free_va_succeeds fuel v xs start len :
  vinv v xs -> 0 <= start -> 0 < len -> start + len < 2 ^ 64 -> (length xs + 2 < fuel)%nat ->
  hd 0 (pool v) <> 0 -> hd 0 (tl (pool v)) <> 0 ->
  (forall x, x ∈ xs -> vm_start v x < start -> vm_end v x <= start + len) ->
  exists rs v' xs', __free_va fuel v start len = Some (0, rs, v') /\ vinv v' xs' /\
    forall z, mapped v' xs' z <-> mapped v xs z /\ ~ (start <= z < start + len).
Proof.
  intros Hv H1 H2 H3 Hf Hp1 Hp2 Hin. destruct (free_va_spec fuel v xs start len) as (err & rs & v' & E & xs' & H); auto.
  destruct H as [(-> & Hv' & _ & Hm & _)|(_ & _ & _ & [[Hs|Hs]|(x & Hx & Hs & He)])]; [|congruence|congruence|specialize (Hin x Hx Hs); lia].
  exists rs, v', xs'. split_and!; auto. intros z. rewrite !mapped_maps. setoid_rewrite Hm. naive_solver.
Qed.

Lemma free_va_succeeds_witness :
  exists xs, vinv ex_two xs /\
  exists rs v' xs', __free_va (4 * length xs + 3) ex_two 0 32768 = Some (0, rs, v') /\ vinv v' xs' /\
    forall z, mapped v' xs' z <-> mapped ex_two xs z /\ ~ (0 <= z < 0 + 32768).
Proof.
  destruct ex_two_reach as (_ & xs & Hv). exists xs. split; [exact Hv|].
  apply (free_va_succeeds (4 * length xs + 3) ex_two xs 0 32768 Hv); [lia|lia|lia|lia|vm_compute; discriminate|vm_compute; discriminate|].
  intros x _ Hx. pose proof (inv_start _ _ Hv x) as H. unfold is_word in H. lia.
Defined.

(** *** Searching *)

(** C38: In the region with index [vi], [__find_va_range] returns.  For a length
    of at most a region it finds the highest (top-down) or the lowest
    (bottom-up) free range of that length within the region, and -ENOMEM exactly
    when the region has none; a longer request is -ENOMEM. *)
Theorem find_va_range_correct fuel v xs vi low high len topdown :
  vinv v xs -> 0 <= vi < NR_VREGIONS -> vregion_to_start_va vi = Some low -> vregion_to_end_va vi = Some high ->
  0 < len -> (4 * length xs + 1 <= fuel)%nat ->
  exists r, __find_va_range fuel v topdown low high len = Some r /\
    (len <= VREGION_SIZE /\ fits v xs len low high r /\
       (forall b, fits v xs len low high b -> if topdown then b <= r else r <= b) \/
     r = wrap64 (- ENOMEM) /\ (len <= VREGION_SIZE -> forall b, ~ fits v xs len low high b)).
Proof. intros. now apply find_va_range_spec with (vi := vi). Qed.

Lemma find_va_range_correct_witness :
  exists xs, vinv ex_two xs /\
  exists r, __find_va_range (4 * length xs + 1) ex_two true 4096 (2 ^ 30) 4096 = Some r /\
    (4096 <= VREGION_SIZE /\ fits ex_two xs 4096 4096 (2 ^ 30) r /\
       (forall b, fits ex_two xs 4096 4096 (2 ^ 30) b -> b <= r) \/
     r = wrap64 (- ENOMEM) /\ (4096 <= VREGION_SIZE -> forall b, ~ fits ex_two xs 4096 4096 (2 ^ 30) b)).
Proof.
  destruct ex_two_reach as (_ & xs & Hv). exists xs. split; [exact Hv|].
  apply (find_va_range_correct (4 * length xs + 1) ex_two xs 0 4096 (2 ^ 30) 4096 true Hv); [|reflexivity|reflexivity|lia|lia].
  split; [lia|reflexivity].
Defined.

(** *** Conflict areas are merged with ordinary ones *)

(** [can_vma_merge] ignores flags.  When a range is mapped next to an area
    that marks a page-table conflict, it joins that area and takes its flags:
    freeing the range then succeeds without giving back any page-table entry,
    although the range was mapped with ordinary flags. *)
Theorem conflict_merge_loses_entries :
  let v := ex_new (ex_new ex_empty PAGE_SIZE PAGE_SIZE LEGOMEM_VM_FLAGS_CONFLICT) (2 * PAGE_SIZE) PAGE_SIZE 1 in
  nr_vmas v = 1 /\ option_map (fun r => fst r) (__free_va (vm_fuel v) v (2 * PAGE_SIZE) PAGE_SIZE) = Some (0, []).
Proof. split; vm_compute; reflexivity. Qed.

(** A range strictly inside one area cannot be freed: [__free_va] returns
    -ENOMEM and leaves the region as it was, however much memory there is. *)
Theorem free_inside_area_fails fuel v xs1 x xs2 start len :
  vinv v (xs1 ++ x :: xs2) -> vm_start v x < start -> 0 < len -> start + len < vm_end v x -> (length (xs1 ++ x :: xs2) < fuel)%nat ->
  __free_va fuel v start len = Some (- ENOMEM, [], v).
Proof.
  intros Hv H1 H2 H3 Hf. destruct (vinv_split_facts _ _ _ _ Hv) as (_ & _ & Hs1 & Hlo & _).
  pose proof (inv_start _ _ Hv x) as Hw. pose proof (inv_end _ _ Hv x) as Hw'. unfold is_word in Hw, Hw'. unfold __free_va.
  rewrite (proj2 (Z.eqb_neq len 0)) by lia. rewrite wrap64_small by (unfold is_word; lia).
  rewrite (find_vma_spec fuel v _ start Hv Hf), first_after_app, (first_after_below v start _ 0 xs1 Hs1) by lia. cbn [first_after mbind option_bind].
  rewrite (proj2 (Z.ltb_lt start (vm_end v x))) by lia. destruct (vlist_at _ _ _ _ (inv_list _ _ Hv)) as (Hx0 & _).
  rewrite (proj2 (Z.eqb_neq x NULL) Hx0), (proj2 (Z.leb_gt (start + len) (vm_start v x))), (proj2 (Z.ltb_lt (vm_start v x) start)),
    (proj2 (Z.ltb_lt (start + len) (vm_end v x))) by lia. reflexivity.
Qed.

Lemma ex_one_inv : vinv (ex_new ex_empty 4096 8192 1) [64].
Proof.
  destruct (ex_new_step ex_empty [] 4096 8192 1 ex_empty_inv) as (_ & xs & Hv); [lia..|].
  assert (Hm : mmap (ex_new ex_empty 4096 8192 1) = 64 /\ vm_next (ex_new ex_empty 4096 8192 1) 64 = 0) by (split; vm_compute; reflexivity).
  destruct Hm as [Hm Hn]. pose proof (inv_list _ _ Hv) as Hl. destruct xs as [|x xs].
  { exfalso. apply vlist_mmap in Hl. rewrite Hm in Hl. discriminate. }
  pose proof (vlist_mmap _ _ Hl) as Hh. rewrite Hm in Hh. cbn in Hh. subst x.
  destruct (vlist_at _ [] 64 xs Hl) as (_ & _ & E). rewrite Hn in E. destruct xs as [|y ys]; [exact Hv|].
  exfalso. cbn in E. subst y. eapply lseg_nonnull; [exact Hl| |reflexivity]. set_solver.
Qed.

Lemma free_inside_area_fails_witness :
  __free_va 2 (ex_new ex_empty 4096 8192 1) 8192 1024 = Some (- ENOMEM, [], ex_new ex_empty 4096 8192 1).
Proof.
  apply (free_inside_area_fails 2 (ex_new ex_empty 4096 8192 1) [] 64 [] 8192 1024 ex_one_inv); [|lia| |cbn; lia]; vm_compute; reflexivity.
Defined.
