(* ===== verification/Pgtable.v ===== *)
(** * Page tables (board/soc/core/pgtable.c, pgtable.h, shadow_pgtable.c) and the
    allocation of virtual addresses (board/soc/core/vm.c)

    The FPGA page table is a hash table of buckets with sixteen slots each; the
    SoC keeps a shadow copy, the number of free slots per bucket and the list of
    pages that were refused because their bucket was full.  A pointer to an entry
    is the number of its slot, counted from the base of its table, and a bucket is
    its index.  [regs] holds the vRegions of all processes, by process id and
    index, [zone] the page allocator of [Buddy].  [cleared] records the pages that
    [clear_fpga_page] has zeroed and [flushes] the requests of [tlb_flush], latest
    first; both are only observed by the FPGA.

    [free_all_conflicts] calls [__free_va] again from inside [__free_va]: the
    recursion goes through [sys_free_va], whose depth is bounded by fuel.  The
    code frees the page-table entries of each detached area in order while
    [unmap_region] walks the list; [__free_va] of [Vma] returns these ranges and
    they are processed in the same order right after it, which is the same since
    the detached areas are no longer part of any region.

    [None] is a [BUG], an exit of the program, or missing fuel. *)

From stdpp Require Import functions.
From S2P Require Import Prelude Bitops DList Buddy RbTree Vma.

Definition FPGA_TAG_OFFSET : Z := 20.
Definition PHYSICAL_MEM_SIZE_BITS : Z := 40.
Definition FPGA_NUM_PTE_PER_BUCKET_BITS : Z := 4.
Definition FPGA_NUM_PTE_PER_BUCKET : Z := 2 ^ FPGA_NUM_PTE_PER_BUCKET_BITS.
Definition SCALE_FACTOR_SHIFT : Z := 1.
Definition FPGA_NUM_PGTABLE_BUCKETS_BITS : Z :=
  PHYSICAL_MEM_SIZE_BITS - PAGE_SHIFT - FPGA_NUM_PTE_PER_BUCKET_BITS + SCALE_FACTOR_SHIFT.
Definition FPGA_NUM_PGTABLE_BUCKETS : Z := 2 ^ FPGA_NUM_PGTABLE_BUCKETS_BITS.
Definition FPGA_BUCKET_NUMBER_LENGTH : Z := FPGA_NUM_PGTABLE_BUCKETS_BITS.
Definition FPGA_NUM_TOTAL_PTES : Z := FPGA_NUM_PTE_PER_BUCKET * FPGA_NUM_PGTABLE_BUCKETS.

Definition FPGA_MEMORY_MAP_MAPPING_BASE : Z := 0x500000000.
Definition FPGA_MEMORY_MAP_PGTABLE_START : Z := FPGA_MEMORY_MAP_MAPPING_BASE + 0x20000000.
Definition FPGA_MEMORY_MAP_PGTABLE_END : Z := FPGA_MEMORY_MAP_MAPPING_BASE + 0x40000000.
Definition FPGA_MEMORY_MAP_PGTABLE_SIZE : Z := FPGA_MEMORY_MAP_PGTABLE_END - FPGA_MEMORY_MAP_PGTABLE_START.

Definition LEGOMEM_VM_FLAGS_POPULATE : Z := 2.
Definition LEGOMEM_VM_FLAGS_ZERO : Z := 4.
Definition LEGOMEM_VM_FLAGS_USE_SPARE_PFN : Z := 16.

(** The [ppa] field has 60 bits. *)
Definition wrap60 (x : Z) : Z := x mod 2 ^ 60.

Record lego_mem_pte := Pte { ppa : Z; page_type : Z; allocated : bool; valid : bool; tag : Z }.
Definition sizeof_pte : Z := 16.
Definition sizeof_bucket : Z := 256.

Record conflict_info := Conflict { ci_pi : Z; ci_vi : Z; ci_start : Z; ci_page_size : Z }.

(** [shadow_bucket_info], by bucket. *)
Record bucket_info := Bucket { info_free : Z; nr_conflicts : Z; conflict_head : list conflict_info }.

Record soc := Soc {
  shadow : Z -> lego_mem_pte;
  fpga : Z -> lego_mem_pte;
  infos : Z -> bucket_info;
  nr_allocated_ptes : Z;
  zone : fpga_zone;
  regs : Z * Z -> vregion;
  cached_vregion_start : Z;
  cleared : list Z;
  flushes : list (Z * Z * Z);
}.

Definition set_shadow (s : soc) (i : Z) (p : lego_mem_pte) : soc :=
  Soc (<[i := p]> (shadow s)) (fpga s) (infos s) (nr_allocated_ptes s) (zone s) (regs s) (cached_vregion_start s) (cleared s) (flushes s).
Definition set_fpga (s : soc) (i : Z) (p : lego_mem_pte) : soc :=
  Soc (shadow s) (<[i := p]> (fpga s)) (infos s) (nr_allocated_ptes s) (zone s) (regs s) (cached_vregion_start s) (cleared s) (flushes s).
Definition set_info (s : soc) (i : Z) (b : bucket_info) : soc :=
  Soc (shadow s) (fpga s) (<[i := b]> (infos s)) (nr_allocated_ptes s) (zone s) (regs s) (cached_vregion_start s) (cleared s) (flushes s).
Definition set_nr_allocated (s : soc) (n : Z) : soc :=
  Soc (shadow s) (fpga s) (infos s) n (zone s) (regs s) (cached_vregion_start s) (cleared s) (flushes s).
Definition set_zone (s : soc) (z : fpga_zone) : soc :=
  Soc (shadow s) (fpga s) (infos s) (nr_allocated_ptes s) z (regs s) (cached_vregion_start s) (cleared s) (flushes s).
Definition set_reg (s : soc) (k : Z * Z) (v : vregion) : soc :=
  Soc (shadow s) (fpga s) (infos s) (nr_allocated_ptes s) (zone s) (<[k := v]> (regs s)) (cached_vregion_start s) (cleared s) (flushes s).
Definition set_cached (s : soc) (n : Z) : soc :=
  Soc (shadow s) (fpga s) (infos s) (nr_allocated_ptes s) (zone s) (regs s) n (cleared s) (flushes s).
Definition add_cleared (s : soc) (pfn : Z) : soc :=
  Soc (shadow s) (fpga s) (infos s) (nr_allocated_ptes s) (zone s) (regs s) (cached_vregion_start s) (pfn :: cleared s) (flushes s).
Definition add_flush (s : soc) (r : Z * Z * Z) : soc :=
  Soc (shadow s) (fpga s) (infos s) (nr_allocated_ptes s) (zone s) (regs s) (cached_vregion_start s) (cleared s) (r :: flushes s).

(** ** Addressing the tables *)

Definition hash_lower_bits (addr shift : Z) : Z := Z.land (addr >>w shift) ((1 <<w FPGA_BUCKET_NUMBER_LENGTH) -w 1).
Definition addr_to_bucket_index (addr page_size_shift : Z) : Z := wrap32 (hash_lower_bits addr page_size_shift).

(** The id is taken modulo 2^16. *)
Definition generate_tag (pid va : Z) : Z :=
  Z.lor (Z.land pid 0xFFFF <<w (64 - FPGA_TAG_OFFSET)) (va >>w FPGA_TAG_OFFSET).

Definition shadow_pte_to_bucket_index (pte : Z) : Z := wrap32 (pte / FPGA_NUM_PTE_PER_BUCKET).

(** The index is an [int], compared as an [unsigned long]; [None] is [BUG]. *)
Definition index_to_shadow_bucket_info (index : Z) : option Z :=
  if FPGA_NUM_PGTABLE_BUCKETS <=? wrap64 index then None else Some index.

(** [for (i = 0; i < FPGA_NUM_PTE_PER_BUCKET; i++)]: the first slot of a bucket
    that satisfies [p]. *)
Fixpoint scan_bucket (n : nat) (table : Z -> lego_mem_pte) (p : lego_mem_pte -> bool) (pte : Z) : option Z :=
  match n with
  | O => None
  | S n' => if p (table pte) then Some pte else scan_bucket n' table p (pte + 1)
  end.
Definition find_slot (table : Z -> lego_mem_pte) (p : lego_mem_pte -> bool) (bucket : Z) : option Z :=
  scan_bucket (Z.to_nat FPGA_NUM_PTE_PER_BUCKET) table p (bucket * FPGA_NUM_PTE_PER_BUCKET).

Definition has_tag (t : Z) (pte : lego_mem_pte) : bool := allocated pte && (tag pte =? t).

Definition shadow_to_fpga_pte (soc_shadow_pte : Z) : option Z :=
  if FPGA_MEMORY_MAP_PGTABLE_SIZE <=? soc_shadow_pte *w sizeof_pte then None else Some soc_shadow_pte.

Section tables.
(** The addresses of the two tables, and the page set aside at boot. *)
Context (shadow_base devmem_pgtable_base global_spare_pfn : Z).

Definition devmem_pgtable_limit : Z := devmem_pgtable_base +w FPGA_MEMORY_MAP_PGTABLE_SIZE.

(** The bucket, as an index; [None] is the [BUG] of the sanity check. *)
Definition addr_to_bucket (pgtable_base_addr addr page_size_shift : Z) : option Z :=
  let index := addr_to_bucket_index addr page_size_shift in
  let bucket := pgtable_base_addr +w index * sizeof_bucket in
  if devmem_pgtable_limit <=? bucket then None else Some index.

(** The entry of an address, if it has one. *)
Definition addr_to_fpga_pte (s : soc) (pid addr page_size_shift : Z) : option (option Z) :=
  bucket ← addr_to_bucket devmem_pgtable_base addr page_size_shift;
  Some (find_slot (fpga s) (has_tag (generate_tag pid addr)) bucket).
Definition addr_to_shadow_pte (s : soc) (pid addr page_size_shift : Z) : option (option Z) :=
  bucket ← addr_to_bucket shadow_base addr page_size_shift;
  Some (find_slot (shadow s) (has_tag (generate_tag pid addr)) bucket).

(** ** Allocating entries *)

Definition alloc_one_shadow_pte (s : soc) (pid addr page_size_shift : Z) : option (option Z * soc) :=
  bucket ← addr_to_bucket shadow_base addr page_size_shift;
  info ← index_to_shadow_bucket_info (sint32 (addr_to_bucket_index addr page_size_shift));
  match find_slot (shadow s) (fun pte => negb (allocated pte)) bucket with
  | Some pte =>
      let e := shadow s pte in
      let s := set_shadow s pte (Pte (ppa e) (page_type e) true false (generate_tag pid addr)) in
      let b := infos s info in
      let s := set_info s info (Bucket (sint32 (info_free b - 1)) (nr_conflicts b) (conflict_head b)) in
      Some (Some pte, set_nr_allocated s (nr_allocated_ptes s +w 1))
  | None => Some (None, s)
  end.

(** [None] inside: the function returned [NULL]. *)
Definition alloc_one_fpga_pte (s : soc) (soc_shadow_pte vm_flags page_size : Z) : option (option Z * soc) :=
  match shadow_to_fpga_pte soc_shadow_pte with
  | None => Some (None, s)
  | Some fpga_pte =>
      if allocated (fpga s fpga_pte) then Some (None, s)
      else
        let e := fpga s fpga_pte in
        let s := set_fpga s fpga_pte (Pte (ppa e) (page_type e) true (valid e) (tag (shadow s soc_shadow_pte))) in
        if negb (Z.land vm_flags LEGOMEM_VM_FLAGS_POPULATE =? 0) then
          let order := __get_order page_size in
          '(pfn, z) ← alloc_pfn MAX_ORDER START_PFN MAX_PFN (zone s) order;
          let s := set_zone s z in
          let pfn :=
            if pfn =? 0 then
              if negb (Z.land vm_flags LEGOMEM_VM_FLAGS_USE_SPARE_PFN =? 0) then global_spare_pfn else 0
            else pfn in
          if pfn =? 0 then Some (None, s)
          else
            let e := fpga s fpga_pte in
            let s := set_fpga s fpga_pte (Pte (wrap60 (PFN_PHYS pfn +w FPGA_MEMORY_MAP_MAPPING_BASE)) (page_type e) (allocated e) true (tag e)) in
            (* [pfn_to_soc_va] *)
            if (MAX_PFN <=? pfn) || (pfn <? START_PFN) then None
            else Some (Some fpga_pte, if negb (Z.land vm_flags LEGOMEM_VM_FLAGS_ZERO =? 0) then add_cleared s pfn else s)
        else
          let e := fpga s fpga_pte in
          Some (Some fpga_pte, set_fpga s fpga_pte (Pte 0 (page_type e) (allocated e) false (tag e)))
  end.

Fixpoint alloc_fpga_pte_range (fuel : nat) (s : soc) (pid start vend vm_flags page_size : Z) : option soc :=
  match fuel with
  | O => None
  | S fuel' =>
      if start <? vend then
        '(pte, s) ← alloc_one_shadow_pte s pid start PAGE_SHIFT;
        s ← match pte with
            | None => Some s
            | Some pte => '(_, s) ← alloc_one_fpga_pte s pte vm_flags page_size; Some s
            end;
        alloc_fpga_pte_range fuel' s pid (start +w page_size) vend vm_flags page_size
      else Some s
  end.

(** ** Freeing entries *)

Definition zap_pte (s : soc) (soc_shadow_pte page_size : Z) : option soc :=
  match shadow_to_fpga_pte soc_shadow_pte with
  | None => Some s
  | Some fpga_pte =>
      if negb (allocated (fpga s fpga_pte)) then Some s
      else
        s ← (if valid (fpga s fpga_pte) then
               let phys := ppa (fpga s fpga_pte) -w FPGA_MEMORY_MAP_MAPPING_BASE in
               z ← free_pfn MAX_ORDER START_PFN MAX_PFN (zone s) (PHYS_PFN phys) (__get_order page_size);
               let e := fpga s fpga_pte in
               Some (set_fpga (set_zone s z) fpga_pte (Pte 0 (page_type e) (allocated e) false (tag e)))
             else Some s);
        let e := fpga s fpga_pte in
        Some (set_fpga s fpga_pte (Pte (ppa e) (page_type e) false (valid e) 0))
  end.

Definition tlb_flush (s : soc) (pid va size : Z) : soc := add_flush s (pid, va, size).

Section freeing.
(** [__free_va] on a vRegion, as called back by [free_all_conflicts]. *)
Context (free_cb : soc -> Z -> Z -> Z -> Z -> option (Z * soc)).

Fixpoint free_all_conflicts (fuel : nat) (s : soc) (info : Z) : option soc :=
  match fuel with
  | O => None
  | S fuel' =>
      let b := infos s info in
      match conflict_head b with
      | [] => Some s
      | ci :: cs =>
          let s := set_info s info (Bucket (info_free b) (nr_conflicts b - 1) cs) in
          '(_, s) ← free_cb s (ci_pi ci) (ci_vi ci) (ci_start ci) (ci_page_size ci);
          free_all_conflicts fuel' s info
      end
  end.

Definition zap_shadow_pte (fuel : nat) (s : soc) (pte : Z) : option soc :=
  if negb (allocated (shadow s pte)) then Some s
  else
    info ← index_to_shadow_bucket_info (sint32 (shadow_pte_to_bucket_index pte));
    let b := infos s info in
    let s := set_info s info (Bucket (sint32 (info_free b + 1)) (nr_conflicts b) (conflict_head b)) in
    let s := set_nr_allocated s (nr_allocated_ptes s -w 1) in
    s ← free_all_conflicts fuel s info;
    let e := shadow s pte in
    Some (set_shadow s pte (Pte (ppa e) (page_type e) false false 0)).

Fixpoint free_pte_loop (fuel : nat) (s : soc) (pid start vend page_size : Z) : option soc :=
  match fuel with
  | O => None
  | S fuel' =>
      if start <? vend then
        pte ← addr_to_shadow_pte s pid start PAGE_SHIFT;
        s ← match pte with
            | None => Some s
            | Some pte => s ← zap_shadow_pte fuel' s pte; zap_pte s pte page_size
            end;
        free_pte_loop fuel' s pid (start +w page_size) vend page_size
      else Some s
  end.

Definition free_fpga_pte_range (fuel : nat) (s : soc) (pid start vend page_size : Z) : option soc :=
  s ← free_pte_loop fuel s pid start vend page_size;
  Some (tlb_flush s pid start (vend -w start)).

Fixpoint free_ranges (fuel : nat) (s : soc) (pid : Z) (rs : list (Z * Z)) : option soc :=
  match rs with
  | [] => Some s
  | (a, b) :: rs' =>
      s ← free_fpga_pte_range fuel s pid a b PAGE_SIZE;
      free_ranges fuel s pid rs'
  end.
End freeing.

(** ** [__free_va] and [vma_tree_new] with their page-table work *)

Fixpoint sys_free_va (fuel : nat) (s : soc) (pid vi start len : Z) : option (Z * soc) :=
  match fuel with
  | O => None
  | S fuel' =>
      let v := regs s (pid, vi) in
      '(err, rs, v) ← __free_va (vm_fuel v) v start len;
      s ← free_ranges (sys_free_va fuel') fuel' (set_reg s (pid, vi) v) pid rs;
      Some (err, s)
  end.

Fixpoint sys_clear_old_maps (fuel : nat) (s : soc) (pid vi addr len : Z) : option (option (Z * dir * Z) * soc) :=
  match fuel with
  | O => None
  | S fuel' =>
      let v := regs s (pid, vi) in
      r ← find_vma_links (vm_fuel v) v addr (addr +w len);
      match r with
      | inr pos => Some (Some pos, s)
      | inl _ =>
          '(err, s) ← sys_free_va fuel' s pid vi addr len;
          if negb (err =? 0) then Some (None, s) else sys_clear_old_maps fuel' s pid vi addr len
      end
  end.

Definition sys_vma_tree_new (fuel : nat) (s : soc) (pid vi addr len flags : Z) : option (Z * soc) :=
  '(pos, s) ← sys_clear_old_maps fuel s pid vi addr len;
  match pos with
  | None => Some (wrap64 (- ENOMEM), s)
  | Some pos =>
      let v := regs s (pid, vi) in
      '(ret, v) ← new_mapping (vm_fuel v) v pos addr len flags;
      Some (ret, set_reg s (pid, vi) v)
  end.

(** ** Allocating virtual addresses *)

Fixpoint conflicts_loop (fuel : nat) (s : soc) (pid vi start vend page_size page_size_shift : Z) (has_conflict : bool) :
    option (bool * soc) :=
  match fuel with
  | O => None
  | S fuel' =>
      if start <? vend then
        info ← index_to_shadow_bucket_info (sint32 (addr_to_bucket_index start page_size_shift));
        '(c, s) ←
          (if info_free (infos s info) =? 0 then
             let b := infos s info in
             let s := set_info s info (Bucket (info_free b) (nr_conflicts b + 1) (Conflict pid vi start page_size :: conflict_head b)) in
             '(_, s) ← sys_vma_tree_new fuel' s pid vi start page_size LEGOMEM_VM_FLAGS_CONFLICT;
             Some (true, s)
           else Some (has_conflict, s));
        conflicts_loop fuel' s pid vi (start +w page_size) vend page_size page_size_shift c
      else Some (has_conflict, s)
  end.

Definition check_and_insert_shadow_conflicts (fuel : nat) (s : soc) (pid vi addr page_size page_size_shift len : Z) : option (bool * soc) :=
  conflicts_loop fuel s pid vi addr (addr +w len) page_size page_size_shift false.

(** The code from the label [retry]; [nr_retry] counts the rounds.  Returns the
    address, or 0, and [*p_nr_retry] when the code sets it. *)
Fixpoint alloc_va_retry (fuel : nat) (s : soc) (pid vi len vm_flags nr_retry : Z) : option (Z * option Z * soc) :=
  match fuel with
  | O => None
  | S fuel' =>
      let v := regs s (pid, vi) in
      low ← vregion_to_start_va vi;
      high ← vregion_to_end_va vi;
      addr ← __find_va_range (vm_fuel v) v true low high len;
      if IS_ERR_VALUE addr then Some (0, Some nr_retry, set_cached s (wrap32 (cached_vregion_start s + 1)))
      else if negb (IS_ALIGNED addr PAGE_SIZE) then Some (0, None, s)
      else
        '(has_conflict, s) ← check_and_insert_shadow_conflicts fuel' s pid vi addr PAGE_SIZE PAGE_SHIFT len;
        if (has_conflict : bool) then alloc_va_retry fuel' s pid vi len vm_flags (nr_retry + 1)
        else
          '(addr, s) ← sys_vma_tree_new fuel' s pid vi addr len vm_flags;
          if IS_ERR_VALUE addr then Some (0, Some nr_retry, s)
          else
            s ← alloc_fpga_pte_range fuel' s pid addr (addr +w len) vm_flags PAGE_SIZE;
            Some (addr, Some nr_retry, s)
  end.

Definition __alloc_va (fuel : nat) (s : soc) (pid vi len vm_flags : Z) : option (Z * option Z * soc) :=
  let len := PAGE_ALIGN len in
  if VREGION_SIZE <? len then None
  else alloc_va_retry fuel s pid vi len vm_flags 0.

(** The lock of the region is not part of the model. *)
Definition alloc_va_vregion := __alloc_va.
Definition free_va_vregion := sys_free_va.

(** The scan over the regions; [n] is the number of regions left.  [nr_retry] is
    the local variable that [alloc_va_vregion] sets, when it does, and
    [nr_retry_sum] its sum over the calls, which the code stores in
    [*p_nr_retry]. *)
Fixpoint alloc_va_scan (n fuel : nat) (s : soc) (pid i len vm_flags nr_retry nr_retry_sum : Z) : option (Z * Z * soc) :=
  match n with
  | O => Some (wrap64 (- ENOMEM), nr_retry_sum, s)
  | S n' =>
      '(addr, r, s) ← alloc_va_vregion fuel s pid i len vm_flags;
      let nr_retry := default nr_retry r in
      let nr_retry_sum := nr_retry_sum + nr_retry in
      if negb (IS_ERR_OR_NULL addr) then Some (addr, nr_retry_sum, s)
      else alloc_va_scan n' fuel s pid (i + 1) len vm_flags nr_retry nr_retry_sum
  end.

(** The address or error, [*p_nr_retry] when it is set, and the state. *)
Definition alloc_va (fuel : nat) (s : soc) (pid len vm_flags : Z) : option (Z * option Z * soc) :=
  if len =? 0 then Some (wrap64 (- EINVAL), None, s)
  else if sint32 (DIV_ROUND_UP len VREGION_SIZE) =? 1 then
    let i := cached_vregion_start s mod NR_VREGIONS in
    '(addr, nr, s) ← alloc_va_scan (Z.to_nat (NR_VREGIONS - i)) fuel s pid i len vm_flags 0 0;
    Some (addr, Some nr, s)
  else None.

Fixpoint free_va_loop (fuel : nat) (s : soc) (pid start vend len : Z) (ret : Z) : option (Z * soc) :=
  match fuel with
  | O => None
  | S fuel' =>
      if negb (start =? vend) then
        let vi := va_to_vregion_index start in
        vregion_end ← vregion_to_end_va vi;
        let vlen := vregion_end -w start in
        let vlen := if len <? vlen then len else vlen in
        '(ret, s) ← free_va_vregion fuel' s pid vi start vlen;
        if negb (ret =? 0) then Some (ret, s)
        else free_va_loop fuel' s pid (start +w vlen) vend (len -w vlen) ret
      else Some (ret, s)
  end.

Definition free_va (fuel : nat) (s : soc) (pid start len : Z) : option (Z * soc) :=
  if (len =? 0) || (start =? 0) then Some (- EINVAL, s)
  else
    let vend := start +w len in
    if vend <? start then Some (- EINVAL, s)
    else free_va_loop fuel s pid start vend len 0.
End tables.

(** ** Start-up *)

Definition zero_pte : lego_mem_pte := Pte 0 0 false false 0.

(** The [memset] of the shadow table. *)
Definition clear_shadow (s : soc) : soc :=
  Soc (fun _ => zero_pte) (fpga s) (infos s) (nr_allocated_ptes s) (zone s) (regs s) (cached_vregion_start s) (cleared s) (flushes s).

Definition init_shadow_pgtable (s : soc) : soc :=
  clear_shadow (for_upto (Z.to_nat FPGA_NUM_PGTABLE_BUCKETS) (fun i s => set_info s i (Bucket FPGA_NUM_PTE_PER_BUCKET 0 [])) s).

(** The spare page and the state; [None] is [exit]. *)
Definition init_fpga_pgtable (s : soc) : option (Z * soc) :=
  '(pfn, z) ← alloc_pfn MAX_ORDER START_PFN MAX_PFN (zone s) 0;
  let s := set_zone s z in
  if pfn =? 0 then None
  else
    let nr_pte := FPGA_MEMORY_MAP_PGTABLE_SIZE / sizeof_pte in
    Some (pfn, for_upto (Z.to_nat nr_pte) (fun i s => set_fpga s i zero_pte) s).
