(* ===== verification/PgtableProofs.v ===== *)
(** * Page tables: proofs

    Slots, tags and buckets; the invariant [tables_ok] that ties the shadow table,
    the FPGA table and the counters of free slots together; allocation and
    freeing of entries for ranges of pages. *)

From stdpp Require Import functions.
From S2P Require Import Prelude Bitops DList Buddy RbTree Vma VmaTree VmaOps VmaFree Pgtable.

#[local] Set Warnings "-clear-no-such-hyp".

(** ** What the page tables need of the page allocator *)

Class page_pool (ok : fpga_zone -> Prop) : Prop := {
  page_pool_alloc z : ok z ->
    exists pfn z', alloc_pfn MAX_ORDER START_PFN MAX_PFN z 0 = Some (pfn, z') /\ ok z' /\ (pfn = 0 \/ START_PFN <= pfn < MAX_PFN);
  page_pool_free z pfn : ok z -> START_PFN <= pfn < MAX_PFN ->
    exists z', free_pfn MAX_ORDER START_PFN MAX_PFN z pfn 0 = Some z' /\ ok z';
}.

Definition buddy_ok (z : fpga_zone) : Prop := exists F, zone_inv MAX_ORDER START_PFN MAX_PFN z F.

Lemma conf_order : 1 <= MAX_ORDER <= 30. Proof. unfold MAX_ORDER. lia. Qed.
Lemma conf_range : 0 <= START_PFN <= MAX_PFN. Proof. vm_compute. split; discriminate. Qed.
Lemma conf_max : MAX_PFN < 2 ^ 32. Proof. reflexivity. Qed.

(** A page is free or not. *)
Lemma page_free_dec (F : Z -> list Z) p : page_free MAX_ORDER F p \/ block_used MAX_ORDER F p 0.
Proof.
  destruct (decide (p ∈ F 0)) as [Hin|Hout].
  - left. exists 0, p. split; [split; [unfold MAX_ORDER; lia|auto]|]. change (2 ^ 0) with 1. lia.
  - right. intros o q [Ho Hq]. assert (o = 0) as -> by (unfold MAX_ORDER in Ho; lia). unfold disjoint_blocks. change (2 ^ 0) with 1.
    destruct (Z.lt_trichotomy p q) as [|[->|]]; [lia|done|lia].
Qed.

#[export] Instance buddy_page_pool : page_pool buddy_ok.
Proof.
  split.
  - intros z [F Hi]. pose proof (alloc_page_inv MAX_ORDER START_PFN MAX_PFN conf_order conf_range conf_max z F 0 Hi ltac:(lia)) as H. unfold alloc_pfn.
    destruct (alloc_page MAX_ORDER z 0) as [[p|] z']; cbn in H.
    + destruct H as ((_ & H1 & H2 & _) & _ & F' & Hi' & _). change (2 ^ 0) with 1 in H2. unfold page_to_pfn.
      rewrite (proj2 (Z.leb_gt MAX_PFN p)), (proj2 (Z.ltb_ge p START_PFN)) by lia. cbn. exists p, z'. split_and!; [reflexivity|now exists F'|right; lia].
    + destruct H as [-> _]. exists 0, z. split_and!; [reflexivity|now exists F|auto].
  - intros z pfn [F Hi] Hp. unfold free_pfn, pfn_to_page. rewrite (proj2 (Z.leb_gt MAX_PFN pfn)), (proj2 (Z.ltb_ge pfn START_PFN)) by lia. cbn [orb mbind option_bind].
    eexists. split; [reflexivity|]. destruct (page_free_dec F pfn) as [Hfree|Hused].
    + exists F. unfold free_one_page, free_pages_prepare, free_pages_check. cbn [negb Z.eqb].
      rewrite (proj2 (inv_flag _ _ _ _ _ Hi pfn)); [exact Hi|]. destruct Hfree as (o & p & Hf & Hr). exists o.
      assert (o = 0) as -> by (destruct Hf; unfold MAX_ORDER in *; lia). change (2 ^ 0) with 1 in Hr. now replace pfn with p by lia.
    + destruct (free_one_page_inv MAX_ORDER START_PFN MAX_PFN conf_order conf_range conf_max z F pfn 0 Hi) as (F' & HF' & _); [|exact Hused|now exists F'].
      unfold valid_block. change (2 ^ 0) with 1. rewrite Z.mod_1_r. pose proof conf_order. lia.
Qed.

(** ** Buckets and tags *)

Definition NB : Z := FPGA_NUM_PGTABLE_BUCKETS.
Definition PB : Z := FPGA_NUM_PTE_PER_BUCKET.

Definition bucket_of (va : Z) : Z := (va / 2 ^ 22) mod 2 ^ 15.

Lemma bucket_of_range va : 0 <= bucket_of va < NB.
Proof. change NB with (2 ^ 15). apply Z.mod_pos_bound. lia. Qed.

Lemma bucket_index_spec va : 0 <= va -> addr_to_bucket_index va PAGE_SHIFT = bucket_of va.
Proof.
  intros Hva. unfold addr_to_bucket_index, hash_lower_bits. change (wrap64 (wrap64 (Z.shiftl 1 FPGA_BUCKET_NUMBER_LENGTH) - 1)) with (2 ^ 15 - 1).
  rewrite land_pow2_pred by lia. change PAGE_SHIFT with 22. rewrite Z.shiftr_div_pow2 by lia. apply Z.mod_small.
  pose proof (bucket_of_range va). unfold bucket_of in *. change NB with (2 ^ 15) in *. lia.
Qed.

Lemma index_info_spec b : 0 <= b < NB -> index_to_shadow_bucket_info (sint32 b) = Some b.
Proof.
  change NB with (2 ^ 15). intros Hb. unfold index_to_shadow_bucket_info, sint32. change FPGA_NUM_PGTABLE_BUCKETS with (2 ^ 15).
  rewrite (Z.mod_small (b + 2 ^ 31)) by lia. replace (b + 2 ^ 31 - 2 ^ 31) with b by lia. rewrite wrap64_small by (unfold is_word; lia).
  now rewrite (proj2 (Z.leb_gt (2 ^ 15) b)) by lia.
Qed.

Lemma generate_tag_spec pid va : 0 <= pid -> is_word va -> generate_tag pid va = (pid mod 2 ^ 16) * 2 ^ 44 + va / 2 ^ 20.
Proof.
  intros Hp Hva. unfold is_word in Hva. unfold generate_tag. change 0xFFFF with (2 ^ 16 - 1). rewrite land_pow2_pred by lia. change FPGA_TAG_OFFSET with 20.
  change (64 - 20) with 44. rewrite Z.shiftl_mul_pow2, Z.shiftr_div_pow2 by lia. pose proof (Z.mod_pos_bound pid (2 ^ 16) ltac:(lia)).
  rewrite wrap64_small by (unfold is_word; lia). pose proof (Z.div_pos va (2 ^ 20)). pose proof (Z.div_lt_upper_bound va (2 ^ 20) (2 ^ 44) ltac:(lia) ltac:(lia)).
  rewrite <- Z.lxor_lor; [symmetry; apply Z.add_nocarry_lxor|]; (apply Z.bits_inj'; intros i Hi; rewrite Z.land_spec, Z.bits_0, <- Z.shiftl_mul_pow2, testbit_shiftl by lia;
    destruct (Z.leb_spec 44 i); [|reflexivity]; replace (Z.testbit (va / 2 ^ 20) i) with false; [apply andb_false_r|];
    symmetry; destruct (Z.eq_dec (va / 2 ^ 20) 0) as [->|Hne]; [apply Z.bits_0|]; apply Z.bits_above_log2; [lia|];
    apply Z.log2_lt_pow2; [lia|]; pose proof (Z.pow_le_mono_r 2 44 i); lia).
Qed.

(** Tags identify process (modulo 2^16) and page. *)
Lemma tag_inj pid pid' va va' : 0 <= pid -> 0 <= pid' -> is_word va -> is_word va' ->
  generate_tag pid va = generate_tag pid' va' -> pid mod 2 ^ 16 = pid' mod 2 ^ 16 /\ va / 2 ^ 20 = va' / 2 ^ 20.
Proof.
  intros H1 H2 H3 H4. rewrite !generate_tag_spec by auto. unfold is_word in *.
  pose proof (Z.div_lt_upper_bound va (2 ^ 20) (2 ^ 44) ltac:(lia) ltac:(lia)). pose proof (Z.div_lt_upper_bound va' (2 ^ 20) (2 ^ 44) ltac:(lia) ltac:(lia)).
  pose proof (Z.div_pos va (2 ^ 20)). pose proof (Z.div_pos va' (2 ^ 20)). lia.
Qed.

(** ** Scanning a bucket *)

Definition in_bucket (b i : Z) : Prop := b * PB <= i < b * PB + PB.

Lemma scan_bucket_spec n table p i :
  match scan_bucket n table p i with
  | Some j => i <= j < i + Z.of_nat n /\ p (table j) = true /\ forall k, i <= k < j -> p (table k) = false
  | None => forall k, i <= k < i + Z.of_nat n -> p (table k) = false
  end.
Proof.
  revert i. induction n as [|n IH]; intros i; cbn [scan_bucket]; [intros; lia|]. destruct (p (table i)) eqn:E.
  - split_and!; auto; lia.
  - specialize (IH (i + 1)). destruct (scan_bucket n table p (i + 1)) as [j|].
    + destruct IH as (H1 & H2 & H3). split_and!; [lia|lia|auto|]. intros k Hk. destruct (decide (k = i)) as [->|]; [auto|]. apply H3. lia.
    + intros k Hk. destruct (decide (k = i)) as [->|]; [auto|]. apply IH. lia.
Qed.

Lemma find_slot_spec table p b :
  match find_slot table p b with
  | Some j => in_bucket b j /\ p (table j) = true /\ forall k, in_bucket b k -> k < j -> p (table k) = false
  | None => forall k, in_bucket b k -> p (table k) = false
  end.
Proof.
  unfold find_slot, in_bucket. change PB with 16. change FPGA_NUM_PTE_PER_BUCKET with 16.
  pose proof (scan_bucket_spec (Z.to_nat 16) table p (b * 16)) as H. change (Z.of_nat (Z.to_nat 16)) with 16 in H.
  destruct (scan_bucket _ _ _ _) as [j|]; [|exact H]. destruct H as (H1 & H2 & H3). split_and!; auto; [lia..|]. intros k Hk Hj. apply H3. lia.
Qed.

(** The unique slot with a property. *)
Lemma find_slot_unique table p b i :
  in_bucket b i -> p (table i) = true -> (forall k, in_bucket b k -> p (table k) = true -> k = i) -> find_slot table p b = Some i.
Proof.
  intros Hi Hp Hu. pose proof (find_slot_spec table p b) as H. destruct (find_slot table p b) as [j|].
  - destruct H as (H1 & H2 & _). f_equal. auto.
  - rewrite H in Hp by auto. discriminate.
Qed.

(** ** Free slots *)

Definition slot_free (e : lego_mem_pte) : Z := if allocated e then 0 else 1.
Fixpoint count_free (n : nat) (table : Z -> lego_mem_pte) (i : Z) : Z :=
  match n with O => 0 | S n' => slot_free (table i) + count_free n' table (i + 1) end.
Definition free_slots (table : Z -> lego_mem_pte) (b : Z) : Z := count_free 16 table (b * PB).

Lemma count_free_insert n table i j e :
  count_free n (<[j := e]> table) i =
  count_free n table i + (if (i <=? j) && (j <? i + Z.of_nat n) then slot_free e - slot_free (table j) else 0).
Proof.
  revert i. induction n as [|n IH]; intros i; cbn [count_free].
  - destruct (Z.leb_spec i j), (Z.ltb_spec j (i + Z.of_nat 0)); cbn; lia.
  - rewrite IH. destruct (decide (j = i)) as [->|Hne].
    + rewrite fn_lookup_insert. rewrite (proj2 (Z.leb_le i i)), (proj2 (Z.leb_gt (i + 1) i)), (proj2 (Z.ltb_lt i (i + Z.of_nat (S n)))) by lia. cbn. lia.
    + rewrite fn_lookup_insert_ne by auto. assert (E : (i <=? j) && (j <? i + Z.of_nat (S n)) = (i + 1 <=? j) && (j <? i + 1 + Z.of_nat n)).
      { destruct (Z.leb_spec i j), (Z.leb_spec (i + 1) j), (Z.ltb_spec j (i + Z.of_nat (S n))), (Z.ltb_spec j (i + 1 + Z.of_nat n)); try reflexivity; lia. }
      rewrite E. lia.
Qed.

Lemma count_free_bounds n table i : 0 <= count_free n table i <= Z.of_nat n.
Proof. revert i. induction n as [|n IH]; intros i; cbn [count_free]; [lia|]. specialize (IH (i + 1)). unfold slot_free. destruct (allocated _); lia. Qed.

Lemma count_free_pos n table i : 0 < count_free n table i -> exists k, i <= k < i + Z.of_nat n /\ allocated (table k) = false.
Proof.
  revert i. induction n as [|n IH]; intros i; cbn [count_free]; [lia|]. unfold slot_free at 1. destruct (allocated (table i)) eqn:E.
  - intros H. destruct (IH (i + 1) ltac:(lia)) as (k & Hk & Ha). exists k. split; [lia|auto].
  - intros _. exists i. split; [lia|auto].
Qed.

Lemma count_free_ext n t t' i : (forall k, i <= k < i + Z.of_nat n -> allocated (t' k) = allocated (t k)) -> count_free n t' i = count_free n t i.
Proof.
  revert i. induction n as [|n IH]; intros i H; cbn [count_free]; [auto|]. unfold slot_free. rewrite H by lia. f_equal. apply IH. intros k Hk. apply H. lia.
Qed.

Lemma free_slots_insert table b j e :
  free_slots (<[j := e]> table) b = free_slots table b + (if (b * PB <=? j) && (j <? b * PB + PB) then slot_free e - slot_free (table j) else 0).
Proof. unfold free_slots. rewrite count_free_insert. change PB with 16. change (Z.of_nat 16) with 16. reflexivity. Qed.

Lemma in_bucket_bool b j : (b * PB <=? j) && (j <? b * PB + PB) = true <-> in_bucket b j.
Proof. unfold in_bucket. rewrite andb_true_iff, Z.leb_le, Z.ltb_lt. lia. Qed.

Lemma free_slots_insert_in table b j e : in_bucket b j -> free_slots (<[j := e]> table) b = free_slots table b + slot_free e - slot_free (table j).
Proof. intros H. rewrite free_slots_insert, (proj2 (in_bucket_bool b j) H). lia. Qed.

Lemma in_bucket_unique b b' j : in_bucket b j -> in_bucket b' j -> b = b'.
Proof. unfold in_bucket. change PB with 16. lia. Qed.

Lemma free_slots_insert_out table b b' j e : in_bucket b j -> b' <> b -> free_slots (<[j := e]> table) b' = free_slots table b'.
Proof.
  intros H Hne. rewrite free_slots_insert. destruct ((b' * PB <=? j) && (j <? b' * PB + PB)) eqn:E; [|lia].
  apply in_bucket_bool in E. destruct Hne. eapply in_bucket_unique; eauto.
Qed.

(** ** The invariant of the tables *)

Definition slot_ok (i : Z) : Prop := 0 <= i < NB * PB.

Lemma in_bucket_slot b i : 0 <= b < NB -> in_bucket b i -> slot_ok i.
Proof. unfold slot_ok, in_bucket. change PB with 16. lia. Qed.

(** A physical page, as an entry holds it. *)
Definition good_ppa (a : Z) : Prop := exists pfn, START_PFN <= pfn < MAX_PFN /\ a = PFN_PHYS pfn +w FPGA_MEMORY_MAP_MAPPING_BASE.

Record tables_ok (s : soc) : Prop := {
  tb_free b : 0 <= b < NB -> info_free (infos s b) = free_slots (shadow s) b;
  tb_alloc i : slot_ok i -> allocated (fpga s i) = allocated (shadow s i);
  tb_tag i : slot_ok i -> allocated (shadow s i) = true -> tag (fpga s i) = tag (shadow s i);
  tb_unique b i j : in_bucket b i -> in_bucket b j -> allocated (shadow s i) = true -> allocated (shadow s j) = true ->
    tag (shadow s i) = tag (shadow s j) -> i = j;
  tb_ppa i : slot_ok i -> valid (fpga s i) = true -> good_ppa (ppa (fpga s i));
}.

(** The page of [va] has an entry. *)
Definition entry (s : soc) (pid va : Z) : Prop := exists i, in_bucket (bucket_of va) i /\ has_tag (generate_tag pid va) (shadow s i) = true.

Lemma has_tag_spec t e : has_tag t e = true <-> allocated e = true /\ tag e = t.
Proof. unfold has_tag. rewrite andb_true_iff, Z.eqb_eq. tauto. Qed.

(** Process ids and page addresses whose tags do not clash. *)
Definition page_addr (va : Z) : Prop := 0 <= va < 2 ^ 64 - PAGE_SIZE /\ va mod PAGE_SIZE = 0.
Definition pid_ok (pid : Z) : Prop := 0 <= pid < 2 ^ 16.

Lemma page_addr_word va : page_addr va -> is_word va.
Proof. unfold page_addr, is_word. change PAGE_SIZE with (2 ^ 22). lia. Qed.

Lemma page_tag_inj pid pid' va va' :
  pid_ok pid -> pid_ok pid' -> page_addr va -> page_addr va' -> generate_tag pid va = generate_tag pid' va' -> pid = pid' /\ va = va'.
Proof.
  intros H1 H2 H3 H4 H. pose proof (page_addr_word _ H3). pose proof (page_addr_word _ H4). unfold pid_ok, page_addr in *.
  apply tag_inj in H as [Hp Hv]; auto; try lia. rewrite !Z.mod_small in Hp by lia. split; [auto|].
  change PAGE_SIZE with 4194304 in *. change (2 ^ 20) with 1048576 in *. Z.to_euclidean_division_equations. lia.
Qed.

(** A slot, its counter and its copy taken into use. *)
Lemma tables_ok_add s s' b i t e e' :
  tables_ok s -> 0 <= b < NB -> in_bucket b i -> allocated (shadow s i) = false ->
  (forall k, in_bucket b k -> has_tag t (shadow s k) = false) ->
  allocated e = true -> tag e = t -> allocated e' = true -> tag e' = t -> (valid e' = true -> good_ppa (ppa e')) ->
  shadow s' = <[i := e]> (shadow s) -> (forall j, fpga s' j = <[i := e']> (fpga s) j) ->
  (forall c, info_free (infos s' c) = if c =? b then info_free (infos s b) - 1 else info_free (infos s c)) -> tables_ok s'.
Proof.
  intros Hok Hb Hi Hfree Hnew He Ht He' Ht' Hv Es Ef Ei. split.
  - intros c Hc. rewrite Ei, Es. destruct (Z.eqb_spec c b) as [->|Hne].
    + rewrite (free_slots_insert_in _ b i), (tb_free _ Hok b Hb) by auto. unfold slot_free. rewrite He, Hfree. lia.
    + rewrite (free_slots_insert_out _ b c i) by auto. now apply Hok.
  - intros j Hj. rewrite Es, Ef. destruct (decide (j = i)) as [->|Hne]; [rewrite !fn_lookup_insert; congruence|].
    rewrite !fn_lookup_insert_ne by auto. now apply Hok.
  - intros j Hj. rewrite Es, Ef. destruct (decide (j = i)) as [->|Hne]; [rewrite !fn_lookup_insert; congruence|].
    rewrite !fn_lookup_insert_ne by auto. now apply Hok.
  - assert (Hone : forall c j, in_bucket c i -> in_bucket c j -> j <> i -> allocated (shadow s j) = true -> tag (shadow s j) = t -> False).
    { intros c j Hci Hcj _ Ha Htj. assert (c = b) as -> by (apply (in_bucket_unique c b i); auto). specialize (Hnew j Hcj).
      assert (has_tag t (shadow s j) = true) by (apply has_tag_spec; auto). congruence. }
    intros c j k Hj Hk. rewrite Es. destruct (decide (j = i)) as [->|Hj'], (decide (k = i)) as [->|Hk'];
      rewrite ?fn_lookup_insert, ?fn_lookup_insert_ne by auto; intros A1 A2 A3; auto.
    + destruct (Hone c k); auto; congruence.
    + destruct (Hone c j); auto; congruence.
    + eapply (tb_unique _ Hok c); eauto.
  - intros j Hj. rewrite Ef. destruct (decide (j = i)) as [->|Hne]; [now rewrite fn_lookup_insert|].
    rewrite fn_lookup_insert_ne by auto. now apply Hok.
Qed.

(** A slot, its counter and its copy given back. *)
Lemma tables_ok_del s s' b i e e' :
  tables_ok s -> 0 <= b < NB -> in_bucket b i -> allocated (shadow s i) = true ->
  allocated e = false -> allocated e' = false -> valid e' = false ->
  shadow s' = <[i := e]> (shadow s) -> (forall j, fpga s' j = <[i := e']> (fpga s) j) ->
  (forall c, info_free (infos s' c) = if c =? b then info_free (infos s b) + 1 else info_free (infos s c)) -> tables_ok s'.
Proof.
  intros Hok Hb Hi Hused He He' Hv Es Ef Ei. split.
  - intros c Hc. rewrite Ei, Es. destruct (Z.eqb_spec c b) as [->|Hne].
    + rewrite (free_slots_insert_in _ b i), (tb_free _ Hok b Hb) by auto. unfold slot_free. rewrite He, Hused. lia.
    + rewrite (free_slots_insert_out _ b c i) by auto. now apply Hok.
  - intros j Hj. rewrite Es, Ef. destruct (decide (j = i)) as [->|Hne]; [rewrite !fn_lookup_insert; congruence|].
    rewrite !fn_lookup_insert_ne by auto. now apply Hok.
  - intros j Hj. rewrite Es, Ef. destruct (decide (j = i)) as [->|Hne]; [rewrite !fn_lookup_insert; congruence|].
    rewrite !fn_lookup_insert_ne by auto. now apply Hok.
  - intros c j k Hj Hk. rewrite Es. destruct (decide (j = i)) as [->|Hj'], (decide (k = i)) as [->|Hk'];
      rewrite ?fn_lookup_insert, ?fn_lookup_insert_ne by auto; intros A1 A2 A3; auto; try congruence.
    eapply (tb_unique _ Hok c); eauto.
  - intros j Hj. rewrite Ef. destruct (decide (j = i)) as [->|Hne]; [rewrite fn_lookup_insert; congruence|].
    rewrite fn_lookup_insert_ne by auto. now apply Hok.
Qed.

Lemma entry_dec s pid va : {find_slot (shadow s) (has_tag (generate_tag pid va)) (bucket_of va) = None} + {entry s pid va}.
Proof.
  pose proof (find_slot_spec (shadow s) (has_tag (generate_tag pid va)) (bucket_of va)) as H.
  destruct (find_slot _ _ _) as [i|]; [right; exists i; naive_solver|now left].
Qed.

Lemma no_entry s pid va : ~ entry s pid va -> forall k, in_bucket (bucket_of va) k -> has_tag (generate_tag pid va) (shadow s k) = false.
Proof. intros H k Hk. destruct (has_tag _ _) eqn:E; [|auto]. destruct H. exists k. auto. Qed.

(** The entries after one has been added or removed. *)
Lemma entry_add s s' i e pid va pid' va' :
  pid_ok pid -> pid_ok pid' -> page_addr va -> page_addr va' ->
  in_bucket (bucket_of va) i -> allocated (shadow s i) = false -> allocated e = true -> tag e = generate_tag pid va -> shadow s' = <[i := e]> (shadow s) ->
  entry s' pid' va' <-> entry s pid' va' \/ pid' = pid /\ va' = va.
Proof.
  intros Hp Hp' Hv Hv' Hi Hf He Ht Es. unfold entry. rewrite Es. split.
  - intros (j & Hj & Hh). destruct (decide (j = i)) as [->|Hne].
    + rewrite fn_lookup_insert in Hh. apply has_tag_spec in Hh as [_ Hh]. right. apply page_tag_inj; auto; congruence.
    + rewrite fn_lookup_insert_ne in Hh by auto. eauto.
  - intros [(j & Hj & Hh)|[-> ->]].
    + exists j. split; [auto|]. rewrite fn_lookup_insert_ne; [auto|]. intros ->. apply has_tag_spec in Hh as [Hh _]. congruence.
    + exists i. split; [auto|]. rewrite fn_lookup_insert. now apply has_tag_spec.
Qed.

Lemma entry_del s s' i e pid va pid' va' :
  tables_ok s -> pid_ok pid -> pid_ok pid' -> page_addr va -> page_addr va' ->
  in_bucket (bucket_of va) i -> has_tag (generate_tag pid va) (shadow s i) = true -> allocated e = false -> shadow s' = <[i := e]> (shadow s) ->
  entry s' pid' va' <-> entry s pid' va' /\ ~ (pid' = pid /\ va' = va).
Proof.
  intros Hok Hp Hp' Hv Hv' Hi Hh He Es. apply has_tag_spec in Hh as [Ha Ht]. unfold entry. rewrite Es. split.
  - intros (j & Hj & Hj'). apply has_tag_spec in Hj' as [Ha' Ht']. destruct (decide (j = i)) as [->|Hne].
    + rewrite fn_lookup_insert in Ha'. congruence.
    + rewrite fn_lookup_insert_ne in Ha', Ht' by auto. split; [exists j; split; [auto|now apply has_tag_spec]|].
      intros [-> ->]. destruct Hne. eapply (tb_unique _ Hok (bucket_of va)); eauto. congruence.
  - intros [(j & Hj & Hj') Hne]. exists j. split; [auto|]. rewrite fn_lookup_insert_ne; [auto|]. intros <-.
    apply has_tag_spec in Hj' as [_ Ht']. destruct Hne. apply page_tag_inj; auto. congruence.
Qed.

(** ** Allocating and freeing pages *)

Lemma pfn_phys_roundtrip pfn : START_PFN <= pfn < MAX_PFN -> PHYS_PFN (PFN_PHYS pfn +w FPGA_MEMORY_MAP_MAPPING_BASE -w FPGA_MEMORY_MAP_MAPPING_BASE) = pfn.
Proof.
  pose proof conf_range as Hr. pose proof conf_max as Hm. intros H. unfold PFN_PHYS, PHYS_PFN. change PAGE_SHIFT with 22.
  rewrite Z.shiftl_mul_pow2, Z.shiftr_div_pow2 by lia. unfold FPGA_MEMORY_MAP_MAPPING_BASE.
  rewrite (wrap64_small (pfn * 2 ^ 22)) by (unfold is_word; lia). rewrite (wrap64_small (pfn * 2 ^ 22 + _)) by (unfold is_word; lia).
  rewrite wrap64_small by (unfold is_word; lia). replace (pfn * 2 ^ 22 + 0x500000000 - 0x500000000) with (pfn * 2 ^ 22) by lia.
  now apply Z.div_mul.
Qed.

Lemma ppa_fits pfn : START_PFN <= pfn < MAX_PFN -> wrap60 (PFN_PHYS pfn +w FPGA_MEMORY_MAP_MAPPING_BASE) = PFN_PHYS pfn +w FPGA_MEMORY_MAP_MAPPING_BASE.
Proof.
  pose proof conf_range as Hr. pose proof conf_max as Hm. intros H. unfold PFN_PHYS, wrap60, FPGA_MEMORY_MAP_MAPPING_BASE. change PAGE_SHIFT with 22.
  rewrite Z.shiftl_mul_pow2 by lia. rewrite (wrap64_small (pfn * 2 ^ 22)), (wrap64_small (pfn * 2 ^ 22 + _)) by (unfold is_word; lia). apply Z.mod_small. lia.
Qed.

Lemma free_bounds s b : tables_ok s -> 0 <= b < NB -> 0 <= info_free (infos s b) <= 16.
Proof. intros H Hb. rewrite (tb_free _ H b Hb). apply (count_free_bounds 16). Qed.

Lemma slot_to_bucket b i : 0 <= b < NB -> in_bucket b i -> shadow_pte_to_bucket_index i = b.
Proof.
  unfold in_bucket, shadow_pte_to_bucket_index. change PB with 16. change NB with (2 ^ 15). change FPGA_NUM_PTE_PER_BUCKET with 16. intros Hb Hi.
  assert (E : i / 16 = b) by (Z.to_euclidean_division_equations; lia). rewrite E. apply Z.mod_small. lia.
Qed.

Lemma shadow_to_fpga_ok i : slot_ok i -> shadow_to_fpga_pte i = Some i.
Proof.
  unfold slot_ok, shadow_to_fpga_pte. change (NB * PB) with (2 ^ 19). change FPGA_MEMORY_MAP_PGTABLE_SIZE with (2 ^ 29). unfold sizeof_pte. intros H.
  rewrite wrap64_small by (unfold is_word; lia). now rewrite (proj2 (Z.leb_gt (2 ^ 29) (i * 16))) by lia.
Qed.

Lemma page_next va n : page_addr va -> va + n * PAGE_SIZE < 2 ^ 64 - PAGE_SIZE -> 0 <= n -> page_addr (va + n * PAGE_SIZE).
Proof. unfold page_addr. change PAGE_SIZE with 4194304. intros. rewrite Z.mod_add by lia. lia. Qed.

(** Pages closer than the number of buckets fall into different buckets. *)
Lemma bucket_of_ne va k : page_addr va -> 0 < k < NB -> bucket_of (va + k * PAGE_SIZE) <> bucket_of va.
Proof.
  unfold page_addr, bucket_of. change NB with 32768. change PAGE_SIZE with 4194304. change (2 ^ 22) with 4194304. change (2 ^ 15) with 32768.
  intros _ Hk. rewrite Z.div_add by lia. intros E. set (q := va / 4194304) in *. clearbody q. Z.to_euclidean_division_equations. lia.
Qed.

Section pages.
Context (ok : fpga_zone -> Prop) {Hpool : page_pool ok}.
Context (shadow_base devmem_pgtable_base global_spare_pfn : Z).
Context (Hbase : 0 <= shadow_base /\ shadow_base + NB * sizeof_bucket <= devmem_pgtable_base + FPGA_MEMORY_MAP_PGTABLE_SIZE).
Context (Hdev : 0 <= devmem_pgtable_base /\ devmem_pgtable_base + FPGA_MEMORY_MAP_PGTABLE_SIZE < 2 ^ 64).
Context (Hspare : global_spare_pfn = 0 \/ START_PFN <= global_spare_pfn < MAX_PFN).

Lemma addr_to_bucket_spec base va : 0 <= base -> base + NB * sizeof_bucket <= devmem_pgtable_base + FPGA_MEMORY_MAP_PGTABLE_SIZE -> 0 <= va ->
  addr_to_bucket devmem_pgtable_base base va PAGE_SHIFT = Some (bucket_of va).
Proof.
  intros H0 Hl Hva. unfold addr_to_bucket, devmem_pgtable_limit. rewrite bucket_index_spec by auto. pose proof (bucket_of_range va) as Hb.
  unfold sizeof_bucket in *. change NB with (2 ^ 15) in *. change FPGA_MEMORY_MAP_PGTABLE_SIZE with (2 ^ 29) in *.
  rewrite (wrap64_small (devmem_pgtable_base + _)), (wrap64_small (base + _)) by (unfold is_word; lia).
  now rewrite (proj2 (Z.leb_gt _ _)) by lia.
Qed.

Lemma bucket_shadow va : 0 <= va -> addr_to_bucket devmem_pgtable_base shadow_base va PAGE_SHIFT = Some (bucket_of va).
Proof. intros. now apply addr_to_bucket_spec. Qed.

Lemma bucket_fpga va : 0 <= va -> addr_to_bucket devmem_pgtable_base devmem_pgtable_base va PAGE_SHIFT = Some (bucket_of va).
Proof. intros. apply addr_to_bucket_spec; auto; [lia|]. unfold sizeof_bucket. change NB with (2 ^ 15). change FPGA_MEMORY_MAP_PGTABLE_SIZE with (2 ^ 29). lia. Qed.

(** The two tables answer alike. *)
Lemma lookups_agree s pid va : tables_ok s -> 0 <= va ->
  addr_to_fpga_pte devmem_pgtable_base s pid va PAGE_SHIFT = addr_to_shadow_pte shadow_base devmem_pgtable_base s pid va PAGE_SHIFT.
Proof.
  intros Hok Hva. unfold addr_to_fpga_pte, addr_to_shadow_pte. rewrite bucket_fpga, bucket_shadow by auto. cbn [mbind option_bind]. apply (f_equal Some).
  assert (Hh : forall k, in_bucket (bucket_of va) k -> has_tag (generate_tag pid va) (fpga s k) = has_tag (generate_tag pid va) (shadow s k)).
  { intros k Hk. pose proof (in_bucket_slot _ _ (bucket_of_range va) Hk) as Hs. unfold has_tag. rewrite (tb_alloc _ Hok k Hs).
    destruct (allocated (shadow s k)) eqn:E; [|auto]. now rewrite (tb_tag _ Hok k Hs E). }
  pose proof (find_slot_spec (shadow s) (has_tag (generate_tag pid va)) (bucket_of va)) as H1.
  pose proof (find_slot_spec (fpga s) (has_tag (generate_tag pid va)) (bucket_of va)) as H2.
  destruct (find_slot (shadow s) _ _) as [i|], (find_slot (fpga s) _ _) as [j|]; auto.
  - destruct H1 as (A1 & A2 & A3), H2 as (B1 & B2 & B3). f_equal. destruct (Z.lt_trichotomy i j) as [H|[H|H]]; [|auto|].
    + specialize (B3 i A1 H). rewrite Hh in B3 by auto. congruence.
    + specialize (A3 j B1 H). rewrite <- Hh in A3 by auto. congruence.
  - destruct H1 as (A1 & A2 & _). rewrite <- Hh, H2 in A2 by auto. discriminate.
  - destruct H2 as (B1 & B2 & _). rewrite Hh, H1 in B2 by auto. discriminate.
Qed.

(** No page has been refused. *)
Definition quiet (s : soc) : Prop := forall b, 0 <= b < NB -> conflict_head (infos s b) = [].

(** Everything but the tables, their counters and the pages. *)
Definition same_rest (s s' : soc) : Prop :=
  regs s' = regs s /\ cached_vregion_start s' = cached_vregion_start s /\ flushes s' = flushes s /\ forall b, conflict_head (infos s' b) = conflict_head (infos s b).

Lemma same_rest_refl s : same_rest s s.
Proof. repeat split. Qed.
Lemma same_rest_trans s1 s2 s3 : same_rest s1 s2 -> same_rest s2 s3 -> same_rest s1 s3.
Proof. intros (A1 & A2 & A3 & A4) (B1 & B2 & B3 & B4). repeat split; [congruence..|]. intros b. now rewrite B4, A4. Qed.

(** [alloc_one_fpga_pte] on a slot whose copy is free takes it into use. *)
Lemma alloc_one_fpga_spec s i flags :
  slot_ok i -> ok (zone s) -> allocated (fpga s i) = false -> (valid (fpga s i) = true -> good_ppa (ppa (fpga s i))) ->
  exists r s' e, alloc_one_fpga_pte global_spare_pfn s i flags PAGE_SIZE = Some (r, s') /\ ok (zone s') /\
    shadow s' = shadow s /\ infos s' = infos s /\ same_rest s s' /\ (forall j, fpga s' j = <[i := e]> (fpga s) j) /\
    allocated e = true /\ tag e = tag (shadow s i) /\ (valid e = true -> good_ppa (ppa e)) /\
    (Z.land flags LEGOMEM_VM_FLAGS_POPULATE = 0 -> r = Some i /\ valid e = false).
Proof.
  intros Hi Hz Ha Hv. unfold alloc_one_fpga_pte. rewrite shadow_to_fpga_ok, Ha by auto.
  change (__get_order PAGE_SIZE) with 0.
  assert (Hins : forall (e e' : lego_mem_pte) j, <[i := e']> (<[i := e]> (fpga s)) j = <[i := e']> (fpga s) j).
  { intros e e' j. destruct (decide (j = i)) as [->|]; [now rewrite !fn_lookup_insert|now rewrite !fn_lookup_insert_ne by auto]. }
  destruct (Z.eqb_spec (Z.land flags LEGOMEM_VM_FLAGS_POPULATE) 0) as [E|E]; cbn [negb].
  - eexists _, _, _. split; [reflexivity|]. cbn [zone shadow infos fpga set_fpga]. split_and!; [auto|auto|auto|repeat split|intros j; apply Hins|..]; cbn [allocated tag valid ppa]; rewrite ?fn_lookup_insert; cbn; auto; discriminate.
  - destruct (page_pool_alloc (zone s) Hz) as (pfn & z' & Ez & Hz' & Hpfn). cbn [zone set_fpga]. rewrite Ez. clear Ez. cbn [mbind option_bind].
    set (p := if pfn =? 0 then _ else pfn). assert (Hp : p = 0 \/ START_PFN <= p < MAX_PFN).
    { unfold p. destruct (Z.eqb_spec pfn 0); [destruct (negb _); auto|]. destruct Hpfn; [lia|auto]. }
    destruct (Z.eqb_spec p 0) as [Ep|Ep].
    + eexists _, _, _. split; [reflexivity|]. cbn [zone shadow infos fpga set_fpga set_zone]. split_and!; [auto|auto|auto|repeat split|reflexivity|..]; cbn [allocated tag valid ppa]; auto. lia.
    + destruct Hp as [|Hp]; [lia|]. rewrite (proj2 (Z.leb_gt MAX_PFN p)), (proj2 (Z.ltb_ge p START_PFN)) by lia. cbn [orb].
      assert (Hg : good_ppa (wrap60 (PFN_PHYS p +w FPGA_MEMORY_MAP_MAPPING_BASE))) by (exists p; auto using ppa_fits).
      clearbody p. destruct (negb (Z.land flags LEGOMEM_VM_FLAGS_ZERO =? 0)); eexists _, _, _; (split; [reflexivity|]);
        cbn [zone shadow infos fpga set_fpga set_zone add_cleared]; (split_and!; [auto|auto|auto|repeat split|intros j; apply Hins|..]; cbn [allocated tag valid ppa]; rewrite ?fn_lookup_insert; cbn; auto; lia).
Qed.

(** ** One page *)

(** The page [va] of process [pid] has got an entry. *)
Definition added (s s' : soc) (pid va : Z) : Prop :=
  tables_ok s' /\ ok (zone s') /\ same_rest s s' /\
  (forall b, info_free (infos s' b) = info_free (infos s b) - (if b =? bucket_of va then 1 else 0)) /\
  (forall p v, pid_ok p -> page_addr v -> entry s' p v <-> entry s p v \/ p = pid /\ v = va).

Lemma alloc_page_spec s pid va flags :
  tables_ok s -> ok (zone s) -> pid_ok pid -> page_addr va -> 0 < info_free (infos s (bucket_of va)) -> ~ entry s pid va ->
  exists pte s1 r s', alloc_one_shadow_pte shadow_base devmem_pgtable_base s pid va PAGE_SHIFT = Some (Some pte, s1) /\
    alloc_one_fpga_pte global_spare_pfn s1 pte flags PAGE_SIZE = Some (r, s') /\ added s s' pid va.
Proof.
  intros Hok Hz Hpid Hva Hfree Hno. assert (Hva0 : 0 <= va) by apply Hva. pose proof (bucket_of_range va) as Hb. pose proof (free_bounds s _ Hok Hb) as Hfb.
  unfold alloc_one_shadow_pte. rewrite bucket_shadow, bucket_index_spec, index_info_spec by auto. cbn [mbind option_bind].
  pose proof (find_slot_spec (shadow s) (fun pte => negb (allocated pte)) (bucket_of va)) as Hslot.
  destruct (find_slot _ _ _) as [i|].
  2: { exfalso. rewrite (tb_free _ Hok _ Hb) in Hfree. apply count_free_pos in Hfree as (k & Hk & Ha). change (Z.of_nat 16) with PB in Hk. specialize (Hslot k Hk). rewrite Ha in Hslot. discriminate. }
  destruct Hslot as (Hi & Ha & _). apply negb_true_iff in Ha. pose proof (in_bucket_slot _ _ Hb Hi) as Hs.
  cbn [infos set_shadow]. rewrite sint32_small by lia.
  set (s1 := set_nr_allocated _ _).
  destruct (alloc_one_fpga_spec s1 i flags) as (r & s' & e & E & Hz' & Es & Ei & Hr & Ef & A1 & A2 & A3 & _); auto; cbn [s1 fpga set_nr_allocated set_info set_shadow].
  { now rewrite (tb_alloc _ Hok i Hs). }
  { now apply Hok. }
  exists i, s1, r, s'. split; [reflexivity|]. split; [exact E|]. cbn [s1 shadow fpga infos set_nr_allocated set_info set_shadow] in Es, Ei, Ef, A2. rewrite fn_lookup_insert in A2. cbn [tag] in A2.
  assert (Einfo : forall b, infos s' b = if b =? bucket_of va then Bucket (info_free (infos s b) - 1) (nr_conflicts (infos s b)) (conflict_head (infos s b)) else infos s b).
  { intros b. rewrite Ei. destruct (Z.eqb_spec b (bucket_of va)) as [->|]; [now rewrite fn_lookup_insert|now rewrite fn_lookup_insert_ne by auto]. }
  split_and!; auto.
  - apply (tables_ok_add s s' (bucket_of va) i (generate_tag pid va) (Pte (ppa (shadow s i)) (page_type (shadow s i)) true false (generate_tag pid va)) e); auto using no_entry.
    intros c. rewrite Einfo. now destruct (Z.eqb_spec c (bucket_of va)) as [->|].
  - destruct Hr as (R1 & R2 & R3 & R4). split_and!; [auto..|]. intros b. rewrite Einfo. now destruct (b =? _).
  - intros b. rewrite Einfo. destruct (b =? _); cbn; lia.
  - intros p v Hp Hv. eapply (entry_add s s' i); try exact Es; auto.
Qed.

(** The page [va] of process [pid] has lost its entry. *)
Definition removed (s s' : soc) (pid va : Z) : Prop :=
  tables_ok s' /\ ok (zone s') /\ same_rest s s' /\
  (forall b, info_free (infos s' b) = info_free (infos s b) + (if b =? bucket_of va then 1 else 0)) /\
  (forall p v, pid_ok p -> page_addr v -> entry s' p v <-> entry s p v /\ ~ (p = pid /\ v = va)).

(** [zap_pte] on a copy in use frees its page and the copy. *)
Lemma zap_pte_spec s i :
  slot_ok i -> ok (zone s) -> allocated (fpga s i) = true -> (valid (fpga s i) = true -> good_ppa (ppa (fpga s i))) ->
  exists s' e, zap_pte s i PAGE_SIZE = Some s' /\ ok (zone s') /\ shadow s' = shadow s /\ infos s' = infos s /\ same_rest s s' /\
    (forall j, fpga s' j = <[i := e]> (fpga s) j) /\ allocated e = false /\ valid e = false.
Proof.
  intros Hi Hz Ha Hv. unfold zap_pte. rewrite shadow_to_fpga_ok, Ha by auto. cbn [negb]. change (__get_order PAGE_SIZE) with 0.
  destruct (valid (fpga s i)) eqn:Ev.
  - destruct (Hv eq_refl) as (pfn & Hpfn & ->). rewrite pfn_phys_roundtrip by auto.
    destruct (page_pool_free (zone s) pfn Hz Hpfn) as (z' & -> & Hz'). cbn [mbind option_bind].
    eexists _, _. split; [reflexivity|]. cbn [zone shadow infos fpga set_fpga set_zone]. split_and!; [auto|auto|auto|repeat split|..].
    + intros j. destruct (decide (j = i)) as [->|]; [now rewrite !fn_lookup_insert|now rewrite !fn_lookup_insert_ne by auto].
    + reflexivity.
    + reflexivity.
  - cbn [mbind option_bind]. eexists _, _. split; [reflexivity|]. cbn [zone shadow infos fpga set_fpga set_zone]. split_and!; auto; repeat split.
Qed.

(** ** Ranges of pages *)

Definition added_range (s s' : soc) (pid a e : Z) : Prop :=
  tables_ok s' /\ ok (zone s') /\ same_rest s s' /\
  (forall p v, pid_ok p -> page_addr v -> entry s' p v <-> entry s p v \/ p = pid /\ a <= v < e).

Definition removed_range (s s' : soc) (pid a e : Z) : Prop :=
  tables_ok s' /\ ok (zone s') /\ same_rest s s' /\
  (forall p v, pid_ok p -> page_addr v -> entry s' p v <-> entry s p v /\ ~ (p = pid /\ a <= v < e)).

(** The first page of a range, and the rest. *)
Lemma first_page a v n : page_addr a -> page_addr v -> 0 <= n ->
  a <= v < a + (n + 1) * PAGE_SIZE <-> v = a \/ a + PAGE_SIZE <= v < a + PAGE_SIZE + n * PAGE_SIZE.
Proof. unfold page_addr. change PAGE_SIZE with 4194304. intros. Z.to_euclidean_division_equations. lia. Qed.

Lemma alloc_range_spec n fuel s pid start flags :
  tables_ok s -> ok (zone s) -> pid_ok pid -> page_addr start -> start + Z.of_nat n * PAGE_SIZE < 2 ^ 64 - PAGE_SIZE -> Z.of_nat n <= NB ->
  (forall k, 0 <= k < Z.of_nat n -> 0 < info_free (infos s (bucket_of (start + k * PAGE_SIZE)))) ->
  (forall k, 0 <= k < Z.of_nat n -> ~ entry s pid (start + k * PAGE_SIZE)) -> (n < fuel)%nat ->
  exists s', alloc_fpga_pte_range shadow_base devmem_pgtable_base global_spare_pfn fuel s pid start (start + Z.of_nat n * PAGE_SIZE) flags PAGE_SIZE = Some s' /\
    added_range s s' pid start (start + Z.of_nat n * PAGE_SIZE).
Proof.
  revert fuel s start. induction n as [|n IH]; intros fuel s start Hok Hz Hpid Hst Hend Hn Hfree Hno Hf; (destruct fuel as [|fuel]; [lia|]); cbn [alloc_fpga_pte_range].
  - rewrite (proj2 (Z.ltb_ge start _)) by lia. exists s. split; [reflexivity|]. split_and!; auto using same_rest_refl. intros p v _ _. intuition lia.
  - assert (HP : PAGE_SIZE = 2 ^ 22) by reflexivity. rewrite (proj2 (Z.ltb_lt start _)) by lia.
    assert (H0 : start = start + 0 * PAGE_SIZE) by lia.
    destruct (alloc_page_spec s pid start flags) as (pte & s1 & r & s2 & -> & E & Hok2 & Hz2 & Hr2 & Hi2 & He2); auto.
    { rewrite H0. apply Hfree. lia. } { rewrite H0. apply Hno. lia. }
    cbn [mbind option_bind]. rewrite E. cbn [mbind option_bind]. rewrite (wrap64_small (start + PAGE_SIZE)) by (unfold is_word, page_addr in *; lia).
    assert (Hnext : page_addr (start + PAGE_SIZE)) by (replace PAGE_SIZE with (1 * PAGE_SIZE) by lia; apply page_next; auto; lia).
    destruct (IH fuel s2 (start + PAGE_SIZE)) as (s' & E' & Hok' & Hz' & Hr' & He'); auto; try lia.
    + intros k Hk. replace (start + PAGE_SIZE + k * PAGE_SIZE) with (start + (k + 1) * PAGE_SIZE) by lia. rewrite Hi2.
      rewrite (proj2 (Z.eqb_neq _ _)) by (apply bucket_of_ne; auto; lia). rewrite Z.sub_0_r. apply Hfree. lia.
    + intros k Hk. replace (start + PAGE_SIZE + k * PAGE_SIZE) with (start + (k + 1) * PAGE_SIZE) by lia.
      rewrite He2 by (auto; apply page_next; auto; lia). intros [H|[_ H]]; [eapply Hno; [|exact H]; lia|lia].
    + replace (start + Z.of_nat (S n) * PAGE_SIZE) with (start + PAGE_SIZE + Z.of_nat n * PAGE_SIZE) by lia. exists s'. split; [exact E'|].
      split_and!; [auto|auto|eapply same_rest_trans; eauto|]. intros p v Hp Hv. rewrite He', He2 by auto.
      pose proof (first_page start v (Z.of_nat n) Hst Hv ltac:(lia)) as Hfp.
      replace (start + (Z.of_nat n + 1) * PAGE_SIZE) with (start + PAGE_SIZE + Z.of_nat n * PAGE_SIZE) in Hfp by lia. rewrite Hfp. naive_solver.
Qed.

Section one_free.
Context (free_cb : soc -> Z -> Z -> Z -> Z -> option (Z * soc)).

Lemma free_page_spec fuel s pid va :
  tables_ok s -> ok (zone s) -> pid_ok pid -> page_addr va -> entry s pid va -> conflict_head (infos s (bucket_of va)) = [] ->
  exists pte s1 s', addr_to_shadow_pte shadow_base devmem_pgtable_base s pid va PAGE_SHIFT = Some (Some pte) /\
    zap_shadow_pte free_cb (S fuel) s pte = Some s1 /\ zap_pte s1 pte PAGE_SIZE = Some s' /\ removed s s' pid va.
Proof.
  intros Hok Hz Hpid Hva (i & Hi & Hh) Hc. assert (Hva0 : 0 <= va) by apply Hva. pose proof (bucket_of_range va) as Hb.
  pose proof (free_bounds s _ Hok Hb) as Hfb. pose proof (in_bucket_slot _ _ Hb Hi) as Hs. pose proof Hh as [Ha Ht]%has_tag_spec.
  unfold addr_to_shadow_pte. rewrite bucket_shadow by auto. cbn [mbind option_bind].
  rewrite (find_slot_unique _ _ _ i Hi Hh).
  2: { intros k Hk [Hak Htk]%has_tag_spec. eapply (tb_unique _ Hok); eauto. congruence. }
  exists i. unfold zap_shadow_pte. rewrite Ha, (slot_to_bucket (bucket_of va)), index_info_spec by auto.
  cbn [negb mbind option_bind free_all_conflicts infos set_nr_allocated set_info]. rewrite fn_lookup_insert. cbn [conflict_head]. rewrite Hc. cbn [mbind option_bind].
  rewrite sint32_small by lia. set (s1 := set_shadow _ _ _).
  destruct (zap_pte_spec s1 i) as (s' & e & E & Hz' & Es & Ei & Hr & Ef & A1 & A2); auto; cbn [s1 fpga set_nr_allocated set_info set_shadow].
  { now rewrite (tb_alloc _ Hok i Hs). }
  { now apply Hok. }
  exists s1, s'. split; [reflexivity|]. split; [reflexivity|]. split; [exact E|]. cbn [s1 shadow fpga infos set_nr_allocated set_info set_shadow] in Es, Ei, Ef.
  assert (Einfo : forall b, infos s' b = if b =? bucket_of va then Bucket (info_free (infos s b) + 1) (nr_conflicts (infos s b)) (conflict_head (infos s b)) else infos s b).
  { intros b. rewrite Ei. destruct (Z.eqb_spec b (bucket_of va)) as [->|]; [now rewrite fn_lookup_insert, Hc|now rewrite fn_lookup_insert_ne by auto]. }
  split_and!; auto.
  - eapply (tables_ok_del s s' (bucket_of va) i); try exact Es; try exact Ef; auto.
    intros c. rewrite Einfo. now destruct (Z.eqb_spec c (bucket_of va)) as [->|].
  - destruct Hr as (R1 & R2 & R3 & R4). split_and!; [auto..|]. intros b. rewrite Einfo. now destruct (b =? _).
  - intros b. rewrite Einfo. destruct (b =? _); cbn; lia.
  - intros p v Hp Hv. eapply (entry_del s s' i); try exact Es; auto.
Qed.

(** A page without an entry is skipped. *)
Lemma free_or_skip fuel s pid va :
  tables_ok s -> ok (zone s) -> pid_ok pid -> page_addr va -> conflict_head (infos s (bucket_of va)) = [] ->
  exists pte s', addr_to_shadow_pte shadow_base devmem_pgtable_base s pid va PAGE_SHIFT = Some pte /\
    match pte with None => Some s | Some pte => s ← zap_shadow_pte free_cb (S fuel) s pte; zap_pte s pte PAGE_SIZE end = Some s' /\
    tables_ok s' /\ ok (zone s') /\ same_rest s s' /\
    (forall p v, pid_ok p -> page_addr v -> entry s' p v <-> entry s p v /\ ~ (p = pid /\ v = va)).
Proof.
  intros Hok Hz Hpid Hva Hc. destruct (entry_dec s pid va) as [Hno|Hen].
  - unfold addr_to_shadow_pte. rewrite bucket_shadow by apply Hva. cbn [mbind option_bind]. rewrite Hno. exists None, s. split; [reflexivity|].
    split_and!; auto using same_rest_refl. intros p v _ _. split; [|tauto]. intros H. split; [auto|]. intros [-> ->]. destruct H as (i & Hi & Hh).
    pose proof (find_slot_spec (shadow s) (has_tag (generate_tag pid va)) (bucket_of va)) as Hf. rewrite Hno, (Hf i Hi) in *. discriminate.
  - destruct (free_page_spec fuel s pid va) as (pte & s1 & s2 & -> & E1 & E2 & Hok2 & Hz2 & Hr2 & _ & He2); auto.
    exists (Some pte), s2. split; [reflexivity|]. rewrite E1. cbn [mbind option_bind]. auto 7.
Qed.

Lemma free_pte_loop_spec n fuel s pid start :
  tables_ok s -> ok (zone s) -> pid_ok pid -> page_addr start -> start + Z.of_nat n * PAGE_SIZE < 2 ^ 64 - PAGE_SIZE ->
  quiet s -> (S n < fuel)%nat ->
  exists s', free_pte_loop shadow_base devmem_pgtable_base free_cb fuel s pid start (start + Z.of_nat n * PAGE_SIZE) PAGE_SIZE = Some s' /\
    removed_range s s' pid start (start + Z.of_nat n * PAGE_SIZE).
Proof.
  revert fuel s start. induction n as [|n IH]; intros fuel s start Hok Hz Hpid Hst Hend Hc Hf; (destruct fuel as [|fuel]; [lia|]); cbn [free_pte_loop].
  - rewrite (proj2 (Z.ltb_ge start _)) by lia. exists s. split; [reflexivity|]. split_and!; auto using same_rest_refl. intros p v _ _. intuition lia.
  - assert (HP : PAGE_SIZE = 2 ^ 22) by reflexivity. rewrite (proj2 (Z.ltb_lt start _)) by lia. destruct fuel as [|fuel]; [lia|].
    rewrite (wrap64_small (start + PAGE_SIZE)) by (unfold is_word, page_addr in *; lia).
    assert (Hnext : page_addr (start + PAGE_SIZE)) by (replace PAGE_SIZE with (1 * PAGE_SIZE) by lia; apply page_next; auto; lia).
    destruct (free_or_skip fuel s pid start) as (pte & s2 & -> & E2 & Hok2 & Hz2 & Hr2 & He2); auto using bucket_of_range. cbn [mbind option_bind].
    rewrite E2. cbn [mbind option_bind].
    destruct (IH (S fuel) s2 (start + PAGE_SIZE)) as (s' & E' & Hok' & Hz' & Hr' & He'); auto; try lia.
    + intros b Hb. destruct Hr2 as (_ & _ & _ & ->). auto.
    + replace (start + Z.of_nat (S n) * PAGE_SIZE) with (start + PAGE_SIZE + Z.of_nat n * PAGE_SIZE) by lia. exists s'. split; [exact E'|].
      split_and!; [auto|auto|eapply same_rest_trans; eauto|]. intros p v Hp Hv. rewrite He', He2 by auto.
      pose proof (first_page start v (Z.of_nat n) Hst Hv ltac:(lia)) as Hfp.
      replace (start + (Z.of_nat n + 1) * PAGE_SIZE) with (start + PAGE_SIZE + Z.of_nat n * PAGE_SIZE) in Hfp by lia. rewrite Hfp. naive_solver.
Qed.

(** After [free_fpga_pte_range] no page of the range has an entry, and the
    cached translations of the range have been flushed. *)
Lemma free_range_spec fuel s pid a e :
  tables_ok s -> ok (zone s) -> pid_ok pid -> page_addr a -> page_addr e -> a <= e ->
  quiet s -> e - a <= (Z.of_nat fuel - 2) * PAGE_SIZE ->
  exists s', free_fpga_pte_range shadow_base devmem_pgtable_base free_cb fuel s pid a e PAGE_SIZE = Some s' /\
    tables_ok s' /\ ok (zone s') /\ same_rest (tlb_flush s pid a (e - a)) s' /\
    (forall p v, pid_ok p -> page_addr v -> entry s' p v <-> entry s p v /\ ~ (p = pid /\ a <= v < e)).
Proof.
  intros Hok Hz Hpid Ha He Hae Hc Hf. set (n := Z.to_nat ((e - a) / PAGE_SIZE)).
  assert (En : e = a + Z.of_nat n * PAGE_SIZE).
  { unfold n, page_addr in *. change PAGE_SIZE with 4194304 in *. Z.to_euclidean_division_equations. lia. }
  destruct Ha as [Ha1 Ha2], He as [He1 He2]. assert (HP : PAGE_SIZE = 4194304) by reflexivity.
  destruct (free_pte_loop_spec n fuel s pid a) as (s' & E & H1 & H2 & (R1 & R2 & R3 & R4) & H3); auto; [split; auto|lia|nia|]. rewrite <- En in E, H3.
  unfold free_fpga_pte_range. rewrite E. cbn [mbind option_bind]. rewrite (wrap64_small (e - a)) by (unfold is_word; lia).
  eexists. split; [reflexivity|]. split_and!; auto.
  - destruct H1. now split.
  - unfold same_rest. cbn [tlb_flush add_flush regs cached_vregion_start flushes infos]. rewrite R3. auto.
Qed.

Lemma free_ranges_spec fuel s pid rs :
  tables_ok s -> ok (zone s) -> pid_ok pid -> quiet s ->
  (forall r, r ∈ rs -> page_addr (fst r) /\ page_addr (snd r) /\ fst r < snd r /\ snd r - fst r <= (Z.of_nat fuel - 2) * PAGE_SIZE) ->
  exists s', free_ranges shadow_base devmem_pgtable_base free_cb fuel s pid rs = Some s' /\
    tables_ok s' /\ ok (zone s') /\ regs s' = regs s /\ cached_vregion_start s' = cached_vregion_start s /\ quiet s' /\
    flushes s' = rev (map (fun r => (pid, fst r, snd r - fst r)) rs) ++ flushes s /\
    (forall p v, pid_ok p -> page_addr v -> entry s' p v <-> entry s p v /\ ~ (p = pid /\ in_ranges rs v)).
Proof.
  revert s. induction rs as [|[a e] rs IH]; intros s Hok Hz Hpid Hc Hrs; cbn [free_ranges].
  - exists s. split; [reflexivity|]. split_and!; auto. intros p v _ _. split; [|tauto]. intros H. split; [auto|]. intros (_ & r & Hr & _). set_solver.
  - destruct (Hrs (a, e)) as (Ha & He & Hae & Hlen); [set_solver|]. cbn [fst snd] in *.
    destruct (free_range_spec fuel s pid a e) as (s1 & -> & Hok1 & Hz1 & (R1 & R2 & R3 & R4) & He1); auto; [lia|]. cbn [mbind option_bind].
    cbn [tlb_flush add_flush regs cached_vregion_start flushes infos] in R1, R2, R3, R4. destruct (IH s1) as (s' & -> & Hok' & Hz' & R1' & R2' & R3' & R4' & He'); auto.
    { intros b Hb. rewrite R4. auto. } { intros r Hr. apply Hrs. set_solver. }
    exists s'. split; [reflexivity|]. split_and!; auto; [congruence..| |].
    + rewrite R4', R3. cbn [map rev fst snd]. now rewrite <- app_assoc.
    + intros p v Hp Hv. rewrite He', He1 by auto. unfold in_ranges. split.
      * intros [[H1 H2] H3]. split; [auto|]. intros [-> (r & Hr & Hrv)]. apply elem_of_cons in Hr as [->|Hr]; [now destruct H2|destruct H3; eauto].
      * intros [H1 H2]. split_and!; auto; [intros [-> Hv']; destruct H2; split; [auto|]; exists (a, e); split; [set_solver|auto]|].
        intros [-> (r & Hr & Hrv)]. destruct H2. split; [auto|]. exists r. split; [set_solver|auto].
Qed.
End one_free.
End pages.
