(* ===== verification/SocProofs.v ===== *)
(** * Address spaces: vRegions and page tables together

    The invariant [soc_inv] says that, as long as no bucket of the page table has
    overflowed, the pages that the areas of a process map are exactly the pages
    that have a page-table entry.  The effect of allocating and freeing virtual
    addresses is then stated on the set of pages that have an entry. *)

From stdpp Require Import functions.
From S2P Require Import Prelude Bitops DList Buddy RbTree Vma VmaTree VmaOps VmaFree VmaSearch Pgtable PgtableProofs.

#[local] Set Warnings "-clear-no-such-hyp".

(** ** Pages and regions *)

Definition aligned (z : Z) : Prop := z mod PAGE_SIZE = 0.
Definition ordinary (f : Z) : Prop := f <> LEGOMEM_VM_FLAGS_CONFLICT.

(** The addresses of the region with index [vi]. *)
Definition in_region (vi z : Z) : Prop := vi * VREGION_SIZE <= z < (vi + 1) * VREGION_SIZE.

Lemma same_page a b z z' : aligned a -> aligned b -> z / PAGE_SIZE = z' / PAGE_SIZE -> a <= z < b -> a <= z' < b.
Proof. unfold aligned. change PAGE_SIZE with 4194304. intros. Z.to_euclidean_division_equations. lia. Qed.

Lemma mapped_page R v xs z z' : areas aligned R v xs -> z / PAGE_SIZE = z' / PAGE_SIZE -> mapped v xs z -> mapped v xs z'.
Proof. intros Ha Hz (x & Hx & Hc). exists x. split; [auto|]. destruct (Ha x Hx) as (H1 & H2 & _). unfold covers in *. eapply same_page; eauto. Qed.

(** With page-aligned areas, the highest range that fits is page-aligned. *)
Lemma highest_aligned R v xs len low high r :
  areas aligned R v xs -> aligned len -> aligned high -> 0 < len -> fits v xs len low high r ->
  (forall b, fits v xs len low high b -> b <= r) -> aligned r.
Proof.
  intros Ha Hl Hh Hlen (F1 & F2 & F3) Hmax. destruct (decide (aligned r)) as [|Hr]; [auto|]. exfalso.
  set (r' := (r / PAGE_SIZE + 1) * PAGE_SIZE).
  assert (Hr' : r < r' /\ r' + len <= high /\ (r + len - 1) / PAGE_SIZE = (r' + len - 1) / PAGE_SIZE).
  { unfold r', aligned in *. change PAGE_SIZE with 4194304 in *. Z.to_euclidean_division_equations. lia. }
  destruct Hr' as (H1 & H2 & H3). assert (Hfit : fits v xs len low high r'); [|specialize (Hmax r' Hfit); lia].
  split_and!; [lia|lia|]. intros z Hz Hm. destruct (Z.lt_ge_cases z (r + len)) as [Hlt|Hge]; [apply (F3 z); [lia|auto]|].
  apply (F3 (r + len - 1)); [lia|]. eapply mapped_page; [exact Ha| |exact Hm].
  unfold r', aligned in *. change PAGE_SIZE with 4194304 in *. Z.to_euclidean_division_equations. lia.
Qed.

(** Page [k] of a range. *)
Lemma page_of_range a n v : aligned a -> page_addr v -> a <= v < a + n * PAGE_SIZE -> exists k, 0 <= k < n /\ v = a + k * PAGE_SIZE.
Proof.
  unfold aligned, page_addr. change PAGE_SIZE with 4194304. intros. exists ((v - a) / 4194304). Z.to_euclidean_division_equations. lia.
Qed.

Section soc.
Context (ok : fpga_zone -> Prop) {Hpool : page_pool ok}.
Context (shadow_base devmem_pgtable_base global_spare_pfn : Z).
Context (Hbase : 0 <= shadow_base /\ shadow_base + NB * sizeof_bucket <= devmem_pgtable_base + FPGA_MEMORY_MAP_PGTABLE_SIZE).
Context (Hdev : 0 <= devmem_pgtable_base /\ devmem_pgtable_base + FPGA_MEMORY_MAP_PGTABLE_SIZE < 2 ^ 64).
Context (Hspare : global_spare_pfn = 0 \/ START_PFN <= global_spare_pfn < MAX_PFN).

(** ** The invariant *)

(** The areas [xs] of region [vi] of process [pid] and the entries of its pages agree. *)
Definition region_ok (s : soc) (pid vi : Z) (xs : list Z) : Prop :=
  vinv (regs s (pid, vi)) xs /\ areas aligned ordinary (regs s (pid, vi)) xs /\
  forall va, page_addr va -> in_region vi va -> mapped (regs s (pid, vi)) xs va <-> entry s pid va.

Record soc_inv (s : soc) : Prop := {
  soc_tables : tables_ok s;
  soc_zone : ok (zone s);
  soc_quiet : quiet s;
  soc_region pid vi : pid_ok pid -> 0 <= vi < NR_VREGIONS -> exists xs, region_ok s pid vi xs;
}.

(** The pages with an entry change by one range of one process. *)
Definition gained (s s' : soc) (pid a e : Z) : Prop :=
  forall p v, pid_ok p -> page_addr v -> entry s' p v <-> entry s p v \/ p = pid /\ a <= v < e.
Definition lost (s s' : soc) (pid a e : Z) : Prop :=
  forall p v, pid_ok p -> page_addr v -> entry s' p v <-> entry s p v /\ ~ (p = pid /\ a <= v < e).
Definition same_entries (s s' : soc) : Prop :=
  forall p v, pid_ok p -> page_addr v -> entry s' p v <-> entry s p v.

Lemma in_region_unique vi vi' z : in_region vi z -> in_region vi' z -> vi = vi'.
Proof. unfold in_region. change VREGION_SIZE with 1073741824. lia. Qed.

(** The invariant when one region and the entries of pages inside it change. *)
Lemma soc_inv_update s s' pid vi v' xs' :
  soc_inv s -> tables_ok s' -> ok (zone s') -> quiet s' -> regs s' = <[(pid, vi) := v']> (regs s) ->
  vinv v' xs' -> areas aligned ordinary v' xs' ->
  (forall p va, pid_ok p -> page_addr va -> p <> pid \/ ~ in_region vi va -> entry s' p va <-> entry s p va) ->
  (forall va, page_addr va -> in_region vi va -> mapped v' xs' va <-> entry s' pid va) -> soc_inv s'.
Proof.
  intros Hs Ht Hz Hc Er Hv' Ha' Hout Hin. split; auto. intros p i Hp Hi. destruct (decide ((p, i) = (pid, vi))) as [[= -> ->]|Hne].
  - exists xs'. unfold region_ok. rewrite Er, fn_lookup_insert. auto.
  - destruct (soc_region _ Hs p i Hp Hi) as (xs & H1 & H2 & H3). exists xs. unfold region_ok. rewrite Er, fn_lookup_insert_ne by auto.
    split_and!; auto. intros va Hva Hreg. rewrite H3 by auto. symmetry. apply Hout; auto.
    destruct (decide (p = pid)) as [->|]; [right|auto]. intros Hr. apply Hne. f_equal. eapply in_region_unique; eauto.
Qed.

(** ** [__free_va] *)

(** The pages of the ranges that [__free_va] gives back. *)
Lemma freed_pages v xs a e rs v' xs' fuel vi :
  freed v xs a e rs v' xs' -> areas aligned ordinary v xs -> aligned a -> aligned e -> 0 <= vi < NR_VREGIONS ->
  vi * VREGION_SIZE <= a -> e <= (vi + 1) * VREGION_SIZE -> VREGION_SIZE <= (Z.of_nat fuel - 2) * PAGE_SIZE ->
  areas aligned ordinary v' xs' /\
  (forall r, r ∈ rs -> page_addr (fst r) /\ page_addr (snd r) /\ fst r < snd r /\ snd r - fst r <= (Z.of_nat fuel - 2) * PAGE_SIZE) /\
  (forall z, in_ranges rs z <-> a <= z < e /\ mapped v xs z).
Proof.
  intros (Hv' & _ & _ & Hrs & Hn & Hr) Ha Haa Hae Hvi Hlo Hhi Hf. assert (Hcuts : Forall aligned [a; e]) by auto. split_and!.
  - apply Hn; auto.
  - intros r Hin. destruct (Hr aligned ordinary Ha Hcuts r Hin) as (A1 & A2 & A3).
    assert (Hb : a <= fst r /\ snd r <= e).
    { assert (B1 : in_ranges rs (fst r)) by (exists r; split; [auto|lia]). assert (B2 : in_ranges rs (snd r - 1)) by (exists r; split; [auto|lia]).
      apply Hrs in B1 as [B1 _]. apply Hrs in B2 as [B2 _]. lia. }
    change NR_VREGIONS with 1048576 in *. change VREGION_SIZE with 1073741824 in *. unfold page_addr, aligned in *. change PAGE_SIZE with 4194304 in *.
    split_and!; auto; lia.
  - intros z. rewrite Hrs. rewrite mapped_maps. split; [naive_solver|]. intros (Hz & f & Hm). split; [auto|]. exists f. split; [auto|].
    destruct Hm as (x & Hx & _ & <-). apply (Ha x Hx).
Qed.

Lemma sys_free_va_spec fuel s pid vi start len :
  soc_inv s -> pid_ok pid -> 0 <= vi < NR_VREGIONS -> aligned start -> aligned len -> 0 < len ->
  vi * VREGION_SIZE <= start -> start + len <= (vi + 1) * VREGION_SIZE -> (258 <= fuel)%nat ->
  exists err s', sys_free_va shadow_base devmem_pgtable_base (S fuel) s pid vi start len = Some (err, s') /\ soc_inv s' /\
    (err = 0 /\ lost s s' pid start (start + len) \/
     err = - ENOMEM /\ same_entries s s' /\ (scarce (regs s (pid, vi)) \/
       exists a e, aligned a /\ aligned e /\ a < start /\ start + len < e /\ forall va, page_addr va -> in_region vi va -> a <= va < e -> entry s pid va)).
Proof.
  intros Hs Hp Hvi Has Hal Hlen Hlo Hhi Hf. destruct (soc_region _ Hs pid vi Hp Hvi) as (xs & Hv & Ha & Hent).
  assert (HV : VREGION_SIZE = 1073741824) by reflexivity. assert (HN : NR_VREGIONS = 1048576) by reflexivity.
  assert (HP : PAGE_SIZE = 4194304) by reflexivity.
  assert (Hae : aligned (start + len)) by (unfold aligned in *; rewrite HP in *; Z.to_euclidean_division_equations; lia).
  cbn [sys_free_va]. set (v := regs s (pid, vi)) in *.
  destruct (free_va_spec (vm_fuel v) v xs start len) as (err & rs & v' & -> & xs' & H); auto; try lia.
  { unfold vm_fuel. rewrite (inv_nr _ _ Hv). lia. }
  cbn [mbind option_bind]. set (s1 := set_reg s (pid, vi) v').
  assert (Hbound : forall va, start <= va < start + len -> in_region vi va) by (unfold in_region; lia).
  destruct H as [(-> & Hfr)|(-> & -> & (Hv' & Hm & Hn) & Hwhy)].
  - destruct (freed_pages v xs start (start + len) rs v' xs' fuel vi) as (Ha' & Hr1 & Hr2); auto; [lia|].
    destruct (free_ranges_spec ok shadow_base devmem_pgtable_base global_spare_pfn Hbase Hdev Hspare (sys_free_va shadow_base devmem_pgtable_base fuel) fuel s1 pid rs)
      as (s' & -> & Hok' & Hz' & R1 & _ & R3 & _ & He'); auto; try apply Hs.
    { destruct (soc_tables _ Hs). now split. }
    cbn [mbind option_bind].
    assert (Hlost : lost s s' pid start (start + len)).
    { intros p va Hp' Hva. rewrite He' by auto. change (entry s1 p va) with (entry s p va). split; (intros [H1 H2]; split; [exact H1|]; intros [-> H3]; apply H2; split; [auto|]).
      - apply Hr2. split; [auto|]. apply Hent; auto.
      - now apply Hr2 in H3 as [? _]. }
    exists 0, s'. split; [reflexivity|]. split; [|left; auto].
    apply (soc_inv_update s s' pid vi v' xs'); auto.
    + apply Hfr.
    + intros p va Hp' Hva Hout. rewrite (Hlost p va Hp' Hva). split; [tauto|]. intros H. split; [auto|]. intros [-> H1]. destruct Hout as [|Hout]; [done|]. auto.
    + intros va Hva Hreg. rewrite (Hlost pid va Hp Hva), <- Hent by auto. destruct Hfr as (_ & _ & Hmaps & _). rewrite !mapped_maps. setoid_rewrite Hmaps. naive_solver.
  - cbn [free_ranges mbind option_bind]. exists (- ENOMEM), s1. split; [reflexivity|]. split; [|right; split; [auto|split; [intros p va _ _; reflexivity|]]].
    + destruct Hs as [[] ? ? ?]. apply (soc_inv_update s s1 pid vi v' xs'); auto; try now split.
      intros va Hva Hreg. change (entry s1 pid va) with (entry s pid va). rewrite <- Hent by auto. rewrite !mapped_maps. now setoid_rewrite Hm.
    + destruct Hwhy as [|(x & Hx & H1 & H2)]; [auto|]. right. exists (vm_start v x), (vm_end v x). destruct (Ha x Hx) as (? & ? & _). split_and!; auto.
      intros va Hva Hreg Hc. apply Hent; auto. exists x. auto.
Qed.

(** ** [__alloc_va] *)

Definition no_full_bucket (s : soc) : Prop := forall b, 0 <= b < NB -> 0 < info_free (infos s b).

(** Without a full bucket [check_and_insert_shadow_conflicts] changes nothing. *)
Lemma conflicts_loop_none n fuel s pid vi start :
  no_full_bucket s -> page_addr start -> start + Z.of_nat n * PAGE_SIZE < 2 ^ 64 - PAGE_SIZE -> (n < fuel)%nat ->
  conflicts_loop shadow_base devmem_pgtable_base fuel s pid vi start (start + Z.of_nat n * PAGE_SIZE) PAGE_SIZE PAGE_SHIFT false = Some (false, s).
Proof.
  intros Hfree. assert (HP : PAGE_SIZE = 4194304) by reflexivity. revert fuel start. induction n as [|n IH]; intros fuel start Hst Hend Hf; (destruct fuel as [|fuel]; [lia|]); cbn [conflicts_loop].
  - now rewrite (proj2 (Z.ltb_ge start _)) by lia.
  - rewrite (proj2 (Z.ltb_lt start _)) by lia. pose proof (bucket_of_range start) as Hb. specialize (Hfree _ Hb) as Hfr.
    rewrite bucket_index_spec, index_info_spec by (auto; apply Hst). cbn [mbind option_bind].
    rewrite (proj2 (Z.eqb_neq _ 0)) by lia. cbn [mbind option_bind]. rewrite (wrap64_small (start + PAGE_SIZE)) by (destruct Hst; unfold is_word; lia).
    replace (start + Z.of_nat (S n) * PAGE_SIZE) with (start + PAGE_SIZE + Z.of_nat n * PAGE_SIZE) by lia. apply IH; [|lia|lia].
    replace PAGE_SIZE with (1 * PAGE_SIZE) by lia. apply page_next; [auto|lia..].
Qed.

(** Mapping a free range: only the area structures can run out. *)
Lemma sys_vma_tree_new_free fuel s pid vi xs a len flags :
  vinv (regs s (pid, vi)) xs -> 0 <= a -> 0 < len -> a + len < 2 ^ 64 -> (forall z, a <= z < a + len -> ~ mapped (regs s (pid, vi)) xs z) ->
  exists ret v' xs', sys_vma_tree_new shadow_base devmem_pgtable_base (S fuel) s pid vi a len flags = Some (ret, set_reg s (pid, vi) v') /\ vinv v' xs' /\
    (ret = a /\ (forall z, mapped v' xs' z <-> mapped (regs s (pid, vi)) xs z \/ a <= z < a + len) /\
       (forall Q R : Z -> Prop, areas Q R (regs s (pid, vi)) xs -> Q a -> Q (a + len) -> R flags -> areas Q R v' xs') \/
     ret = wrap64 (- ENOMEM) /\ hd 0 (pool (regs s (pid, vi))) = 0 /\ xs' = xs /\ v' = set_pool (regs s (pid, vi)) (tl (pool (regs s (pid, vi))))).
Proof.
  intros Hv Ha Hlen Hend Hfree. unfold sys_vma_tree_new. cbn [sys_clear_old_maps]. set (v := regs s (pid, vi)) in *.
  assert (Hf : (length xs < vm_fuel v)%nat) by (unfold vm_fuel; rewrite (inv_nr _ _ Hv); lia).
  rewrite (wrap64_small (a + len)) by (unfold is_word; lia).
  destruct (links_free (vm_fuel v) v xs a (a + len)) as (A & B & d & p & -> & -> & Hh & Hlo & Hhi); auto; [lia|intros z Hz Hr; eapply Hfree; eauto|].
  cbn [mbind option_bind]. fold v.
  destruct (new_mapping_spec (vm_fuel v) v A B d p a len flags) as (ret & v' & xs' & -> & Hv' & H'); auto.
  cbn [mbind option_bind]. exists ret, v', xs'. auto.
Qed.

Lemma page_align_region len : 0 < len <= VREGION_SIZE ->
  aligned (PAGE_ALIGN len) /\ len <= PAGE_ALIGN len <= VREGION_SIZE /\ exists n, PAGE_ALIGN len = Z.of_nat n * PAGE_SIZE /\ (0 < n <= 256)%nat.
Proof.
  change VREGION_SIZE with 1073741824. intros H. assert (HP : PAGE_SIZE = 4194304) by reflexivity. destruct (PAGE_ALIGN_bounds len) as [H1 H2]; [lia|lia|]. unfold aligned.
  rewrite HP in *. split; [auto|]. split; [Z.to_euclidean_division_equations; lia|]. exists (Z.to_nat (PAGE_ALIGN len / 4194304)).
  Z.to_euclidean_division_equations. lia.
Qed.

Lemma IS_ALIGNED_page z : is_word z -> aligned z -> IS_ALIGNED z PAGE_SIZE = true.
Proof.
  intros Hz Ha. unfold IS_ALIGNED. rewrite (wrap64_small (PAGE_SIZE - 1)) by (vm_compute; split; [discriminate|reflexivity]).
  unfold aligned in Ha. change PAGE_SIZE with (2 ^ 22) in *. rewrite land_pow2_pred by lia. now apply Z.eqb_eq.
Qed.

Lemma not_err z : 0 <= z < 2 ^ 63 -> IS_ERR_VALUE z = false.
Proof. intros H. unfold IS_ERR_VALUE. apply Z.leb_gt. change (wrap64 (- MAX_ERRNO)) with (2 ^ 64 - 4095). lia. Qed.

Lemma soc_inv_cached s n : soc_inv s -> soc_inv (set_cached s n).
Proof. intros [[] ? ? ?]. split; auto. now split. Qed.

Lemma entries_dec s pid b n :
  (forall k, 0 <= k < Z.of_nat n -> ~ entry s pid (b + k * PAGE_SIZE)) \/ exists k, 0 <= k < Z.of_nat n /\ entry s pid (b + k * PAGE_SIZE).
Proof.
  induction n as [|n [IH|(k & Hk & He)]]; [left; lia| |right; exists k; split; [lia|auto]].
  destruct (entry_dec s pid (b + Z.of_nat n * PAGE_SIZE)) as [Hno|He]; [left|right; exists (Z.of_nat n); split; [lia|auto]].
  intros k Hk He. destruct (decide (k = Z.of_nat n)) as [->|]; [|eapply (IH k); [lia|auto]]. destruct He as (i & Hi & Hh).
  pose proof (find_slot_spec (shadow s) (has_tag (generate_tag pid (b + Z.of_nat n * PAGE_SIZE))) (bucket_of (b + Z.of_nat n * PAGE_SIZE))) as Hf.
  rewrite Hno, (Hf i Hi) in *. discriminate.
Qed.

(** Page addresses of a region. *)
Lemma region_page vi z : 0 <= vi < NR_VREGIONS -> in_region vi z -> aligned z -> page_addr z.
Proof.
  unfold in_region, aligned, page_addr. change NR_VREGIONS with 1048576. change VREGION_SIZE with 1073741824. intros. change PAGE_SIZE with 4194304 in *. lia.
Qed.

(** A range of pages without entries is free, and conversely. *)
Lemma fits_entries s pid vi xs n low high b :
  region_ok s pid vi xs -> 0 <= vi < NR_VREGIONS -> aligned b -> vi * VREGION_SIZE <= b -> b + Z.of_nat n * PAGE_SIZE <= (vi + 1) * VREGION_SIZE ->
  low <= b -> b + Z.of_nat n * PAGE_SIZE <= high ->
  fits (regs s (pid, vi)) xs (Z.of_nat n * PAGE_SIZE) low high b <-> forall k, 0 <= k < Z.of_nat n -> ~ entry s pid (b + k * PAGE_SIZE).
Proof.
  intros (Hv & Ha & Hent) Hvi Hb Hlo Hhi Hlow Hhigh. assert (HP : PAGE_SIZE = 4194304) by reflexivity.
  assert (Hpage : forall k, 0 <= k < Z.of_nat n -> page_addr (b + k * PAGE_SIZE) /\ in_region vi (b + k * PAGE_SIZE)).
  { intros k Hk. assert (in_region vi (b + k * PAGE_SIZE)) by (unfold in_region; nia). split; [|auto]. eapply region_page; eauto.
    unfold aligned in *. rewrite Z.mod_add; auto; lia. }
  split.
  - intros (_ & _ & F) k Hk He. destruct (Hpage k Hk). apply (F (b + k * PAGE_SIZE)); [nia|]. now apply Hent.
  - intros Hno. split_and!; auto. intros z Hz Hm. set (k := (z - b) / PAGE_SIZE).
    assert (Hk : 0 <= k < Z.of_nat n /\ z / PAGE_SIZE = (b + k * PAGE_SIZE) / PAGE_SIZE).
    { unfold k, aligned in *. rewrite HP in *. Z.to_euclidean_division_equations. lia. }
    destruct Hk as [Hk Hz']. destruct (Hpage k Hk). apply (Hno k Hk), Hent; auto. eapply mapped_page; eauto.
Qed.

Definition no_room (s : soc) (pid vi len : Z) : Prop :=
  forall b, aligned b -> 0 < b -> vi * VREGION_SIZE <= b -> b + len <= (vi + 1) * VREGION_SIZE ->
    exists va, page_addr va /\ b <= va < b + len /\ entry s pid va.

(** The range [a, a + len) of region [vi] was free and has got its entries. *)
Definition allocated_range (s s' : soc) (pid vi a len : Z) : Prop :=
  aligned a /\ 0 < a /\ vi * VREGION_SIZE <= a /\ a + len <= (vi + 1) * VREGION_SIZE /\
  (forall va, page_addr va -> a <= va < a + len -> ~ entry s pid va) /\ gained s s' pid a (a + len).

(** A failed attempt on region [vi]. *)
Definition untouched (s s' : soc) (pid vi : Z) : Prop :=
  same_entries s s' /\ infos s' = infos s /\ forall k, k <> (pid, vi) -> regs s' k = regs s k.

(** Mapping a free range and giving entries to its pages. *)
Lemma alloc_place fuel s pid vi a n flags :
  soc_inv s -> no_full_bucket s -> pid_ok pid -> 0 <= vi < NR_VREGIONS -> ordinary flags -> aligned a -> 0 < a -> (0 < n <= 256)%nat ->
  vi * VREGION_SIZE <= a -> a + Z.of_nat n * PAGE_SIZE <= (vi + 1) * VREGION_SIZE ->
  (forall k, 0 <= k < Z.of_nat n -> ~ entry s pid (a + k * PAGE_SIZE)) -> (257 <= fuel)%nat ->
  exists ret s1, sys_vma_tree_new shadow_base devmem_pgtable_base fuel s pid vi a (Z.of_nat n * PAGE_SIZE) flags = Some (ret, s1) /\
    (ret = a /\ (exists s', alloc_fpga_pte_range shadow_base devmem_pgtable_base global_spare_pfn fuel s1 pid a (a + Z.of_nat n * PAGE_SIZE) flags PAGE_SIZE = Some s' /\
       soc_inv s' /\ allocated_range s s' pid vi a (Z.of_nat n * PAGE_SIZE)) \/
     ret = wrap64 (- ENOMEM) /\ soc_inv s1 /\ untouched s s1 pid vi /\ hd 0 (pool (regs s (pid, vi))) = 0).
Proof.
  intros Hs Hfull Hp Hvi Hfl Ha Ha0 Hn Hlo Hhi Hno Hf. destruct (soc_region _ Hs pid vi Hp Hvi) as (xs & Hreg).
  assert (HP : PAGE_SIZE = 4194304) by reflexivity. assert (HV : VREGION_SIZE = 1073741824) by reflexivity. assert (HN : NR_VREGIONS = 1048576) by reflexivity.
  pose proof (proj2 (fits_entries s pid vi xs n a (a + Z.of_nat n * PAGE_SIZE) a Hreg Hvi Ha Hlo Hhi ltac:(lia) ltac:(lia)) Hno) as (_ & _ & Hfree).
  destruct Hreg as (Hv & Har & Hent). destruct fuel as [|fuel]; [lia|].
  assert (Hpa : page_addr a) by (apply (region_page vi); auto; unfold in_region; lia).
  destruct (sys_vma_tree_new_free fuel s pid vi xs a (Z.of_nat n * PAGE_SIZE) flags) as (ret & v' & xs' & -> & Hv' & H); auto; try lia.
  exists ret, (set_reg s (pid, vi) v'). split; [reflexivity|]. set (s1 := set_reg s (pid, vi) v').
  assert (Hae : aligned (a + Z.of_nat n * PAGE_SIZE)) by (unfold aligned in *; rewrite Z.mod_add; auto; lia).
  destruct H as [(-> & Hmap & Hnew)|(-> & Hempty & -> & ->)].
  - left. split; [auto|].
    destruct (alloc_range_spec ok shadow_base devmem_pgtable_base global_spare_pfn Hbase Hdev Hspare n (S fuel) s1 pid a flags)
      as (s' & -> & Hok' & Hz' & (R1 & R2 & R3 & R4) & He'); auto; try lia; try apply Hs.
    { destruct (soc_tables _ Hs). now split. }
    { change NB with 32768. lia. }
    { intros k Hk. apply Hfull, bucket_of_range. }
    exists s'. split; [reflexivity|]. assert (Hg : gained s s' pid a (a + Z.of_nat n * PAGE_SIZE)) by exact He'.
    assert (Hin : forall va, a <= va < a + Z.of_nat n * PAGE_SIZE -> in_region vi va) by (unfold in_region; lia).
    split; [|split_and!; auto].
    + apply (soc_inv_update s s' pid vi v' xs'); auto.
      * intros b Hb. rewrite R4. now apply (soc_quiet _ Hs).
      * intros p va Hp' Hva Hout. rewrite (Hg p va Hp' Hva). split; [|tauto]. intros [|[-> H]]; [auto|]. destruct Hout as [|Hout]; [done|]. destruct Hout. auto.
      * intros va Hva Hr. rewrite (Hg pid va Hp Hva), Hmap, Hent by auto. tauto.
    + intros va Hva Hr He. destruct (page_of_range a (Z.of_nat n) va Ha Hva Hr) as (k & Hk & ->). exact (Hno k Hk He).
  - right. split_and!; auto; [|split_and!; [intros p va _ _; reflexivity|auto|intros k Hk; now apply fn_lookup_insert_ne]]. destruct Hs as [[] ? ? ?]. apply (soc_inv_update s s1 pid vi (set_pool (regs s (pid, vi)) (tl (pool (regs s (pid, vi))))) xs); auto; try now split.
Qed.

Lemma alloc_va_vregion_spec fuel s pid vi len flags :
  soc_inv s -> no_full_bucket s -> pid_ok pid -> 0 <= vi < NR_VREGIONS -> 0 < len <= VREGION_SIZE -> ordinary flags -> (257 <= fuel)%nat ->
  exists addr r s', __alloc_va shadow_base devmem_pgtable_base global_spare_pfn (S fuel) s pid vi len flags = Some (addr, r, s') /\ soc_inv s' /\
    (addr <> 0 /\ allocated_range s s' pid vi addr (PAGE_ALIGN len) \/
     addr = 0 /\ untouched s s' pid vi /\ (hd 0 (pool (regs s (pid, vi))) = 0 \/ no_room s pid vi (PAGE_ALIGN len))).
Proof.
  intros Hs Hfull Hp Hvi Hlen Hfl Hf. destruct (page_align_region len Hlen) as (Hal & Hbnd & n & En & Hn).
  assert (HP : PAGE_SIZE = 4194304) by reflexivity. assert (HV : VREGION_SIZE = 1073741824) by reflexivity. assert (HN : NR_VREGIONS = 1048576) by reflexivity.
  unfold __alloc_va. rewrite (proj2 (Z.ltb_ge VREGION_SIZE _)) by lia. cbn [alloc_va_retry]. destruct (soc_region _ Hs pid vi Hp Hvi) as (xs & Hreg).
  pose proof Hreg as (Hv & Har & Hent). destruct (vregion_limits vi Hvi) as [El Eh]. set (v := regs s (pid, vi)) in *.
  destruct (find_va_range_spec (vm_fuel v) v xs vi _ _ (PAGE_ALIGN len) true Hv Hvi El Eh) as (addr & Ea & Hfind); [lia|unfold vm_fuel; rewrite (inv_nr _ _ Hv); lia|].
  rewrite El, Eh. cbn [mbind option_bind]. rewrite Ea. cbn [mbind option_bind]. clear Ea. set (low := if vi =? 0 then 0x1000 else vi * VREGION_SIZE) in *.
  assert (Hlow : 0 < low /\ vi * VREGION_SIZE <= low) by (unfold low; destruct (Z.eqb_spec vi 0); lia).
  destruct Hfind as [(_ & Hfit & Hmax)|(-> & Hnone)].
  - assert (Ha : aligned addr) by (apply (highest_aligned ordinary v xs (PAGE_ALIGN len) low ((vi + 1) * VREGION_SIZE)); auto; [unfold aligned; rewrite HP, HV; Z.to_euclidean_division_equations; lia|lia]).
    assert (Hfit' := Hfit). destruct Hfit' as (F1 & F2 & _). rewrite En in Hfit, F2.
    pose proof (proj1 (fits_entries s pid vi xs n low _ addr Hreg Hvi Ha ltac:(lia) F2 F1 F2) Hfit) as Hno.
    rewrite not_err, IS_ALIGNED_page by (auto; unfold is_word; lia). cbn [negb]. unfold check_and_insert_shadow_conflicts.
    rewrite En, (wrap64_small (addr + _)) by (unfold is_word; lia).
    rewrite conflicts_loop_none; auto; [|apply (region_page vi); auto; unfold in_region; lia|lia|lia]. cbn [mbind option_bind].
    destruct (alloc_place fuel s pid vi addr n flags) as (ret & s1 & -> & H); auto; try lia. cbn [mbind option_bind].
    destruct H as [(-> & s' & E' & Hs' & Hr)|(-> & Hs1 & He1 & Hm)].
    + rewrite not_err, (wrap64_small (addr + _)) by (unfold is_word; lia). rewrite E'. eexists _, _, s'. split; [reflexivity|].
      split; [auto|]. left. split; [lia|auto].
    + change (IS_ERR_VALUE (wrap64 (- ENOMEM))) with true. eexists _, _, s1. split; [reflexivity|]. split; [auto|]. right. auto.
  - change (IS_ERR_VALUE (wrap64 (- ENOMEM))) with true. eexists _, _, _. split; [reflexivity|]. split; [now apply soc_inv_cached|]. right.
    split; [auto|]. split; [repeat split; auto|]. right. intros b Hb Hb0 Hblo Hbhi. rewrite En in *.
    assert (Hlb : low <= b) by (unfold low; destruct (Z.eqb_spec vi 0); [unfold aligned in Hb; rewrite HP in Hb; Z.to_euclidean_division_equations; lia|lia]).
    destruct (entries_dec s pid b n) as [Hno|(k & Hk & He)].
    + destruct (Hnone ltac:(lia) b). apply (fits_entries s pid vi xs n low _ b); auto.
    + exists (b + k * PAGE_SIZE). split_and!; auto; [|nia..]. apply (region_page vi); auto; [unfold in_region; nia|unfold aligned in *; rewrite Z.mod_add; auto; lia].
Qed.

(** ** [alloc_va] and [free_va] *)

Lemma no_room_ext s s' pid vi len : same_entries s s' -> pid_ok pid -> no_room s' pid vi len -> no_room s pid vi len.
Proof. intros He Hp Hn b H1 H2 H3 H4. destruct (Hn b H1 H2 H3 H4) as (va & Hva & Hr & Hent). exists va. split_and!; auto; [lia..|]. now apply He. Qed.

Lemma allocated_range_ext s s1 s' pid vi a len :
  same_entries s s1 -> pid_ok pid -> allocated_range s1 s' pid vi a len -> allocated_range s s' pid vi a len.
Proof.
  intros He Hp (H1 & H2 & H3 & H4 & H5 & H6). split_and!; auto.
  - intros va Hva Hr Hent. apply (H5 va Hva Hr). now apply He.
  - intros p va Hp' Hva. rewrite (H6 p va Hp' Hva), (He p va Hp' Hva). reflexivity.
Qed.

Definition region_failed (s : soc) (pid vi len : Z) : Prop := hd 0 (pool (regs s (pid, vi))) = 0 \/ no_room s pid vi len.

Lemma alloc_va_scan_spec n fuel s pid i len flags nr sum :
  soc_inv s -> no_full_bucket s -> pid_ok pid -> 0 <= i -> i + Z.of_nat n = NR_VREGIONS -> 0 < len <= VREGION_SIZE -> ordinary flags -> (257 <= fuel)%nat ->
  exists addr sum' s', alloc_va_scan shadow_base devmem_pgtable_base global_spare_pfn n (S fuel) s pid i len flags nr sum = Some (addr, sum', s') /\ soc_inv s' /\
    ((exists vi, i <= vi < NR_VREGIONS /\ allocated_range s s' pid vi addr (PAGE_ALIGN len) /\ forall w, i <= w < vi -> region_failed s pid w (PAGE_ALIGN len)) \/
     addr = wrap64 (- ENOMEM) /\ same_entries s s' /\ forall w, i <= w < NR_VREGIONS -> region_failed s pid w (PAGE_ALIGN len)).
Proof.
  revert s i nr sum. induction n as [|n IH]; intros s i nr sum Hs Hfull Hp Hi Hn Hlen Hfl Hf; cbn [alloc_va_scan].
  - eexists _, _, s. split; [reflexivity|]. split; [auto|]. right. split; [auto|]. split; [intros p va _ _; reflexivity|]. lia.
  - destruct (alloc_va_vregion_spec fuel s pid i len flags) as (addr & r & s1 & E & Hs1 & H); auto; [lia|]. unfold alloc_va_vregion. rewrite E. cbn [mbind option_bind].
    destruct H as [(Hne & Hr)|(-> & Ht & Hwhy)].
    + pose proof Hr as (_ & R1 & R2 & R3 & _). pose proof (page_align_region len Hlen) as (_ & Hb & _).
      unfold IS_ERR_OR_NULL. rewrite (proj2 (Z.eqb_neq addr 0)), not_err by (auto; change NR_VREGIONS with 1048576 in *; change VREGION_SIZE with 1073741824 in *; lia).
      eexists _, _, s1. split; [reflexivity|]. split; [auto|]. left. exists i. split_and!; auto; lia.
    + change (negb (IS_ERR_OR_NULL 0)) with false. cbv iota. destruct Ht as (He & Ei & Er).
      assert (Hback : forall w, i + 1 <= w -> region_failed s1 pid w (PAGE_ALIGN len) -> region_failed s pid w (PAGE_ALIGN len)).
      { intros w Hw [H|H]; [left|right; eapply no_room_ext; eauto]. rewrite <- (Er (pid, w)); [auto|]. intros [=]. lia. }
      destruct (IH s1 (i + 1) (default nr r) (sum + default nr r)) as (addr & sum' & s' & -> & Hs' & H); auto; [|lia|lia|].
      { intros b Hb. rewrite Ei. now apply Hfull. }
      exists addr, sum', s'. split; [reflexivity|]. split; [auto|]. destruct H as [(vi & Hvi & Hr & Hw)|(-> & He' & Hw)].
      * left. exists vi. split_and!; [lia|lia|eapply allocated_range_ext; eauto|]. intros w Hw'. destruct (decide (w = i)) as [->|]; [exact Hwhy|]. apply Hback; [lia|]. apply Hw. lia.
      * right. split; [auto|]. split; [intros p va Hp' Hva; rewrite (He' p va Hp' Hva); auto|]. intros w Hw'.
        destruct (decide (w = i)) as [->|]; [exact Hwhy|]. apply Hback; [lia|]. apply Hw. lia.
Qed.

Lemma lost_trans s s1 s2 pid a m e : a <= m <= e -> lost s s1 pid a m -> lost s1 s2 pid m e -> lost s s2 pid a e.
Proof.
  intros Hm H1 H2 p va Hp Hva. rewrite (H2 p va Hp Hva), (H1 p va Hp Hva).
  assert (a <= va < e <-> a <= va < m \/ m <= va < e) by lia. tauto.
Qed.

Lemma lost_nothing s s' pid a : same_entries s s' -> lost s s' pid a a.
Proof. intros H p va Hp Hva. rewrite (H p va Hp Hva). split; [|tauto]. intros H'. split; [auto|]. lia. Qed.

(** Freeing region by region; on an error a prefix has been freed. *)
Lemma free_va_loop_spec k fuel s pid start len :
  soc_inv s -> pid_ok pid -> aligned start -> aligned len -> 0 <= start -> 0 <= len -> start + len <= NR_VREGIONS * VREGION_SIZE ->
  (len <> 0 -> start + len <= (start / VREGION_SIZE + Z.of_nat k) * VREGION_SIZE) -> (k + 260 <= fuel)%nat ->
  exists err s' m, free_va_loop shadow_base devmem_pgtable_base fuel s pid start (start + len) len 0 = Some (err, s') /\ soc_inv s' /\
    start <= m <= start + len /\ lost s s' pid start m /\ (err = 0 /\ m = start + len \/ err = - ENOMEM).
Proof.
  assert (HP : PAGE_SIZE = 4194304) by reflexivity. assert (HV : VREGION_SIZE = 1073741824) by reflexivity. assert (HN : NR_VREGIONS = 1048576) by reflexivity.
  revert fuel s start len. induction k as [|k IH]; intros fuel s start len Hs Hp Ha Hl H0 Hlen Hend Hk Hf; (destruct fuel as [|fuel]; [lia|]); cbn [free_va_loop];
    (destruct (decide (len = 0)) as [->|Hne];
     [rewrite Z.add_0_r, Z.eqb_refl; exists 0, s, start; split_and!; auto; try lia; now apply lost_nothing|]); specialize (Hk Hne).
  { exfalso. rewrite HV in Hk. Z.to_euclidean_division_equations. lia. }
  rewrite (proj2 (Z.eqb_neq start _)) by lia. cbn [negb].
  set (vi := start / VREGION_SIZE) in *. assert (Hvi : vi * VREGION_SIZE <= start < (vi + 1) * VREGION_SIZE /\ 0 <= vi < NR_VREGIONS).
  { unfold vi. rewrite HN, HV in *. Z.to_euclidean_division_equations. lia. }
  assert (Ei : va_to_vregion_index start = vi).
  { unfold va_to_vregion_index. change VREGION_SIZE_SHIFT with 30. rewrite Z.shiftr_div_pow2 by lia. change (2 ^ 30) with VREGION_SIZE. fold vi. unfold wrap32. apply Z.mod_small. lia. }
  rewrite Ei. destruct (vregion_limits vi) as [_ ->]; [lia|]. cbn [mbind option_bind].
  rewrite (wrap64_small ((vi + 1) * VREGION_SIZE - start)) by (unfold is_word; lia).
  set (vlen := if len <? _ then len else _). assert (Hvl : vlen = Z.min len ((vi + 1) * VREGION_SIZE - start)) by (unfold vlen; destruct (Z.ltb_spec len ((vi + 1) * VREGION_SIZE - start)); lia).
  clearbody vlen. assert (Hva : aligned vlen /\ aligned (start + vlen) /\ aligned (len - vlen)).
  { unfold aligned in *. rewrite HP, HV in *. destruct (Z.min_spec len ((vi + 1) * 1073741824 - start)) as [[_ E]|[_ E]]; rewrite Hvl, E; Z.to_euclidean_division_equations; lia. }
  destruct Hva as (Hva & Hva1 & Hva2). unfold free_va_vregion. destruct fuel as [|fuel]; [lia|].
  destruct (sys_free_va_spec fuel s pid vi start vlen) as (err & s1 & -> & Hs1 & H); auto; try lia. cbn [mbind option_bind].
  destruct H as [(-> & Hlost)|(-> & Hsame & _)].
  - change (negb (0 =? 0)) with false. cbv iota. rewrite (wrap64_small (start + vlen)), (wrap64_small (len - vlen)) by (unfold is_word; lia).
    replace (start + len) with (start + vlen + (len - vlen)) by lia.
    destruct (IH (S fuel) s1 (start + vlen) (len - vlen)) as (err & s' & m & -> & Hs' & Hm & Hl' & Herr); auto; try lia.
    { intros Hrest. destruct (Z.min_spec len ((vi + 1) * VREGION_SIZE - start)) as [[Hlt E]|[_ E]]; rewrite E in Hvl; [lia|].
      replace (start + vlen) with ((vi + 1) * VREGION_SIZE) by lia. rewrite Z.div_mul by (rewrite HV; lia). lia. }
    exists err, s', m. split_and!; auto; try lia. eapply lost_trans; [|exact Hlost|exact Hl']. lia.
  - change (negb (- ENOMEM =? 0)) with true. cbv iota. exists (- ENOMEM), s1, start. split_and!; auto; try lia. now apply lost_nothing.
Qed.
End soc.

(** ** Start-up *)

Lemma for_upto_fpga n s s' :
  s' = for_upto n (fun i s => set_fpga s i zero_pte) s ->
  (forall j, fpga s' j = if decide (0 <= j < Z.of_nat n) then zero_pte else fpga s j) /\
  infos s' = infos s /\ zone s' = zone s /\ regs s' = regs s /\ shadow s' = shadow s.
Proof.
  intros ->. induction n as [|n (IH & ?)]; cbn [for_upto].
  - split_and!; auto. intros j. destruct (decide _); [lia|auto].
  - cbn [fpga infos zone regs shadow set_fpga]. split_and!; try tauto. intros j. destruct (decide (j = Z.of_nat n)) as [->|Hne].
    + rewrite fn_lookup_insert. destruct (decide _); [auto|lia].
    + rewrite fn_lookup_insert_ne by auto. rewrite IH. destruct (decide _), (decide _); auto; lia.
Qed.

Lemma for_upto_infos n s e s' :
  s' = for_upto n (fun i s => set_info s i e) s ->
  (forall j, infos s' j = if decide (0 <= j < Z.of_nat n) then e else infos s j) /\
  fpga s' = fpga s /\ zone s' = zone s /\ regs s' = regs s.
Proof.
  intros ->. induction n as [|n (IH & ?)]; cbn [for_upto].
  - split_and!; auto. intros j. destruct (decide _); [lia|auto].
  - cbn [fpga infos zone regs shadow set_info]. split_and!; try tauto. intros j. destruct (decide (j = Z.of_nat n)) as [->|Hne].
    + rewrite fn_lookup_insert. destruct (decide _); [auto|lia].
    + rewrite fn_lookup_insert_ne by auto. rewrite IH. destruct (decide _), (decide _); auto; lia.
Qed.

Lemma nr_buckets_nat : Z.of_nat (Z.to_nat FPGA_NUM_PGTABLE_BUCKETS) = NB.
Proof. apply Z2Nat.id. unfold FPGA_NUM_PGTABLE_BUCKETS. apply Z.pow_nonneg. lia. Qed.

Lemma slot_in_table i : slot_ok i -> 0 <= i < Z.of_nat (Z.to_nat (FPGA_MEMORY_MAP_PGTABLE_SIZE / sizeof_pte)).
Proof.
  unfold slot_ok. assert (E1 : NB * PB = 524288) by reflexivity. assert (E2 : FPGA_MEMORY_MAP_PGTABLE_SIZE / sizeof_pte = 33554432) by reflexivity.
  rewrite Z2Nat.id; lia.
Qed.

Lemma clear_shadow_fields s s' : s' = clear_shadow s ->
  infos s' = infos s /\ (forall i, shadow s' i = zero_pte) /\ fpga s' = fpga s /\ zone s' = zone s /\ regs s' = regs s.
Proof. intros ->. auto. Qed.

Lemma init_shadow_fields s s' :
  s' = init_shadow_pgtable s ->
  (forall b, 0 <= b < NB -> infos s' b = Bucket FPGA_NUM_PTE_PER_BUCKET 0 []) /\ (forall i, shadow s' i = zero_pte) /\
  fpga s' = fpga s /\ zone s' = zone s /\ regs s' = regs s.
Proof.
  unfold init_shadow_pgtable. remember (for_upto _ _ s) as s2 eqn:E2. apply for_upto_infos in E2 as (Hi & <- & <- & <-).
  intros E. apply clear_shadow_fields in E as (-> & Hs & Hrest). split; [|auto]. intros b Hb. rewrite Hi, nr_buckets_nat. now destruct (decide _).
Qed.

Lemma init_fpga_fields s spare s' :
  init_fpga_pgtable s = Some (spare, s') ->
  alloc_pfn MAX_ORDER START_PFN MAX_PFN (zone s) 0 = Some (spare, zone s') /\ spare <> 0 /\ (forall i, slot_ok i -> fpga s' i = zero_pte) /\ regs s' = regs s.
Proof.
  unfold init_fpga_pgtable. destruct (alloc_pfn _ _ _ _ _) as [[pfn z']|]; [|discriminate]. cbn [mbind option_bind].
  remember (for_upto _ _ _) as s1 eqn:E. apply for_upto_fpga in E as (Hf & _ & Ez & Er & _).
  destruct (Z.eqb_spec pfn 0) as [|Hne]; [discriminate|]. intros [= <- <-]. rewrite Ez, Er.
  split_and!; auto. intros i Hi. rewrite Hf. destruct (decide _) as [|Hn]; [auto|]. destruct Hn. now apply slot_in_table.
Qed.

(** Empty tables over fresh regions satisfy the invariant. *)
Lemma fresh_inv (ok : fpga_zone -> Prop) s :
  (forall b, 0 <= b < NB -> infos s b = Bucket FPGA_NUM_PTE_PER_BUCKET 0 []) -> (forall i, shadow s i = zero_pte) ->
  (forall i, slot_ok i -> fpga s i = zero_pte) -> ok (zone s) -> (forall k, vinv (regs s k) []) ->
  soc_inv ok s /\ no_full_bucket s /\ forall p v, ~ entry s p v.
Proof.
  intros Hb Hsh Hf Hz Hr.
  assert (Hno : forall p v, ~ entry s p v) by (intros p v (i & _ & Hh); apply has_tag_spec in Hh as [Hh _]; rewrite Hsh in Hh; discriminate Hh).
  split_and!; auto; [|intros b Hb'; rewrite Hb by auto; reflexivity]. split; auto.
  - split.
    + intros b Hb'. rewrite Hb by auto. unfold free_slots. rewrite (count_free_ext 16 (fun _ => zero_pte)); [reflexivity|]. intros k _. now rewrite Hsh.
    + intros i Hs. now rewrite Hf, Hsh.
    + intros i _. rewrite Hsh. discriminate.
    + intros b i j _ _. rewrite Hsh. discriminate.
    + intros i Hs. rewrite Hf by auto. discriminate.
  - intros b Hb'. now rewrite Hb.
  - intros p i Hp Hvi. exists []. split_and!; [apply Hr|intros x Hx; set_solver|].
    intros va _ _. split; [intros H; now apply mapped_nil in H|intros H; destruct (Hno p va H)].
Qed.

(** The page table is set up, then its shadow; the regions are fresh. *)
Lemma boot_spec ok {Hpool : page_pool ok} s :
  ok (zone s) -> (forall k, vinv (regs s k) []) ->
  match init_fpga_pgtable s with
  | None => exists z', alloc_pfn MAX_ORDER START_PFN MAX_PFN (zone s) 0 = Some (0, z')
  | Some (spare, s1) =>
      START_PFN <= spare < MAX_PFN /\ soc_inv ok (init_shadow_pgtable s1) /\ no_full_bucket (init_shadow_pgtable s1) /\
      forall p v, ~ entry (init_shadow_pgtable s1) p v
  end.
Proof.
  intros Hz Hr. destruct (page_pool_alloc (zone s) Hz) as (pfn & z' & Ea & Hz' & Hpfn).
  destruct (init_fpga_pgtable s) as [[spare s1]|] eqn:E.
  2: { unfold init_fpga_pgtable in E. rewrite Ea in E. cbn [mbind option_bind] in E. remember (for_upto _ _ _) as s1. destruct (Z.eqb_spec pfn 0) as [->|]; [eauto|discriminate]. }
  apply init_fpga_fields in E as (E1 & Hne & Hf & Er). rewrite Ea in E1. injection E1 as -> ->.
  remember (init_shadow_pgtable s1) as s2 eqn:E2. apply init_shadow_fields in E2 as (Hb & Hsh & Ef & Ez & Er2).
  split; [lia|]. apply fresh_inv; auto; [intros i Hi; rewrite Ef; auto|congruence|intros k; rewrite Er2, Er; auto].
Qed.
