(* ===== verification/SocSpec.v ===== *)
(** * Address spaces: the claims

    Allocating and freeing virtual addresses through [alloc_va] and [free_va],
    from start-up on, and the page tables they keep. *)

From stdpp Require Import functions relations.
From S2P Require Import Prelude Bitops DList Buddy RbTree Vma VmaTree VmaOps VmaFree VmaSearch VmaSpec Pgtable PgtableProofs SocProofs.

#[local] Set Warnings "-clear-no-such-hyp".

(** Where the two tables lie: the bucket addresses of both stay below the limit
    that [addr_to_bucket] tests. *)
Definition bases_ok (shadow_base devmem_base : Z) : Prop :=
  (0 <= shadow_base /\ shadow_base + NB * sizeof_bucket <= devmem_base + FPGA_MEMORY_MAP_PGTABLE_SIZE) /\
  (0 <= devmem_base /\ devmem_base + FPGA_MEMORY_MAP_PGTABLE_SIZE < 2 ^ 64).

Definition spare_ok (spare : Z) : Prop := spare = 0 \/ START_PFN <= spare < MAX_PFN.

(** What the callers of [free_va] pass: page-aligned, nonempty, inside the regions. *)
Definition free_args (start len : Z) : Prop :=
  aligned start /\ aligned len /\ 0 < start /\ 0 < len /\ start + len <= NR_VREGIONS * VREGION_SIZE.

(** The steps of [free_va]: one per region, and those within a region. *)
Definition free_fuel (fuel : nat) (len : Z) : Prop := len / VREGION_SIZE + 264 <= Z.of_nat fuel.

Section steps.
Context (shadow_base devmem_base spare : Z).

(** Calls of [alloc_va] while no bucket is full, and of [free_va]. *)
Inductive soc_step : soc -> soc -> Prop :=
  | soc_step_alloc fuel s pid len flags addr nr s' :
      no_full_bucket s -> pid_ok pid -> 0 < len <= VREGION_SIZE -> ordinary flags -> (258 <= fuel)%nat ->
      alloc_va shadow_base devmem_base spare fuel s pid len flags = Some (addr, nr, s') -> soc_step s s'
  | soc_step_free fuel s pid start len err s' :
      pid_ok pid -> free_args start len -> free_fuel fuel len ->
      free_va shadow_base devmem_base fuel s pid start len = Some (err, s') -> soc_step s s'.

Context (Hb : bases_ok shadow_base devmem_base) (Hsp : spare_ok spare).

Lemma alloc_va_spec fuel s pid len flags :
  soc_inv buddy_ok s -> no_full_bucket s -> pid_ok pid -> 0 < len <= VREGION_SIZE -> ordinary flags -> (258 <= fuel)%nat ->
  exists addr nr s', alloc_va shadow_base devmem_base spare fuel s pid len flags = Some (addr, nr, s') /\ soc_inv buddy_ok s' /\
    let i := cached_vregion_start s mod NR_VREGIONS in
    ((exists vi, i <= vi < NR_VREGIONS /\ allocated_range s s' pid vi addr (PAGE_ALIGN len) /\ forall w, i <= w < vi -> region_failed s pid w (PAGE_ALIGN len)) \/
     addr = wrap64 (- ENOMEM) /\ same_entries s s' /\ forall w, i <= w < NR_VREGIONS -> region_failed s pid w (PAGE_ALIGN len)).
Proof.
  intros Hs Hfull Hp Hlen Hfl Hf. destruct fuel as [|fuel]; [lia|]. unfold alloc_va. rewrite (proj2 (Z.eqb_neq len 0)) by lia.
  assert (E : sint32 (DIV_ROUND_UP len VREGION_SIZE) = 1).
  { change VREGION_SIZE with 1073741824 in *. unfold DIV_ROUND_UP. rewrite (wrap64_small (len + 1073741824)) by (unfold is_word; lia). rewrite wrap64_small by (unfold is_word; lia). unfold sint32. Z.to_euclidean_division_equations. lia. }
  rewrite E. change (1 =? 1) with true. cbv iota zeta. assert (HN : NR_VREGIONS = 1048576) by reflexivity.
  pose proof (Z.mod_pos_bound (cached_vregion_start s) NR_VREGIONS ltac:(lia)) as Hi. set (i := cached_vregion_start s mod NR_VREGIONS) in *.
  destruct (alloc_va_scan_spec buddy_ok shadow_base devmem_base spare (proj1 Hb) (proj2 Hb) Hsp (Z.to_nat (NR_VREGIONS - i)) fuel s pid i len flags 0 0)
    as (addr & nr & s' & -> & H); auto; try lia. cbn [mbind option_bind]. eexists _, _, s'. split; [reflexivity|exact H].
Qed.

Lemma free_va_range_spec fuel s pid start len :
  soc_inv buddy_ok s -> pid_ok pid -> free_args start len -> free_fuel fuel len ->
  exists err s' m, free_va shadow_base devmem_base fuel s pid start len = Some (err, s') /\ soc_inv buddy_ok s' /\
    start <= m <= start + len /\ lost s s' pid start m /\ (err = 0 /\ m = start + len \/ err = - ENOMEM).
Proof.
  intros Hs Hp (Ha & Hl & H0 & Hlen & Hend) Hf. unfold free_va. rewrite (proj2 (Z.eqb_neq len 0)), (proj2 (Z.eqb_neq start 0)) by lia. cbn [orb].
  change NR_VREGIONS with 1048576 in *. unfold free_fuel in Hf. change VREGION_SIZE with 1073741824 in *.
  rewrite (wrap64_small (start + len)) by (unfold is_word; lia). rewrite (proj2 (Z.ltb_ge _ start)) by lia.
  pose proof (Z.div_pos len 1073741824 ltac:(lia) ltac:(lia)).
  apply (free_va_loop_spec buddy_ok shadow_base devmem_base spare (proj1 Hb) (proj2 Hb) Hsp (Z.to_nat (len / 1073741824 + 2))); auto; try lia.
  intros _. rewrite Z2Nat.id by lia. change VREGION_SIZE with 1073741824. Z.to_euclidean_division_equations. lia.
Qed.

Lemma soc_step_inv s s' : soc_step s s' -> soc_inv buddy_ok s -> soc_inv buddy_ok s'.
Proof.
  intros [fuel s1 pid len flags addr nr s1' H1 H2 H3 H4 H5 E|fuel s1 pid start len err s1' H1 H2 H3 E] Hs.
  - destruct (alloc_va_spec fuel s1 pid len flags) as (a & nr' & w & E' & Hw & _); auto. rewrite E in E'. now injection E' as _ _ <-.
  - destruct (free_va_range_spec fuel s1 pid start len) as (e & w & m & E' & Hw & _); auto. rewrite E in E'. now injection E' as _ <-.
Qed.

Lemma soc_reach_inv s s' : rtc soc_step s s' -> soc_inv buddy_ok s -> soc_inv buddy_ok s'.
Proof. induction 1; eauto using soc_step_inv. Qed.
End steps.

(** *** From start-up on *)


(** A machine at start-up, and one with empty tables. *)
Definition ex_machine : soc :=
  Soc (fun _ => zero_pte) (fun _ => zero_pte) (fun _ => Bucket FPGA_NUM_PTE_PER_BUCKET 0 []) 0 boot_zone (fun _ => ex_empty) 0 [] [].

Lemma ex_zone_ok : buddy_ok boot_zone.
Proof. destruct boot_zone_inv as (F & H & _). now exists F. Qed.

Lemma ex_machine_inv : soc_inv buddy_ok ex_machine /\ no_full_bucket ex_machine /\ forall p v, ~ entry ex_machine p v.
Proof. apply fresh_inv; auto; [exact ex_zone_ok|intros k; exact ex_empty_inv]. Qed.

Lemma ex_bases : bases_ok 0x10000000 0x7f0000000000.
Proof. unfold bases_ok. change NB with 32768. unfold sizeof_bucket. change FPGA_MEMORY_MAP_PGTABLE_SIZE with 536870912. lia. Qed.

(** Start-up succeeds when a page can be set aside. *)
Lemma boot_succeeds m p :
  buddy_ok (zone m) -> (forall k, vinv (regs m k) []) -> option_map fst (alloc_pfn MAX_ORDER START_PFN MAX_PFN (zone m) 0) = Some p -> p <> 0 ->
  exists spare s1, init_fpga_pgtable m = Some (spare, s1) /\ START_PFN <= spare < MAX_PFN /\
    soc_inv buddy_ok (init_shadow_pgtable s1) /\ no_full_bucket (init_shadow_pgtable s1).
Proof.
  intros Hz Hr Hp Hne. pose proof (boot_spec buddy_ok m Hz Hr) as H. destruct (init_fpga_pgtable m) as [[spare s1]|].
  - exists spare, s1. destruct H as (H1 & H2 & H3 & _). split_and!; auto; lia.
  - destruct H as (z' & H). rewrite H in Hp. cbn in Hp. congruence.
Qed.

Lemma ex_boot : exists spare s1, init_fpga_pgtable ex_machine = Some (spare, s1) /\ START_PFN <= spare < MAX_PFN /\
  soc_inv buddy_ok (init_shadow_pgtable s1) /\ no_full_bucket (init_shadow_pgtable s1).
Proof. apply (boot_succeeds ex_machine 511 ex_zone_ok (fun _ => ex_empty_inv)); [vm_compute; reflexivity|lia]. Qed.




(** C3: [free_va] on a page-aligned range, which may span regions, returns.  On 0
    exactly the entries of the range are gone, for this process only.  The only
    error is -ENOMEM; then the entries of a prefix of the range are gone. *)
Theorem free_va_range_correct shadow_base devmem_base spare fuel s pid start len :
  bases_ok shadow_base devmem_base -> spare_ok spare -> soc_inv buddy_ok s -> pid_ok pid -> free_args start len -> free_fuel fuel len ->
  exists err s' m, free_va shadow_base devmem_base fuel s pid start len = Some (err, s') /\ soc_inv buddy_ok s' /\
    start <= m <= start + len /\ lost s s' pid start m /\ (err = 0 /\ m = start + len \/ err = - ENOMEM).
Proof. intros Hb Hsp. now apply (free_va_range_spec shadow_base devmem_base spare). Qed.

Lemma free_va_range_correct_witness :
  exists err s' m, free_va 0x10000000 0x7f0000000000 300 ex_machine 1 0x3fc00000 0x800000 = Some (err, s') /\ soc_inv buddy_ok s' /\
    lost ex_machine s' 1 0x3fc00000 m.
Proof.
  destruct ex_machine_inv as (Hs & _).
  destruct (free_va_range_correct 0x10000000 0x7f0000000000 300 300 ex_machine 1 0x3fc00000 0x800000) as (err & s' & m & E & Hs' & _ & Hl & _);
    [exact ex_bases|right; split; vm_compute; [discriminate|reflexivity]|exact Hs|unfold pid_ok; lia| |vm_compute; discriminate|].
  - unfold free_args, aligned. change PAGE_SIZE with 4194304. change NR_VREGIONS with 1048576. change VREGION_SIZE with 1073741824. split_and!; try lia; reflexivity.
  - exists err, s', m. split; [exact E|]. split; [exact Hs'|exact Hl].
Defined.

(** *** Allocating and freeing one range *)

(** The page below or the page above a range lies in the region and is free. *)
Definition free_neighbour (s : soc) (pid vi a len : Z) : Prop :=
  (vi * VREGION_SIZE <= a - PAGE_SIZE /\ ~ entry s pid (a - PAGE_SIZE)) \/
  (a + len + PAGE_SIZE <= (vi + 1) * VREGION_SIZE /\ ~ entry s pid (a + len)).


(** One page for process 1 in region 0, as [__alloc_va] leaves the machine. *)
Definition ex_page (flags : Z) (s : soc) : soc :=
  match alloc_va_vregion 0x10000000 0x7f0000000000 300 300 s 1 0 4096 flags with Some (_, _, s') => s' | None => s end.



(** *** The page tables *)

(** C24: In every consistent state the look-up in the FPGA page table and the one
    in its shadow return the same slot, for every process and address. *)
Theorem shadow_fpga_lookups_agree shadow_base devmem_base s pid va :
  bases_ok shadow_base devmem_base -> soc_inv buddy_ok s -> 0 <= va ->
  addr_to_fpga_pte devmem_base s pid va PAGE_SHIFT = addr_to_shadow_pte shadow_base devmem_base s pid va PAGE_SHIFT.
Proof. intros Hb Hs. apply lookups_agree; [apply Hb|apply Hb|apply Hs]. Qed.

Lemma ex_page_inv flags : ordinary flags -> soc_inv buddy_ok (ex_page flags ex_machine).
Proof.
  intros Hfl. destruct ex_machine_inv as (Hs & Hfull & _). unfold ex_page.
  destruct (alloc_va_vregion_spec buddy_ok 0x10000000 0x7f0000000000 300 (proj1 ex_bases) (proj2 ex_bases) ltac:(right; split; vm_compute; [discriminate|reflexivity])
    299 ex_machine 1 0 4096 flags) as (a & r & s' & E & Hs' & _);
    [exact Hs|exact Hfull|unfold pid_ok; lia|split; [lia|reflexivity]|split; [lia|vm_compute; discriminate]|exact Hfl|lia|].
  unfold alloc_va_vregion. rewrite E. exact Hs'.
Qed.

Lemma shadow_fpga_lookups_agree_witness :
  addr_to_fpga_pte 0x7f0000000000 (ex_page 1 ex_machine) 1 (2 ^ 30 - PAGE_SIZE) PAGE_SHIFT =
    addr_to_shadow_pte 0x10000000 0x7f0000000000 (ex_page 1 ex_machine) 1 (2 ^ 30 - PAGE_SIZE) PAGE_SHIFT /\
  addr_to_shadow_pte 0x10000000 0x7f0000000000 (ex_page 1 ex_machine) 1 (2 ^ 30 - PAGE_SIZE) PAGE_SHIFT = Some (Some (255 * 16)).
Proof.
  split; [|vm_compute; reflexivity].
  apply (shadow_fpga_lookups_agree 0x10000000 0x7f0000000000 (ex_page 1 ex_machine) 1 (2 ^ 30 - PAGE_SIZE)); [exact ex_bases|now apply ex_page_inv|vm_compute; discriminate].
Defined.

(** A tag fits the 64-bit field, and two page addresses of processes with ids
    below 2^16 have the same tag only if process and page are the same. *)
Theorem tags_fit_and_identify pid pid' va va' :
  pid_ok pid -> pid_ok pid' -> page_addr va -> page_addr va' ->
  0 <= generate_tag pid va < 2 ^ 64 /\ (generate_tag pid va = generate_tag pid' va' <-> pid = pid' /\ va = va').
Proof.
  intros Hp Hp' Hv Hv'. split; [|split; [now apply page_tag_inj|now intros [-> ->]]].
  pose proof (page_addr_word _ Hv) as Hw. unfold pid_ok, is_word in *. rewrite generate_tag_spec by (unfold is_word; lia).
  rewrite Z.mod_small by lia. pose proof (Z.div_pos va (2 ^ 20)). pose proof (Z.div_lt_upper_bound va (2 ^ 20) (2 ^ 44) ltac:(lia) ltac:(lia)). lia.
Qed.

Lemma tags_fit_and_identify_witness : 0 <= generate_tag 7 0x400000 < 2 ^ 64 /\ generate_tag 7 0x400000 <> generate_tag 7 0x800000.
Proof.
  destruct (tags_fit_and_identify 7 7 0x400000 0x800000) as [H1 H2];
    [unfold pid_ok; lia|unfold pid_ok; lia|split; [vm_compute; split; [discriminate|reflexivity]|reflexivity]|split; [vm_compute; split; [discriminate|reflexivity]|reflexivity]|].
  split; [exact H1|]. intros H. apply H2 in H as [_ H]. discriminate H.
Defined.



(** [free_fpga_pte_range] on a page-aligned range returns: no page of the range
    has an entry in either table, all other entries stay, the freed physical pages
    are back in the page allocator, and a flush of the whole range has been
    requested.  [free_va_cb] stands for the call back into [__free_va], made only
    for buckets that have refused a page. *)
Theorem free_fpga_pte_range_correct shadow_base devmem_base spare free_va_cb fuel s pid a e :
  bases_ok shadow_base devmem_base -> spare_ok spare -> tables_ok s -> buddy_ok (zone s) -> quiet s -> pid_ok pid -> page_addr a -> page_addr e -> a <= e ->
  e - a <= (Z.of_nat fuel - 2) * PAGE_SIZE ->
  exists s', free_fpga_pte_range shadow_base devmem_base free_va_cb fuel s pid a e PAGE_SIZE = Some s' /\
    tables_ok s' /\ buddy_ok (zone s') /\ flushes s' = (pid, a, e - a) :: flushes s /\
    (forall p v, pid_ok p -> page_addr v -> entry s' p v <-> entry s p v /\ ~ (p = pid /\ a <= v < e)).
Proof.
  intros Hb Hsp Ht Hz Hq Hp Ha He Hae Hf.
  destruct (free_range_spec buddy_ok shadow_base devmem_base spare (proj1 Hb) (proj2 Hb) Hsp free_va_cb fuel s pid a e) as (s' & E & H1 & H2 & (_ & _ & H3 & _) & H4); auto.
  exists s'. auto.
Qed.

Lemma free_fpga_pte_range_correct_witness :
  exists s', free_fpga_pte_range 0x10000000 0x7f0000000000 (fun _ _ _ _ _ => None) 10 (ex_page 3 ex_machine) 1 (2 ^ 30 - PAGE_SIZE) (2 ^ 30) PAGE_SIZE = Some s' /\
    tables_ok s' /\ flushes s' = [(1, 2 ^ 30 - PAGE_SIZE, PAGE_SIZE)].
Proof.
  pose proof (ex_page_inv 3 ltac:(discriminate)) as Hs.
  destruct (free_fpga_pte_range_correct 0x10000000 0x7f0000000000 300 (fun _ _ _ _ _ => None) 10 (ex_page 3 ex_machine) 1 (2 ^ 30 - PAGE_SIZE) (2 ^ 30)) as (s' & E & H1 & _ & H2 & _);
    [exact ex_bases|right; split; vm_compute; [discriminate|reflexivity]|apply Hs|apply Hs|apply Hs|unfold pid_ok; lia
    |split; [vm_compute; split; [discriminate|reflexivity]|reflexivity]|split; [vm_compute; split; [discriminate|reflexivity]|reflexivity]|vm_compute; discriminate|vm_compute; discriminate|].
  exists s'. split; [exact E|]. split; [exact H1|]. rewrite H2.
  assert (Hfl : flushes (ex_page 3 ex_machine) = []) by (vm_compute; reflexivity). rewrite Hfl. reflexivity.
Defined.

