(* ===== verification/Gbn.v ===== *)
(** * The Go-Back-N transport (host/net/transport_gbn.c) and its header
    (include/uapi/net_header.h, gbn.h)

    A packet is its GBN header, the [size] field of the LegoMem header, which the
    transport patches, and an opaque payload.  The raw network below the
    transport is the interface [raw_net_ops] of net_session.h: a record of a send
    and a receive operation over the state of the network.  Sending takes the
    buffer as a pointer: [None] is [NULL].  The timer of the transport is compiled
    out, and so is the storing of packets for retransmission. *)

From stdpp Require Import functions.
From S2P Require Import Prelude Bitops.

(** ** The header *)

Definition SES_ID_SIZE_BYTE : Z := 3.
Definition SLOT_ID_WIDTH : Z := 10.
Definition NR_MAX_SESSIONS_PER_NODE : Z := 1024.

Definition GBN_PKT_ACK : Z := 1.
Definition GBN_PKT_NACK : Z := 2.
Definition GBN_PKT_DATA : Z := 3.
Definition GBN_SOC2FPGA_SET_TYPE_OPEN : Z := 1.
Definition GBN_SOC2FPGA_SET_TYPE_CLOSE : Z := 2.

(** [session_id] is the value of the three bytes of the field, least significant
    first; [after] is the byte that follows the header in the packet. *)
Record gbn_header := GbnHeader { hdr_type : Z; hdr_seqnum : Z; hdr_session_id : Z; after : Z }.

Definition set_hdr_type (h : gbn_header) (t : Z) : gbn_header := GbnHeader t (hdr_seqnum h) (hdr_session_id h) (after h).
Definition set_hdr_seqnum (h : gbn_header) (n : Z) : gbn_header := GbnHeader (hdr_type h) (wrap32 n) (hdr_session_id h) (after h).
Definition set_hdr_session_id (h : gbn_header) (i : Z) : gbn_header := GbnHeader (hdr_type h) (hdr_seqnum h) i (after h).

Definition GBN_HEADER_SLOT_ID_MSK : Z := 2 ^ SLOT_ID_WIDTH - 1.
Definition GBN_HEADER_SRC_ID_SHIFT : Z := 0.
Definition GBN_HEADER_DST_ID_SHIFT : Z := SLOT_ID_WIDTH.
Definition GBN_HEADER_SRC_ID_MSK : Z := Z.shiftl GBN_HEADER_SLOT_ID_MSK GBN_HEADER_SRC_ID_SHIFT.
Definition GBN_HEADER_DST_ID_MSK : Z := Z.shiftl GBN_HEADER_SLOT_ID_MSK GBN_HEADER_DST_ID_SHIFT.

(** [memcpy] of three bytes of a 32-bit value. *)
Definition set_gbn_src_dst_session (hdr : gbn_header) (src_id dst_id : Z) : gbn_header :=
  let tmp_sesid := wrap32 (Z.shiftl (Z.land src_id GBN_HEADER_SLOT_ID_MSK) GBN_HEADER_SRC_ID_SHIFT) in
  let tmp_sesid := Z.lor tmp_sesid (wrap32 (Z.shiftl (Z.land dst_id GBN_HEADER_SLOT_ID_MSK) GBN_HEADER_DST_ID_SHIFT)) in
  set_hdr_session_id hdr (tmp_sesid mod 2 ^ (8 * SES_ID_SIZE_BYTE)).

(** The four bytes from the start of the field. *)
Definition sesid_word (hdr : gbn_header) : Z := hdr_session_id hdr + Z.shiftl (after hdr) (8 * SES_ID_SIZE_BYTE).
Definition get_gbn_src_session (hdr : gbn_header) : Z :=
  Z.shiftr (Z.land (sesid_word hdr) GBN_HEADER_SRC_ID_MSK) GBN_HEADER_SRC_ID_SHIFT.
Definition get_gbn_dst_session (hdr : gbn_header) : Z :=
  Z.shiftr (Z.land (sesid_word hdr) GBN_HEADER_DST_ID_MSK) GBN_HEADER_DST_ID_SHIFT.

Definition swap_gbn_session (hdr : gbn_header) : gbn_header :=
  let tmp1 := sint32 (get_gbn_src_session hdr) in
  let tmp2 := sint32 (get_gbn_dst_session hdr) in
  set_gbn_src_dst_session hdr (wrap32 tmp2) (wrap32 tmp1).

Definition GBN_CONN_SET_SLOT_ID_MSK : Z := 2 ^ SLOT_ID_WIDTH - 1.
Definition GBN_CONN_SET_TYPE_MSK : Z := 2 ^ (16 - SLOT_ID_WIDTH) - 1.
Definition GBN_CONN_SET_TYPE_SHIFT : Z := SLOT_ID_WIDTH.
Definition set_gbn_conn_req (slot_id type : Z) : Z :=
  let conn_set_req := Z.land slot_id GBN_CONN_SET_SLOT_ID_MSK in
  Z.lor conn_set_req (wrap32 (Z.shiftl (Z.land type GBN_CONN_SET_TYPE_MSK) GBN_CONN_SET_TYPE_SHIFT)).

Definition ETHERNET_HEADER_SIZE : Z := 14.
Definition IP_HEADER_SIZE : Z := 20.
Definition UDP_HEADER_SIZE : Z := 8.
Definition GBN_HEADER_SIZE : Z := 8.
Definition GBN_HEADER_OFFSET : Z := ETHERNET_HEADER_SIZE + IP_HEADER_SIZE + UDP_HEADER_SIZE.
Definition LEGO_HEADER_OFFSET : Z := GBN_HEADER_OFFSET + GBN_HEADER_SIZE.

Record packet := Packet { gbn : gbn_header; lego_size : Z; payload : list Z }.
Definition set_gbn (p : packet) (h : gbn_header) : packet := Packet h (lego_size p) (payload p).
Definition to_gbn_header (p : packet) : gbn_header := gbn p.
Definition prepare_legomem_header (p : packet) (packet_size : Z) : packet :=
  Packet (gbn p) ((packet_size - LEGO_HEADER_OFFSET) mod 2 ^ 16) (payload p).

(** ** Sessions *)

Definition LEGOMEM_MGMT_SESSION_ID : Z := 0.
Record session_net := SessionNet { session_id : Z; remote_session_id : Z }.
Definition get_local_session_id (ses : session_net) : Z := session_id ses.
Definition get_remote_session_id (ses : session_net) : Z := remote_session_id ses.
Definition test_management_session (ses : session_net) : bool :=
  if get_local_session_id ses =? LEGOMEM_MGMT_SESSION_ID then true
  else if get_remote_session_id ses =? LEGOMEM_MGMT_SESSION_ID then true
  else false.

Definition NR_BUFFER_INFO_SLOTS : Z := 256.
Definition BUFFER_INFO_ALLOCATED : Z := 1.
Definition BUFFER_INFO_USABLE : Z := 2.
Record buffer_info := BufferInfo { buf : option packet; buf_size : Z; buf_flags : Z }.

(** The counters hold [int]s.  [mb_ack_reply] is the packet in the registered
    buffer for replies. *)
Record session_gbn := SessionGbn {
  unack_buffer_info_ring : Z -> buffer_info;
  seqnum_cur : Z;
  seqnum_last : Z;
  seqnum_expect : Z;
  ack_enable : bool;
  mb_ack_reply : packet;
}.
Definition set_unack (s : session_gbn) (i : Z) (b : buffer_info) : session_gbn :=
  SessionGbn (<[i := b]> (unack_buffer_info_ring s)) (seqnum_cur s) (seqnum_last s) (seqnum_expect s) (ack_enable s) (mb_ack_reply s).
Definition set_cur (s : session_gbn) (n : Z) : session_gbn :=
  SessionGbn (unack_buffer_info_ring s) n (seqnum_last s) (seqnum_expect s) (ack_enable s) (mb_ack_reply s).
Definition set_last (s : session_gbn) (n : Z) : session_gbn :=
  SessionGbn (unack_buffer_info_ring s) (seqnum_cur s) n (seqnum_expect s) (ack_enable s) (mb_ack_reply s).
Definition set_expect (s : session_gbn) (n : Z) : session_gbn :=
  SessionGbn (unack_buffer_info_ring s) (seqnum_cur s) (seqnum_last s) n (ack_enable s) (mb_ack_reply s).
Definition set_ack_enable (s : session_gbn) (b : bool) : session_gbn :=
  SessionGbn (unack_buffer_info_ring s) (seqnum_cur s) (seqnum_last s) (seqnum_expect s) b (mb_ack_reply s).
Definition set_mb (s : session_gbn) (p : packet) : session_gbn :=
  SessionGbn (unack_buffer_info_ring s) (seqnum_cur s) (seqnum_last s) (seqnum_expect s) (ack_enable s) p.

Definition index_to_unack_buffer_info (index : Z) : Z := wrap32 index mod NR_BUFFER_INFO_SLOTS.
Definition nr_unack_buffer (ses : session_gbn) : Z := sint32 (seqnum_cur ses - seqnum_last ses).

(** The new sequence number, and the session. *)
Definition alloc_unack_buffer_info (ses : session_gbn) : Z * session_gbn :=
  let index := seqnum_cur ses in
  (sint32 (index + 1), set_cur ses (sint32 (index + 1))).

Definition free_unack_buffer_info (ses : session_gbn) (info : Z) : session_gbn :=
  let b := unack_buffer_info_ring ses info in
  set_unack ses info (BufferInfo (buf b) (buf_size b) 0).

(** [for (i = seqnum_last; i < seq; i++)], over [n] values. *)
Fixpoint free_unack_loop (n : nat) (ses : session_gbn) (i : Z) : session_gbn :=
  match n with
  | O => ses
  | S n' => free_unack_loop n' (free_unack_buffer_info ses (index_to_unack_buffer_info i)) (i + 1)
  end.

Definition handle_ack_nack_dequeue (hdr : gbn_header) (ses_gbn : session_gbn) : bool * session_gbn :=
  let last := wrap32 (seqnum_last ses_gbn) in
  let seq := hdr_seqnum hdr in
  if last <? seq then
    let ses_gbn := free_unack_loop (Z.to_nat (seq - last)) ses_gbn last in
    (true, set_last ses_gbn (sint32 seq))
  else if seq =? last then (true, ses_gbn)
  else (false, ses_gbn).

(** ** The raw network, and the state of one end *)

(** [raw_net_send ses buf size route]: a result and the network afterwards.  On
    a positive result [raw_net_receive_zerocopy] also gives a packet and its
    size.  [raw_net_reg_msg_buf] says whether the buffer could be registered. *)
Class raw_net_ops (N : Type) := {
  raw_net_send : session_net -> option packet -> Z -> option packet -> N -> Z * N;
  raw_net_send_msg_buf : session_net -> packet -> Z -> option packet -> N -> Z * N;
  raw_net_receive_zerocopy : session_net -> N -> Z * packet * Z * N;
  raw_net_reg_msg_buf : session_net -> N -> bool;
}.

Inductive stat_types :=
  | STAT_NET_GBN_NR_RX_ERROR_UNKNOWN_TYPE
  | STAT_NET_GBN_NR_RX_ACK
  | STAT_NET_GBN_NR_RX_NACK
  | STAT_NET_GBN_NR_RX_DATA
  | STAT_NET_GBN_NR_TX_ACK
  | STAT_NET_GBN_NR_TX_NACK
  | STAT_NET_GBN_NR_TX_DATA.
#[export] Instance stat_types_eq : EqDecision stat_types.
Proof. solve_decision. Defined.

Record gbn_end (N : Type) := GbnEnd { ge_ses : session_gbn; ge_net : N; ge_stat : stat_types -> Z }.
Arguments GbnEnd {N} _ _ _.
Arguments ge_ses {N} _.
Arguments ge_net {N} _.
Arguments ge_stat {N} _.

(** The size of the packet that carries only a GBN header. *)
Definition ACK_PKT_SIZE : Z := GBN_HEADER_OFFSET + GBN_HEADER_SIZE.

Section Operations.
Context {N : Type} `{raw_net_ops N}.

Definition with_ses (e : gbn_end N) (s : session_gbn) : gbn_end N := GbnEnd s (ge_net e) (ge_stat e).
Definition with_net (e : gbn_end N) (n : N) : gbn_end N := GbnEnd (ge_ses e) n (ge_stat e).
Definition inc_stat (t : stat_types) (e : gbn_end N) : gbn_end N :=
  GbnEnd (ge_ses e) (ge_net e) (<[t := ge_stat e t + 1]> (ge_stat e)).

(** [for (i = retrans_start; i < retrans_end; i++)], over [n] values. *)
Fixpoint retrans_loop (n : nat) (ses_net : session_net) (ses : session_gbn) (i : Z) (net : N) : N :=
  match n with
  | O => net
  | S n' =>
      let info := unack_buffer_info_ring ses (index_to_unack_buffer_info i) in
      let '(ret, net) := raw_net_send ses_net (buf info) (buf_size info) None net in
      if ret <? 0 then net else retrans_loop n' ses_net ses (i + 1) net
  end.

Definition retrans_unack_buffer_info (ses_net : session_net) (e : gbn_end N) : gbn_end N :=
  let retrans_start := wrap32 (seqnum_last (ge_ses e)) in
  let retrans_end := wrap32 (seqnum_cur (ge_ses e)) in
  with_net e (retrans_loop (Z.to_nat (retrans_end - retrans_start)) ses_net (ge_ses e) retrans_start (ge_net e)).

Definition handle_ack_packet (e : gbn_end N) (p : packet) : gbn_end N :=
  with_ses e (handle_ack_nack_dequeue (to_gbn_header p) (ge_ses e)).2.

Definition handle_nack_packet (ses_net : session_net) (e : gbn_end N) (p : packet) : gbn_end N :=
  let '(ok, s) := handle_ack_nack_dequeue (to_gbn_header p) (ge_ses e) in
  let e := with_ses e s in
  if ok then retrans_unack_buffer_info ses_net e else e.

(** Fills the reply buffer: the sessions of [hdr] with the ends exchanged. *)
Definition reply_sessions (mb : packet) (hdr : gbn_header) : packet :=
  set_gbn mb (set_gbn_src_dst_session (to_gbn_header mb) (get_gbn_dst_session hdr) (get_gbn_src_session hdr)).
Definition reply_fields (mb : packet) (type seqnum : Z) : packet :=
  set_gbn mb (set_hdr_seqnum (set_hdr_type (to_gbn_header mb) type) seqnum).

(** Sends the reply buffer. *)
Definition send_reply (ses_net : session_net) (e : gbn_end N) : Z * gbn_end N :=
  let '(ret, net) := raw_net_send_msg_buf ses_net (mb_ack_reply (ge_ses e)) ACK_PKT_SIZE None (ge_net e) in
  (ret, with_net e net).

Definition handle_data_packet (ses_net : session_net) (e : gbn_end N) (p : packet) : gbn_end N :=
  if test_management_session ses_net then e else
  let hdr := to_gbn_header p in
  let seq := hdr_seqnum hdr in
  let s := ge_ses e in
  if seq =? wrap32 (seqnum_expect s) then
    let out_seqnum := wrap32 (seqnum_expect s) in
    let s := set_expect s (sint32 (seqnum_expect s + 1)) in
    if out_seqnum mod 100 =? 0 then
      let mb := reply_sessions (mb_ack_reply s) hdr in
      let mb := reply_fields mb GBN_PKT_ACK out_seqnum in
      let '(ret, e) := send_reply ses_net (with_ses e (set_mb s mb)) in
      if ret <? 0 then e else inc_stat STAT_NET_GBN_NR_TX_ACK e
    else with_ses e s
  else if ack_enable s then
    let mb := reply_sessions (mb_ack_reply s) hdr in
    if wrap32 (seqnum_expect s) <? seq then
      let s := set_ack_enable s false in
      let mb := reply_fields mb GBN_PKT_NACK (seqnum_expect s - 1) in
      (send_reply ses_net (inc_stat STAT_NET_GBN_NR_TX_NACK (with_ses e (set_mb s mb)))).2
    else if seq <? wrap32 (seqnum_expect s) then
      let mb := reply_fields mb GBN_PKT_ACK (seqnum_expect s - 1) in
      (send_reply ses_net (inc_stat STAT_NET_GBN_NR_TX_ACK (with_ses e (set_mb s mb)))).2
    else with_ses e (set_mb s mb)
  else e.

Definition prepare_gbn_headers (hdr : gbn_header) (net : session_net) : gbn_header :=
  set_gbn_src_dst_session hdr (get_local_session_id net) (get_remote_session_id net).

(** What both sending functions do before they hand the packet to the raw
    network; [memcpy] of the routing header leaves the byte after it. *)
Definition prepare_send (net : session_net) (p : packet) (size : Z) (route : option packet) (e : gbn_end N) : packet * gbn_end N :=
  let p := prepare_legomem_header p size in
  let hdr := to_gbn_header p in
  let hdr :=
    match route with
    | Some r =>
        let user_hdr := to_gbn_header r in
        GbnHeader (hdr_type user_hdr) (hdr_seqnum user_hdr) (hdr_session_id user_hdr) (after hdr)
    | None => prepare_gbn_headers (set_hdr_type hdr GBN_PKT_DATA) net
    end in
  if test_management_session net then (set_gbn p hdr, inc_stat STAT_NET_GBN_NR_TX_DATA e)
  else
    let '(seqnum, s) := alloc_unack_buffer_info (ge_ses e) in
    (set_gbn p (set_hdr_seqnum hdr seqnum), inc_stat STAT_NET_GBN_NR_TX_DATA (with_ses e s)).

Definition gbn_send_one (net : session_net) (p : packet) (size : Z) (route : option packet) (e : gbn_end N) : Z * packet * gbn_end N :=
  let '(p, e) := prepare_send net p size route e in
  let '(ret, n) := raw_net_send net (Some p) size route (ge_net e) in
  (ret, p, with_net e n).

Definition gbn_send_one_msg_buf (net : session_net) (p : packet) (size : Z) (route : option packet) (e : gbn_end N) : Z * packet * gbn_end N :=
  let '(p, e) := prepare_send net p size route e in
  let '(ret, n) := raw_net_send_msg_buf net p size route (ge_net e) in
  (ret, p, with_net e n).

(** [None] when the fuel is gone: the function goes back to the receive after an
    ACK or a NACK, and after an empty receive when it blocks.  The result carries
    the packet that is handed to the caller. *)
Fixpoint __gbn_receive_one (fuel : nat) (ses_net : session_net) (non_blocking : bool) (e : gbn_end N)
  : option (Z * option packet * gbn_end N) :=
  match fuel with
  | O => None
  | S fuel' =>
      let '(ret, p, recv_size, n) := raw_net_receive_zerocopy ses_net (ge_net e) in
      let e := with_net e n in
      if ret <? 0 then Some (ret, None, e)
      else if ret =? 0 then
        if non_blocking then Some (0, None, e) else __gbn_receive_one fuel' ses_net non_blocking e
      else
        let type := hdr_type (to_gbn_header p) in
        if type =? GBN_PKT_ACK then
          __gbn_receive_one fuel' ses_net non_blocking (handle_ack_packet (inc_stat STAT_NET_GBN_NR_RX_ACK e) p)
        else if type =? GBN_PKT_NACK then
          __gbn_receive_one fuel' ses_net non_blocking (handle_nack_packet ses_net (inc_stat STAT_NET_GBN_NR_RX_NACK e) p)
        else if type =? GBN_PKT_DATA then
          Some (sint32 recv_size, Some p, handle_data_packet ses_net (inc_stat STAT_NET_GBN_NR_RX_DATA e) p)
        else Some (- EIO, None, inc_stat STAT_NET_GBN_NR_RX_ERROR_UNKNOWN_TYPE e)
  end.

Definition gbn_receive_one (fuel : nat) (net : session_net) (e : gbn_end N) : option (Z * option packet * gbn_end N) :=
  __gbn_receive_one fuel net false e.
Definition gbn_receive_one_nb (fuel : nat) (net : session_net) (e : gbn_end N) : option (Z * option packet * gbn_end N) :=
  __gbn_receive_one fuel net true e.

(** Every field but those assigned keeps what [malloc] left there. *)
Definition init_session_gbn (gbn : session_gbn) : session_gbn :=
  let gbn := for_upto (Z.to_nat NR_BUFFER_INFO_SLOTS)
    (fun i gbn => set_unack gbn (index_to_unack_buffer_info i) (BufferInfo None 0 0)) gbn in
  set_expect (set_last (set_cur gbn 0) 0) 1.

(** [mem] is the memory of the session structure, or the failure of [malloc];
    [reply] is that of the reply buffer. *)
Definition gbn_open_session (ses_net : session_net) (mem : option session_gbn) (reply : option packet) (net : N)
  : Z * option session_gbn :=
  match mem with
  | None => (- ENOMEM, None)
  | Some ses_gbn =>
      let ses_gbn := init_session_gbn ses_gbn in
      match reply with
      | None => (- ENOMEM, None)
      | Some buf =>
          if raw_net_reg_msg_buf ses_net net then (0, Some (set_mb ses_gbn buf)) else (- ENOMEM, None)
      end
  end.
End Operations.
