(* ===== verification/GbnProofs.v ===== *)
(** * Lemmas on the Go-Back-N transport

    The header fields; what an acknowledgement does to the ring; networks
    ([raw_net_laws], with [wire] as a concrete one); the steps of one end, and the
    invariant [rx_inv] of an end with respect to what its peer has sent and
    accepted. *)

From stdpp Require Import functions.
From S2P Require Import Prelude Bitops Gbn.

(** ** The header *)

Lemma land_slot x : Z.land x GBN_HEADER_SLOT_ID_MSK = x mod 1024.
Proof. exact (Z.land_ones x 10 ltac:(lia)). Qed.

Lemma lor_shifted a b n : 0 <= n -> 0 <= a < 2 ^ n -> Z.lor a (Z.shiftl b n) = a + b * 2 ^ n.
Proof.
  intros Hn Ha. rewrite <- Z.shiftl_mul_pow2 by lia. symmetry. rewrite <- Z.lxor_lor, Z.add_nocarry_lxor.
  1: reflexivity.
  all: apply Z.bits_inj'; intros i Hi; rewrite Z.land_spec, Z.bits_0, Z.shiftl_spec by lia.
  all: destruct (Z.ltb_spec i n).
  all: try (rewrite (Z.testbit_neg_r b) by lia; apply andb_false_r).
  all: rewrite <- (Z.mod_small a (2 ^ n)) by lia; rewrite Z.mod_pow2_bits_high by lia; reflexivity.
Qed.

Lemma sesid_after_set hdr src dst :
  hdr_session_id (set_gbn_src_dst_session hdr src dst) = src mod 1024 + dst mod 1024 * 1024.
Proof.
  unfold set_gbn_src_dst_session, set_hdr_session_id; cbn [hdr_session_id].
  rewrite !land_slot. unfold GBN_HEADER_SRC_ID_SHIFT, GBN_HEADER_DST_ID_SHIFT, SLOT_ID_WIDTH, wrap32.
  pose proof (Z.mod_pos_bound src 1024). pose proof (Z.mod_pos_bound dst 1024).
  rewrite Z.shiftl_0_r, (Z.mod_small (src mod 1024)), (Z.mod_small (Z.shiftl _ _))
    by (rewrite ?Z.shiftl_mul_pow2 by lia; lia).
  rewrite lor_shifted by lia.
  change (2 ^ (8 * SES_ID_SIZE_BYTE)) with 16777216. change (2 ^ 10) with 1024.
  apply Z.mod_small. lia.
Qed.

Lemma src_of_word hdr : get_gbn_src_session hdr = sesid_word hdr mod 1024.
Proof.
  unfold get_gbn_src_session, GBN_HEADER_SRC_ID_MSK, GBN_HEADER_SRC_ID_SHIFT.
  rewrite Z.shiftr_0_r, Z.shiftl_0_r. apply land_slot.
Qed.

Lemma dst_of_word hdr : get_gbn_dst_session hdr = sesid_word hdr / 1024 mod 1024.
Proof.
  unfold get_gbn_dst_session, GBN_HEADER_DST_ID_MSK, GBN_HEADER_DST_ID_SHIFT, SLOT_ID_WIDTH.
  rewrite Z.shiftr_land, Z.shiftr_shiftl_l by lia. change (10 - 10) with 0. rewrite Z.shiftl_0_r.
  rewrite land_slot, Z.shiftr_div_pow2 by lia. reflexivity.
Qed.

Lemma sesid_word_set hdr src dst :
  sesid_word (set_gbn_src_dst_session hdr src dst) = src mod 1024 + dst mod 1024 * 1024 + after hdr * 16777216.
Proof.
  unfold sesid_word. rewrite sesid_after_set. cbn [after set_gbn_src_dst_session set_hdr_session_id].
  rewrite Z.shiftl_mul_pow2 by (unfold SES_ID_SIZE_BYTE; lia). reflexivity.
Qed.

Lemma get_src_set hdr src dst : get_gbn_src_session (set_gbn_src_dst_session hdr src dst) = src mod 1024.
Proof. rewrite src_of_word, sesid_word_set. Z.to_euclidean_division_equations; lia. Qed.

Lemma get_dst_set hdr src dst : get_gbn_dst_session (set_gbn_src_dst_session hdr src dst) = dst mod 1024.
Proof. rewrite dst_of_word, sesid_word_set. Z.to_euclidean_division_equations; lia. Qed.

(** ** Acknowledgements *)

Lemma free_unack_loop_fields n s i :
  let s' := free_unack_loop n s i in
  seqnum_cur s' = seqnum_cur s /\ seqnum_last s' = seqnum_last s /\ seqnum_expect s' = seqnum_expect s /\
  ack_enable s' = ack_enable s /\ mb_ack_reply s' = mb_ack_reply s /\
  (forall j, buf (unack_buffer_info_ring s' j) = buf (unack_buffer_info_ring s j)).
Proof.
  revert s i. induction n as [|n IH]; intros s i; cbn [free_unack_loop]; [repeat split|].
  specialize (IH (free_unack_buffer_info s (index_to_unack_buffer_info i)) (i + 1)).
  cbn zeta in *. destruct IH as (-> & -> & -> & -> & -> & Hb). repeat split. intros j. rewrite Hb.
  unfold free_unack_buffer_info, set_unack; cbn [unack_buffer_info_ring].
  destruct (decide (index_to_unack_buffer_info i = j)) as [->|Hj].
  - now rewrite fn_lookup_insert.
  - now rewrite fn_lookup_insert_ne.
Qed.

Lemma ring_free s i j :
  unack_buffer_info_ring (free_unack_buffer_info s i) j =
  if decide (i = j) then BufferInfo (buf (unack_buffer_info_ring s j)) (buf_size (unack_buffer_info_ring s j)) 0
  else unack_buffer_info_ring s j.
Proof.
  unfold free_unack_buffer_info, set_unack; cbn [unack_buffer_info_ring].
  destruct (decide (i = j)) as [->|Hj]; [now rewrite fn_lookup_insert|now rewrite fn_lookup_insert_ne].
Qed.

Lemma free_unack_loop_other n s i j : 0 <= i -> i + Z.of_nat n <= 2 ^ 32 ->
  (forall k, i <= k < i + Z.of_nat n -> k mod 256 <> j) ->
  unack_buffer_info_ring (free_unack_loop n s i) j = unack_buffer_info_ring s j.
Proof.
  revert s i. induction n as [|n IH]; intros s i Hi Hn Hk; cbn [free_unack_loop]; [easy|].
  rewrite IH by (try lia; intros k ?; apply Hk; lia). rewrite ring_free. case_decide as Hd; [|easy].
  unfold index_to_unack_buffer_info in Hd. rewrite wrap32_small in Hd by lia. destruct (Hk i); [lia|easy].
Qed.

Lemma free_unack_loop_keeps n s i j : buf_flags (unack_buffer_info_ring s j) = 0 ->
  buf_flags (unack_buffer_info_ring (free_unack_loop n s i) j) = 0.
Proof.
  revert s i. induction n as [|n IH]; intros s i H; cbn [free_unack_loop]; [easy|].
  apply IH. rewrite ring_free. now case_decide.
Qed.

Lemma free_unack_loop_freed n s i k : 0 <= i -> i + Z.of_nat n <= 2 ^ 32 -> i <= k < i + Z.of_nat n ->
  buf_flags (unack_buffer_info_ring (free_unack_loop n s i) (k mod 256)) = 0.
Proof.
  revert s i. induction n as [|n IH]; intros s i Hi Hn Hk; [lia|]. cbn [free_unack_loop].
  destruct (decide (k = i)) as [->|]; [|apply IH; lia]. apply free_unack_loop_keeps.
  rewrite ring_free. unfold index_to_unack_buffer_info. rewrite wrap32_small by lia. now case_decide.
Qed.

(** The window of a session: the packets sent and not acknowledged. *)
Definition window_ok (s : session_gbn) : Prop := 0 <= seqnum_last s <= seqnum_cur s /\ seqnum_cur s < 2 ^ 31.

(** A reply buffer as [malloc] may return it. *)
Definition ex_reply : packet := Packet (GbnHeader 0 0 0 0) 0 [].

(** ** Networks

    [sent] is what an end has put on its network so far and [pending] what the
    network will hand to it.  A send may fail, and sends nothing then; [NULL] is
    not a packet. *)
Class raw_net_laws (N : Type) `{raw_net_ops N} := {
  sent : N -> list packet;
  pending : N -> list packet;
  send_law ses b sz r n :
    let n' := (raw_net_send ses b sz r n).2 in
    pending n' = pending n /\ (sent n' = sent n \/ exists p, b = Some p /\ sent n' = p :: sent n);
  send_mb_law ses p sz r n :
    let n' := (raw_net_send_msg_buf ses p sz r n).2 in
    pending n' = pending n /\ (sent n' = sent n \/ sent n' = p :: sent n);
  receive_law ses n ret p sz n' :
    raw_net_receive_zerocopy ses n = (ret, p, sz, n') ->
    sent n' = sent n /\ pending n' ⊆ pending n /\ (0 < ret -> p ∈ pending n);
}.

(** ** Two ends *)

Section System.
Context {N : Type} `{raw_net_laws N}.

(** One step of an end whose peer has sent the packets of [peer]: it sends a packet, by either
    function and along the route of a data packet if one is given; the network
    delivers any of the peer's packets, in any order, any number of times or not
    at all; it receives.  [int] sequence numbers do not overflow. *)
Inductive end_step (ses : session_net) (peer : packet -> Prop) : gbn_end N -> gbn_end N -> Prop :=
  | step_send e p sz route ret p' e' :
      seqnum_cur (ge_ses e) < 2 ^ 31 - 2 ->
      (forall r, route = Some r -> hdr_type (to_gbn_header r) = GBN_PKT_DATA) ->
      gbn_send_one ses p sz route e = (ret, p', e') \/ gbn_send_one_msg_buf ses p sz route e = (ret, p', e') ->
      end_step ses peer e e'
  | step_arrive e n : sent n = sent (ge_net e) -> (forall p, p ∈ pending n -> peer p) -> end_step ses peer e (with_net e n)
  | step_receive fuel nb e ret p e' : __gbn_receive_one fuel ses nb e = Some (ret, p, e') -> end_step ses peer e e'.

Inductive sys_step (sa sb : session_net) : gbn_end N * gbn_end N -> gbn_end N * gbn_end N -> Prop :=
  | step_a a b a' : end_step sa (fun p => p ∈ sent (ge_net b)) a a' -> sys_step sa sb (a, b) (a', b)
  | step_b a b b' : end_step sb (fun p => p ∈ sent (ge_net a)) b b' -> sys_step sa sb (a, b) (a, b').

(** Both ends as [gbn_open_session] leaves them, over networks that hold nothing;
    what [malloc] returned is arbitrary. *)
Definition opened (ses : session_net) (e : gbn_end N) : Prop :=
  sent (ge_net e) = [] /\ pending (ge_net e) = [] /\
  exists mem reply, gbn_open_session ses (Some mem) (Some reply) (ge_net e) = (0, Some (ge_ses e)).

Inductive reachable (sa sb : session_net) : gbn_end N * gbn_end N -> Prop :=
  | reach_open a b : opened sa a -> opened sb b -> reachable sa sb (a, b)
  | reach_step x y : reachable sa sb x -> sys_step sa sb x y -> reachable sa sb y.

Definition is_data (p : packet) : Prop := hdr_type (to_gbn_header p) = GBN_PKT_DATA.
Definition is_reply (p : packet) : Prop :=
  hdr_type (to_gbn_header p) = GBN_PKT_ACK \/ hdr_type (to_gbn_header p) = GBN_PKT_NACK.
#[export] Instance is_data_dec p : Decision (is_data p).
Proof. unfold is_data. apply _. Defined.
Definition seq_of (p : packet) : Z := hdr_seqnum (to_gbn_header p).

(** What one end keeps by itself: its ring holds no buffer, its data packets
    carry the numbers from 1 to [seqnum_cur], each at most once, and its replies
    acknowledge only what it has accepted. *)
Record end_ok (e : gbn_end N) : Prop := EndOk {
  ring_null : forall j, 0 <= j < NR_BUFFER_INFO_SLOTS -> buf (unack_buffer_info_ring (ge_ses e) j) = None;
  counters : 0 <= seqnum_last (ge_ses e) /\ 0 <= seqnum_cur (ge_ses e) < 2 ^ 31 - 1 /\ 1 <= seqnum_expect (ge_ses e);
  sent_kinds : forall p, p ∈ sent (ge_net e) -> is_data p \/ is_reply p;
  sent_data : forall p, p ∈ sent (ge_net e) -> is_data p -> 1 <= seq_of p <= seqnum_cur (ge_ses e);
  sent_once : NoDup (seq_of <$> filter is_data (sent (ge_net e)));
  sent_reply : forall p, p ∈ sent (ge_net e) -> is_reply p -> 0 <= seq_of p <= seqnum_expect (ge_ses e) - 1;
}.

(** The end with respect to its peer, which has sent data packets up to number
    [C] and accepted packets up to number [E]. *)
Record rx_inv (C E : Z) (e : gbn_end N) : Prop := RxInv {
  rx_end : end_ok e;
  rx_bound : C < 2 ^ 31 - 1;
  rx_window : E <= seqnum_cur (ge_ses e);
  rx_acked : seqnum_last (ge_ses e) <= E;
  rx_accepted : seqnum_expect (ge_ses e) - 1 <= C;
  rx_pending : forall p, p ∈ pending (ge_net e) ->
    (is_data p -> 1 <= seq_of p <= C) /\ (is_reply p -> 0 <= seq_of p <= E);
}.

Record grows (e e' : gbn_end N) : Prop := Grows {
  grows_expect : seqnum_expect (ge_ses e) <= seqnum_expect (ge_ses e');
  grows_cur : seqnum_cur (ge_ses e) <= seqnum_cur (ge_ses e');
  grows_sent : sent (ge_net e) ⊆ sent (ge_net e');
}.
#[local] Instance grows_preorder : PreOrder grows.
Proof.
  split; [split; done|]. intros e1 e2 e3 [] []. split; try lia. etrans; eassumption.
Qed.

Definition keeps (C E : Z) (e e' : gbn_end N) : Prop := rx_inv C E e -> rx_inv C E e' /\ grows e e'.
#[local] Instance keeps_preorder C E : PreOrder (keeps C E).
Proof.
  split; [intros e He; split; [easy|reflexivity]|].
  intros e1 e2 e3 H12 H23 H1. destruct (H12 H1) as [H2 G12]. destruct (H23 H2) as [H3 G23].
  split; [easy|]. etrans; eassumption.
Qed.

Lemma keeps_stat C E t e : keeps C E e (inc_stat t e).
Proof.
  intros [[] ]. destruct e. cbn in *. split; [|split; cbn; done || lia]. split; cbn; auto. split; cbn; auto.
Qed.

(** A change of the ring flags and of the reply buffer is not visible. *)
Lemma keeps_ses C E e s' :
  (forall j, buf (unack_buffer_info_ring s' j) = buf (unack_buffer_info_ring (ge_ses e) j)) ->
  seqnum_cur s' = seqnum_cur (ge_ses e) ->
  seqnum_expect (ge_ses e) <= seqnum_expect s' <= C + 1 ->
  (rx_inv C E e -> 0 <= seqnum_last s' <= E) ->
  keeps C E e (with_ses e s').
Proof.
  intros Hb Hc He Hl Hi. specialize (Hl Hi). destruct Hi as [[Hr Hn Hk Hd Ho Hp] ? ? ? ? ?].
  split; [|split; cbn; [lia|lia|done]].
  split; cbn [with_ses ge_ses ge_net]; rewrite ?Hc; auto; try lia.
  split; cbn [with_ses ge_ses ge_net]; rewrite ?Hc; auto; try lia.
  - intros j Hj. now rewrite Hb, Hr.
  - intros p H1 H2. specialize (Hp p H1 H2). lia.
Qed.

(** Replies for accepted packets may be sent. *)
Lemma keeps_reply C E ses e p sz r :
  is_reply p -> 0 <= seq_of p <= seqnum_expect (ge_ses e) - 1 ->
  keeps C E e (with_net e (raw_net_send_msg_buf ses p sz r (ge_net e)).2).
Proof.
  intros Hp Hs Hi. pose proof (send_mb_law ses p sz r (ge_net e)) as [Hpe Hse]. cbn zeta in *.
  set (n' := (raw_net_send_msg_buf ses p sz r (ge_net e)).2) in *.
  assert (Hd : ~ is_data p).
  { unfold is_data. destruct Hp as [-> | ->]; discriminate. }
  destruct Hi as [[Hr Hn Hk Hda Ho Hrp] ? ? ? ? Hpd].
  assert (Hin : forall q, q ∈ sent n' -> q ∈ sent (ge_net e) \/ q = p).
  { intros q Hq. destruct Hse as [He|He]; rewrite He in Hq; [tauto|]. apply elem_of_cons in Hq. tauto. }
  split; [|split; cbn; try lia; destruct Hse as [-> | ->]; intros q; rewrite ?elem_of_cons; tauto].
  split; cbn [with_net ge_ses ge_net]; rewrite ?Hpe; auto.
  split; cbn [with_net ge_ses ge_net]; auto.
  - intros q Hq. destruct (Hin q Hq) as [?| ->]; auto.
  - intros q Hq Hdq. destruct (Hin q Hq) as [?| ->]; [auto|contradiction].
  - destruct Hse as [-> | ->]; [easy|]. now rewrite filter_cons_False.
  - intros q Hq Hrq. destruct (Hin q Hq) as [?| ->]; [auto|easy].
Qed.

Lemma dequeue_fields hdr s :
  0 <= seqnum_last s < 2 ^ 31 -> 0 <= hdr_seqnum hdr < 2 ^ 31 ->
  let s' := (handle_ack_nack_dequeue hdr s).2 in
  seqnum_cur s' = seqnum_cur s /\ seqnum_expect s' = seqnum_expect s /\
  seqnum_last s' = Z.max (seqnum_last s) (hdr_seqnum hdr) /\
  (forall j, buf (unack_buffer_info_ring s' j) = buf (unack_buffer_info_ring s j)).
Proof.
  intros Hl Hs. cbn zeta. unfold handle_ack_nack_dequeue. rewrite wrap32_small by lia.
  destruct (Z.ltb_spec (seqnum_last s) (hdr_seqnum hdr)).
  - destruct (free_unack_loop_fields (Z.to_nat (hdr_seqnum hdr - seqnum_last s)) s (seqnum_last s))
      as (? & ? & ? & ? & ? & Hb). unfold set_last; cbn [snd seqnum_cur seqnum_last seqnum_expect unack_buffer_info_ring].
    rewrite sint32_small by lia. repeat split; auto. lia.
  - destruct (Z.eqb_spec (hdr_seqnum hdr) (seqnum_last s)); cbn [snd]; repeat split; lia.
Qed.

Lemma keeps_dequeue C E e p :
  0 <= seq_of p <= E -> keeps C E e (with_ses e (handle_ack_nack_dequeue (to_gbn_header p) (ge_ses e)).2).
Proof.
  intros Hs Hi. pose proof Hi as [[? [? [? ?]] ? ? ? ?] ? ? ? ? ?].
  destruct (dequeue_fields (to_gbn_header p) (ge_ses e)) as (Hc & He & Hl & Hb); [lia|unfold seq_of in Hs; lia|].
  apply keeps_ses; auto; try lia. intros _. unfold seq_of in Hs. lia.
Qed.

(** The ring holds no buffer, so what is sent again is [NULL]. *)
Lemma retrans_loop_null n ses s i net :
  (forall j, 0 <= j < NR_BUFFER_INFO_SLOTS -> buf (unack_buffer_info_ring s j) = None) ->
  sent (retrans_loop n ses s i net) = sent net /\ pending (retrans_loop n ses s i net) = pending net.
Proof.
  intros Hr. revert i net. induction n as [|n IH]; intros i net; cbn [retrans_loop]; [easy|].
  rewrite Hr by (unfold index_to_unack_buffer_info, NR_BUFFER_INFO_SLOTS; apply Z.mod_pos_bound; lia).
  match goal with |- context [raw_net_send ?a ?b ?c ?d ?e] => pose proof (send_law a b c d e) as [Hp Hs] end.
  destruct (raw_net_send _ _ _ _ _) as [ret net']. cbn [snd] in *.
  assert (Hs' : sent net' = sent net) by (destruct Hs as [?|(? & ? & ?)]; [easy|discriminate]).
  destruct (ret <? 0); [easy|]. destruct (IH (i + 1) net') as [-> ->]. easy.
Qed.

Lemma keeps_net C E e n : sent n = sent (ge_net e) -> pending n = pending (ge_net e) -> keeps C E e (with_net e n).
Proof.
  intros Hs Hp [[] ]. split; [|split; cbn; rewrite ?Hs; done || lia].
  split; cbn; rewrite ?Hp; auto. split; cbn; rewrite ?Hs; auto.
Qed.

Lemma keeps_retrans C E ses e : keeps C E e (retrans_unack_buffer_info ses e).
Proof.
  intros Hi. unfold retrans_unack_buffer_info. cbn zeta.
  match goal with |- context [retrans_loop ?n ?a ?s ?i ?net] =>
    destruct (retrans_loop_null n a s i net (ring_null _ (rx_end _ _ _ Hi))) as [Hs Hp] end.
  now apply keeps_net.
Qed.

Lemma keeps_nack C E ses e p : 0 <= seq_of p <= E -> keeps C E e (handle_nack_packet ses e p).
Proof.
  intros Hs. unfold handle_nack_packet. pose proof (keeps_dequeue C E e p Hs) as Hd.
  destruct (handle_ack_nack_dequeue _ _) as [ok s]. cbn [snd] in Hd. destruct ok; [|easy].
  etrans; [exact Hd|]. apply keeps_retrans.
Qed.

Lemma keeps_send_reply C E ses e :
  is_reply (mb_ack_reply (ge_ses e)) -> 0 <= seq_of (mb_ack_reply (ge_ses e)) <= seqnum_expect (ge_ses e) - 1 ->
  keeps C E e (send_reply ses e).2.
Proof.
  intros Hr Hs. pose proof (keeps_reply C E ses e _ ACK_PKT_SIZE None Hr Hs) as Hk.
  unfold send_reply. destruct (raw_net_send_msg_buf _ _ _ _ _). exact Hk.
Qed.

(** The reply buffer filled with number [m] and sent, after the session has been
    changed to [s]. *)
Lemma keeps_answer C E ses e s mb t m :
  keeps C E e (with_ses e s) -> seqnum_expect s <= C + 1 -> C < 2 ^ 31 - 1 ->
  t = GBN_PKT_ACK \/ t = GBN_PKT_NACK -> 0 <= m <= seqnum_expect s - 1 ->
  forall e', e' = with_ses e (set_mb s (reply_fields mb t m)) -> keeps C E e (send_reply ses e').2.
Proof.
  intros Hk Hs HC Ht Hm e' ->. etrans; [|apply keeps_send_reply]; cbn [with_ses ge_ses set_mb mb_ack_reply seqnum_expect].
  - etrans; [exact Hk|]. change (with_ses e (set_mb s (reply_fields mb t m)))
      with (with_ses (with_ses e s) (set_mb s (reply_fields mb t m))).
    intros Hi. pose proof Hi as [[? [? ?] ? ? ? ?] ? ? ? ? ?]. cbn [with_ses ge_ses] in *.
    apply keeps_ses; cbn; auto; lia.
  - exact Ht.
  - unfold seq_of; cbn. rewrite wrap32_small; lia.
Qed.

Lemma keeps_data C E ses e p :
  1 <= seq_of p <= C -> keeps C E e (handle_data_packet ses e p).
Proof.
  intros Hs Hi. pose proof Hi as [[? [? [? ?]] ? ? ? ?] ? ? ? ? ?]. revert Hi. fold (keeps C E e (handle_data_packet ses e p)).
  unfold handle_data_packet. destruct (test_management_session ses); [reflexivity|].
  unfold seq_of in Hs. rewrite wrap32_small by lia.
  destruct (Z.eqb_spec (hdr_seqnum (to_gbn_header p)) (seqnum_expect (ge_ses e))) as [Heq|Hne].
  - assert (Hk : keeps C E e (with_ses e (set_expect (ge_ses e) (sint32 (seqnum_expect (ge_ses e) + 1))))).
    { rewrite sint32_small by lia. apply keeps_ses; cbn; auto; lia. }
    destruct (_ mod 100 =? 0); [|exact Hk].
    destruct (send_reply _ _) as [ret e'] eqn:Hsr. apply (f_equal snd) in Hsr. cbn [snd] in Hsr. subst e'.
    assert (Ha : keeps C E e (send_reply ses (with_ses e (set_mb (set_expect (ge_ses e) (sint32 (seqnum_expect (ge_ses e) + 1)))
        (reply_fields (reply_sessions (mb_ack_reply (set_expect (ge_ses e) (sint32 (seqnum_expect (ge_ses e) + 1))))
           (to_gbn_header p)) GBN_PKT_ACK (seqnum_expect (ge_ses e)))))).2).
    { eapply keeps_answer; [exact Hk|..|reflexivity]; cbn; try rewrite sint32_small; auto; lia. }
    destruct (ret <? 0); [exact Ha|]. etrans; [exact Ha|]. apply keeps_stat.
  - destruct (ack_enable (ge_ses e)); [|reflexivity].
    destruct (Z.ltb_spec (seqnum_expect (ge_ses e)) (hdr_seqnum (to_gbn_header p))); [|case_bools; [|lia]].
    + etrans; [apply (keeps_stat _ _ STAT_NET_GBN_NR_TX_NACK)|].
      eapply keeps_answer; [|..|reflexivity]; [apply keeps_ses| | | |]; cbn; auto; lia.
    + etrans; [apply (keeps_stat _ _ STAT_NET_GBN_NR_TX_ACK)|].
      eapply keeps_answer; [|..|reflexivity]; [apply keeps_ses| | | |]; cbn; auto; lia.
Qed.

Lemma keeps_receive C E fuel ses nb e ret p e' :
  __gbn_receive_one fuel ses nb e = Some (ret, p, e') -> keeps C E e e'.
Proof.
  revert e. induction fuel as [|fuel IH]; intros e; cbn [__gbn_receive_one]; [discriminate|].
  destruct (raw_net_receive_zerocopy ses (ge_net e)) as [[[r q] sz] n] eqn:Hr.
  destruct (receive_law _ _ _ _ _ _ Hr) as (Hse & Hpe & Hq).
  intros Hrec Hi. pose proof (rx_pending _ _ _ Hi) as Hpd.
  assert (Hn : rx_inv C E (with_net e n) /\ grows e (with_net e n)).
  { destruct Hi as [[] ]. split; [|split; cbn; rewrite ?Hse; done || lia].
    split; cbn; auto. split; cbn; rewrite ?Hse; auto. }
  destruct Hn as [Hn Hg]. destruct (Z.ltb_spec r 0); [now simplify_eq|].
  enough (Hk : keeps C E (with_net e n) e').
  { destruct (Hk Hn) as [Hi' Hg']. split; [easy|]. etrans; eassumption. }
  destruct (Z.eqb_spec r 0); [destruct nb; [simplify_eq; reflexivity|eauto]|].
  destruct (Hpd q (Hq ltac:(lia))) as [Hd Hre].
  destruct (Z.eqb_spec (hdr_type (to_gbn_header q)) GBN_PKT_ACK) as [Ht|_].
  { etrans; [apply (keeps_stat _ _ STAT_NET_GBN_NR_RX_ACK)|]. etrans; [|eapply IH; exact Hrec].
    apply keeps_dequeue, Hre. now left. }
  destruct (Z.eqb_spec (hdr_type (to_gbn_header q)) GBN_PKT_NACK) as [Ht|_].
  { etrans; [apply (keeps_stat _ _ STAT_NET_GBN_NR_RX_NACK)|]. etrans; [|eapply IH; exact Hrec].
    apply keeps_nack, Hre. now right. }
  destruct (Z.eqb_spec (hdr_type (to_gbn_header q)) GBN_PKT_DATA) as [Ht|_]; simplify_eq; [|apply keeps_stat].
  etrans; [apply (keeps_stat _ _ STAT_NET_GBN_NR_RX_DATA)|]. apply keeps_data, Hd, Ht.
Qed.

(** The packet that goes out carries the next number. *)
Lemma prepare_send_spec ses p sz route (e : gbn_end N) :
  test_management_session ses = false -> 0 <= seqnum_cur (ge_ses e) < 2 ^ 31 - 1 ->
  (forall r, route = Some r -> hdr_type (to_gbn_header r) = GBN_PKT_DATA) ->
  let '(p', e') := prepare_send ses p sz route e in
  is_data p' /\ seq_of p' = seqnum_cur (ge_ses e) + 1 /\ ge_net e' = ge_net e /\
  ge_ses e' = set_cur (ge_ses e) (seqnum_cur (ge_ses e) + 1) /\ payload p' = payload p.
Proof.
  intros Hm Hc Hr. unfold prepare_send. rewrite Hm. cbn [alloc_unack_buffer_info].
  unfold is_data, seq_of; cbn. rewrite sint32_small, wrap32_small by lia. repeat split.
  destruct route as [r|]; cbn; [now apply Hr|reflexivity].
Qed.

(** A new data packet was sent, or the network refused it. *)
Lemma keeps_new_data C E e e' p :
  is_data p -> seq_of p = seqnum_cur (ge_ses e) + 1 ->
  seqnum_cur (ge_ses e) < 2 ^ 31 - 2 ->
  ge_ses e' = set_cur (ge_ses e) (seqnum_cur (ge_ses e) + 1) ->
  pending (ge_net e') = pending (ge_net e) ->
  sent (ge_net e') = sent (ge_net e) \/ sent (ge_net e') = p :: sent (ge_net e) ->
  keeps C E e e'.
Proof.
  intros Hd Hq Hc Hs Hp Hse Hi. destruct Hi as [[Hr Hn Hk Hda Ho Hrp] ? ? ? ? Hpd].
  assert (Hnr : ~ is_reply p) by (unfold is_reply; rewrite Hd; intros [?|?]; discriminate).
  assert (Hin : forall q, q ∈ sent (ge_net e') -> q ∈ sent (ge_net e) \/ q = p).
  { intros q Hq'. destruct Hse as [He|He]; rewrite He in Hq'; [tauto|]. apply elem_of_cons in Hq'. tauto. }
  split; [|split; rewrite ?Hs; cbn; try lia; destruct Hse as [-> | ->]; intros q; rewrite ?elem_of_cons; tauto].
  split; rewrite ?Hs, ?Hp; cbn [set_cur seqnum_last seqnum_cur seqnum_expect]; auto; try lia.
  split; rewrite ?Hs, ?Hp; cbn [set_cur seqnum_last seqnum_cur seqnum_expect unack_buffer_info_ring]; auto; try lia.
  - intros q H'. destruct (Hin q H') as [?| ->]; auto.
  - intros q H' Hdq. destruct (Hin q H') as [H''| ->]; [specialize (Hda q H'' Hdq)|]; lia.
  - destruct Hse as [-> | ->]; [easy|]. rewrite filter_cons_True by easy. cbn. constructor; [|easy].
    rewrite list_elem_of_fmap. intros (q & Hqq & Hq'). apply list_elem_of_filter in Hq' as [Hdq Hq'].
    specialize (Hda q Hq' Hdq). lia.
  - intros q H' Hrq. destruct (Hin q H') as [?| ->]; [auto|contradiction].
Qed.

Lemma keeps_end_step C E ses peer e e' :
  test_management_session ses = false ->
  (forall p, peer p -> (is_data p -> 1 <= seq_of p <= C) /\ (is_reply p -> 0 <= seq_of p <= E)) ->
  end_step ses peer e e' -> keeps C E e e'.
Proof.
  intros Hm Hpeer [e0 p sz route ret p' e1 Hc Hr Hsend|e0 n Hs Hp|fuel nb e0 ret p e1 Hrec].
  - intros Hi. pose proof (counters _ (rx_end _ _ _ Hi)) as Hcs.
    pose proof (prepare_send_spec ses p sz route e0 Hm ltac:(lia) Hr) as Hps. revert Hi.
    fold (keeps C E e0 e1). unfold gbn_send_one, gbn_send_one_msg_buf in Hsend.
    destruct (prepare_send ses p sz route e0) as [q e2]. destruct Hps as (Hd & Hq & Hn & Hs & _).
    pose proof (send_law ses (Some q) sz route (ge_net e2)) as Hl1.
    pose proof (send_mb_law ses q sz route (ge_net e2)) as Hl2. cbn zeta in *.
    destruct Hsend as [Hsend|Hsend]; [destruct (raw_net_send _ _ _ _ _) as [r n]|
      destruct (raw_net_send_msg_buf _ _ _ _ _) as [r n]]; injection Hsend as _ _ <-; cbn [snd] in *; rewrite Hn in *.
    all: apply (keeps_new_data C E e0 _ q); auto; cbn [with_net ge_net]; try tauto.
    destruct Hl1 as [_ [?|(? & ? & ?)]]; simplify_eq; tauto.
  - intros [[] ]. split; [|split; cbn; rewrite ?Hs; done || lia].
    split; cbn; auto. split; cbn; rewrite ?Hs; auto.
  - eapply keeps_receive. exact Hrec.
Qed.

Lemma rx_inv_mono C E C' E' e :
  C <= C' < 2 ^ 31 - 1 -> E <= E' <= seqnum_cur (ge_ses e) -> rx_inv C E e -> rx_inv C' E' e.
Proof.
  intros HC HE [? ? ? ? ? Hp]. split; auto; try lia.
  intros p Hi. destruct (Hp p Hi) as [H1 H2]. split; intros Hx; [specialize (H1 Hx)|specialize (H2 Hx)]; lia.
Qed.

Definition towards (x y : gbn_end N) : Prop := rx_inv (seqnum_cur (ge_ses y)) (seqnum_expect (ge_ses y) - 1) x.

Lemma towards_step ses x x' y :
  test_management_session ses = false -> end_step ses (fun p => p ∈ sent (ge_net y)) x x' ->
  towards x y /\ towards y x -> towards x' y /\ towards y x'.
Proof.
  intros Hm Hst [Hx Hy]. pose proof (rx_end _ _ _ Hy) as [_ _ _ Hd _ Hr].
  destruct (keeps_end_step _ _ _ _ _ _ Hm (fun p Hp => conj (Hd p Hp) (Hr p Hp)) Hst Hx) as [Hx' [Ge Gc _]].
  split; [exact Hx'|]. pose proof (counters _ (rx_end _ _ _ Hx')).
  refine (rx_inv_mono _ _ _ _ _ _ _ Hy); [lia|]. destruct Hx'. lia.
Qed.

Lemma init_ring n s : (n <= 256)%nat ->
  forall j, 0 <= j < Z.of_nat n ->
  buf (unack_buffer_info_ring (for_upto n
    (fun i gbn => set_unack gbn (index_to_unack_buffer_info i) (BufferInfo None 0 0)) s) j) = None.
Proof.
  induction n as [|n IH]; intros Hn j Hj; [lia|]. cbn [for_upto set_unack unack_buffer_info_ring].
  unfold index_to_unack_buffer_info, NR_BUFFER_INFO_SLOTS. rewrite wrap32_small, Z.mod_small by lia.
  destruct (decide (Z.of_nat n = j)) as [->|Hne]; [now rewrite fn_lookup_insert|].
  rewrite fn_lookup_insert_ne by easy. apply IH; lia.
Qed.

Lemma opened_counters ses e : opened ses e ->
  seqnum_cur (ge_ses e) = 0 /\ seqnum_last (ge_ses e) = 0 /\ seqnum_expect (ge_ses e) = 1 /\
  forall j, 0 <= j < NR_BUFFER_INFO_SLOTS -> buf (unack_buffer_info_ring (ge_ses e) j) = None.
Proof.
  intros (_ & _ & mem & reply & Ho). unfold gbn_open_session in Ho.
  destruct (raw_net_reg_msg_buf _ _); [|discriminate]. injection Ho as <-. repeat split.
  intros j Hj. unfold init_session_gbn. cbn [set_mb set_expect set_last set_cur unack_buffer_info_ring].
  apply init_ring; unfold NR_BUFFER_INFO_SLOTS in *; lia.
Qed.

Lemma opened_towards sa sb x y : opened sa x -> opened sb y -> towards x y.
Proof.
  intros Hx Hy. destruct (opened_counters _ _ Hx) as (Hc & Hl & He & Hr).
  destruct (opened_counters _ _ Hy) as (Hc' & _ & He' & _). destruct Hx as (Hs & Hp & _).
  unfold towards. rewrite Hc', He'. split; rewrite ?Hc, ?Hl, ?He, ?Hp; try lia.
  - split; rewrite ?Hc, ?Hl, ?He, ?Hs; auto; try lia; try (intros p Hin; now apply not_elem_of_nil in Hin). constructor.
  - intros p Hin. now apply not_elem_of_nil in Hin.
Qed.

Lemma reachable_towards sa sb x :
  test_management_session sa = false -> test_management_session sb = false ->
  reachable sa sb x -> towards x.1 x.2 /\ towards x.2 x.1.
Proof.
  intros Ha Hb. induction 1 as [a b Hoa Hob|x y _ IH Hst].
  - split; eapply opened_towards; eassumption.
  - destruct Hst as [a b a' Hst|a b b' Hst]; cbn [fst snd] in *.
    + exact (towards_step _ _ _ _ Ha Hst IH).
    + apply and_comm. apply and_comm in IH. exact (towards_step _ _ _ _ Hb Hst IH).
Qed.

End System.

(** ** A concrete network

    Packets sent go to [outbox], packets to be received are taken from the front
    of [inbox]; [nulls] counts the sends of [NULL]. *)
Record wire := Wire { outbox : list packet; inbox : list packet; nulls : Z }.

#[export] Instance wire_ops : raw_net_ops wire := {
  raw_net_send _ b sz _ n :=
    match b with
    | Some p => (sz, Wire (p :: outbox n) (inbox n) (nulls n))
    | None => (sz, Wire (outbox n) (inbox n) (nulls n + 1))
    end;
  raw_net_send_msg_buf _ p sz _ n := (sz, Wire (p :: outbox n) (inbox n) (nulls n));
  raw_net_receive_zerocopy _ n :=
    match inbox n with
    | [] => (0, ex_reply, 0, n)
    | p :: q => (1, p, ACK_PKT_SIZE, Wire (outbox n) q (nulls n))
    end;
  raw_net_reg_msg_buf _ _ := true;
}.

#[export] Program Instance wire_laws : raw_net_laws wire := { sent := outbox; pending := inbox }.
Next Obligation. intros ses [p|] sz r n; cbn; eauto. Qed.
Next Obligation. intros ses p sz r n; cbn; auto. Qed.
Next Obligation.
  intros ses n ret p sz n' Hr. destruct n as [o i k]. cbn in *. destruct i as [|q i]; simplify_eq; cbn.
  - split; [done|]. split; [done|lia].
  - split; [done|]. split; [set_solver|]. intros _. constructor.
Qed.

(** ** Data packets *)

(** The reply an end gives to the data packet with header [hdr]. *)
Definition reply_to (s : session_gbn) (hdr : gbn_header) : option (Z * Z) :=
  let x := seqnum_expect s in
  if hdr_seqnum hdr =? x then (if x mod 100 =? 0 then Some (GBN_PKT_ACK, x) else None)
  else if ack_enable s then Some (if x <? hdr_seqnum hdr then GBN_PKT_NACK else GBN_PKT_ACK, x - 1)
  else None.

Lemma reply_fields_sessions mb hdr t n : 0 <= n < 2 ^ 32 ->
  let r := reply_fields (reply_sessions mb hdr) t n in
  hdr_type (gbn r) = t /\ hdr_seqnum (gbn r) = n /\
  get_gbn_src_session (gbn r) = get_gbn_dst_session hdr /\ get_gbn_dst_session (gbn r) = get_gbn_src_session hdr.
Proof.
  intros Hn. cbn zeta. unfold reply_fields, reply_sessions, to_gbn_header.
  cbn [set_gbn gbn set_hdr_seqnum set_hdr_type hdr_type hdr_seqnum].
  rewrite wrap32_small by easy. split; [easy|]. split; [easy|].
  pose proof (get_src_set (gbn mb) (get_gbn_dst_session hdr) (get_gbn_src_session hdr)) as H1.
  pose proof (get_dst_set (gbn mb) (get_gbn_dst_session hdr) (get_gbn_src_session hdr)) as H2.
  rewrite (src_of_word hdr), (dst_of_word hdr), !Zmod_mod in *. split; [exact H1|exact H2].
Qed.

(** The reply [r] answers [hdr] with type [t] and number [n]. *)
Definition answers (r : packet) (hdr : gbn_header) (t n : Z) : Prop :=
  hdr_type (gbn r) = t /\ hdr_seqnum (gbn r) = n /\
  get_gbn_src_session (gbn r) = get_gbn_dst_session hdr /\ get_gbn_dst_session (gbn r) = get_gbn_src_session hdr.

Lemma handle_data_spec ses (e : gbn_end wire) p :
  test_management_session ses = false ->
  1 <= seqnum_expect (ge_ses e) < 2 ^ 31 - 1 -> 0 <= hdr_seqnum (gbn p) < 2 ^ 32 ->
  let s := ge_ses e in
  let e' := handle_data_packet ses e p in
  seqnum_expect (ge_ses e') = (if hdr_seqnum (gbn p) =? seqnum_expect s then seqnum_expect s + 1 else seqnum_expect s) /\
  ack_enable (ge_ses e') = ack_enable s && (hdr_seqnum (gbn p) <=? seqnum_expect s) /\
  seqnum_cur (ge_ses e') = seqnum_cur s /\ seqnum_last (ge_ses e') = seqnum_last s /\
  inbox (ge_net e') = inbox (ge_net e) /\
  match reply_to s (gbn p) with
  | None => outbox (ge_net e') = outbox (ge_net e)
  | Some (t, n) => exists r, outbox (ge_net e') = r :: outbox (ge_net e) /\ answers r (gbn p) t n
  end.
Proof.
  intros Hm He Hs. cbn zeta. unfold handle_data_packet, reply_to, to_gbn_header. rewrite Hm, wrap32_small by lia.
  destruct (Z.eqb_spec (hdr_seqnum (gbn p)) (seqnum_expect (ge_ses e))) as [Heq|Hne].
  - rewrite sint32_small by lia. destruct (seqnum_expect (ge_ses e) mod 100 =? 0).
    + cbn -[reply_fields reply_sessions]. rewrite Heq, Z.leb_refl, andb_true_r. repeat split.
      eexists. split; [reflexivity|]. apply reply_fields_sessions. lia.
    + cbn. rewrite Heq, Z.leb_refl, andb_true_r. repeat split.
  - destruct (ack_enable (ge_ses e)) eqn:Hack.
    2: { cbn. rewrite Hack. repeat split. }
    case_bools; try lia; cbn -[reply_fields reply_sessions]; rewrite ?Hack; repeat split.
    all: eexists; split; [reflexivity|]; apply reply_fields_sessions; lia.
Qed.

