(* ===== verification/GbnSpec.v ===== *)
(** * Theorems on the Go-Back-N transport

    The header round trip; what an acknowledgement and a data packet do to a
    session; and a system of two ends over a network that loses, duplicates and
    reorders packets: safety, what is missing from reliability, and progress when
    nothing is lost. *)

From stdpp Require Import functions.
From S2P Require Import Prelude Bitops Gbn GbnProofs.

(** ** The header *)

(** The session ids survive the trip through the three bytes of the header,
    modulo the 1024 sessions of a node and whatever byte follows the header in
    the packet; exchanging the ends exchanges them, and doing so twice restores
    the three bytes. *)
Theorem gbn_header_roundtrip hdr src dst :
  let h := set_gbn_src_dst_session hdr src dst in
  get_gbn_src_session h = src mod NR_MAX_SESSIONS_PER_NODE /\
  get_gbn_dst_session h = dst mod NR_MAX_SESSIONS_PER_NODE /\
  swap_gbn_session h = set_gbn_src_dst_session hdr dst src /\
  swap_gbn_session (swap_gbn_session h) = h.
Proof.
  assert (Hs : forall s d, swap_gbn_session (set_gbn_src_dst_session hdr s d) = set_gbn_src_dst_session hdr d s).
  { intros s d. unfold swap_gbn_session. rewrite get_src_set, get_dst_set.
    pose proof (Z.mod_pos_bound s 1024). pose proof (Z.mod_pos_bound d 1024).
    rewrite !sint32_small, !wrap32_small by lia.
    unfold set_gbn_src_dst_session, set_hdr_session_id at 1. cbn [hdr_type hdr_seqnum after set_hdr_session_id].
    now rewrite !land_slot, !Zmod_mod. }
  cbn zeta. rewrite get_src_set, get_dst_set, !Hs. auto.
Qed.

(** ** Acknowledgements *)

(** An acknowledgement for [seq] in the window frees the ring slots of all
    packets up to [seq] and no others, and makes [seq] the last acknowledged
    packet, so that the number of packets in flight falls to [seqnum_cur - seq];
    a repeated one changes nothing and is accepted; an older one changes nothing
    and is refused. *)
Theorem handle_ack_nack_dequeue_correct hdr s :
  window_ok s -> 0 <= hdr_seqnum hdr <= seqnum_cur s ->
  let seq := hdr_seqnum hdr in
  let '(ok, s') := handle_ack_nack_dequeue hdr s in
  ok = (seqnum_last s <=? seq) /\ window_ok s' /\
  seqnum_last s' = Z.max (seqnum_last s) seq /\ seqnum_cur s' = seqnum_cur s /\
  nr_unack_buffer s' = seqnum_cur s - Z.max (seqnum_last s) seq /\
  seqnum_expect s' = seqnum_expect s /\
  (forall k, seqnum_last s <= k < seq -> buf_flags (unack_buffer_info_ring s' (k mod 256)) = 0) /\
  (forall j, (forall k, seqnum_last s <= k < seq -> k mod 256 <> j) ->
     unack_buffer_info_ring s' j = unack_buffer_info_ring s j).
Proof.
  intros [Hw Hc] Hseq. cbn zeta. unfold handle_ack_nack_dequeue, nr_unack_buffer. rewrite wrap32_small by lia.
  destruct (Z.ltb_spec (seqnum_last s) (hdr_seqnum hdr)) as [Hlt|Hge].
  - destruct (free_unack_loop_fields (Z.to_nat (hdr_seqnum hdr - seqnum_last s)) s (seqnum_last s))
      as (Hcur & _ & He & _). unfold window_ok, set_last; cbn [seqnum_cur seqnum_last seqnum_expect unack_buffer_info_ring].
    rewrite Hcur, He, !sint32_small by (rewrite ?sint32_small; lia). rewrite Z.max_r by lia.
    split; [symmetry; apply Z.leb_le; lia|]. repeat split; try lia.
    + intros k Hk. apply free_unack_loop_freed; lia.
    + intros j Hj. apply free_unack_loop_other; try lia. intros k Hk. apply Hj. lia.
  - destruct (Z.eqb_spec (hdr_seqnum hdr) (seqnum_last s)) as [He|He].
    all: rewrite Z.max_l, sint32_small by lia; repeat split; lia.
Qed.

(** A session that has sent ten packets, of which four were acknowledged. *)
Definition ex_session : session_gbn :=
  SessionGbn (fun _ => BufferInfo None 0 BUFFER_INFO_ALLOCATED) 10 4 1 false ex_reply.
Lemma handle_ack_nack_dequeue_correct_witness :
  let s' := (handle_ack_nack_dequeue (GbnHeader GBN_PKT_ACK 7 0 0) ex_session).2 in
  seqnum_last s' = 7 /\ nr_unack_buffer s' = 3 /\ buf_flags (unack_buffer_info_ring s' 5) = 0.
Proof.
  assert (Hw : window_ok ex_session) by (split; cbn; lia).
  pose proof (handle_ack_nack_dequeue_correct (GbnHeader GBN_PKT_ACK 7 0 0) ex_session Hw ltac:(cbn; lia)) as H.
  cbn zeta in *. destruct (handle_ack_nack_dequeue _ _) as [ok s'].
  destruct H as (_ & _ & H1 & _ & H2 & _ & H3 & _). cbn in H1, H2. repeat split; [exact H1|exact H2|].
  apply (H3 5). cbn; lia.
Defined.

(** ** Two ends *)

Section System.
Context {N : Type} `{raw_net_laws N}.

(** C29: whatever the network loses, duplicates or reorders, an end never takes
    for acknowledged a packet its peer has not accepted, and a peer never accepts
    a packet that was not sent: [seqnum_last <= peer's seqnum_expect - 1 <=
    seqnum_cur] in both directions, in every state two freshly opened ends reach
    by sending, receiving and losing packets. *)
Theorem gbn_acked_implies_received sa sb a b :
  test_management_session sa = false -> test_management_session sb = false ->
  reachable sa sb (a, b) ->
  0 <= seqnum_last (ge_ses a) <= seqnum_expect (ge_ses b) - 1 /\
  seqnum_expect (ge_ses b) - 1 <= seqnum_cur (ge_ses a) /\
  0 <= seqnum_last (ge_ses b) <= seqnum_expect (ge_ses a) - 1 /\
  seqnum_expect (ge_ses a) - 1 <= seqnum_cur (ge_ses b).
Proof.
  intros Ha Hb Hr. destruct (reachable_towards _ _ _ Ha Hb Hr) as [[Hea] [Heb]].
  pose proof (counters _ Hea). pose proof (counters _ Heb). cbn [fst snd] in *. lia.
Qed.


End System.

Definition ex_ses : session_net := SessionNet 1 1.
Definition ex_end : gbn_end wire :=
  GbnEnd (set_mb (init_session_gbn ex_session) ex_reply) (Wire [] [] 0) (fun _ => 0).
Definition ex_packet : packet := Packet (GbnHeader 0 0 0 0) 0 [42].
(** The end after it has sent one packet. *)
Definition ex_sent : gbn_end wire := (gbn_send_one ex_ses ex_packet 100 None ex_end).2.
Definition ex_lost : gbn_end wire := (gbn_send_one ex_ses ex_packet 100 None ex_sent).2.

Lemma ex_opened : opened ex_ses ex_end.
Proof. repeat split. exists ex_session, ex_reply. reflexivity. Qed.

(** Two packets were sent, of which the second one arrived and was received. *)
Definition ex_arrived : gbn_end wire := with_net ex_end (Wire [] (take 1 (outbox (ge_net ex_lost))) 0).
Definition after_receive (fuel : nat) (e : gbn_end wire) : gbn_end wire :=
  match gbn_receive_one_nb fuel ex_ses e with Some (_, _, e') => e' | None => e end.
Definition ex_received : gbn_end wire := after_receive 1 ex_arrived.

Lemma after_receive_step fuel peer e : is_Some (gbn_receive_one_nb fuel ex_ses e) ->
  end_step ex_ses peer e (after_receive fuel e).
Proof.
  unfold after_receive. intros Hf. destruct (gbn_receive_one_nb fuel ex_ses e) as [[[ret p] e']|] eqn:Hr.
  - exact (step_receive _ _ _ _ _ _ _ _ Hr).
  - now destruct Hf.
Qed.

Lemma ex_reachable : reachable ex_ses ex_ses (ex_lost, ex_received).
Proof.
  apply (reach_step _ _ (ex_lost, ex_arrived)).
  apply (reach_step _ _ (ex_lost, ex_end)). apply (reach_step _ _ (ex_sent, ex_end)).
  apply (reach_step _ _ (ex_end, ex_end)). apply reach_open; apply ex_opened.
  - apply step_a. eapply (step_send _ _ ex_end ex_packet 100 None); [vm_compute; reflexivity|easy|].
    left. reflexivity.
  - apply step_a. eapply (step_send _ _ ex_sent ex_packet 100 None); [vm_compute; reflexivity|easy|].
    left. reflexivity.
  - apply step_b. apply (step_arrive _ _ ex_end); [reflexivity|]. intros p. cbn. rewrite !elem_of_cons. tauto.
  - apply step_b. apply after_receive_step. eexists. reflexivity.
Qed.

Lemma gbn_acked_implies_received_witness :
  0 <= seqnum_last (ge_ses ex_lost) <= seqnum_expect (ge_ses ex_received) - 1 /\
  seqnum_expect (ge_ses ex_received) - 1 <= 2.
Proof.
  destruct (gbn_acked_implies_received ex_ses ex_ses _ _ eq_refl eq_refl ex_reachable) as (H1 & H2 & _).
  split; [exact H1|exact H2].
Defined.


(** ** Data packets *)

(** What a data packet does to a session, over a network that takes the
    reply.  Only the expected number is accepted, and moves [seqnum_expect] by
    one; every hundredth accepted packet is acknowledged by its own number.  Any
    other number leaves [seqnum_expect] and is answered, when replies are enabled,
    with the last accepted number: by a NACK, after which replies are disabled, if
    packets are missing, and by an ACK if the packet is a duplicate.  The reply
    goes from the packet's destination session to its source session. *)
Theorem handle_data_packet_correct ses (e : gbn_end wire) p :
  test_management_session ses = false ->
  1 <= seqnum_expect (ge_ses e) < 2 ^ 31 - 1 -> 0 <= hdr_seqnum (gbn p) < 2 ^ 32 ->
  let s := ge_ses e in
  let e' := handle_data_packet ses e p in
  seqnum_expect (ge_ses e') = (if hdr_seqnum (gbn p) =? seqnum_expect s then seqnum_expect s + 1 else seqnum_expect s) /\
  ack_enable (ge_ses e') = ack_enable s && (hdr_seqnum (gbn p) <=? seqnum_expect s) /\
  seqnum_cur (ge_ses e') = seqnum_cur s /\ seqnum_last (ge_ses e') = seqnum_last s /\
  match reply_to s (gbn p) with
  | None => outbox (ge_net e') = outbox (ge_net e)
  | Some (t, n) => exists r, outbox (ge_net e') = r :: outbox (ge_net e) /\ answers r (gbn p) t n
  end.
Proof. intros Hm He Hs. destruct (handle_data_spec ses e p Hm He Hs) as (? & ? & ? & ? & _ & ?). auto. Qed.

Lemma handle_data_packet_correct_witness :
  outbox (ge_net (handle_data_packet ex_ses (with_ses ex_end (set_ack_enable (ge_ses ex_end) true))
    (Packet (GbnHeader GBN_PKT_DATA 3 1025 0) 0 []))) <> [].
Proof.
  pose proof (handle_data_packet_correct ex_ses (with_ses ex_end (set_ack_enable (ge_ses ex_end) true))
    (Packet (GbnHeader GBN_PKT_DATA 3 1025 0) 0 []) eq_refl ltac:(cbn; lia) ltac:(cbn; lia)) as (_ & _ & _ & _ & H).
  cbn zeta in H. cbn [reply_to] in H. destruct H as (r & -> & _). discriminate.
Defined.

(** ** What the caller of receive gets *)

(** A data packet is handed to the caller whatever its number is: a packet
    that arrives twice is delivered twice, although the session accepts it at
    most once, and a packet from beyond a gap is delivered although the session
    did not accept it. *)
Theorem gbn_receive_delivers_out_of_order ses (e : gbn_end wire) p q :
  test_management_session ses = false -> is_data p ->
  1 <= seqnum_expect (ge_ses e) < 2 ^ 31 - 2 -> 0 <= seq_of p < 2 ^ 32 ->
  inbox (ge_net e) = p :: p :: q ->
  exists e1 e2, gbn_receive_one 1 ses e = Some (ACK_PKT_SIZE, Some p, e1) /\
    gbn_receive_one 1 ses e1 = Some (ACK_PKT_SIZE, Some p, e2) /\
    inbox (ge_net e2) = q /\
    seqnum_expect (ge_ses e2) = seqnum_expect (ge_ses e) + (if seq_of p =? seqnum_expect (ge_ses e) then 1 else 0).
Proof.
  intros Hm Hd He Hs Hi. destruct e as [s [o i k] st]. cbn [ge_net inbox ge_ses] in *. subst i.
  set (e0 := inc_stat STAT_NET_GBN_NR_RX_DATA (GbnEnd s (Wire o (p :: q) k) st)).
  destruct (handle_data_spec ses e0 p Hm ltac:(cbn; lia) Hs) as (He1 & _ & _ & _ & Hi1 & _).
  set (e1 := handle_data_packet ses e0 p) in *.
  set (e2 := handle_data_packet ses (inc_stat STAT_NET_GBN_NR_RX_DATA (with_net e1 (Wire (outbox (ge_net e1)) q (nulls (ge_net e1))))) p).
  exists e1, e2. unfold gbn_receive_one. cbn [__gbn_receive_one raw_net_receive_zerocopy wire_ops ge_net inbox].
  rewrite Hi1. cbn [e0 inc_stat ge_net inbox]. unfold is_data in Hd. rewrite Hd.
  split; [reflexivity|]. split; [reflexivity|].
  cbn [e0 inc_stat ge_ses] in He1. fold (seq_of p) in He1.
  assert (Hb : 1 <= seqnum_expect (ge_ses e1) < 2 ^ 31 - 1) by (rewrite He1; case_bools; lia).
  destruct (handle_data_spec ses (inc_stat STAT_NET_GBN_NR_RX_DATA
    (with_net e1 (Wire (outbox (ge_net e1)) q (nulls (ge_net e1))))) p Hm Hb Hs) as (He2 & _ & _ & _ & Hi2 & _).
  fold e2 in He2, Hi2. split; [exact Hi2|]. rewrite He2. cbn [inc_stat with_net ge_ses].
  change (seq_of p) with (hdr_seqnum (gbn p)) in *. rewrite He1.
  destruct (Z.eqb_spec (hdr_seqnum (gbn p)) (seqnum_expect s)); case_bools; lia.
Qed.

Definition ex_gap : packet := Packet (GbnHeader GBN_PKT_DATA 7 1025 0) 0 [42].
Lemma gbn_receive_delivers_out_of_order_witness :
  let p := ex_gap in
  exists e1 e2, gbn_receive_one 1 ex_ses (with_net ex_end (Wire [] [ex_gap; ex_gap] 0)) = Some (ACK_PKT_SIZE, Some p, e1) /\
    gbn_receive_one 1 ex_ses e1 = Some (ACK_PKT_SIZE, Some p, e2) /\ seqnum_expect (ge_ses e2) = 1.
Proof.
  destruct (gbn_receive_delivers_out_of_order ex_ses (with_net ex_end (Wire [] [ex_gap; ex_gap] 0)) ex_gap []
    eq_refl eq_refl ltac:(cbn; lia) ltac:(unfold seq_of; cbn; lia) eq_refl) as (e1 & e2 & H1 & H2 & _ & H3).
  exists e1, e2. split; [exact H1|]. split; [exact H2|exact H3].
Defined.

(** ** Progress without loss

    One round: [a] sends a packet, the network carries it to [b], which receives
    it, and carries what [b] replied back to [a], which receives until there is
    nothing left. *)
Definition transfer (x y : gbn_end wire) : gbn_end wire * gbn_end wire :=
  (with_net x (Wire [] (inbox (ge_net x)) (nulls (ge_net x))),
   with_net y (Wire (outbox (ge_net y)) (inbox (ge_net y) ++ rev (outbox (ge_net x))) (nulls (ge_net y)))).

Definition round (sa sb : session_net) (p : packet) (a b : gbn_end wire) : option (packet * gbn_end wire * gbn_end wire) :=
  let '(_, _, a) := gbn_send_one sa p 100 None a in
  let '(a, b) := transfer a b in
  '(_, q, b) ← gbn_receive_one 1 sb b;
  let '(b, a) := transfer b a in
  '(_, _, a) ← gbn_receive_one_nb 2 sa a;
  q ← q;
  Some (q, a, b).

Fixpoint rounds (sa sb : session_net) (ps : list packet) (a b : gbn_end wire)
  : option (list packet * gbn_end wire * gbn_end wire) :=
  match ps with
  | [] => Some ([], a, b)
  | p :: ps =>
      '(q, a, b) ← round sa sb p a b;
      '(qs, a, b) ← rounds sa sb ps a b;
      Some (q :: qs, a, b)
  end.

(** Both ends after [n] packets. *)
Record after_n (n : Z) (a b : gbn_end wire) : Prop := AfterN {
  n_cur : seqnum_cur (ge_ses a) = n;
  n_last : seqnum_last (ge_ses a) = n - n mod 100;
  n_expect : seqnum_expect (ge_ses b) = n + 1;
  n_empty : outbox (ge_net a) = [] /\ inbox (ge_net a) = [] /\ outbox (ge_net b) = [] /\ inbox (ge_net b) = [];
}.

(** Taking the acknowledgement of packet [n], and finding nothing more. *)
Lemma receive_ack ses a r n :
  inbox (ge_net a) = [r] -> hdr_type (gbn r) = GBN_PKT_ACK -> hdr_seqnum (gbn r) = n ->
  0 <= seqnum_last (ge_ses a) <= n -> n < 2 ^ 31 ->
  exists a', gbn_receive_one_nb 2 ses a = Some (0, None, a') /\
    seqnum_cur (ge_ses a') = seqnum_cur (ge_ses a) /\ seqnum_last (ge_ses a') = n /\
    outbox (ge_net a') = outbox (ge_net a) /\ inbox (ge_net a') = [].
Proof.
  intros Hi Ht Hs Hl Hn. unfold gbn_receive_one_nb.
  cbn [__gbn_receive_one raw_net_receive_zerocopy wire_ops]. rewrite Hi. unfold to_gbn_header at 1. rewrite Ht.
  eexists. split; [reflexivity|]. cbn [ge_ses ge_net with_net with_ses handle_ack_packet inc_stat outbox inbox].
  destruct (dequeue_fields (to_gbn_header r) (ge_ses a)) as (-> & _ & -> & _); unfold to_gbn_header; try lia.
  rewrite Hs. repeat split; auto. lia.
Qed.

Lemma receive_nothing ses (a : gbn_end wire) : inbox (ge_net a) = [] ->
  exists a', gbn_receive_one_nb 2 ses a = Some (0, None, a') /\ ge_ses a' = ge_ses a /\ ge_net a' = ge_net a.
Proof.
  intros Hi. unfold gbn_receive_one_nb. cbn [__gbn_receive_one raw_net_receive_zerocopy wire_ops]. rewrite Hi.
  eexists. split; [reflexivity|]. easy.
Qed.

Lemma receive_expected ses (b : gbn_end wire) q :
  test_management_session ses = false -> is_data q -> inbox (ge_net b) = [q] ->
  seq_of q = seqnum_expect (ge_ses b) -> 1 <= seqnum_expect (ge_ses b) < 2 ^ 31 - 1 ->
  exists b', gbn_receive_one 1 ses b = Some (ACK_PKT_SIZE, Some q, b') /\
    seqnum_expect (ge_ses b') = seqnum_expect (ge_ses b) + 1 /\ inbox (ge_net b') = [] /\
    if seq_of q mod 100 =? 0
    then exists r, outbox (ge_net b') = r :: outbox (ge_net b) /\ hdr_type (gbn r) = GBN_PKT_ACK /\ hdr_seqnum (gbn r) = seq_of q
    else outbox (ge_net b') = outbox (ge_net b).
Proof.
  intros Hm Hd Hi Hs He. unfold gbn_receive_one.
  cbn [__gbn_receive_one raw_net_receive_zerocopy wire_ops]. rewrite Hi. unfold is_data in Hd. rewrite Hd.
  eexists. split; [reflexivity|].
  set (b1 := inc_stat _ _). unfold seq_of, to_gbn_header in *.
  destruct (handle_data_spec ses b1 q Hm) as (H1 & _ & _ & _ & H2 & H3); [exact He|lia|].
  unfold reply_to in H3. cbn [b1 inc_stat with_net ge_ses ge_net outbox inbox] in *. rewrite Hs, Z.eqb_refl in *.
  split; [exact H1|]. split; [exact H2|]. destruct (_ mod 100 =? 0); [|exact H3].
  destruct H3 as (r & Hr & ? & ? & _). eauto.
Qed.

Lemma round_spec sa sb p a b n :
  test_management_session sa = false -> test_management_session sb = false ->
  after_n n a b -> 0 <= n < 2 ^ 31 - 3 ->
  exists q a' b', round sa sb p a b = Some (q, a', b') /\ after_n (n + 1) a' b' /\
    payload q = payload p /\ seq_of q = n + 1.
Proof.
  intros Ha Hb [Hc Hl He (Hoa & Hia & Hob & Hib)] Hn. unfold round, gbn_send_one.
  pose proof (prepare_send_spec sa p 100 None a Ha ltac:(lia) ltac:(easy)) as Hp.
  destruct (prepare_send sa p 100 None a) as [q a1]. destruct Hp as (Hd & Hq & Hn1 & Hs1 & Hpl).
  cbn [raw_net_send wire_ops transfer with_net ge_net outbox inbox nulls].
  rewrite Hn1, Hoa, Hia, Hib, Hob. cbn [rev app].
  match goal with |- context [gbn_receive_one 1 sb ?b0] =>
    destruct (receive_expected sb b0 q Hb Hd eq_refl) as (b1 & -> & He1 & Hi1 & Hr1); [cbn; lia|cbn; lia|] end.
  cbn [mbind option_bind].
  cbn [with_net ge_ses ge_net outbox] in *. rewrite Hq, Hc in *.
  match goal with |- context [gbn_receive_one_nb 2 sa ?x] => set (a2 := x) end.
  assert (Hstep : exists a3, gbn_receive_one_nb 2 sa a2 = Some (0, None, a3) /\ seqnum_cur (ge_ses a3) = n + 1 /\
    seqnum_last (ge_ses a3) = n + 1 - (n + 1) mod 100 /\ outbox (ge_net a3) = [] /\ inbox (ge_net a3) = []).
  { assert (Hc2 : seqnum_cur (ge_ses a2) = n + 1) by (unfold a2; cbn; rewrite Hs1; cbn; lia).
    assert (Hl2 : seqnum_last (ge_ses a2) = n - n mod 100) by (unfold a2; cbn; rewrite Hs1; cbn; lia).
    destruct (Z.eqb_spec ((n + 1) mod 100) 0) as [Hz|Hz].
    - destruct Hr1 as (r & Hob1 & Ht & Hsr). cbn in Hob1.
      destruct (receive_ack sa a2 r (n + 1)) as (a3 & -> & H1 & H2 & H3 & H4); auto.
      + unfold a2; cbn. now rewrite Hob1.
      + rewrite Hl2. Z.to_euclidean_division_equations; lia.
      + lia.
      + exists a3. rewrite H1, H2, H3, H4. repeat split; auto. lia.
    - destruct (receive_nothing sa a2) as (a3 & -> & H1 & H2); [unfold a2; cbn; now rewrite Hr1|].
      exists a3. rewrite H1, H2, Hc2, Hl2. repeat split; [Z.to_euclidean_division_equations; lia|].
      unfold a2; cbn. now rewrite Hr1. }
  destruct Hstep as (a3 & -> & H1 & H2 & H3 & H4). cbn.
  do 3 eexists. split; [reflexivity|]. split; [|split; [easy|lia]].
  split; auto. cbn. rewrite He1, He. lia.
Qed.

Lemma rounds_spec sa sb ps a b n :
  test_management_session sa = false -> test_management_session sb = false ->
  after_n n a b -> 0 <= n -> n + Z.of_nat (length ps) < 2 ^ 31 - 2 ->
  exists qs a' b', rounds sa sb ps a b = Some (qs, a', b') /\ after_n (n + Z.of_nat (length ps)) a' b' /\
    payload <$> qs = payload <$> ps /\ seq_of <$> qs = seqZ (n + 1) (Z.of_nat (length ps)).
Proof.
  intros Ha Hb. revert a b n. induction ps as [|p ps IH]; intros a b n H0 Hn Hl.
  { exists [], a, b. cbn. rewrite Z.add_0_r. auto. }
  cbn [length] in *. destruct (round_spec sa sb p a b n) as (q & a1 & b1 & Hr & H1 & Hp & Hq); auto; [lia|].
  destruct (IH a1 b1 (n + 1)) as (qs & a2 & b2 & Hrs & H2 & Hps & Hqs); auto; [lia|lia|].
  exists (q :: qs), a2, b2. cbn [rounds]. rewrite Hr. cbn. rewrite Hrs. cbn. split; [reflexivity|].
  split; [|split; [now rewrite Hp, Hps|]].
  - now replace (n + Z.of_nat (S (length ps))) with (n + 1 + Z.of_nat (length ps)) by lia.
  - rewrite Hq, Hqs, (seqZ_cons (n + 1)) by lia. f_equal. f_equal; lia.
Qed.


