(* ===== verification/Fpga.v ===== *)
(** * The Go-Back-N stack of the board (board/fpga/net_reliable)

    The board's transport is a set of hardware modules written as C++ functions;
    one call of a function is one iteration of its pipeline.  Modules talk over
    streams, modelled as FIFO queues: [streams] gives the contents of every
    stream of the design (include/fpga/axis_net.h, axis_internal.h).  Static
    variables of a function are the fields of its state record.  A value of type
    [ap_uint<w>] is an integer of [0, 2^w), wrapped where it is assigned.  The
    probe counters are left out. *)

From stdpp Require Import functions.
From S2P Require Import Prelude Bitops Pgtable Gbn.

(** ** Words and packets *)

(** [x(hi, lo)] as a value, and assigned to. *)
Definition range (x hi lo : Z) : Z := Z.land (Z.shiftr x lo) (Z.ones (hi - lo + 1)).
Definition set_range (x hi lo v : Z) : Z :=
  Z.lor (Z.ldiff x (Z.shiftl (Z.ones (hi - lo + 1)) lo)) (Z.shiftl (v mod 2 ^ (hi - lo + 1)) lo).

Definition PKT_TYPE_WIDTH : Z := 8.
Definition SEQ_WIDTH : Z := 32.
Definition PKT_TYPE_OFFSET : Z := 0.
Definition SEQ_OFFSET : Z := PKT_TYPE_WIDTH.
Definition SES_ID_OFFSET : Z := SEQ_OFFSET + SEQ_WIDTH.
Definition SRC_SLOT_OFFSET : Z := SES_ID_OFFSET.
Definition DEST_SLOT_OFFSET : Z := SES_ID_OFFSET + SLOT_ID_WIDTH.
Definition WINDOW_SIZE_WIDTH : Z := 7.
Definition WINDOW_SIZE : Z := 2 ^ WINDOW_SIZE_WIDTH.
Definition WINDOW_IDX_MSK : Z := WINDOW_SIZE - 1.
Definition NR_BATCHED_PKT_PER_ACK_FPGA : Z := 99.
Definition MAX_PACKET_SIZE : Z := 1536.
Definition LEGOMEM_PORT : Z := 1234.
Definition _FPGA_MEMORY_MAP_NETCACHE_START : Z := 0.
Definition _FPGA_MEMORY_MAP_NETCACHE_END : Z := 0x20000000.
Definition BUFF_ADDRESS_START : Z := FPGA_MEMORY_MAP_MAPPING_BASE + _FPGA_MEMORY_MAP_NETCACHE_START.
Definition USEC_PER_SEC : Z := 1000000.
Definition RETRANS_TIMEOUT_US : Z := 100 * USEC_PER_SEC.
Definition FREQUENCY_MHZ : Z := 250.
Definition CYCLE_TIME_NS : Z := 1000 / FREQUENCY_MHZ.
Definition RETRANS_TIMEOUT_CYCLE : Z := DIV_ROUND_UP (RETRANS_TIMEOUT_US * 1000) CYCLE_TIME_NS.

(** The fields of the first word of a packet. *)
Definition pkt_type (x : Z) : Z := range x (PKT_TYPE_OFFSET + PKT_TYPE_WIDTH - 1) PKT_TYPE_OFFSET.
Definition pkt_seq (x : Z) : Z := range x (SEQ_OFFSET + SEQ_WIDTH - 1) SEQ_OFFSET.
Definition src_slot (x : Z) : Z := range x (SRC_SLOT_OFFSET + SLOT_ID_WIDTH - 1) SRC_SLOT_OFFSET.
Definition dest_slot (x : Z) : Z := range x (DEST_SLOT_OFFSET + SLOT_ID_WIDTH - 1) DEST_SLOT_OFFSET.
Definition set_pkt_type (x v : Z) : Z := set_range x (PKT_TYPE_OFFSET + PKT_TYPE_WIDTH - 1) PKT_TYPE_OFFSET v.
Definition set_pkt_seq (x v : Z) : Z := set_range x (SEQ_OFFSET + SEQ_WIDTH - 1) SEQ_OFFSET v.
Definition set_src_slot (x v : Z) : Z := set_range x (SRC_SLOT_OFFSET + SLOT_ID_WIDTH - 1) SRC_SLOT_OFFSET v.
Definition set_dest_slot (x v : Z) : Z := set_range x (DEST_SLOT_OFFSET + SLOT_ID_WIDTH - 1) DEST_SLOT_OFFSET v.

Record net_axis_64 := Axis { axis_data : Z; axis_last : Z; axis_keep : Z }.
Record udp_info := UdpInfo { src_ip : Z; dest_ip : Z; src_port : Z; dest_port : Z; udp_length : Z }.
Record query_req := QueryReq { gbn_word : Z; q_src_ip : Z; q_dest_ip : Z }.
Record route_info := RouteInfo { r_dest_ip : Z; r_length : Z }.
Record retrans_req := RetransReq { rt_slotid : Z; seq_start : Z; seq_end : Z }.
Inductive timer_rst_type := timer_rst_type_reset | timer_rst_type_stop.
Record timer_req := TimerReq { tm_slotid : Z; rst_type : timer_rst_type }.
Record conn_mgmt_req := ConnReq { cm_slotid : Z; set_type : Z }.
Definition DM_CMD_TYPE_INCR : Z := 1.
Record dm_cmd := DmCmd { btt : Z; dm_type : Z; dsa : Z; eof : Z; drr : Z; start_address : Z }.

(** ** Streams *)

Inductive chan :=
  | rx_header | rx_payload | usr_rx_header | usr_rx_payload
  | state_query_req | state_query_rsp | rsp_header | rsp_payload
  | gbn_retrans_req | timer_rst_req | rt_timeout_sig
  | tx_finish_sig | check_full_req | check_full_rsp | init_req | conn_set_req
  | usr_tx_header | usr_tx_payload | tx_header | tx_payload | tx_buff_payload | tx_buff_route_info
  | rt_header | rt_payload | dm_rd_cmd_1 | dm_rd_cmd_2 | dm_rd_data | dm_wr_cmd | dm_wr_data
  | out_header | out_payload.
#[export] Instance chan_eq : EqDecision chan.
Proof. solve_decision. Defined.

Definition elem (c : chan) : Type :=
  match c with
  | rx_header | usr_rx_header | rsp_header | usr_tx_header | tx_header | rt_header | out_header => udp_info
  | rx_payload | usr_rx_payload | rsp_payload | usr_tx_payload | tx_payload | tx_buff_payload
  | rt_payload | dm_rd_data | dm_wr_data | out_payload => net_axis_64
  | state_query_req => query_req
  | state_query_rsp | tx_finish_sig => bool
  | gbn_retrans_req => retrans_req
  | timer_rst_req => timer_req
  | rt_timeout_sig | check_full_req | check_full_rsp => Z
  | init_req | conn_set_req => conn_mgmt_req
  | tx_buff_route_info => route_info
  | dm_rd_cmd_1 | dm_rd_cmd_2 | dm_wr_cmd => dm_cmd
  end.

Definition streams : Type := forall c, list (elem c).
Definition set_stream (c : chan) (l : list (elem c)) (s : streams) : streams :=
  fun c' =>
    match decide (c = c') with
    | left e => eq_rect c (fun c => list (elem c)) l c' e
    | right _ => s c'
    end.
(** [write] and [read] of [hls::stream]. *)
Definition write (c : chan) (x : elem c) (s : streams) : streams := set_stream c (s c ++ [x]) s.
Definition read (c : chan) (s : streams) : option (elem c * streams) :=
  match s c with
  | [] => None
  | x :: l => Some (x, set_stream c l s)
  end.

(** ** The state table (state_table/statetable_64_top.cpp) *)

Inductive table_handle_rx_status := TAB_STATE_RECV_RX_REQ | TAB_STATE_HANDLE_DATA | TAB_STATE_HANDLE_ACK.
Inductive table_handle_tx_status := TAB_STATE_RECV_TX_REQ | TAB_STATE_REPL_TX_REQ | TAB_STATE_UPD_TX_INFO.

(** The static variables of the two state machines, and the per-session arrays. *)
Record rx_regs := RxRegs {
  handle_rx_state : table_handle_rx_status;
  gbn_query_req : query_req;
  rsp_udp_info : udp_info;
  rsp_pkt : net_axis_64;
  recv_seqnum : Z;
  rx_slot_id : Z;
  expt_seqnum : Z;
  ack_countdown : Z;
  rx_last_ackd_seqnum : Z;
  rx_last_sent_seqnum : Z;
}.
Record tx_regs := TxRegs {
  handle_tx_state : table_handle_tx_status;
  tx_slot_id : Z;
  tx_last_ackd_seqnum : Z;
  tx_last_sent_seqnum : Z;
}.
Record tables := Tables {
  ack_enable_bitmap : Z -> bool;
  expected_seqnum_array : Z -> Z;
  last_ackd_seqnum_array : Z -> Z;
  last_sent_seqnum_array : Z -> Z;
  ack_countdown_array : Z -> Z;
}.
Definition set_ack_enable_bit (t : tables) (i : Z) (b : bool) : tables :=
  Tables (<[i := b]> (ack_enable_bitmap t)) (expected_seqnum_array t) (last_ackd_seqnum_array t) (last_sent_seqnum_array t) (ack_countdown_array t).
Definition set_expected (t : tables) (i n : Z) : tables :=
  Tables (ack_enable_bitmap t) (<[i := wrap32 n]> (expected_seqnum_array t)) (last_ackd_seqnum_array t) (last_sent_seqnum_array t) (ack_countdown_array t).
Definition set_last_ackd (t : tables) (i n : Z) : tables :=
  Tables (ack_enable_bitmap t) (expected_seqnum_array t) (<[i := wrap32 n]> (last_ackd_seqnum_array t)) (last_sent_seqnum_array t) (ack_countdown_array t).
Definition set_last_sent (t : tables) (i n : Z) : tables :=
  Tables (ack_enable_bitmap t) (expected_seqnum_array t) (last_ackd_seqnum_array t) (<[i := wrap32 n]> (last_sent_seqnum_array t)) (ack_countdown_array t).
Definition set_countdown (t : tables) (i n : Z) : tables :=
  Tables (ack_enable_bitmap t) (expected_seqnum_array t) (last_ackd_seqnum_array t) (last_sent_seqnum_array t) (<[i := n mod 2 ^ 8]> (ack_countdown_array t)).

(** Case [TAB_STATE_RECV_RX_REQ] once a request was read. *)
Definition table_recv_rx (r : rx_regs) (t : tables) (q : query_req) (s : streams) : rx_regs * streams :=
  let h := gbn_word q in
  if range (q_dest_ip q) 7 0 =? 0xff then
    (RxRegs TAB_STATE_RECV_RX_REQ q (rsp_udp_info r) (rsp_pkt r) (recv_seqnum r) (rx_slot_id r) (expt_seqnum r)
       (ack_countdown r) (rx_last_ackd_seqnum r) (rx_last_sent_seqnum r),
     write state_query_rsp false s)
  else
    let slot := dest_slot h in
    let udp := UdpInfo 0 (q_src_ip q) LEGOMEM_PORT LEGOMEM_PORT 24 in
    let pkt := Axis (set_dest_slot (set_src_slot (axis_data (rsp_pkt r)) (dest_slot h)) (src_slot h)) 0 0xff in
    let regs st expt cd ackd sent := RxRegs st q udp pkt (pkt_seq h) slot expt cd ackd sent in
    let keep st := regs st (expt_seqnum r) (ack_countdown r) (rx_last_ackd_seqnum r) (rx_last_sent_seqnum r) in
    if (0 <? dest_slot h) && (0 <? src_slot h) then
      if pkt_type h =? GBN_PKT_DATA then
        (regs TAB_STATE_HANDLE_DATA (expected_seqnum_array t slot) (ack_countdown_array t slot)
           (rx_last_ackd_seqnum r) (rx_last_sent_seqnum r), s)
      else if (pkt_type h =? GBN_PKT_ACK) || (pkt_type h =? GBN_PKT_NACK) then
        (regs TAB_STATE_HANDLE_ACK (expt_seqnum r) (ack_countdown r)
           (last_ackd_seqnum_array t slot) (last_sent_seqnum_array t slot), s)
      else (keep TAB_STATE_RECV_RX_REQ, write state_query_rsp false s)
    else if pkt_type h =? GBN_PKT_DATA then (keep TAB_STATE_RECV_RX_REQ, write state_query_rsp true s)
    else (keep TAB_STATE_RECV_RX_REQ, write state_query_rsp false s).

Definition set_rx_state (r : rx_regs) (st : table_handle_rx_status) : rx_regs :=
  RxRegs st (gbn_query_req r) (rsp_udp_info r) (rsp_pkt r) (recv_seqnum r) (rx_slot_id r) (expt_seqnum r)
    (ack_countdown r) (rx_last_ackd_seqnum r) (rx_last_sent_seqnum r).
(** The type and number of the response packet. *)
Definition set_rsp (r : rx_regs) (type n : Z) : rx_regs :=
  RxRegs (handle_rx_state r) (gbn_query_req r) (rsp_udp_info r)
    (Axis (set_pkt_seq (set_pkt_type (axis_data (rsp_pkt r)) type) n) (axis_last (rsp_pkt r)) (axis_keep (rsp_pkt r)))
    (recv_seqnum r) (rx_slot_id r) (expt_seqnum r) (ack_countdown r) (rx_last_ackd_seqnum r) (rx_last_sent_seqnum r).
Definition send_rsp (r : rx_regs) (s : streams) : streams :=
  write rsp_payload (rsp_pkt r) (write rsp_header (rsp_udp_info r) s).

(** Case [TAB_STATE_HANDLE_DATA]. *)
Definition table_handle_data (r : rx_regs) (t : tables) (s : streams) : rx_regs * tables * streams :=
  let slot := rx_slot_id r in
  let '(r, t, s) :=
    if recv_seqnum r =? expt_seqnum r then
      let t := set_expected t slot (expt_seqnum r + 1) in
      let t := set_ack_enable_bit t slot true in
      let r := set_rsp r GBN_PKT_ACK (expt_seqnum r) in
      let s := write state_query_rsp true s in
      if ack_countdown r =? 0 then (r, set_countdown t slot NR_BATCHED_PKT_PER_ACK_FPGA, send_rsp r s)
      else (r, set_countdown t slot (ack_countdown r - 1), s)
    else if ack_enable_bitmap t slot then
      if expt_seqnum r <? recv_seqnum r then
        let t := set_ack_enable_bit t slot false in
        let r := set_rsp r GBN_PKT_NACK (expt_seqnum r - 1) in
        (r, t, send_rsp r (write state_query_rsp false s))
      else if recv_seqnum r <? expt_seqnum r then
        let r := set_rsp r GBN_PKT_ACK (expt_seqnum r - 1) in
        (r, t, send_rsp r (write state_query_rsp false s))
      else (r, t, write state_query_rsp false s)
    else (r, t, write state_query_rsp false s) in
  (set_rx_state r TAB_STATE_RECV_RX_REQ, t, s).

(** Case [TAB_STATE_HANDLE_ACK]. *)
Definition table_handle_ack (r : rx_regs) (t : tables) (s : streams) : rx_regs * tables * streams :=
  let slot := rx_slot_id r in
  let h := gbn_word (gbn_query_req r) in
  let s := write state_query_rsp false s in
  let retrans s := write gbn_retrans_req (RetransReq (dest_slot h) (wrap32 (recv_seqnum r + 1)) (rx_last_sent_seqnum r)) s in
  let '(t, s) :=
    if rx_last_ackd_seqnum r <? recv_seqnum r then
      let t := set_last_ackd t slot (recv_seqnum r) in
      if recv_seqnum r =? rx_last_sent_seqnum r then (t, write timer_rst_req (TimerReq (dest_slot h) timer_rst_type_stop) s)
      else if pkt_type h =? GBN_PKT_ACK then (t, write timer_rst_req (TimerReq (dest_slot h) timer_rst_type_reset) s)
      else (t, retrans s)
    else if (recv_seqnum r =? rx_last_ackd_seqnum r) && (pkt_type h =? GBN_PKT_NACK) then (t, retrans s)
    else (t, s) in
  (set_rx_state r TAB_STATE_RECV_RX_REQ, t, s).

Definition state_table_rx (r : rx_regs) (t : tables) (s : streams) : rx_regs * tables * streams :=
  match handle_rx_state r with
  | TAB_STATE_RECV_RX_REQ =>
      match read state_query_req s with
      | None => (r, t, s)
      | Some (q, s) => let '(r, s) := table_recv_rx r t q s in (r, t, s)
      end
  | TAB_STATE_HANDLE_DATA => table_handle_data r t s
  | TAB_STATE_HANDLE_ACK => table_handle_ack r t s
  end.

Definition state_table_tx (x : tx_regs) (t : tables) (s : streams) : tx_regs * tables * streams :=
  match handle_tx_state x with
  | TAB_STATE_RECV_TX_REQ =>
      match read check_full_req s with
      | None => (x, t, s)
      | Some (slot, s) => (TxRegs TAB_STATE_REPL_TX_REQ slot (tx_last_ackd_seqnum x) (last_sent_seqnum_array t slot), t, s)
      end
  | TAB_STATE_REPL_TX_REQ =>
      let slot := tx_slot_id x in
      let ackd := last_ackd_seqnum_array t slot in
      if tx_last_sent_seqnum x <? ackd + WINDOW_SIZE then
        let tx_ck_rsp := wrap32 (tx_last_sent_seqnum x + 1) in
        (TxRegs TAB_STATE_UPD_TX_INFO slot ackd (tx_last_sent_seqnum x), set_last_sent t slot tx_ck_rsp,
         write check_full_rsp tx_ck_rsp s)
      else (TxRegs TAB_STATE_REPL_TX_REQ slot ackd (tx_last_sent_seqnum x), t, s)
  | TAB_STATE_UPD_TX_INFO =>
      match read tx_finish_sig s with
      | None => (x, t, s)
      | Some (_, s) =>
          let s :=
            if tx_last_ackd_seqnum x =? tx_last_sent_seqnum x
            then write timer_rst_req (TimerReq (tx_slot_id x) timer_rst_type_reset) s else s in
          (TxRegs TAB_STATE_RECV_TX_REQ (tx_slot_id x) (tx_last_ackd_seqnum x) (tx_last_sent_seqnum x), t, s)
      end
  end.

(** A timeout: everything that is not acknowledged is requested again. *)
Definition state_table_timeout (t : tables) (s : streams) : streams :=
  match read rt_timeout_sig s with
  | None => s
  | Some (slot, s) =>
      write gbn_retrans_req (RetransReq slot (wrap32 (last_ackd_seqnum_array t slot + 1)) (last_sent_seqnum_array t slot)) s
  end.

(** Opening and closing a session. *)
Definition state_table_init (t : tables) (s : streams) : tables * streams :=
  match read init_req s with
  | None => (t, s)
  | Some (req, s) =>
      let slot := cm_slotid req in
      if set_type req =? GBN_SOC2FPGA_SET_TYPE_OPEN then
        let t := set_ack_enable_bit t slot true in
        let t := set_last_ackd t slot 0 in
        let t := set_last_sent t slot 0 in
        let t := set_expected t slot 1 in
        (set_countdown t slot 0, s)
      else (set_expected t slot 0, s)
  end.

Record table_state := TableState { st_rx : rx_regs; st_tx : tx_regs; st_tab : tables }.
Definition state_table_64 (st : table_state) (s : streams) : table_state * streams :=
  let '(r, t, s) := state_table_rx (st_rx st) (st_tab st) s in
  let '(x, t, s) := state_table_tx (st_tx st) t s in
  let s := state_table_timeout t s in
  let '(t, s) := state_table_init t s in
  (TableState r x t, s).

(** ** The receiver (hls_rx/rx_64_top.cpp) *)

Inductive udp_recv_status := RX_STATE_UDP_HEADER | RX_STATE_WAIT_RSP | RX_STATE_DELIVER_DATA.
Record rx_state := RxState { rx_st : udp_recv_status; recv_pkt : net_axis_64; recv_udp_info : udp_info; deliver_data : bool }.

Definition rx_64 (r : rx_state) (s : streams) : rx_state * streams :=
  match rx_st r with
  | RX_STATE_UDP_HEADER =>
      match s rx_header, s rx_payload with
      | [], _ | _, [] => (r, s)
      | u :: us, p :: ps =>
          let s := set_stream rx_payload ps (set_stream rx_header us s) in
          let s := write state_query_req (QueryReq (axis_data p) (src_ip u) (dest_ip u)) s in
          let u := UdpInfo (src_ip u) (dest_ip u) (src_slot (axis_data p)) (dest_slot (axis_data p)) ((udp_length u - 16) mod 2 ^ 16) in
          (RxState RX_STATE_WAIT_RSP p u (deliver_data r), s)
      end
  | RX_STATE_WAIT_RSP =>
      match read state_query_rsp s with
      | None => (r, s)
      | Some (b, s) =>
          if axis_last (recv_pkt r) =? 1 then (RxState RX_STATE_UDP_HEADER (recv_pkt r) (recv_udp_info r) b, s)
          else
            let s := if b then write usr_rx_header (recv_udp_info r) s else s in
            (RxState RX_STATE_DELIVER_DATA (recv_pkt r) (recv_udp_info r) b, s)
      end
  | RX_STATE_DELIVER_DATA =>
      match read rx_payload s with
      | None => (r, s)
      | Some (p, s) =>
          let s := if deliver_data r then write usr_rx_payload p s else s in
          if axis_last p =? 1 then (RxState RX_STATE_UDP_HEADER p (recv_udp_info r) false, s)
          else (RxState RX_STATE_DELIVER_DATA p (recv_udp_info r) (deliver_data r), s)
      end
  end.

(** ** The sender (hls_tx/tx_64_top.cpp) *)

Inductive udp_send_status := TX_STATE_UDP_HEADER | TX_STATE_GBN_HEADER | TX_STATE_PAYLOAD.
Record tx_state := TxState { tx_st : udp_send_status; send_udp_info : udp_info; tx_gbn_header : net_axis_64; if_buffer : bool }.

Definition tx_64 (x : tx_state) (s : streams) : tx_state * streams :=
  match tx_st x with
  | TX_STATE_UDP_HEADER =>
      match read usr_tx_header s with
      | None => (x, s)
      | Some (u, s) =>
          let h := axis_data (tx_gbn_header x) in
          let h := set_src_slot h (range (src_port u) (SLOT_ID_WIDTH - 1) 0) in
          let h := set_dest_slot h (range (dest_port u) (SLOT_ID_WIDTH - 1) 0) in
          let h := set_pkt_type h GBN_PKT_DATA in
          let len := (udp_length u + 16) mod 2 ^ 16 in
          let u' := UdpInfo (src_ip u) (dest_ip u) LEGOMEM_PORT LEGOMEM_PORT len in
          if (0 <? src_port u) && (0 <? dest_port u) then
            let slot_id := range (src_port u) (SLOT_ID_WIDTH - 1) 0 in
            (TxState TX_STATE_GBN_HEADER u' (Axis h (axis_last (tx_gbn_header x)) (axis_keep (tx_gbn_header x))) (if_buffer x),
             write check_full_req slot_id s)
          else
            let g := Axis (set_pkt_seq h 0) 0 0xff in
            (TxState TX_STATE_PAYLOAD u' g false, write tx_payload g (write tx_header u' s))
      end
  | TX_STATE_GBN_HEADER =>
      match read check_full_rsp s with
      | None => (x, s)
      | Some (tx_ck_rsp, s) =>
          let u := send_udp_info x in
          let g := Axis (set_pkt_seq (axis_data (tx_gbn_header x)) tx_ck_rsp) 0 0xff in
          let s := write tx_header u s in
          let s := write tx_buff_route_info (RouteInfo (dest_ip u) (udp_length u)) s in
          let s := write tx_payload g s in
          let s := write tx_buff_payload g s in
          (TxState TX_STATE_PAYLOAD u g true, s)
      end
  | TX_STATE_PAYLOAD =>
      match read usr_tx_payload s with
      | None => (x, s)
      | Some (p, s) =>
          let s := write tx_payload p s in
          let s := if if_buffer x then write tx_buff_payload p s else s in
          if axis_last p =? 1 then
            let s := if if_buffer x then write tx_finish_sig true s else s in
            (TxState TX_STATE_UDP_HEADER (send_udp_info x) (tx_gbn_header x) true, s)
          else (x, s)
      end
  end.

(** ** The buffer of unacknowledged packets (unacked_buffer/unacked_buffer_top.cpp) *)

Inductive buff_recv_status := BUF_STATE_RECV_INFO | BUF_STATE_WRITE_HEADER | BUF_STATE_RECV_PAYLOAD.
Inductive buff_retrans_status := BUF_STATE_RECV_REQ | BUF_STATE_READ_LEN | BUF_STATE_RETRANS_HEADER | BUF_STATE_RETRANS_PAYLOAD.
Record buff_state := BuffState {
  recv_state : buff_recv_status;
  dest_ip_array : Z -> Z;
  buff_packet : net_axis_64;
  retrans_state : buff_retrans_status;
  gbn_rt_req : retrans_req;
  rt_seq : Z;
  slot_base : Z;
  start_addr : Z;
}.

(** Where packet [window_idx] of session [slot_id] is kept. *)
Definition buff_address (slot_id window_idx : Z) : Z :=
  BUFF_ADDRESS_START + wrap32 ((Z.shiftl slot_id WINDOW_SIZE_WIDTH + window_idx) * MAX_PACKET_SIZE).

Definition buff_recv (b : buff_state) (s : streams) : buff_state * streams :=
  let upd st ips p := BuffState st ips p (retrans_state b) (gbn_rt_req b) (rt_seq b) (slot_base b) (start_addr b) in
  match recv_state b with
  | BUF_STATE_RECV_INFO =>
      match s tx_buff_payload, s tx_buff_route_info with
      | [], _ | _, [] => (b, s)
      | p :: ps, ri :: ris =>
          let s := set_stream tx_buff_route_info ris (set_stream tx_buff_payload ps s) in
          let buff_slot_id := src_slot (axis_data p) in
          let buff_window_idx := range (axis_data p) (SEQ_OFFSET + WINDOW_SIZE_WIDTH - 1) SEQ_OFFSET in
          let cmd := DmCmd ((r_length ri - 8 + 8) mod 2 ^ 23) DM_CMD_TYPE_INCR 0 1 0
            (buff_address buff_slot_id buff_window_idx mod 2 ^ 40) in
          let s := write dm_wr_data (Axis (r_length ri) 0 0xff) (write dm_wr_cmd cmd s) in
          (upd BUF_STATE_WRITE_HEADER (<[buff_slot_id := r_dest_ip ri]> (dest_ip_array b)) p, s)
      end
  | BUF_STATE_WRITE_HEADER => (upd BUF_STATE_RECV_PAYLOAD (dest_ip_array b) (buff_packet b), write dm_wr_data (buff_packet b) s)
  | BUF_STATE_RECV_PAYLOAD =>
      match read tx_buff_payload s with
      | None => (b, s)
      | Some (p, s) =>
          (upd (if axis_last p =? 1 then BUF_STATE_RECV_INFO else BUF_STATE_RECV_PAYLOAD) (dest_ip_array b) p,
           write dm_wr_data p s)
      end
  end.

(** Case [BUF_STATE_RETRANS_HEADER], which case [BUF_STATE_READ_LEN] falls
    through to. *)
Definition buff_retrans_header (b : buff_state) (s : streams) : buff_state * streams :=
  match read dm_rd_data s with
  | None => (b, s)
  | Some (rd_length, s) =>
      let len := range (axis_data rd_length) 15 0 in
      let cmd := DmCmd ((len - 8) mod 2 ^ 23) DM_CMD_TYPE_INCR 0 1 0 ((start_addr b + 8) mod 2 ^ 40) in
      let udp := UdpInfo 0 (dest_ip_array b (rt_slotid (gbn_rt_req b))) LEGOMEM_PORT LEGOMEM_PORT len in
      (BuffState (recv_state b) (dest_ip_array b) (buff_packet b) BUF_STATE_RETRANS_PAYLOAD (gbn_rt_req b) (rt_seq b) (slot_base b) (start_addr b),
       write rt_header udp (write dm_rd_cmd_2 cmd s))
  end.

Definition buff_retrans (b : buff_state) (s : streams) : buff_state * streams :=
  let upd st req n base addr := BuffState (recv_state b) (dest_ip_array b) (buff_packet b) st req n base addr in
  match retrans_state b with
  | BUF_STATE_RECV_REQ =>
      match read gbn_retrans_req s with
      | None => (b, s)
      | Some (req, s) =>
          if seq_end req <? seq_start req then (upd BUF_STATE_RECV_REQ req (rt_seq b) (slot_base b) (start_addr b), s)
          else
            let base := BUFF_ADDRESS_START + wrap32 (Z.shiftl (rt_slotid req) WINDOW_SIZE_WIDTH * MAX_PACKET_SIZE) in
            (upd BUF_STATE_READ_LEN req (seq_start req) base (start_addr b), s)
      end
  | BUF_STATE_READ_LEN =>
      let addr := slot_base b + wrap32 (Z.land (rt_seq b) WINDOW_IDX_MSK * MAX_PACKET_SIZE) in
      let s := write dm_rd_cmd_1 (DmCmd 8 DM_CMD_TYPE_INCR 0 1 0 (addr mod 2 ^ 40)) s in
      buff_retrans_header (upd BUF_STATE_RETRANS_HEADER (gbn_rt_req b) (rt_seq b) (slot_base b) addr) s
  | BUF_STATE_RETRANS_HEADER => buff_retrans_header b s
  | BUF_STATE_RETRANS_PAYLOAD =>
      match read dm_rd_data s with
      | None => (b, s)
      | Some (p, s) =>
          let s := write rt_payload p s in
          if axis_last p =? 1 then
            let n := wrap32 (rt_seq b + 1) in
            if seq_end (gbn_rt_req b) <? n then
              (upd BUF_STATE_RECV_REQ (gbn_rt_req b) n (slot_base b) (start_addr b),
               write timer_rst_req (TimerReq (rt_slotid (gbn_rt_req b)) timer_rst_type_reset) s)
            else (upd BUF_STATE_READ_LEN (gbn_rt_req b) n (slot_base b) (start_addr b), s)
          else (b, s)
      end
  end.

Definition unacked_buffer (b : buff_state) (s : streams) : buff_state * streams :=
  let '(b, s) := buff_recv b s in
  buff_retrans b s.

(** ** The timer (hls_timer/timer_top.cpp) *)

Record rt_timer_entry := TimerEntry { active : bool; time : Z }.
Record timer_state := TimerState { timeout_array : Z -> rt_timer_entry; scan_slot_id : Z }.
Definition timer_reload : Z := DIV_ROUND_UP RETRANS_TIMEOUT_CYCLE NR_MAX_SESSIONS_PER_NODE mod 2 ^ 31.

Definition retrans_timer (m : timer_state) (s : streams) : timer_state * streams :=
  match read timer_rst_req s with
  | Some (req, s) =>
      let slot := tm_slotid req in
      let e := timeout_array m slot in
      let e :=
        match rst_type req with
        | timer_rst_type_reset => TimerEntry true timer_reload
        | timer_rst_type_stop => TimerEntry false (time e)
        end in
      (TimerState (<[slot := e]> (timeout_array m)) (scan_slot_id m), s)
  | None =>
      let slot := (scan_slot_id m + 1) mod 2 ^ SLOT_ID_WIDTH in
      let e := timeout_array m slot in
      let '(e, s) :=
        if active e then
          if 0 <? time e then (TimerEntry true (time e - 1), s)
          else (TimerEntry false (time e), write rt_timeout_sig slot s)
        else (e, s) in
      (TimerState (<[slot := e]> (timeout_array m)) slot, s)
  end.

(** ** The gate to the SoC (setup_manager/setup_manager_top.cpp) *)

Definition setup_manager (s : streams) : streams :=
  match read conn_set_req s with
  | None => s
  | Some (req, s) =>
      if (set_type req =? GBN_SOC2FPGA_SET_TYPE_OPEN) || (set_type req =? GBN_SOC2FPGA_SET_TYPE_CLOSE) then
        write timer_rst_req (TimerReq (cm_slotid req) timer_rst_type_stop) (write init_req req s)
      else s
  end.

(** ** The arbiter of the output (tx_arbiter/arbiter_64_top.cpp) *)

Inductive udp_arbiter_status :=
  | udp_arbiter_arb | udp_arb_send_payload_rsp | udp_arb_send_payload_rsp_tail | udp_arb_send_payload_rt | udp_arb_send_payload_tx.

Definition arbiter_64 (st : udp_arbiter_status) (s : streams) : udp_arbiter_status * streams :=
  match st with
  | udp_arbiter_arb =>
      match read rsp_header s with
      | Some (u, s) => (udp_arb_send_payload_rsp, write out_header u s)
      | None =>
          match read rt_header s with
          | Some (u, s) => (udp_arb_send_payload_rt, write out_header u s)
          | None =>
              match read tx_header s with
              | Some (u, s) => (udp_arb_send_payload_tx, write out_header u s)
              | None => (st, s)
              end
          end
      end
  | udp_arb_send_payload_rsp =>
      match read rsp_payload s with
      | None => (st, s)
      | Some (p, s) => (udp_arb_send_payload_rsp_tail, write out_payload p s)
      end
  | udp_arb_send_payload_rsp_tail => (udp_arbiter_arb, write out_payload (Axis 0 1 0xff) s)
  | udp_arb_send_payload_rt =>
      match read rt_payload s with
      | None => (st, s)
      | Some (p, s) => (if axis_last p =? 1 then udp_arbiter_arb else st, write out_payload p s)
      end
  | udp_arb_send_payload_tx =>
      match read tx_payload s with
      | None => (st, s)
      | Some (p, s) => (if axis_last p =? 1 then udp_arbiter_arb else st, write out_payload p s)
      end
  end.

(** ** The broadcast filter (broadcast_filter/filter_64_top.cpp) *)

Inductive rx_status := FILTER_STATE_UDP_HEADER | FILTER_STATE_DELIVER_DATA.
Record filter_state := FilterState { filter_st : rx_status; filter_deliver : bool }.

Definition filter_64 (f : filter_state) (s : streams) : filter_state * streams :=
  match filter_st f with
  | FILTER_STATE_UDP_HEADER =>
      match s rx_header, s rx_payload with
      | [], _ | _, [] => (f, s)
      | u :: us, _ :: _ =>
          let s := set_stream rx_header us s in
          if range (dest_ip u) 7 0 =? 0xff then (FilterState FILTER_STATE_DELIVER_DATA false, s)
          else (FilterState FILTER_STATE_DELIVER_DATA true, write usr_rx_header u s)
      end
  | FILTER_STATE_DELIVER_DATA =>
      match read rx_payload s with
      | None => (f, s)
      | Some (p, s) =>
          let s := if filter_deliver f then write usr_rx_payload p s else s in
          if axis_last p =? 1 then (FilterState FILTER_STATE_UDP_HEADER false, s) else (f, s)
      end
  end.

(** ** The host's header as the board sees it

    [struct gbn_header] is packed: one byte, four bytes and three bytes make the
    first word of a packet.  [char] is signed. *)
Definition word_of_header (h : gbn_header) : Z :=
  hdr_type h mod 256 + hdr_seqnum h * 2 ^ 8 + hdr_session_id h * 2 ^ 40.
Definition header_of_word (w after : Z) : gbn_header :=
  GbnHeader ((w + 128) mod 256 - 128) (w / 2 ^ 8 mod 2 ^ 32) (w / 2 ^ 40 mod 2 ^ 24) after.
