(* ===== verification/FpgaProofs.v ===== *)
(** * Lemmas on the hardware modules of the board's transport

    Streams, the bit fields of the header word, the state table's invariants, and
    what whole packets do in the receiver, the sender, the buffer and the
    arbiter. *)

From stdpp Require Import functions.
From S2P Require Import Prelude Bitops Pgtable Gbn Fpga.

(** ** Streams *)

Lemma set_stream_eq c l s : set_stream c l s c = l.
Proof.
  unfold set_stream. destruct (decide (c = c)) as [e|]; [|easy].
  now rewrite (proof_irrel e eq_refl).
Qed.

Lemma set_stream_ne c c' l s : c <> c' -> set_stream c l s c' = s c'.
Proof. intros H. unfold set_stream. now destruct (decide (c = c')). Qed.

Lemma write_eq c x s : write c x s c = s c ++ [x].
Proof. apply set_stream_eq. Qed.

Lemma write_ne c c' x s : c <> c' -> write c x s c' = s c'.
Proof. apply set_stream_ne. Qed.

Lemma read_some c s x s' : read c s = Some (x, s') -> s c = x :: s' c /\ forall c', c <> c' -> s' c' = s c'.
Proof.
  unfold read. destruct (s c) as [|y l]; [discriminate|]. intros [= <- <-].
  rewrite set_stream_eq. split; [easy|]. intros c' Hc. now apply set_stream_ne.
Qed.

Lemma read_none c s : read c s = None <-> s c = [].
Proof. unfold read. destruct (s c); split; easy. Qed.

(** Computes the contents of a stream after writes and updates of others. *)
Ltac streams :=
  repeat first
    [ rewrite write_eq | rewrite write_ne by discriminate
    | rewrite set_stream_eq | rewrite set_stream_ne by discriminate ].
Ltac streams_in H :=
  repeat first
    [ rewrite write_eq in H | rewrite write_ne in H by discriminate
    | rewrite set_stream_eq in H | rewrite set_stream_ne in H by discriminate ].

(** ** Bit fields *)

Lemma range_spec x hi lo i : 0 <= lo -> lo <= hi -> 0 <= i ->
  Z.testbit (range x hi lo) i = (i <=? hi - lo) && Z.testbit x (i + lo).
Proof.
  intros Hl Hh Hi. unfold range. rewrite Z.land_spec, Z.shiftr_spec, Z.testbit_ones by lia.
  rewrite andb_comm. f_equal. case_bools; cbn; lia.
Qed.

Lemma range_bound x hi lo : 0 <= lo <= hi -> 0 <= range x hi lo < 2 ^ (hi - lo + 1).
Proof. intros H. unfold range. rewrite Z.land_ones by lia. apply Z.mod_pos_bound. lia. Qed.

Lemma set_range_spec x hi lo v i : 0 <= lo -> lo <= hi -> 0 <= i ->
  Z.testbit (set_range x hi lo v) i = if (lo <=? i) && (i <=? hi) then Z.testbit v (i - lo) else Z.testbit x i.
Proof.
  intros Hl Hh Hi. unfold set_range.
  rewrite Z.lor_spec, Z.ldiff_spec, !Z.shiftl_spec by lia.
  destruct (Z.leb_spec lo i); cbn [andb].
  - rewrite Z.testbit_ones by lia. destruct (Z.leb_spec i hi).
    + rewrite Z.mod_pow2_bits_low by lia. case_bools; try lia. cbn. now rewrite andb_false_r.
    + rewrite Z.mod_pow2_bits_high by lia. case_bools; try lia. cbn. now rewrite andb_true_r, orb_false_r.
  - rewrite !(Z.testbit_neg_r _ (i - lo)) by lia. cbn. now rewrite andb_true_r, orb_false_r.
Qed.

Lemma range_set_same x hi lo v : 0 <= lo <= hi -> range (set_range x hi lo v) hi lo = v mod 2 ^ (hi - lo + 1).
Proof.
  intros H. apply Z.bits_inj'. intros i Hi. rewrite range_spec, set_range_spec by lia.
  destruct (Z.leb_spec i (hi - lo)); cbn [andb].
  - rewrite Z.mod_pow2_bits_low by lia. case_bools; try lia. cbn. f_equal. lia.
  - now rewrite Z.mod_pow2_bits_high by lia.
Qed.

Lemma range_set_other x hi lo hi' lo' v : 0 <= lo <= hi -> 0 <= lo' <= hi' -> hi < lo' \/ hi' < lo ->
  range (set_range x hi lo v) hi' lo' = range x hi' lo'.
Proof.
  intros H H' Hd. apply Z.bits_inj'. intros i Hi. rewrite !range_spec, set_range_spec by lia.
  case_bools; try lia; cbn; try reflexivity; lia.
Qed.

(** The fields of the header word, as hints of the rewriting database [fields]. *)
Create Rewrite HintDb fields.

Lemma pkt_type_set_type x v : pkt_type (set_pkt_type x v) = v mod 256.
Proof. now apply range_set_same. Qed.
Lemma pkt_seq_set_seq x v : pkt_seq (set_pkt_seq x v) = wrap32 v.
Proof. now apply range_set_same. Qed.
Lemma src_slot_set_src x v : src_slot (set_src_slot x v) = v mod 1024.
Proof. now apply range_set_same. Qed.
Lemma dest_slot_set_dest x v : dest_slot (set_dest_slot x v) = v mod 1024.
Proof. now apply range_set_same. Qed.

Ltac other_field := intros; apply range_set_other; vm_compute; intuition congruence.
Lemma pkt_type_set_seq x v : pkt_type (set_pkt_seq x v) = pkt_type x.
Proof. other_field. Qed.
Lemma pkt_type_set_src x v : pkt_type (set_src_slot x v) = pkt_type x.
Proof. other_field. Qed.
Lemma pkt_type_set_dest x v : pkt_type (set_dest_slot x v) = pkt_type x.
Proof. other_field. Qed.
Lemma pkt_seq_set_type x v : pkt_seq (set_pkt_type x v) = pkt_seq x.
Proof. other_field. Qed.
Lemma pkt_seq_set_src x v : pkt_seq (set_src_slot x v) = pkt_seq x.
Proof. other_field. Qed.
Lemma pkt_seq_set_dest x v : pkt_seq (set_dest_slot x v) = pkt_seq x.
Proof. other_field. Qed.
Lemma src_slot_set_type x v : src_slot (set_pkt_type x v) = src_slot x.
Proof. other_field. Qed.
Lemma src_slot_set_seq x v : src_slot (set_pkt_seq x v) = src_slot x.
Proof. other_field. Qed.
Lemma src_slot_set_dest x v : src_slot (set_dest_slot x v) = src_slot x.
Proof. other_field. Qed.
Lemma dest_slot_set_type x v : dest_slot (set_pkt_type x v) = dest_slot x.
Proof. other_field. Qed.
Lemma dest_slot_set_seq x v : dest_slot (set_pkt_seq x v) = dest_slot x.
Proof. other_field. Qed.
Lemma dest_slot_set_src x v : dest_slot (set_src_slot x v) = dest_slot x.
Proof. other_field. Qed.
#[export] Hint Rewrite pkt_type_set_type pkt_seq_set_seq src_slot_set_src dest_slot_set_dest
  pkt_type_set_seq pkt_type_set_src pkt_type_set_dest pkt_seq_set_type pkt_seq_set_src pkt_seq_set_dest
  src_slot_set_type src_slot_set_seq src_slot_set_dest dest_slot_set_type dest_slot_set_seq dest_slot_set_src : fields.

Lemma src_slot_bound x : 0 <= src_slot x < 1024.
Proof. now apply range_bound. Qed.
Lemma dest_slot_bound x : 0 <= dest_slot x < 1024.
Proof. now apply range_bound. Qed.
Lemma pkt_seq_bound x : 0 <= pkt_seq x < 2 ^ 32.
Proof. now apply range_bound. Qed.

(** ** Whole packets *)

(** [n] iterations of a module. *)
Fixpoint run {S : Type} (f : S -> streams -> S * streams) (n : nat) (st : S) (s : streams) : S * streams :=
  match n with
  | O => (st, s)
  | Datatypes.S n' => let '(st, s) := f st s in run f n' st s
  end.

Lemma run_add {S} (f : S -> streams -> S * streams) n m st s :
  run f (n + m) st s = let '(st, s) := run f n st s in run f m st s.
Proof.
  revert st s. induction n as [|n IH]; intros st s; cbn [run Nat.add]; [easy|].
  destruct (f st s) as [st' s']. apply IH.
Qed.

(** The words of one packet: [last] marks the final one only. *)
Fixpoint is_packet (ws : list net_axis_64) : bool :=
  match ws with
  | [] => false
  | [w] => axis_last w =? 1
  | w :: ws' => negb (axis_last w =? 1) && is_packet ws'
  end.

(** Decides membership of a stream in a list of streams; [away Hc] shows that [c]
    is none of the listed ones. *)
Ltac chans := apply (bool_decide_unpack _); exact I.
Ltac away Hc := let E := fresh in intro E; rewrite <- E in Hc; apply Hc; chans.
Ltac streams_away Hc := repeat first [rewrite write_ne by away Hc | rewrite set_stream_ne by away Hc].

(** The streams agree outside of the set [cs]. *)
Definition same_but (cs : list chan) (s s' : streams) : Prop := forall c, c ∉ cs -> s' c = s c.
#[export] Instance same_but_preorder cs : PreOrder (same_but cs).
Proof. split; [easy|]. intros s1 s2 s3 H12 H23 c Hc. now rewrite H23, H12. Qed.

Lemma same_but_write cs c x s : c ∈ cs -> same_but cs s (write c x s).
Proof. intros Hc c' Hc'. rewrite write_ne; [easy|]. intros ->. contradiction. Qed.

Lemma same_but_read cs c x s s' : c ∈ cs -> read c s = Some (x, s') -> same_but cs s s'.
Proof.
  intros Hc Hr c' Hc'. destruct (read_some _ _ _ _ Hr) as [_ Ho]. apply Ho. intros ->. contradiction.
Qed.

Lemma same_but_set cs c l s : c ∈ cs -> same_but cs s (set_stream c l s).
Proof. intros Hc c' Hc'. apply set_stream_ne. intros ->. contradiction. Qed.

(** A module that takes a word from [view] per iteration, and appends it to [out]
    if [keep], until the word marked last. *)
Section Copy.
Context {S : Type} (f : S -> streams -> S * streams) (busy done : S -> Prop)
  (view out : streams -> list net_axis_64) (keep : bool) (cs : list chan).

Definition copies_word : Prop := forall st s p l, busy st -> view s = p :: l ->
  let '(st', s') := f st s in
  view s' = l /\ out s' = out s ++ (if keep then [p] else []) /\ same_but cs s s' /\ if axis_last p =? 1 then done st' else busy st'.

Lemma copies_packet ws : copies_word -> is_packet ws = true -> forall st s rest, busy st -> view s = ws ++ rest ->
  let '(st', s') := run f (length ws) st s in
  view s' = rest /\ out s' = out s ++ (if keep then ws else []) /\ same_but cs s s' /\ done st'.
Proof.
  intros Hf. induction ws as [|w ws IH]; [discriminate|]. intros Hp st s rest Hb Hv. cbn [length run].
  specialize (Hf st s w (ws ++ rest) Hb Hv). destruct (f st s) as [st1 s1]. destruct Hf as (Hv1 & Ho1 & Hs1 & Hd1).
  destruct ws as [|w' ws'].
  - cbn in Hp. rewrite Hp in Hd1. cbn. auto.
  - cbn [is_packet] in Hp. apply andb_true_iff in Hp as [Hl Hp]. apply negb_true_iff in Hl. rewrite Hl in Hd1.
    specialize (IH Hp st1 s1 rest Hd1 Hv1). destruct (run f _ st1 s1) as [st2 s2]. destruct IH as (H1 & H2 & H3 & H4).
    split; [easy|]. split; [rewrite H2, Ho1, <- app_assoc; now destruct keep|]. split; [etrans; eassumption|easy].
Qed.
End Copy.

Lemma rx_copies b :
  copies_word rx_64 (fun r => rx_st r = RX_STATE_DELIVER_DATA /\ deliver_data r = b) (fun r => rx_st r = RX_STATE_UDP_HEADER)
    (fun s => s rx_payload) (fun s => s usr_rx_payload) b [rx_payload; usr_rx_payload].
Proof.
  intros r s p l [Hr Hd] Hv. unfold rx_64, read. rewrite Hr, Hv, Hd. destruct b; destruct (axis_last p =? 1); streams.
  all: repeat split; rewrite ?app_nil_r; auto.
  all: repeat first [apply same_but_set; chans|etrans; [|apply same_but_write; chans]].
Qed.

Lemma arbiter_copies_rt :
  copies_word arbiter_64 (eq udp_arb_send_payload_rt) (eq udp_arbiter_arb)
    (fun s => s rt_payload) (fun s => s out_payload) true [rt_payload; out_payload].
Proof.
  intros r s p l <- Hv. unfold arbiter_64, read. rewrite Hv. streams.
  repeat split; [etrans; [|apply same_but_write; chans]; apply same_but_set; chans|].
  now destruct (axis_last p =? 1).
Qed.

Lemma arbiter_copies_tx :
  copies_word arbiter_64 (eq udp_arb_send_payload_tx) (eq udp_arbiter_arb)
    (fun s => s tx_payload) (fun s => s out_payload) true [tx_payload; out_payload].
Proof.
  intros r s p l <- Hv. unfold arbiter_64, read. rewrite Hv. streams.
  repeat split; [etrans; [|apply same_but_write; chans]; apply same_but_set; chans|].
  now destruct (axis_last p =? 1).
Qed.

(** ** Retransmission *)

(** What stays in the buffer's state while a request is served. *)
Definition same_request (b b' : buff_state) : Prop :=
  dest_ip_array b' = dest_ip_array b /\ gbn_rt_req b' = gbn_rt_req b /\ slot_base b' = slot_base b.
#[export] Instance same_request_preorder : PreOrder same_request.
Proof. split; [easy|]. intros b1 b2 b3 (? & ? & ?) (? & ? & ?). repeat split; congruence. Qed.

(** The state after packet [n - 1] of the request. *)
Definition at_packet (n : Z) (b : buff_state) : Prop :=
  if seq_end (gbn_rt_req b) <? n then retrans_state b = BUF_STATE_RECV_REQ
  else retrans_state b = BUF_STATE_READ_LEN /\ rt_seq b = n.

Definition timer_if (b : buff_state) (n : Z) : list timer_req :=
  if seq_end (gbn_rt_req b) <? n then [TimerReq (rt_slotid (gbn_rt_req b)) timer_rst_type_reset] else [].

Lemma retrans_payload ws : is_packet ws = true -> forall b (s : streams) rest,
  retrans_state b = BUF_STATE_RETRANS_PAYLOAD -> s dm_rd_data = ws ++ rest ->
  let n := wrap32 (rt_seq b + 1) in
  let '(b', s') := run buff_retrans (length ws) b s in
  same_request b b' /\ at_packet n b' /\ s' dm_rd_data = rest /\ s' rt_payload = s rt_payload ++ ws /\
  s' timer_rst_req = s timer_rst_req ++ timer_if b n /\ same_but [dm_rd_data; rt_payload; timer_rst_req] s s'.
Proof.
  intros Hp b s rest Hb Hv. cbn zeta. unfold at_packet, timer_if. revert s Hv.
  induction ws as [|w ws IH]; [discriminate|]. intros s Hv. cbn [length run].
  unfold buff_retrans at 1, read. rewrite Hb, Hv. cbn [app]. destruct ws as [|w' ws'].
  - cbn [is_packet] in Hp. rewrite Hp. destruct (Z.ltb_spec (seq_end (gbn_rt_req b)) (wrap32 (rt_seq b + 1))) as [Hl|Hl].
    all: cbn [run length gbn_rt_req retrans_state rt_seq]; streams; rewrite ?app_nil_r.
    1: rewrite (proj2 (Z.ltb_lt _ _) Hl). 2: rewrite (proj2 (Z.ltb_ge _ _) Hl).
    all: repeat split; intros c Hc; now streams_away Hc.
  - cbn [is_packet] in Hp. apply andb_true_iff in Hp as [Hl Hp]. apply negb_true_iff in Hl. rewrite Hl.
    set (s1 := write rt_payload w _). specialize (IH Hp s1). destruct (run _ _ b s1) as [b2 s2].
    destruct IH as (H1 & H2 & H3 & H4 & H5 & H6); [unfold s1; now streams|].
    split; [easy|]. split; [easy|]. split; [easy|]. rewrite H4, H5. unfold s1. streams. rewrite <- app_assoc.
    repeat split. etrans; [|exact H6]. intros c Hc. unfold s1. now streams_away Hc.
Qed.

(** One stored packet: the word with its length, and its words. *)
Definition packet_address (b : buff_state) (n : Z) : Z := slot_base b + wrap32 (Z.land n WINDOW_IDX_MSK * MAX_PACKET_SIZE).
Definition retrans_udp (b : buff_state) (len : net_axis_64) : udp_info :=
  UdpInfo 0 (dest_ip_array b (rt_slotid (gbn_rt_req b))) LEGOMEM_PORT LEGOMEM_PORT (range (axis_data len) 15 0).

Definition retrans_chans : list chan :=
  [dm_rd_data; rt_payload; timer_rst_req; dm_rd_cmd_1; dm_rd_cmd_2; rt_header].

Lemma retrans_one len ws : is_packet ws = true -> forall b (s : streams) rest,
  retrans_state b = BUF_STATE_READ_LEN -> s dm_rd_data = len :: ws ++ rest ->
  let n := wrap32 (rt_seq b + 1) in
  let '(b', s') := run buff_retrans (1 + length ws) b s in
  same_request b b' /\ at_packet n b' /\ s' dm_rd_data = rest /\ s' rt_payload = s rt_payload ++ ws /\
  s' rt_header = s rt_header ++ [retrans_udp b len] /\
  start_address <$> s' dm_rd_cmd_1 = (start_address <$> s dm_rd_cmd_1) ++ [packet_address b (rt_seq b) mod 2 ^ 40] /\
  s' timer_rst_req = s timer_rst_req ++ timer_if b n /\ same_but retrans_chans s s'.
Proof.
  intros Hp b s rest Hb Hv. cbn zeta. cbn [run Nat.add]. unfold buff_retrans at 1. rewrite Hb.
  unfold buff_retrans_header, read. streams. rewrite Hv.
  match goal with |- context [run buff_retrans _ ?b1 ?s1] =>
    pose proof (retrans_payload ws Hp b1 s1 rest eq_refl) as Hl; set (b1' := b1) in *; set (s1' := s1) in * end.
  destruct (run _ _ b1' s1') as [b2 s2]. destruct Hl as (H1 & H2 & H3 & H4 & H5 & H6); [unfold s1'; now streams|].
  assert (Ho : forall c, c ∉ [dm_rd_data; rt_payload; timer_rst_req] -> s2 c = s1' c) by exact H6.
  rewrite H3, H4, H5, (Ho rt_header), (Ho dm_rd_cmd_1) by chans. unfold s1'. streams. rewrite fmap_app.
  repeat split; try apply H1; try exact H2.
  etrans; [|intros c Hc; apply Ho; contradict Hc; unfold retrans_chans; rewrite !elem_of_cons in *; tauto].
  intros c Hc. unfold s1'. now streams_away Hc.
Qed.

(** The packets of a request from number [rt_seq b] on: one length word each, and
    their words. *)
Definition stored (pkts : list (net_axis_64 * list net_axis_64)) : list net_axis_64 :=
  pkts ≫= fun '(len, ws) => len :: ws.

Lemma retrans_all pkts : Forall (fun p => is_packet p.2 = true) pkts -> pkts <> [] -> forall b (s : streams) rest,
  retrans_state b = BUF_STATE_READ_LEN -> s dm_rd_data = stored pkts ++ rest ->
  0 <= rt_seq b -> seq_end (gbn_rt_req b) = rt_seq b + Z.of_nat (length pkts) - 1 -> seq_end (gbn_rt_req b) < 2 ^ 32 - 1 ->
  let '(b', s') := run buff_retrans (length (stored pkts)) b s in
  same_request b b' /\ retrans_state b' = BUF_STATE_RECV_REQ /\ s' dm_rd_data = rest /\
  s' rt_payload = s rt_payload ++ (pkts ≫= snd) /\ s' rt_header = s rt_header ++ (retrans_udp b ∘ fst <$> pkts) /\
  start_address <$> s' dm_rd_cmd_1 = (start_address <$> s dm_rd_cmd_1) ++
    ((fun n => packet_address b n mod 2 ^ 40) <$> seqZ (rt_seq b) (Z.of_nat (length pkts))) /\
  s' timer_rst_req = s timer_rst_req ++ [TimerReq (rt_slotid (gbn_rt_req b)) timer_rst_type_reset] /\
  same_but retrans_chans s s'.
Proof.
  induction pkts as [|[len ws] pkts IH]; [easy|]. intros Hp _ b s rest Hb Hv H0 He Hlt.
  apply Forall_cons in Hp as [Hw Hp]. cbn [length] in He.
  change (stored ((len, ws) :: pkts)) with (len :: ws ++ stored pkts) in *.
  replace (length (len :: ws ++ stored pkts)) with ((1 + length ws) + length (stored pkts))%nat by (cbn; rewrite length_app; lia).
  rewrite run_add. pose proof (retrans_one len ws Hw b s (stored pkts ++ rest) Hb) as H1. cbn zeta in H1.
  destruct (run buff_retrans (1 + length ws) b s) as [b1 s1].
  destruct H1 as ((Hi & Hr & Hsb) & Ha & Hd & Hpl & Hh & Hc & Ht & Hs); [rewrite Hv; cbn; now rewrite <- app_assoc|].
  unfold at_packet in Ha. unfold timer_if in Ht. rewrite Hr in Ha. rewrite wrap32_small in Ha, Ht by lia.
  cbn [length]. rewrite seqZ_cons by lia. cbn [fmap list_fmap mbind list_bind].
  destruct (decide (pkts = [])) as [->|Hne].
  - cbn [length] in He. rewrite (proj2 (Z.ltb_lt _ _)) in Ha, Ht by lia. cbn [run length stored mbind list_bind].
    replace (Z.pred (Z.of_nat 1)) with 0 by lia. cbn. rewrite app_nil_r. repeat split; auto.
  - assert (0 < length pkts)%nat by (destruct pkts; [easy|cbn; lia]).
    rewrite (proj2 (Z.ltb_ge _ _)) in Ha, Ht by lia. destruct Ha as [Ha Hn].
    specialize (IH Hp Hne b1 s1 rest Ha Hd). rewrite Hn, Hr in IH.
    destruct (run buff_retrans _ b1 s1) as [b2 s2].
    destruct IH as (Hq & ? & ? & Hpl2 & Hh2 & Hc2 & Ht2 & Hs2); [lia..|].
    assert (Hu : retrans_udp b1 = retrans_udp b) by (unfold retrans_udp; now rewrite Hi, Hr).
    assert (Had : packet_address b1 = packet_address b) by (unfold packet_address; now rewrite Hsb).
    rewrite Hpl2, Hh2, Hc2, Ht2, Hpl, Hh, Hc, Ht, Hu, Had, app_nil_r, <- !app_assoc.
    replace (Z.pred (Z.of_nat (S (length pkts)))) with (Z.of_nat (length pkts)) by lia.
    split; [etrans; [|exact Hq]; repeat split; auto|]. repeat split; auto. etrans; eassumption.
Qed.

(** The addresses the buffer uses when it stores and when it reads back agree. *)
Lemma buff_address_eq slot n : 0 <= slot < 1024 ->
  buff_address slot (n mod WINDOW_SIZE) = BUFF_ADDRESS_START + (slot * WINDOW_SIZE + n mod WINDOW_SIZE) * MAX_PACKET_SIZE.
Proof.
  intros Hs. unfold buff_address. rewrite Z.shiftl_mul_pow2 by easy. change (2 ^ WINDOW_SIZE_WIDTH) with WINDOW_SIZE.
  pose proof (Z.mod_pos_bound n WINDOW_SIZE ltac:(easy)). rewrite wrap32_small; [easy|].
  unfold WINDOW_SIZE, WINDOW_SIZE_WIDTH, MAX_PACKET_SIZE in *. change (2 ^ 7) with 128 in *. change (2 ^ 32) with 4294967296. lia.
Qed.

Lemma packet_address_eq b slot n : 0 <= slot < 1024 ->
  slot_base b = BUFF_ADDRESS_START + wrap32 (Z.shiftl slot WINDOW_SIZE_WIDTH * MAX_PACKET_SIZE) ->
  packet_address b n = buff_address slot (n mod WINDOW_SIZE).
Proof.
  intros Hs Hb. rewrite buff_address_eq by easy. unfold packet_address. rewrite Hb.
  rewrite Z.shiftl_mul_pow2 by easy. change (2 ^ WINDOW_SIZE_WIDTH) with WINDOW_SIZE.
  change WINDOW_IDX_MSK with (Z.ones 7). rewrite Z.land_ones by lia. change (2 ^ 7) with WINDOW_SIZE.
  pose proof (Z.mod_pos_bound n WINDOW_SIZE ltac:(easy)).
  unfold WINDOW_SIZE, WINDOW_SIZE_WIDTH, MAX_PACKET_SIZE in *. change (2 ^ 7) with 128 in *.
  rewrite !wrap32_small by (change (2 ^ 32) with 4294967296; lia). lia.
Qed.

(** ** The timer *)

(** The number of scans before the timer of session [i] runs out. *)
Definition timer_left (i : Z) (m : timer_state) : Z :=
  (i - scan_slot_id m - 1) mod 1024 + 1024 * time (timeout_array m i).

Definition fired (i : Z) (s : streams) : list Z := filter (fun x => x = i) (s rt_timeout_sig).

(** A request only touches its session. *)
Lemma timer_request m (s : streams) req l : s timer_rst_req = req :: l ->
  retrans_timer m s =
    (TimerState
       (<[tm_slotid req :=
          match rst_type req with
          | timer_rst_type_reset => TimerEntry true timer_reload
          | timer_rst_type_stop => TimerEntry false (time (timeout_array m (tm_slotid req)))
          end]> (timeout_array m)) (scan_slot_id m), set_stream timer_rst_req l s).
Proof. intros H. unfold retrans_timer, read. now rewrite H. Qed.

(** A scan only touches the session it visits. *)
Lemma timer_scan m (s : streams) : s timer_rst_req = [] ->
  let j := (scan_slot_id m + 1) mod 1024 in
  exists e s', retrans_timer m s = (TimerState (<[j := e]> (timeout_array m)) j, s') /\
    s' timer_rst_req = [] /\ forall i, j <> i -> fired i s' = fired i s.
Proof.
  intros He j. unfold retrans_timer. rewrite (proj2 (read_none _ _) He). change (2 ^ SLOT_ID_WIDTH) with 1024. fold j.
  destruct (active (timeout_array m j)); [destruct (0 <? time (timeout_array m j))|].
  all: eexists _, _; (split; [reflexivity|]); streams; (split; [exact He|]); intros i Hi; try reflexivity.
  unfold fired. streams. now rewrite filter_app, filter_cons_False, app_nil_r by auto.
Qed.

Lemma timer_step i m (s : streams) : 0 <= i < 1024 -> 0 <= scan_slot_id m < 1024 -> 0 <= time (timeout_array m i) ->
  s timer_rst_req = [] ->
  let '(m', s') := retrans_timer m s in
  let a := active (timeout_array m i) in
  0 <= scan_slot_id m' < 1024 /\ 0 <= time (timeout_array m' i) /\ s' timer_rst_req = [] /\
  active (timeout_array m' i) = a && (0 <? timer_left i m) /\
  (a = true -> 0 < timer_left i m -> timer_left i m' = timer_left i m - 1) /\
  fired i s' = fired i s ++ (if a && (timer_left i m =? 0) then [i] else []).
Proof.
  intros Hi Hsc Ht He. unfold timer_left. set (j := (scan_slot_id m + 1) mod 1024).
  assert (Hj : 0 <= j < 1024) by (unfold j; apply Z.mod_pos_bound; lia).
  assert (Hd : (i - scan_slot_id m - 1) mod 1024 = (i - j) mod 1024).
  { unfold j. rewrite Zminus_mod_idemp_r. f_equal. lia. }
  rewrite Hd. destruct (decide (j = i)) as [Hji|Hji].
  - unfold retrans_timer. rewrite (proj2 (read_none _ _) He). change (2 ^ SLOT_ID_WIDTH) with 1024. fold j.
    rewrite Hji in *. rewrite Z.sub_diag, Z.mod_0_l, Z.add_0_l by lia. unfold fired.
    destruct (active (timeout_array m i)) eqn:Ha; cbn [andb].
    + destruct (Z.ltb_spec 0 (time (timeout_array m i))) as [Hp|Hp]; cbn [timeout_array scan_slot_id]; rewrite fn_lookup_insert; cbn [time active].
      * rewrite (proj2 (Z.ltb_lt _ _)), (proj2 (Z.eqb_neq _ _)), app_nil_r by lia.
        replace ((i - i - 1) mod 1024) with 1023 by (rewrite Z.sub_diag; reflexivity). repeat split; auto; lia.
      * rewrite (proj2 (Z.ltb_ge _ _)), (proj2 (Z.eqb_eq _ _)) by lia. streams. rewrite filter_app, filter_cons_True by easy.
        repeat split; auto; lia.
    + cbn [timeout_array scan_slot_id]. rewrite fn_lookup_insert, Ha, app_nil_r. repeat split; auto; easy.
  - destruct (timer_scan m s He) as (e & s' & -> & Hq & Hf). fold j. rewrite (Hf i Hji).
    cbn [timeout_array scan_slot_id]. rewrite fn_lookup_insert_ne by auto.
    assert (Hn : 0 < (i - j) mod 1024) by (Z.to_euclidean_division_equations; lia).
    assert (Hm : (i - j - 1) mod 1024 = (i - j) mod 1024 - 1) by (Z.to_euclidean_division_equations; lia).
    rewrite (proj2 (Z.ltb_lt _ _)), (proj2 (Z.eqb_neq _ _)), andb_false_r, andb_true_r, app_nil_r by lia.
    repeat split; auto; lia.
Qed.

Lemma timer_run n : forall i m (s : streams), 0 <= i < 1024 -> 0 <= scan_slot_id m < 1024 -> 0 <= time (timeout_array m i) ->
  s timer_rst_req = [] ->
  let '(m', s') := run retrans_timer n m s in
  let a := active (timeout_array m i) in
  active (timeout_array m' i) = a && (Z.of_nat n <=? timer_left i m) /\
  fired i s' = fired i s ++ (if a && (timer_left i m <? Z.of_nat n) then [i] else []).
Proof.
  induction n as [|n IH]; intros i m s Hi Hsc Ht He; cbn [run].
  - assert (0 <= timer_left i m) by (unfold timer_left; Z.to_euclidean_division_equations; lia).
    rewrite (proj2 (Z.leb_le _ _)), (proj2 (Z.ltb_ge _ _)), andb_false_r, andb_true_r, app_nil_r by lia. easy.
  - assert (0 <= timer_left i m) by (unfold timer_left; Z.to_euclidean_division_equations; lia).
    pose proof (timer_step i m s Hi Hsc Ht He) as Hs. destruct (retrans_timer m s) as [m1 s1].
    destruct Hs as (Hsc1 & Ht1 & He1 & Ha1 & Hl1 & Hf1). specialize (IH i m1 s1 Hi Hsc1 Ht1 He1).
    destruct (run retrans_timer n m1 s1) as [m2 s2]. destruct IH as [IHa IHf].
    rewrite IHa, IHf, Ha1, Hf1, <- app_assoc. destruct (active (timeout_array m i)); cbn [andb]; [|easy].
    destruct (Z.eq_dec (timer_left i m) 0) as [Hz|Hz].
    + rewrite Hz. cbn. rewrite (proj2 (Z.leb_gt _ _)), (proj2 (Z.ltb_lt _ _)) by lia. easy.
    + rewrite Hl1 by (auto; lia). rewrite (proj2 (Z.ltb_lt 0 _)), (proj2 (Z.eqb_neq _ 0)) by lia. cbn [andb app].
      split; [apply eq_bool_prop_intro; rewrite !Is_true_true, !Z.leb_le; lia|].
      do 2 f_equal. case_bools; try lia; easy.
Qed.
