(* ===== verification/HostBoard.v ===== *)
(** * A host and a board

    The Go-Back-N session of a host ([Gbn]) against one session of the board's
    state table ([Fpga]), over a network that loses, duplicates and reorders.  The
    board serves other sessions at the same time.  The board's half of the
    invariant is [board_inv], with respect to what the host has sent and accepted;
    the host's half is [rx_inv] of [GbnProofs]. *)

From stdpp Require Import functions.
From S2P Require Import Prelude Bitops Pgtable Gbn GbnProofs Fpga FpgaProofs.

(** ** Headers on the wire *)

Lemma range_div x hi lo : 0 <= lo <= hi -> range x hi lo = x / 2 ^ lo mod 2 ^ (hi - lo + 1).
Proof. intros H. unfold range. now rewrite Z.land_ones, Z.shiftr_div_pow2 by lia. Qed.

Lemma pkt_type_div x : pkt_type x = x mod 256.
Proof. unfold pkt_type. rewrite range_div by (vm_compute; intuition congruence). now rewrite Z.div_1_r. Qed.
Lemma pkt_seq_div x : pkt_seq x = x / 256 mod 4294967296.
Proof. exact (range_div x 39 8 ltac:(lia)). Qed.
Lemma src_slot_div x : src_slot x = x / 1099511627776 mod 1024.
Proof. exact (range_div x 49 40 ltac:(lia)). Qed.
Lemma dest_slot_div x : dest_slot x = x / 1125899906842624 mod 1024.
Proof. exact (range_div x 59 50 ltac:(lia)). Qed.

Lemma word_of_header_eq h : word_of_header h = hdr_type h mod 256 + hdr_seqnum h * 256 + hdr_session_id h * 1099511627776.
Proof. reflexivity. Qed.

Lemma type_of_word h : pkt_type (word_of_header h) = hdr_type h mod 256.
Proof. rewrite pkt_type_div, word_of_header_eq. Z.to_euclidean_division_equations; lia. Qed.

Lemma seq_of_word h : 0 <= hdr_seqnum h < 2 ^ 32 -> pkt_seq (word_of_header h) = hdr_seqnum h.
Proof.
  intros H. rewrite pkt_seq_div, word_of_header_eq. change (2 ^ 32) with 4294967296 in H.
  Z.to_euclidean_division_equations; lia.
Qed.

Lemma sesid_word_eq h : sesid_word h = hdr_session_id h + after h * 16777216.
Proof. unfold sesid_word. now rewrite Z.shiftl_mul_pow2 by (vm_compute; congruence). Qed.

Lemma src_slot_of_word h : 0 <= hdr_seqnum h < 2 ^ 32 -> src_slot (word_of_header h) = get_gbn_src_session h.
Proof.
  intros H. rewrite src_of_word, src_slot_div, word_of_header_eq, sesid_word_eq. change (2 ^ 32) with 4294967296 in H.
  Z.to_euclidean_division_equations; lia.
Qed.

Lemma dest_slot_of_word h : 0 <= hdr_seqnum h < 2 ^ 32 -> dest_slot (word_of_header h) = get_gbn_dst_session h.
Proof.
  intros H. rewrite dst_of_word, dest_slot_div, word_of_header_eq, sesid_word_eq. change (2 ^ 32) with 4294967296 in H.
  Z.to_euclidean_division_equations; lia.
Qed.

Lemma header_word_roundtrip h : -128 <= hdr_type h < 128 -> 0 <= hdr_seqnum h < 2 ^ 32 -> 0 <= hdr_session_id h < 2 ^ 24 ->
  header_of_word (word_of_header h) (after h) = h.
Proof.
  destruct h as [t n i a]. unfold header_of_word, word_of_header. cbn [hdr_type hdr_seqnum hdr_session_id after].
  intros Ht Hn Hi. change (2 ^ 32) with 4294967296 in *. change (2 ^ 24) with 16777216 in *.
  change (2 ^ 8) with 256. change (2 ^ 40) with 1099511627776. f_equal; Z.to_euclidean_division_equations; lia.
Qed.

(** ** The board's half *)

Section Board.
(** The session of the board that talks to the host. *)
Context (k : Z).

(** What the board's machines and tables satisfy when the host has sent data
    packets up to number [C] and accepted packets up to number [E]. *)
Record board_inv (C E : Z) (r : rx_regs) (x : tx_regs) (t : tables) (s : streams) : Prop := BoardInv {
  bi_bound : C < 2 ^ 31 - 1;
  bi_ackd : 0 <= last_ackd_seqnum_array t k <= E;
  bi_sent : E <= last_sent_seqnum_array t k < 2 ^ 31 - 1;
  bi_window : last_sent_seqnum_array t k <= last_ackd_seqnum_array t k + WINDOW_SIZE;
  bi_expected : 1 <= expected_seqnum_array t k <= C + 1;
  bi_queries : forall q, q ∈ s state_query_req -> dest_slot (gbn_word q) = k ->
    (pkt_type (gbn_word q) = GBN_PKT_DATA -> 1 <= pkt_seq (gbn_word q) <= C) /\
    (pkt_type (gbn_word q) = GBN_PKT_ACK \/ pkt_type (gbn_word q) = GBN_PKT_NACK -> 0 <= pkt_seq (gbn_word q) <= E);
  bi_init : forall q, q ∈ s init_req -> cm_slotid q <> k;
  bi_rx :
    match handle_rx_state r with
    | TAB_STATE_RECV_RX_REQ => True
    | TAB_STATE_HANDLE_DATA =>
        src_slot (axis_data (rsp_pkt r)) = rx_slot_id r /\
        (rx_slot_id r = k -> 1 <= recv_seqnum r <= C /\ expt_seqnum r = expected_seqnum_array t k)
    | TAB_STATE_HANDLE_ACK =>
        rx_slot_id r = k -> 0 <= recv_seqnum r <= E /\ rx_last_ackd_seqnum r = last_ackd_seqnum_array t k
    end;
  bi_tx : handle_tx_state x = TAB_STATE_REPL_TX_REQ -> tx_slot_id x = k -> tx_last_sent_seqnum x = last_sent_seqnum_array t k;
}.

(** The response word [w] acknowledges at most number [n]. *)
Definition reply_ok (n : Z) (w : Z) : Prop :=
  (pkt_type w = GBN_PKT_ACK \/ pkt_type w = GBN_PKT_NACK) /\ 0 <= pkt_seq w <= n.

(** Did this iteration accept a packet of the session? *)
Definition accepts (r : rx_regs) : bool :=
  match handle_rx_state r with
  | TAB_STATE_HANDLE_DATA => (rx_slot_id r =? k) && (recv_seqnum r =? expt_seqnum r)
  | _ => false
  end.

(** The streams [s'] are [s] with responses [ws] written; verdicts aside, nothing
    else the invariant or the session can see has changed. *)
Record rx_out (r : rx_regs) (t t' : tables) (s s' : streams) : Prop := RxOut {
  ro_replies : exists ws, s' rsp_payload = s rsp_payload ++ ws /\
    forall w, w ∈ ws -> src_slot (axis_data w) = k -> reply_ok (expected_seqnum_array t' k - 1) (axis_data w);
  ro_expected : expected_seqnum_array t' k =
    if accepts r then expected_seqnum_array t k + 1 else expected_seqnum_array t k;
  ro_accepted : accepts r = true -> recv_seqnum r = expected_seqnum_array t k;
  ro_verdict : handle_rx_state r = TAB_STATE_HANDLE_DATA ->
    s' state_query_rsp = s state_query_rsp ++ [recv_seqnum r =? expt_seqnum r];
  ro_sent : last_sent_seqnum_array t' k = last_sent_seqnum_array t k;
  ro_ackd : last_ackd_seqnum_array t k <= last_ackd_seqnum_array t' k;
}.

Lemma rx_out_refl r t s s' : handle_rx_state r <> TAB_STATE_HANDLE_DATA -> s' rsp_payload = s rsp_payload -> rx_out r t t s s'.
Proof.
  intros Ha Hs. assert (Hacc : accepts r = false) by (unfold accepts; now destruct (handle_rx_state r)).
  split; rewrite ?Hacc; try easy.
  exists []. rewrite app_nil_r. split; [easy|]. intros w Hw. now apply not_elem_of_nil in Hw.
Qed.

(** ** Receiving a query *)

Lemma table_recv_streams r t q s : forall c, state_query_rsp <> c -> (table_recv_rx r t q s).2 c = s c.
Proof.
  intros c Hc. unfold table_recv_rx.
  repeat match goal with |- context [if ?b then _ else _] => destruct b end; cbn [snd];
    now rewrite ?(write_ne state_query_rsp c) by exact Hc.
Qed.

(** The state a query leads to. *)
Lemma table_recv_regs r t q s :
  let r' := (table_recv_rx r t q s).1 in
  match handle_rx_state r' with
  | TAB_STATE_RECV_RX_REQ => True
  | TAB_STATE_HANDLE_DATA =>
      src_slot (axis_data (rsp_pkt r')) = rx_slot_id r' /\ pkt_type (gbn_word q) = GBN_PKT_DATA /\
      rx_slot_id r' = dest_slot (gbn_word q) /\ recv_seqnum r' = pkt_seq (gbn_word q) /\
      expt_seqnum r' = expected_seqnum_array t (rx_slot_id r')
  | TAB_STATE_HANDLE_ACK =>
      (pkt_type (gbn_word q) = GBN_PKT_ACK \/ pkt_type (gbn_word q) = GBN_PKT_NACK) /\
      rx_slot_id r' = dest_slot (gbn_word q) /\ recv_seqnum r' = pkt_seq (gbn_word q) /\
      rx_last_ackd_seqnum r' = last_ackd_seqnum_array t (rx_slot_id r')
  end.
Proof.
  cbn zeta. unfold table_recv_rx.
  destruct (range _ _ _ =? _); [easy|]. destruct (_ && _).
  - destruct (Z.eqb_spec (pkt_type (gbn_word q)) GBN_PKT_DATA) as [Ht|_].
    + cbn [fst handle_rx_state rsp_pkt rx_slot_id recv_seqnum expt_seqnum axis_data]. autorewrite with fields.
      rewrite Z.mod_small by apply dest_slot_bound. easy.
    + destruct (_ || _) eqn:Ho; [|easy]. cbn [fst handle_rx_state rx_slot_id recv_seqnum rx_last_ackd_seqnum].
      apply orb_true_iff in Ho. rewrite !Z.eqb_eq in Ho. easy.
  - destruct (_ =? _); easy.
Qed.

Lemma board_recv C E r x t s q s1 :
  board_inv C E r x t s -> handle_rx_state r = TAB_STATE_RECV_RX_REQ -> read state_query_req s = Some (q, s1) ->
  board_inv C E (table_recv_rx r t q s1).1 x t (table_recv_rx r t q s1).2 /\ rx_out r t t s (table_recv_rx r t q s1).2.
Proof.
  intros Hi Hr Hq. destruct (read_some _ _ _ _ Hq) as [Hs Ho].
  pose proof (table_recv_streams r t q s1) as Hstr. pose proof (table_recv_regs r t q s1) as Hregs.
  destruct (table_recv_rx r t q s1) as [r' s']. cbn [fst snd] in *.
  split; [|apply rx_out_refl; [now rewrite Hr|]; now rewrite Hstr, Ho].
  destruct Hi as [Hb Ha Hse Hw He Hqu Hin Hrx Htx]. split; auto.
  - rewrite Hstr by easy. intros q' Hq'. apply Hqu. rewrite Hs. now right.
  - rewrite Hstr, Ho by easy. exact Hin.
  - assert (Hqq := Hqu q ltac:(rewrite Hs; left)). destruct (handle_rx_state r'); [easy| |].
    + destruct Hregs as (H1 & H2 & H3 & H4 & H5). split; [easy|]. intros Hk. rewrite H4, H5, Hk in *.
      split; [now apply Hqq|easy].
    + destruct Hregs as (H1 & H3 & H4 & H5). intros Hk. rewrite H4, H5, Hk in *. split; [now apply Hqq|easy].
Qed.

(** ** Handling a data packet *)

Lemma set_rsp_src r type n : src_slot (axis_data (rsp_pkt (set_rsp r type n))) = src_slot (axis_data (rsp_pkt r)).
Proof. cbn [set_rsp rsp_pkt axis_data]. now autorewrite with fields. Qed.

Lemma set_rsp_ok r type n m : type = GBN_PKT_ACK \/ type = GBN_PKT_NACK -> 0 <= n <= m -> n < 2 ^ 32 ->
  reply_ok m (axis_data (rsp_pkt (set_rsp r type n))).
Proof.
  intros Ht Hn Hm. unfold reply_ok. cbn [set_rsp rsp_pkt axis_data]. autorewrite with fields.
  rewrite wrap32_small by lia. split; [|easy]. destruct Ht as [-> | ->]; [now left|now right].
Qed.

Definition data_tables (r : rx_regs) (t : tables) : tables :=
  let slot := rx_slot_id r in
  if recv_seqnum r =? expt_seqnum r then
    let t := set_ack_enable_bit (set_expected t slot (expt_seqnum r + 1)) slot true in
    set_countdown t slot (if ack_countdown r =? 0 then NR_BATCHED_PKT_PER_ACK_FPGA else ack_countdown r - 1)
  else if ack_enable_bitmap t slot && (expt_seqnum r <? recv_seqnum r) then set_ack_enable_bit t slot false
  else t.

(** The response of [table_handle_data], if it sends one. *)
Definition data_reply (r : rx_regs) (t : tables) : option (Z * Z) :=
  if recv_seqnum r =? expt_seqnum r then
    if ack_countdown r =? 0 then Some (GBN_PKT_ACK, expt_seqnum r) else None
  else if ack_enable_bitmap t (rx_slot_id r) then
    if expt_seqnum r <? recv_seqnum r then Some (GBN_PKT_NACK, expt_seqnum r - 1) else Some (GBN_PKT_ACK, expt_seqnum r - 1)
  else None.

Lemma table_handle_data_spec r t s :
  let '(r', t', s') := table_handle_data r t s in
  handle_rx_state r' = TAB_STATE_RECV_RX_REQ /\ t' = data_tables r t /\
  s' state_query_rsp = s state_query_rsp ++ [recv_seqnum r =? expt_seqnum r] /\
  s' rsp_payload = s rsp_payload ++
    match data_reply r t with Some (ty, n) => [rsp_pkt (set_rsp r ty n)] | None => [] end /\
  s' rsp_header = s rsp_header ++ match data_reply r t with Some _ => [rsp_udp_info r] | None => [] end /\
  forall c, state_query_rsp <> c -> rsp_payload <> c -> rsp_header <> c -> s' c = s c.
Proof.
  unfold table_handle_data, data_tables, data_reply, send_rsp.
  destruct (Z.eqb_spec (recv_seqnum r) (expt_seqnum r)) as [He|Hne].
  - destruct (Z.eqb_spec (ack_countdown r) 0) as [Hc|Hc].
    all: cbn [set_rsp ack_countdown]; rewrite (proj2 (Z.eqb_eq _ _) Hc) || rewrite (proj2 (Z.eqb_neq _ _) Hc).
    all: cbn [set_rsp set_rx_state handle_rx_state rsp_udp_info]; streams; rewrite ?app_nil_r.
    all: repeat split; intros c H1 H2 H3; now rewrite ?write_ne.
  - destruct (ack_enable_bitmap t (rx_slot_id r)); cbn [andb].
    2: { cbn [set_rx_state handle_rx_state]. streams. rewrite !app_nil_r. repeat split. intros c H1 H2 H3; now rewrite ?write_ne. }
    destruct (Z.ltb_spec (expt_seqnum r) (recv_seqnum r)).
    2: destruct (Z.ltb_spec (recv_seqnum r) (expt_seqnum r)); [|lia].
    all: cbn [set_rsp set_rx_state handle_rx_state rsp_udp_info]; streams.
    all: repeat split; intros c H1 H2 H3; now rewrite ?write_ne.
Qed.

Lemma data_tables_arrays r t :
  last_ackd_seqnum_array (data_tables r t) = last_ackd_seqnum_array t /\
  last_sent_seqnum_array (data_tables r t) = last_sent_seqnum_array t /\
  expected_seqnum_array (data_tables r t) =
    if recv_seqnum r =? expt_seqnum r then <[rx_slot_id r := wrap32 (expt_seqnum r + 1)]> (expected_seqnum_array t)
    else expected_seqnum_array t.
Proof. unfold data_tables. destruct (_ =? _); [easy|]. destruct (_ && _); easy. Qed.

Lemma board_data C E r x t s : board_inv C E r x t s -> handle_rx_state r = TAB_STATE_HANDLE_DATA ->
  let '(r', t', s') := table_handle_data r t s in board_inv C E r' x t' s' /\ rx_out r t t' s s'.
Proof.
  intros Hi Hr. pose proof (table_handle_data_spec r t s) as Hsp.
  destruct (table_handle_data r t s) as [[r' t'] s']. destruct Hsp as (Hst & -> & Hv & Hp & _ & Ho).
  destruct (data_tables_arrays r t) as (Ha & Hs & He).
  destruct Hi as [Hb Hak Hse Hw Hex Hqu Hin Hrx Htx]. rewrite Hr in Hrx. destruct Hrx as [Hsrc Hk].
  assert (Hexp : expected_seqnum_array (data_tables r t) k =
    if accepts r then expected_seqnum_array t k + 1 else expected_seqnum_array t k).
  { rewrite He. unfold accepts. rewrite Hr. destruct (Z.eqb_spec (rx_slot_id r) k) as [Heq|Hne]; cbn [andb].
    - destruct (Hk Heq) as [Hrb Hxe]. destruct (Z.eqb_spec (recv_seqnum r) (expt_seqnum r)); [|easy].
      rewrite Heq, fn_lookup_insert, wrap32_small, Hxe; lia.
    - destruct (_ =? _); [|easy]. now rewrite fn_lookup_insert_ne. }
  assert (Hacc : accepts r = true -> recv_seqnum r = expected_seqnum_array t k /\ recv_seqnum r = expt_seqnum r).
  { unfold accepts. rewrite Hr. intros H'. apply andb_true_iff in H' as [H1 H2]. apply Z.eqb_eq in H1, H2.
    destruct (Hk H1). split; [congruence|easy]. }
  assert (Hup : expected_seqnum_array t k <= expected_seqnum_array (data_tables r t) k <= C + 1).
  { rewrite Hexp. destruct (accepts r) eqn:Hac; [|lia]. destruct (Hacc eq_refl) as [H1 H2].
    unfold accepts in Hac. rewrite Hr in Hac. apply andb_true_iff in Hac as [Hac _]. apply Z.eqb_eq in Hac.
    destruct (Hk Hac). lia. }
  split.
  - split; rewrite ?Ha, ?Hs; auto; try lia; try (rewrite Ho by easy; assumption). now rewrite Hst.
  - split; rewrite ?Ha, ?Hs; auto; try lia.
    2: { intros Hac. now destruct (Hacc Hac). }
    eexists. split; [exact Hp|]. intros w Hw' Hsw.
    destruct (data_reply r t) as [[ty n]|] eqn:Hd; [|now apply not_elem_of_nil in Hw'].
    apply list_elem_of_singleton in Hw' as ->. rewrite set_rsp_src, Hsrc in Hsw. destruct (Hk Hsw) as [Hrb Hxe].
    rewrite Hexp. unfold accepts. rewrite Hr, Hsw, Z.eqb_refl. cbn [andb].
    unfold data_reply in Hd. destruct (_ =? _) eqn:Heq.
    + destruct (_ =? 0); [|discriminate]. injection Hd as <- <-. apply set_rsp_ok; auto; lia.
    + destruct (ack_enable_bitmap _ _); [|discriminate].
      destruct (_ <? _); injection Hd as <- <-; apply set_rsp_ok; auto; lia.
Qed.

(** ** Handling an acknowledgement *)

Definition ack_tables (r : rx_regs) (t : tables) : tables :=
  if rx_last_ackd_seqnum r <? recv_seqnum r then set_last_ackd t (rx_slot_id r) (recv_seqnum r) else t.

Lemma table_handle_ack_spec r t s :
  let '(r', t', s') := table_handle_ack r t s in
  handle_rx_state r' = TAB_STATE_RECV_RX_REQ /\ t' = ack_tables r t /\
  s' state_query_rsp = s state_query_rsp ++ [false] /\
  forall c, state_query_rsp <> c -> timer_rst_req <> c -> gbn_retrans_req <> c -> s' c = s c.
Proof.
  unfold table_handle_ack, ack_tables.
  repeat match goal with |- context [if ?b then _ else _] => destruct b end.
  all: cbn [set_rx_state handle_rx_state]; streams; repeat split; intros c H1 H2 H3; now rewrite ?write_ne.
Qed.

Lemma board_ack C E r x t s : board_inv C E r x t s -> handle_rx_state r = TAB_STATE_HANDLE_ACK ->
  let '(r', t', s') := table_handle_ack r t s in board_inv C E r' x t' s' /\ rx_out r t t' s s'.
Proof.
  intros Hi Hr. pose proof (table_handle_ack_spec r t s) as Hsp.
  destruct (table_handle_ack r t s) as [[r' t'] s']. destruct Hsp as (Hst & -> & Hv & Ho).
  destruct Hi as [Hb Hak Hse Hw Hex Hqu Hin Hrx Htx]. rewrite Hr in Hrx.
  assert (Hacc : accepts r = false) by (unfold accepts; now rewrite Hr).
  assert (Ha : last_ackd_seqnum_array t k <= last_ackd_seqnum_array (ack_tables r t) k <= E).
  { unfold ack_tables. destruct (Z.ltb_spec (rx_last_ackd_seqnum r) (recv_seqnum r)); [|lia].
    cbn [set_last_ackd last_ackd_seqnum_array]. destruct (decide (rx_slot_id r = k)) as [Heq|Hne].
    - destruct (Hrx Heq) as [H1 H2]. rewrite Heq, fn_lookup_insert, wrap32_small; lia.
    - rewrite fn_lookup_insert_ne by easy. lia. }
  assert (Hsame : last_sent_seqnum_array (ack_tables r t) = last_sent_seqnum_array t /\
    expected_seqnum_array (ack_tables r t) = expected_seqnum_array t)
    by (unfold ack_tables; destruct (_ <? _); easy). destruct Hsame as [Hsn Hxp].
  split.
  - split; rewrite ?Hsn, ?Hxp; auto; try lia; try (rewrite Ho by easy; assumption). now rewrite Hst.
  - split; rewrite ?Hsn, ?Hxp, ?Hacc, ?Hr; auto; try easy; try lia.
    exists []. rewrite Ho, app_nil_r by easy. split; [easy|]. intros w Hw'. now apply not_elem_of_nil in Hw'.
Qed.

Lemma board_rx C E r x t s : board_inv C E r x t s ->
  let '(r', t', s') := state_table_rx r t s in board_inv C E r' x t' s' /\ rx_out r t t' s s'.
Proof.
  intros Hi. unfold state_table_rx. destruct (handle_rx_state r) eqn:Hr.
  - destruct (read state_query_req s) as [[q s1]|] eqn:Hq.
    + pose proof (board_recv C E r x t s q s1 Hi Hr Hq) as H. now destruct (table_recv_rx r t q s1).
    + split; [easy|]. apply rx_out_refl; [now rewrite Hr|easy].
  - now apply board_data.
  - now apply board_ack.
Qed.

(** ** Sending, timeouts and session control *)

(** An iteration of the other machines shows nothing to the session but a higher
    number sent. *)
Record quiet_step (t t' : tables) (s s' : streams) : Prop := QuietStep {
  qs_payload : s' rsp_payload = s rsp_payload;
  qs_verdicts : s' state_query_rsp = s state_query_rsp;
  qs_queries : s' state_query_req = s state_query_req;
  qs_init : s' init_req ⊆ s init_req;
  qs_expected : expected_seqnum_array t' k = expected_seqnum_array t k;
  qs_ackd : last_ackd_seqnum_array t' k = last_ackd_seqnum_array t k;
  qs_sent : last_sent_seqnum_array t k <= last_sent_seqnum_array t' k;
}.

Lemma board_tx C E r x t s : board_inv C E r x t s -> last_sent_seqnum_array t k < 2 ^ 31 - 2 ->
  let '(x', t', s') := state_table_tx x t s in board_inv C E r x' t' s' /\ quiet_step t t' s s'.
Proof.
  intros Hi Hmax. unfold state_table_tx. pose proof Hi as [Hb Hak Hse Hw Hex Hqu Hin Hrx Htx].
  destruct (handle_tx_state x) eqn:Hx.
  - destruct (read check_full_req s) as [[slot s1]|] eqn:Hq.
    2: { split; [exact Hi|]. split; easy. }
    destruct (read_some _ _ _ _ Hq) as [_ Ho]. split; [|split; rewrite ?Ho; easy].
    split; auto; try (rewrite Ho by easy; assumption). cbn. intros _ ->. easy.
  - destruct (Z.ltb_spec (tx_last_sent_seqnum x) (last_ackd_seqnum_array t (tx_slot_id x) + WINDOW_SIZE)) as [Hlt|Hge].
    2: { split; [|split; easy]. split; auto. }
    assert (Hs : last_sent_seqnum_array t k <= last_sent_seqnum_array
        (set_last_sent t (tx_slot_id x) (wrap32 (tx_last_sent_seqnum x + 1))) k < 2 ^ 31 - 1 /\
      last_sent_seqnum_array (set_last_sent t (tx_slot_id x) (wrap32 (tx_last_sent_seqnum x + 1))) k
        <= last_ackd_seqnum_array t k + WINDOW_SIZE).
    { cbn [set_last_sent last_sent_seqnum_array]. destruct (decide (tx_slot_id x = k)) as [Heq|Hne].
      - specialize (Htx eq_refl Heq). rewrite Heq in *. rewrite fn_lookup_insert, !wrap32_small; try lia.
        rewrite wrap32_small; lia.
      - rewrite fn_lookup_insert_ne by easy. lia. }
    split; [|split; streams; try easy; apply Hs].
    split; streams; auto; try easy; cbn [set_last_sent last_ackd_seqnum_array expected_seqnum_array]; try lia; apply Hs || auto.
  - destruct (read tx_finish_sig s) as [[b s1]|] eqn:Hq.
    2: { split; [exact Hi|]. split; easy. }
    destruct (read_some _ _ _ _ Hq) as [_ Ho].
    destruct (_ =? _); (split; [split|split]); streams; rewrite ?Ho by easy; auto; easy.
Qed.

Lemma board_timeout C E r x t s : board_inv C E r x t s ->
  board_inv C E r x t (state_table_timeout t s) /\ quiet_step t t s (state_table_timeout t s).
Proof.
  intros Hi. unfold state_table_timeout. destruct (read rt_timeout_sig s) as [[slot s1]|] eqn:Hq.
  2: { split; [exact Hi|]. split; easy. }
  destruct (read_some _ _ _ _ Hq) as [_ Ho]. pose proof Hi as [].
  split; [split|split]; streams; rewrite ?Ho by easy; auto; easy.
Qed.

Lemma board_init C E r x t s : board_inv C E r x t s ->
  let '(t', s') := state_table_init t s in board_inv C E r x t' s' /\ quiet_step t t' s s'.
Proof.
  intros Hi. unfold state_table_init. destruct (read init_req s) as [[q s1]|] eqn:Hq.
  2: { split; [exact Hi|]. split; easy. }
  destruct (read_some _ _ _ _ Hq) as [Hs Ho]. pose proof Hi as [Hb Hak Hse Hw Hex Hqu Hin Hrx Htx].
  assert (Hne : cm_slotid q <> k) by (apply Hin; rewrite Hs; left).
  assert (Hin' : s1 init_req ⊆ s init_req) by (rewrite Hs; intros y Hy; now right).
  destruct (_ =? _); (split; [split|split]); cbn [set_countdown set_expected set_last_sent set_last_ackd set_ack_enable_bit
    last_ackd_seqnum_array last_sent_seqnum_array expected_seqnum_array];
    rewrite ?fn_lookup_insert_ne by easy; rewrite ?Ho by easy; auto; easy.
Qed.
(** ** One iteration *)

Record board := Board { b_state : table_state; b_str : streams; b_replies : list Z; b_accepted : list Z }.

(** What was written to a stream in between. *)
Definition written (c : chan) (s s' : streams) : list (elem c) := drop (List.length (s c)) (s' c).

(** An iteration of the state table; the responses of the session and the
    numbers of the packets it let through are recorded. *)
Definition board_cycle (b : board) : board :=
  let r := st_rx (b_state b) in
  let '(st, s) := state_table_64 (b_state b) (b_str b) in
  Board st s
    (b_replies b ++ filter (fun w => src_slot w = k) (axis_data <$> written rsp_payload (b_str b) s))
    (b_accepted b ++
     match handle_rx_state r, written state_query_rsp (b_str b) s with
     | TAB_STATE_HANDLE_DATA, [true] => if rx_slot_id r =? k then [recv_seqnum r] else []
     | _, _ => []
     end).

Definition b_sent (b : board) : Z := last_sent_seqnum_array (st_tab (b_state b)) k.
Definition b_ackd (b : board) : Z := last_ackd_seqnum_array (st_tab (b_state b)) k.
Definition b_expected (b : board) : Z := expected_seqnum_array (st_tab (b_state b)) k.

Record board_ok (C E : Z) (b : board) : Prop := BoardOk {
  bo_inv : board_inv C E (st_rx (b_state b)) (st_tx (b_state b)) (st_tab (b_state b)) (b_str b);
  bo_replies : Forall (reply_ok (b_expected b - 1)) (b_replies b);
  bo_accepted : b_accepted b = seqZ 1 (b_expected b - 1);
}.

Lemma seqZ_one m : seqZ m 1 = [m].
Proof. rewrite seqZ_cons by lia. now rewrite seqZ_nil. Qed.

Lemma written_app c s s' l : s' c = s c ++ l -> written c s s' = l.
Proof. intros H. unfold written. now rewrite H, drop_app_length. Qed.

Lemma reply_ok_mono n m w : n <= m -> reply_ok n w -> reply_ok m w.
Proof. intros H [? ?]. split; [easy|lia]. Qed.

(** What an iteration writes, and how the session's numbers move. *)
Lemma cycle_spec C E st s :
  board_inv C E (st_rx st) (st_tx st) (st_tab st) s -> last_sent_seqnum_array (st_tab st) k < 2 ^ 31 - 2 ->
  let '(st', s') := state_table_64 st s in
  board_inv C E (st_rx st') (st_tx st') (st_tab st') s' /\
  last_sent_seqnum_array (st_tab st) k <= last_sent_seqnum_array (st_tab st') k /\
  expected_seqnum_array (st_tab st') k =
    (if accepts (st_rx st) then expected_seqnum_array (st_tab st) k + 1 else expected_seqnum_array (st_tab st) k) /\
  (accepts (st_rx st) = true -> recv_seqnum (st_rx st) = expected_seqnum_array (st_tab st) k) /\
  (handle_rx_state (st_rx st) = TAB_STATE_HANDLE_DATA ->
   written state_query_rsp s s' = [recv_seqnum (st_rx st) =? expt_seqnum (st_rx st)]) /\
  forall w, w ∈ written rsp_payload s s' -> src_slot (axis_data w) = k ->
    reply_ok (expected_seqnum_array (st_tab st') k - 1) (axis_data w).
Proof.
  intros Hi Hmax. unfold state_table_64. pose proof (board_rx C E _ _ _ _ Hi) as Hrx.
  destruct (state_table_rx _ _ s) as [[r1 t1] s1]. destruct Hrx as [Hi1 [Hw He1 Hacc Hv Hs1 _]].
  pose proof (board_tx C E _ _ _ _ Hi1 ltac:(lia)) as Htx.
  destruct (state_table_tx _ t1 s1) as [[x2 t2] s2]. destruct Htx as [Hi2 Q2].
  destruct (board_timeout C E _ _ _ _ Hi2) as [Hi3 Q3]. set (s3 := state_table_timeout t2 s2) in *.
  pose proof (board_init C E _ _ _ _ Hi3) as Hin. destruct (state_table_init t2 s3) as [t4 s4]. destruct Hin as [Hi4 Q4].
  destruct Hw as (ws & Hws & Hw). cbn [st_rx st_tx st_tab].
  assert (Hp : s4 rsp_payload = s rsp_payload ++ ws) by (rewrite (qs_payload _ _ _ _ Q4), (qs_payload _ _ _ _ Q3), (qs_payload _ _ _ _ Q2); easy).
  assert (Hx : expected_seqnum_array t4 k = expected_seqnum_array t1 k)
    by (rewrite (qs_expected _ _ _ _ Q4), (qs_expected _ _ _ _ Q2); easy).
  rewrite (written_app _ _ _ _ Hp), Hx.
  pose proof (qs_sent _ _ _ _ Q4). pose proof (qs_sent _ _ _ _ Q2).
  split; [exact Hi4|]. split; [lia|]. split; [exact He1|]. split; [exact Hacc|]. split; [|exact Hw].
  intros Hd. apply written_app.
  rewrite (qs_verdicts _ _ _ _ Q4), (qs_verdicts _ _ _ _ Q3), (qs_verdicts _ _ _ _ Q2). now apply Hv.
Qed.

Lemma board_cycle_ok C E b : board_ok C E b -> b_sent b < 2 ^ 31 - 2 ->
  board_ok C E (board_cycle b) /\ b_sent b <= b_sent (board_cycle b) /\ b_expected b <= b_expected (board_cycle b).
Proof.
  intros [Hi Hr Ha] Hmax. pose proof (cycle_spec C E _ _ Hi Hmax) as Hc. unfold board_cycle, b_sent, b_expected in *.
  destruct (state_table_64 _ _) as [st s]. destruct Hc as (Hi' & Hs & He & Hac & Hv & Hw). cbn [b_state b_str].
  assert (Hup : expected_seqnum_array (st_tab (b_state b)) k <= expected_seqnum_array (st_tab st) k)
    by (rewrite He; destruct (accepts _); lia).
  split; [|lia]. split; cbn [b_state b_str b_replies b_accepted]; [exact Hi'| |].
  - apply Forall_app. split.
    + eapply Forall_impl; [exact Hr|]. intros w. apply reply_ok_mono. unfold b_expected. cbn. lia.
    + apply Forall_forall. intros w Hw'. apply list_elem_of_filter in Hw' as [Hk Hw'].
      apply list_elem_of_fmap in Hw' as (p & -> & Hp). now apply Hw.
  - unfold b_expected; cbn [b_state]. rewrite Ha, He. unfold accepts in *.
    pose proof (bi_expected _ _ _ _ _ _ Hi) as Hb. clear Hw.
    destruct (handle_rx_state (st_rx (b_state b))); try now rewrite app_nil_r.
    rewrite Hv by easy. destruct (Z.eqb_spec (recv_seqnum (st_rx (b_state b))) (expt_seqnum (st_rx (b_state b)))) as [Heq|Hne].
    + rewrite andb_true_r in *. destruct (_ =? k); [|now rewrite app_nil_r].
      rewrite Hac by easy.
      replace (expected_seqnum_array (st_tab (b_state b)) k + 1 - 1) with (expected_seqnum_array (st_tab (b_state b)) k - 1 + 1) by lia.
      rewrite seqZ_app by lia. now rewrite seqZ_one, Z.add_comm, Z.sub_add.
    + rewrite andb_false_r. now rewrite app_nil_r.
Qed.

(** ** The system *)

Context {N : Type} `{raw_net_laws N} (ses : session_net).

(** What the network can hand to the host: data packets with the numbers the
    board has given out, first transmissions and retransmissions alike, and the
    board's responses. *)
Definition board_sends (b : board) (p : packet) : Prop :=
  (is_data p /\ 1 <= seq_of p <= b_sent b) \/
  (exists w, w ∈ b_replies b /\ to_gbn_header p = header_of_word w (after (to_gbn_header p))).

(** The board runs an iteration, or its surroundings act: packets of the host
    arrive in any order, any number of times or not at all, other sessions'
    packets and control requests come in, and output is taken away. *)
Inductive board_step (hs : list packet) : board -> board -> Prop :=
  | bstep_cycle b : b_sent b < 2 ^ 31 - 2 -> board_step hs b (board_cycle b)
  | bstep_env b s :
      (forall q, q ∈ s state_query_req -> q ∈ b_str b state_query_req \/ dest_slot (gbn_word q) <> k \/
         exists p, p ∈ hs /\ gbn_word q = word_of_header (to_gbn_header p)) ->
      (forall q, q ∈ s init_req -> cm_slotid q <> k) ->
      board_step hs b (Board (b_state b) s (b_replies b) (b_accepted b)).

Inductive hb_step : gbn_end N * board -> gbn_end N * board -> Prop :=
  | hstep e b e' : end_step ses (board_sends b) e e' -> hb_step (e, b) (e', b)
  | bstep e b b' : board_step (sent (ge_net e)) b b' -> hb_step (e, b) (e, b').

(** The session was opened at both ends: at the board by a request from the SoC,
    with no packet of the session on its way. *)
Definition board_opened (b : board) : Prop :=
  (exists t s s', read init_req s = Some (ConnReq k GBN_SOC2FPGA_SET_TYPE_OPEN, s') /\
    st_tab (b_state b) = (state_table_init t s).1) /\
  handle_rx_state (st_rx (b_state b)) = TAB_STATE_RECV_RX_REQ /\
  handle_tx_state (st_tx (b_state b)) = TAB_STATE_RECV_TX_REQ /\
  (forall q, q ∈ b_str b state_query_req -> dest_slot (gbn_word q) <> k) /\
  (forall q, q ∈ b_str b init_req -> cm_slotid q <> k) /\
  b_replies b = [] /\ b_accepted b = [].

Inductive hb_reachable : gbn_end N * board -> Prop :=
  | hb_start e b : opened ses e -> board_opened b -> hb_reachable (e, b)
  | hb_next x y : hb_reachable x -> hb_step x y -> hb_reachable y.

Definition hb_inv (e : gbn_end N) (b : board) : Prop :=
  rx_inv (b_sent b) (b_expected b - 1) e /\
  board_ok (seqnum_cur (ge_ses e)) (seqnum_expect (ge_ses e) - 1) b.

(** ** The invariant *)

Lemma header_of_reply w a n : reply_ok n w -> n < 2 ^ 32 ->
  (hdr_type (header_of_word w a) = GBN_PKT_ACK \/ hdr_type (header_of_word w a) = GBN_PKT_NACK) /\
  0 <= hdr_seqnum (header_of_word w a) <= n.
Proof.
  unfold reply_ok. rewrite pkt_type_div, pkt_seq_div. cbn [header_of_word hdr_type hdr_seqnum].
  unfold GBN_PKT_ACK, GBN_PKT_NACK. intros [Ht Hs] Hn. split; [|exact Hs].
  Z.to_euclidean_division_equations; lia.
Qed.

Lemma board_sends_ok C E b p : board_ok C E b -> board_sends b p ->
  (is_data p -> 1 <= seq_of p <= b_sent b) /\ (is_reply p -> 0 <= seq_of p <= b_expected b - 1).
Proof.
  intros Hb [[Hd Hs]|(w & Hw & Hh)].
  - split; [easy|]. unfold is_reply. rewrite Hd. intros [|]; discriminate.
  - pose proof (proj1 (Forall_forall _ _) (bo_replies _ _ _ Hb) w Hw) as Hr.
    pose proof (bi_expected _ _ _ _ _ _ (bo_inv _ _ _ Hb)). pose proof (bi_bound _ _ _ _ _ _ (bo_inv _ _ _ Hb)).
    destruct (header_of_reply w (after (to_gbn_header p)) _ Hr) as [Ht Hq]; [unfold b_expected; lia|].
    unfold is_data, seq_of. rewrite Hh. split; [|easy].
    intros Hd. cbn [hdr_type] in *. rewrite Hd in Ht. destruct Ht; discriminate.
Qed.

(** The board accepts more from a host that has sent and accepted more. *)
Lemma board_ok_mono C E C' E' b : C <= C' < 2 ^ 31 - 1 -> E <= E' <= b_sent b -> board_ok C E b -> board_ok C' E' b.
Proof.
  unfold b_sent. intros HC HE [[Hb Hak Hse Hw Hex Hqu Hin Hrx Htx] Hr Ha]. split; auto. split; auto; try lia.
  - intros q H1 H2. destruct (Hqu q H1 H2) as [Hd Hk]. split; intros H3; [specialize (Hd H3)|specialize (Hk H3)]; lia.
  - destruct (handle_rx_state _); auto.
    + destruct Hrx as [H1 H2]. split; [easy|]. intros H3. destruct (H2 H3). split; [lia|easy].
    + intros H3. destruct (Hrx H3). split; [lia|easy].
Qed.

Lemma hb_host_step e b e' : test_management_session ses = false -> end_step ses (board_sends b) e e' ->
  hb_inv e b -> hb_inv e' b.
Proof.
  intros Hm Hst [He Hb].
  destruct (keeps_end_step _ _ _ _ _ _ Hm (fun p Hp => board_sends_ok _ _ b p Hb Hp) Hst He) as [He' [Ge Gc _]].
  split; [exact He'|]. pose proof (counters _ (rx_end _ _ _ He')). destruct He'.
  eapply board_ok_mono; [| |exact Hb]; lia.
Qed.

(** A packet of the host as a query. *)
Lemma query_of_host C E e p w : rx_inv C E e -> p ∈ sent (ge_net e) -> w = word_of_header (to_gbn_header p) ->
  (pkt_type w = GBN_PKT_DATA -> 1 <= pkt_seq w <= seqnum_cur (ge_ses e)) /\
  (pkt_type w = GBN_PKT_ACK \/ pkt_type w = GBN_PKT_NACK -> 0 <= pkt_seq w <= seqnum_expect (ge_ses e) - 1).
Proof.
  intros [[_ Hcs Hk Hd _ Hr] HC _ _ Ha _] Hp ->.
  assert (Hs : 0 <= hdr_seqnum (to_gbn_header p) < 2 ^ 32).
  { destruct (Hk p Hp) as [H'|H']; [specialize (Hd p Hp H')|specialize (Hr p Hp H')]; unfold seq_of in *; lia. }
  rewrite type_of_word, seq_of_word by exact Hs. unfold is_data, is_reply, seq_of in *.
  assert (Ht : hdr_type (to_gbn_header p) mod 256 = hdr_type (to_gbn_header p)).
  { destruct (Hk p Hp) as [->|[-> | ->]]; reflexivity. }
  rewrite Ht. auto.
Qed.

Lemma hb_board_step e b b' : board_step (sent (ge_net e)) b b' -> hb_inv e b -> hb_inv e b'.
Proof.
  intros Hst [He Hb]. destruct Hst as [b Hmax|b s Hq Hin].
  - destruct (board_cycle_ok _ _ _ Hb Hmax) as (Hb' & Hs & Hx). split; [|exact Hb'].
    destruct Hb' as [[] _ _]. eapply rx_inv_mono; [| |exact He]; unfold b_sent, b_expected in *; lia.
  - split; [exact He|]. destruct Hb as [[Hb Hak Hse Hw Hex Hqu Hini Hrx Htx] Hr Ha]. split; auto. split; auto.
    cbn [b_str]. intros q H1 H2. destruct (Hq q H1) as [H3|[H3|(p & Hp & Hw')]]; [auto|easy|].
    now apply (query_of_host _ _ e p _ He Hp).
Qed.

Lemma hb_start_inv e b : opened ses e -> board_opened b -> hb_inv e b.
Proof.
  intros Ho ((t & s & s' & Hrd & Ht) & Hrx & Htx & Hq & Hin & Hr & Ha).
  destruct (opened_counters _ _ Ho) as (Hc & Hl & Hx & Hring). destruct Ho as (Hs & Hp & _).
  unfold state_table_init in Ht. rewrite Hrd in Ht. cbn [fst cm_slotid set_type] in Ht.
  assert (Htab : last_ackd_seqnum_array (st_tab (b_state b)) k = 0 /\ last_sent_seqnum_array (st_tab (b_state b)) k = 0 /\
    expected_seqnum_array (st_tab (b_state b)) k = 1).
  { rewrite Ht. cbn [Z.eqb GBN_SOC2FPGA_SET_TYPE_OPEN set_countdown set_expected set_last_sent set_last_ackd set_ack_enable_bit
      last_ackd_seqnum_array last_sent_seqnum_array expected_seqnum_array]. cbn. now rewrite !fn_lookup_insert. }
  destruct Htab as (H1 & H2 & H3). unfold hb_inv, b_sent, b_expected. rewrite H2, H3, Hc, Hx.
  assert (Hnil : forall p : packet, p ∈ [] -> False) by (intros p Hp'; now apply not_elem_of_nil in Hp').
  split.
  - split; rewrite ?Hc, ?Hl, ?Hx, ?Hp; try lia; [|intros p Hp'; now destruct (Hnil p)].
    split; rewrite ?Hc, ?Hl, ?Hx, ?Hs; auto; try lia; try (intros p Hp'; now destruct (Hnil p)). constructor.
  - split; [|now rewrite Hr|now rewrite Ha; unfold b_expected; rewrite H3].
    split; rewrite ?H1, ?H2, ?H3, ?Hrx, ?Htx; change WINDOW_SIZE with 128; try lia; [|exact Hin|discriminate].
    intros q Hq1 Hq2. now destruct (Hq q Hq1).
Qed.

Lemma hb_reachable_inv x : test_management_session ses = false -> hb_reachable x -> hb_inv x.1 x.2.
Proof.
  intros Hm. induction 1 as [e b Ho Hb|x y _ IH Hst]; [now apply hb_start_inv|].
  destruct Hst as [e b e' Hst|e b b' Hst]; cbn [fst snd] in *.
  - eapply hb_host_step; eauto.
  - eapply hb_board_step; eauto.
Qed.
End Board.
