(* ===== verification/FpgaSpec.v ===== *)
(** * Theorems on the board's transport

    A host and a board together: safety over a network that loses, duplicates and
    reorders, and in-order delivery by the board.  What whole packets do in the
    state table, the receiver, the buffer, the arbiter and the timer.  Two
    scenarios in which the state table misbehaves. *)

From stdpp Require Import functions.
From S2P Require Import Prelude Bitops Pgtable Gbn GbnProofs Fpga FpgaProofs HostBoard.

(** ** Host and board *)

(** C28: a host and a board that opened a session keep their windows consistent in
    both directions, whatever the network loses, duplicates or reorders and
    whatever other sessions do: each end takes for acknowledged only what the
    other has accepted, and accepts only what was sent; the board never has more
    than [WINDOW_SIZE] packets in flight; and the packets of the session that the
    board lets through are exactly those numbered 1, 2, 3, ... in this order. *)
Theorem host_board_safety {N : Type} `{raw_net_laws N} k ses (e : gbn_end N) b :
  test_management_session ses = false -> hb_reachable k ses (e, b) ->
  0 <= seqnum_last (ge_ses e) <= b_expected k b - 1 /\
  b_expected k b - 1 <= seqnum_cur (ge_ses e) /\
  0 <= b_ackd k b <= seqnum_expect (ge_ses e) - 1 /\
  seqnum_expect (ge_ses e) - 1 <= b_sent k b <= b_ackd k b + WINDOW_SIZE /\
  b_accepted b = seqZ 1 (b_expected k b - 1).
Proof.
  intros Hm Hr. destruct (hb_reachable_inv _ _ _ Hm Hr) as [[He ? ? ? ? ?] [[] _ Ha]].
  pose proof (counters _ He). cbn [fst snd] in *. unfold b_ackd, b_sent, b_expected in *.
  repeat split; auto; lia.
Qed.

(** A board after reset, whose session 1 is opened. *)
Definition ex_tables0 : tables := Tables (fun _ => false) (fun _ => 0) (fun _ => 0) (fun _ => 0) (fun _ => 0).
Definition ex_rx0 : rx_regs :=
  RxRegs TAB_STATE_RECV_RX_REQ (QueryReq 0 0 0) (UdpInfo 0 0 0 0 0) (Axis 0 0 0) 0 0 0 0 0 0.
Definition ex_tx0 : tx_regs := TxRegs TAB_STATE_RECV_TX_REQ 0 0 0.
Definition no_streams : streams := fun _ => [].
Definition ex_open : streams := write init_req (ConnReq 1 GBN_SOC2FPGA_SET_TYPE_OPEN) no_streams.
Definition ex_board : board :=
  Board (TableState ex_rx0 ex_tx0 (state_table_init ex_tables0 ex_open).1) no_streams [] [].

Lemma ex_board_opened : board_opened 1 ex_board.
Proof.
  split; [|repeat split; intros q Hq; now apply not_elem_of_nil in Hq].
  exists ex_tables0, ex_open, (set_stream init_req [] ex_open). split; reflexivity.
Qed.

(** The host has sent a packet, which the board has let through. *)
Definition ex_host : gbn_end wire :=
  GbnEnd (set_mb (init_session_gbn (SessionGbn (fun _ => BufferInfo None 0 0) 0 0 0 false ex_reply)) ex_reply)
    (Wire [] [] 0) (fun _ => 0).
Definition ex_session1 : session_net := SessionNet 1 1.
Definition ex_host1 : gbn_end wire := (gbn_send_one ex_session1 (Packet (GbnHeader 0 0 0 0) 0 [42]) 100 None ex_host).2.
Definition ex_query : query_req :=
  QueryReq (word_of_header (default (GbnHeader 0 0 0 0) (to_gbn_header <$> head (outbox (ge_net ex_host1))))) 7 9.
Definition ex_board1 : board := Board (b_state ex_board) (write state_query_req ex_query no_streams) [] [].
Definition ex_board2 : board := board_cycle 1 (board_cycle 1 ex_board1).

Lemma ex_hb_reachable : hb_reachable 1 ex_session1 (ex_host1, ex_board2).
Proof.
  apply (hb_next _ _ (ex_host1, board_cycle 1 ex_board1)).
  apply (hb_next _ _ (ex_host1, ex_board1)). apply (hb_next _ _ (ex_host1, ex_board)).
  apply (hb_next _ _ (ex_host, ex_board)).
  - apply hb_start; [|apply ex_board_opened]. repeat split.
    exists (SessionGbn (fun _ => BufferInfo None 0 0) 0 0 0 false ex_reply), ex_reply. reflexivity.
  - apply hstep. eapply (step_send _ _ ex_host (Packet (GbnHeader 0 0 0 0) 0 [42]) 100 None); [vm_compute; reflexivity|easy|].
    left. reflexivity.
  - apply bstep. apply (bstep_env 1 _ ex_board (write state_query_req ex_query no_streams)).
    + intros q Hq. streams_in Hq. apply list_elem_of_singleton in Hq as ->. right. right.
      eexists. split; [left|reflexivity].
    + intros q Hq. streams_in Hq. now apply not_elem_of_nil in Hq.
  - apply bstep. apply bstep_cycle. vm_compute. reflexivity.
  - apply bstep. apply bstep_cycle. vm_compute. reflexivity.
Qed.

Lemma host_board_safety_witness :
  b_expected 1 ex_board2 - 1 <= seqnum_cur (ge_ses ex_host1) /\ b_accepted ex_board2 = seqZ 1 (b_expected 1 ex_board2 - 1) /\
  b_expected 1 ex_board2 = 2.
Proof.
  destruct (host_board_safety 1 ex_session1 ex_host1 ex_board2 eq_refl ex_hb_reachable) as (_ & H & _ & _ & H').
  split; [exact H|]. split; [exact H'|]. vm_compute. reflexivity.
Defined.

(** C33: host and board read the same fields from the first eight bytes of a
    packet: the bit offsets of gbn.h, which the board uses, are those of the packed
    structure of net_header.h, which the host uses; the board's word determines
    the host's header. *)
Theorem gbn_wire_format_agrees h :
  -128 <= hdr_type h < 128 -> 0 <= hdr_seqnum h < 2 ^ 32 -> 0 <= hdr_session_id h < 2 ^ 24 ->
  let w := word_of_header h in
  pkt_type w = hdr_type h mod 256 /\ pkt_seq w = hdr_seqnum h /\
  src_slot w = get_gbn_src_session h /\ dest_slot w = get_gbn_dst_session h /\
  header_of_word w (after h) = h.
Proof.
  intros Ht Hs Hi. cbn zeta. rewrite type_of_word, seq_of_word, src_slot_of_word, dest_slot_of_word, header_word_roundtrip by easy.
  easy.
Qed.

Lemma gbn_wire_format_agrees_witness :
  pkt_seq (word_of_header (set_gbn_src_dst_session (GbnHeader GBN_PKT_NACK 77 0 0) 5 6)) = 77 /\
  dest_slot (word_of_header (set_gbn_src_dst_session (GbnHeader GBN_PKT_NACK 77 0 0) 5 6)) = 6.
Proof.
  destruct (gbn_wire_format_agrees (set_gbn_src_dst_session (GbnHeader GBN_PKT_NACK 77 0 0) 5 6)) as (_ & H1 & _ & H2 & _);
    [vm_compute; intuition congruence..|]. split; [exact H1|exact H2].
Defined.

(** ** The state table *)

(** The response the session owes to a data packet with header [w]. *)
Definition table_reply (t : tables) (w : Z) : option (Z * Z) :=
  let x := expected_seqnum_array t (dest_slot w) in
  if pkt_seq w =? x then if ack_countdown_array t (dest_slot w) =? 0 then Some (GBN_PKT_ACK, x) else None
  else if ack_enable_bitmap t (dest_slot w) then
    Some (if x <? pkt_seq w then GBN_PKT_NACK else GBN_PKT_ACK, x - 1)
  else None.

Lemma table_recv_data r t q s :
  range (q_dest_ip q) 7 0 <> 0xff -> 0 < dest_slot (gbn_word q) -> 0 < src_slot (gbn_word q) ->
  pkt_type (gbn_word q) = GBN_PKT_DATA ->
  exists d, table_recv_rx r t q s =
    (RxRegs TAB_STATE_HANDLE_DATA q (UdpInfo 0 (q_src_ip q) LEGOMEM_PORT LEGOMEM_PORT 24) (Axis d 0 0xff)
      (pkt_seq (gbn_word q)) (dest_slot (gbn_word q)) (expected_seqnum_array t (dest_slot (gbn_word q)))
      (ack_countdown_array t (dest_slot (gbn_word q))) (rx_last_ackd_seqnum r) (rx_last_sent_seqnum r), s) /\
    src_slot d = dest_slot (gbn_word q) /\ dest_slot d = src_slot (gbn_word q).
Proof.
  intros Hb Hd Hs Ht. unfold table_recv_rx.
  rewrite (proj2 (Z.eqb_neq _ _) Hb), (proj2 (Z.ltb_lt _ _) Hd), (proj2 (Z.ltb_lt _ _) Hs), Ht. cbn [andb Z.eqb].
  eexists. split; [reflexivity|]. autorewrite with fields.
  split; apply Z.mod_small; [apply dest_slot_bound|apply src_slot_bound].
Qed.

Lemma data_two_steps r t s q s1 :
  handle_rx_state r = TAB_STATE_RECV_RX_REQ -> read state_query_req s = Some (q, s1) ->
  range (q_dest_ip q) 7 0 <> 0xff -> 0 < dest_slot (gbn_word q) -> 0 < src_slot (gbn_word q) ->
  pkt_type (gbn_word q) = GBN_PKT_DATA ->
  let w := gbn_word q in
  let ok := pkt_seq w =? expected_seqnum_array t (dest_slot w) in
  let '(r1, t1, s2) := state_table_rx r t s in
  let '(r2, t2, s3) := state_table_rx r1 t1 s2 in
  handle_rx_state r2 = TAB_STATE_RECV_RX_REQ /\
  s3 state_query_rsp = s state_query_rsp ++ [ok] /\
  (forall i, expected_seqnum_array t2 i =
     if bool_decide (i = dest_slot w) && ok then wrap32 (expected_seqnum_array t i + 1) else expected_seqnum_array t i) /\
  match table_reply t w with
  | None => s3 rsp_payload = s rsp_payload
  | Some (ty, n) => exists p,
      s3 rsp_payload = s rsp_payload ++ [p] /\
      s3 rsp_header = s rsp_header ++ [UdpInfo 0 (q_src_ip q) LEGOMEM_PORT LEGOMEM_PORT 24] /\
      pkt_type (axis_data p) = ty /\ pkt_seq (axis_data p) = wrap32 n /\
      src_slot (axis_data p) = dest_slot w /\ dest_slot (axis_data p) = src_slot w
  end.
Proof.
  intros Hr Hq Hb Hd Hs Ht. cbn zeta. unfold state_table_rx at 1. rewrite Hr, Hq.
  destruct (table_recv_data r t q s1 Hb Hd Hs Ht) as (d & -> & Hsd & Hdd).
  destruct (read_some _ _ _ _ Hq) as [_ Ho]. unfold state_table_rx. cbn [handle_rx_state].
  match goal with |- context [table_handle_data ?r1 t s1] => pose proof (table_handle_data_spec r1 t s1) as Hsp;
    pose proof (data_tables_arrays r1 t) as (_ & _ & He); set (r1' := r1) in * end.
  destruct (table_handle_data r1' t s1) as [[r2 t2] s3]. destruct Hsp as (H1 & -> & H2 & H3 & H4 & _).
  rewrite He, H2, H3, H4, !Ho by discriminate. cbn [r1' recv_seqnum expt_seqnum rx_slot_id].
  split; [exact H1|]. split; [reflexivity|]. split.
  - intros i. destruct (_ =? _); [|now rewrite andb_false_r]. rewrite andb_true_r.
    case_bool_decide as Hi; [subst i; now rewrite fn_lookup_insert|rewrite fn_lookup_insert_ne; auto].
  - unfold data_reply, table_reply. cbn [r1' recv_seqnum expt_seqnum rx_slot_id ack_countdown].
    assert (Hf : forall ty n, 0 <= ty < 256 ->
      let p := rsp_pkt (set_rsp r1' ty n) in pkt_type (axis_data p) = ty /\ pkt_seq (axis_data p) = wrap32 n /\
      src_slot (axis_data p) = dest_slot (gbn_word q) /\ dest_slot (axis_data p) = src_slot (gbn_word q)).
    { intros ty n Hty. cbn [set_rsp rsp_pkt r1' axis_data]. autorewrite with fields. rewrite Z.mod_small by exact Hty. auto. }
    destruct (_ =? expected_seqnum_array _ _); [destruct (_ =? 0)|destruct (ack_enable_bitmap _ _); [destruct (_ <? _)|]].
    all: rewrite ?app_nil_r; try reflexivity; eexists; (split; [reflexivity|]); (split; [reflexivity|]); apply Hf; vm_compute; intuition congruence.
Qed.

(** C32: what the state table does with a data packet, in two iterations.  The
    verdict is [true] exactly when the packet carries the expected number of its
    session, which then moves by one; no other session's number changes.  One
    packet in a hundred is acknowledged; a packet with another number is answered,
    when replies are enabled, by a NACK or an ACK with the last accepted number.
    The answer goes back to the sender with the session ids exchanged. *)
Theorem state_table_data_correct r t s q s1 :
  handle_rx_state r = TAB_STATE_RECV_RX_REQ -> read state_query_req s = Some (q, s1) ->
  range (q_dest_ip q) 7 0 <> 0xff -> 0 < dest_slot (gbn_word q) -> 0 < src_slot (gbn_word q) ->
  pkt_type (gbn_word q) = GBN_PKT_DATA ->
  let w := gbn_word q in
  let ok := pkt_seq w =? expected_seqnum_array t (dest_slot w) in
  let '(r1, t1, s2) := state_table_rx r t s in
  let '(r2, t2, s3) := state_table_rx r1 t1 s2 in
  handle_rx_state r2 = TAB_STATE_RECV_RX_REQ /\
  s3 state_query_rsp = s state_query_rsp ++ [ok] /\
  (forall i, expected_seqnum_array t2 i =
     if bool_decide (i = dest_slot w) && ok then wrap32 (expected_seqnum_array t i + 1) else expected_seqnum_array t i) /\
  match table_reply t w with
  | None => s3 rsp_payload = s rsp_payload
  | Some (ty, n) => exists p,
      s3 rsp_payload = s rsp_payload ++ [p] /\
      s3 rsp_header = s rsp_header ++ [UdpInfo 0 (q_src_ip q) LEGOMEM_PORT LEGOMEM_PORT 24] /\
      pkt_type (axis_data p) = ty /\ pkt_seq (axis_data p) = wrap32 n /\
      src_slot (axis_data p) = dest_slot w /\ dest_slot (axis_data p) = src_slot w
  end.
Proof. apply data_two_steps. Qed.

Lemma state_table_data_correct_witness :
  let s := write state_query_req ex_query no_streams in
  let t := st_tab (b_state ex_board) in
  let '(r1, t1, s2) := state_table_rx ex_rx0 t s in
  let '(r2, t2, s3) := state_table_rx r1 t1 s2 in
  s3 state_query_rsp = [true].
Proof.
  cbn zeta. set (s := write state_query_req ex_query no_streams). set (t := st_tab (b_state ex_board)).
  pose proof (state_table_data_correct ex_rx0 t s ex_query (set_stream state_query_req [] s) eq_refl eq_refl) as H.
  cbn zeta in H. destruct (state_table_rx ex_rx0 t s) as [[r1 t1] s2]. destruct (state_table_rx r1 t1 s2) as [[r2 t2] s3].
  destruct H as (_ & H & _); [vm_compute; congruence|vm_compute; reflexivity..|].
  rewrite H. vm_compute. reflexivity.
Defined.

(** ** Packets through the receiver and the arbiter *)

(** The receiver asks the state table about the first word of a packet and
    then hands on the whole rest of the packet, under a header whose ports are the
    session ids, exactly when the verdict is [true]; it consumes that packet and
    nothing of the next one, and is ready again afterwards. *)
Theorem rx_packet_correct r (s : streams) u us w ws rest b :
  rx_st r = RX_STATE_UDP_HEADER -> s rx_header = u :: us -> s rx_payload = w :: ws ++ rest ->
  axis_last w <> 1 -> is_packet ws = true -> s state_query_rsp = [] ->
  let '(r1, s1) := rx_64 r s in
  s1 state_query_req = s state_query_req ++ [QueryReq (axis_data w) (src_ip u) (dest_ip u)] /\
  let '(r2, s2) := run rx_64 (1 + length ws) r1 (write state_query_rsp b s1) in
  rx_st r2 = RX_STATE_UDP_HEADER /\ s2 rx_header = us /\ s2 rx_payload = rest /\ s2 state_query_rsp = [] /\
  s2 usr_rx_payload = s usr_rx_payload ++ (if b then ws else []) /\
  s2 usr_rx_header = s usr_rx_header ++
    if b then [UdpInfo (src_ip u) (dest_ip u) (src_slot (axis_data w)) (dest_slot (axis_data w)) ((udp_length u - 16) mod 2 ^ 16)] else [].
Proof.
  intros Hr Hh Hp Hw Hws Hq. unfold rx_64 at 1. rewrite Hr, Hh, Hp. streams. split; [easy|].
  set (u' := UdpInfo _ _ _ _ _). cbn [run Nat.add]. unfold rx_64 at 1, read. cbn [rx_st]. streams. rewrite Hq. cbn [app recv_pkt].
  rewrite (proj2 (Z.eqb_neq _ _) Hw).
  match goal with |- context [run rx_64 _ ?r1 ?s1] =>
    pose proof (copies_packet _ _ _ _ _ _ _ ws (rx_copies b) Hws r1 s1 rest) as Hc; set (s2 := s1) in * end.
  destruct (run _ _ _ _) as [r3 s3]. destruct Hc as (H1 & H2 & H3 & H4).
  { easy. }
  { unfold s2. destruct b; streams; easy. }
  assert (Ho : forall c, c ∉ [rx_payload; usr_rx_payload] -> s3 c = s2 c) by exact H3.
  split; [easy|]. rewrite H2, (Ho rx_header), (Ho state_query_rsp), (Ho usr_rx_header) by chans.
  unfold s2. destruct b; streams; rewrite ?app_nil_r; repeat split; auto.
Qed.

(** A packet of two words after the header word. *)
Definition ex_words : list net_axis_64 := [Axis 11 0 255; Axis 12 1 255].
Definition ex_incoming : streams :=
  write rx_header (UdpInfo 1 2 3 4 100)
    (set_stream rx_payload (Axis 5 0 255 :: ex_words ++ [Axis 6 0 255]) no_streams).
Lemma rx_packet_correct_witness :
  let '(r1, s1) := rx_64 (RxState RX_STATE_UDP_HEADER (Axis 0 0 0) (UdpInfo 0 0 0 0 0) false) ex_incoming in
  let '(r2, s2) := run rx_64 3 r1 (write state_query_rsp true s1) in
  s2 usr_rx_payload = ex_words /\ s2 rx_payload = [Axis 6 0 255].
Proof.
  pose proof (rx_packet_correct (RxState RX_STATE_UDP_HEADER (Axis 0 0 0) (UdpInfo 0 0 0 0 0) false) ex_incoming
    (UdpInfo 1 2 3 4 100) [] (Axis 5 0 255) ex_words [Axis 6 0 255] true eq_refl eq_refl eq_refl ltac:(discriminate) eq_refl eq_refl) as H.
  destruct (rx_64 _ _) as [r1 s1]. destruct H as [_ H]. cbn [length ex_words Nat.add] in H.
  destruct (run _ _ _ _) as [r2 s2]. destruct H as (_ & _ & H1 & _ & H2 & _). split; [exact H2|exact H1].
Defined.

(** The arbiter puts one whole packet after the other on the output, never
    mixing them: a response first, with a closing word; else a retransmission; else
    a new packet.  The sources it did not choose are left as they were. *)
Theorem arbiter_packet_correct (s : streams) ws rest :
  is_packet ws = true ->
  (forall u us w l, s rsp_header = u :: us -> s rsp_payload = w :: l ->
     let '(st, s') := run arbiter_64 3 udp_arbiter_arb s in
     st = udp_arbiter_arb /\ s' out_header = s out_header ++ [u] /\ s' out_payload = s out_payload ++ [w; Axis 0 1 0xff] /\
     s' rsp_header = us /\ s' rsp_payload = l /\ same_but [rsp_header; rsp_payload; out_header; out_payload] s s') /\
  (forall u us, s rsp_header = [] -> s rt_header = u :: us -> s rt_payload = ws ++ rest ->
     let '(st, s') := run arbiter_64 (1 + length ws) udp_arbiter_arb s in
     st = udp_arbiter_arb /\ s' out_header = s out_header ++ [u] /\ s' out_payload = s out_payload ++ ws /\
     s' rt_header = us /\ s' rt_payload = rest /\ same_but [rt_header; rt_payload; out_header; out_payload] s s') /\
  (forall u us, s rsp_header = [] -> s rt_header = [] -> s tx_header = u :: us -> s tx_payload = ws ++ rest ->
     let '(st, s') := run arbiter_64 (1 + length ws) udp_arbiter_arb s in
     st = udp_arbiter_arb /\ s' out_header = s out_header ++ [u] /\ s' out_payload = s out_payload ++ ws /\
     s' tx_header = us /\ s' tx_payload = rest /\ same_but [tx_header; tx_payload; out_header; out_payload] s s').
Proof.
  intros Hws. split; [|split].
  - intros u us w l Hh Hp. cbn [run]. unfold arbiter_64 at 1, read at 1. rewrite Hh.
    unfold arbiter_64 at 1, read at 1. streams. rewrite Hp. unfold arbiter_64. streams. rewrite <- app_assoc. repeat split.
    intros c Hc. streams_away Hc. easy.
  - intros u us Hn Hh Hp. cbn [run Nat.add]. unfold arbiter_64 at 1, read. rewrite Hn, Hh.
    match goal with |- context [run arbiter_64 _ ?st1 ?s1] =>
      pose proof (copies_packet _ _ _ _ _ _ _ ws arbiter_copies_rt Hws st1 s1 rest eq_refl) as Hc; set (s2 := s1) in * end.
    destruct (run _ _ _ _) as [st3 s3]. destruct Hc as (H1 & H2 & H3 & H4); [unfold s2; streams; easy|].
    rewrite H2, !(H3 out_header), !(H3 rt_header) by chans. unfold s2. streams. repeat split; auto.
    intros c Hc. rewrite H3 by (contradict Hc; rewrite !elem_of_cons in *; tauto). unfold s2. streams_away Hc. easy.
  - intros u us Hn Hn' Hh Hp. cbn [run Nat.add]. unfold arbiter_64 at 1, read. rewrite Hn, Hn', Hh.
    match goal with |- context [run arbiter_64 _ ?st1 ?s1] =>
      pose proof (copies_packet _ _ _ _ _ _ _ ws arbiter_copies_tx Hws st1 s1 rest eq_refl) as Hc; set (s2 := s1) in * end.
    destruct (run _ _ _ _) as [st3 s3]. destruct Hc as (H1 & H2 & H3 & H4); [unfold s2; streams; easy|].
    rewrite H2, !(H3 out_header), !(H3 tx_header) by chans. unfold s2. streams. repeat split; auto.
    intros c Hc. rewrite H3 by (contradict Hc; rewrite !elem_of_cons in *; tauto). unfold s2. streams_away Hc. easy.
Qed.

Lemma arbiter_packet_correct_witness :
  let s := write tx_header (UdpInfo 1 2 3 4 16) (set_stream tx_payload (ex_words ++ [Axis 6 0 255]) no_streams) in
  let '(st, s') := run arbiter_64 3 udp_arbiter_arb s in
  s' out_payload = ex_words /\ s' tx_payload = [Axis 6 0 255].
Proof.
  cbn zeta. set (s := write tx_header _ _).
  destruct (arbiter_packet_correct s ex_words [Axis 6 0 255] eq_refl) as (_ & _ & H).
  specialize (H (UdpInfo 1 2 3 4 16) [] eq_refl eq_refl eq_refl eq_refl). cbn [length ex_words Nat.add] in H.
  destruct (run _ _ _ _) as [st s']. destruct H as (_ & _ & H1 & _ & H2 & _). split; [exact H1|exact H2].
Defined.

(** ** Retransmission *)

(** A request for the packets [a] to [a + n - 1] of a session reads them back,
    in this order, from the addresses they were stored at, sends each in full
    under a header with the session's address, and then restarts the session's
    timer, once; the buffer is then ready for the next request. *)
Theorem buff_retrans_correct b (s : streams) slot a pkts rest reqs :
  retrans_state b = BUF_STATE_RECV_REQ -> 0 <= slot < NR_MAX_SESSIONS_PER_NODE -> 0 <= a ->
  a + Z.of_nat (length pkts) < 2 ^ 32 -> pkts <> [] -> Forall (fun p => is_packet p.2 = true) pkts ->
  s gbn_retrans_req = RetransReq slot a (a + Z.of_nat (length pkts) - 1) :: reqs -> s dm_rd_data = stored pkts ++ rest ->
  let '(b', s') := run buff_retrans (1 + length (stored pkts)) b s in
  retrans_state b' = BUF_STATE_RECV_REQ /\ dest_ip_array b' = dest_ip_array b /\
  s' gbn_retrans_req = reqs /\ s' dm_rd_data = rest /\
  start_address <$> s' dm_rd_cmd_1 = (start_address <$> s dm_rd_cmd_1) ++
    ((fun n => buff_address slot (n mod WINDOW_SIZE) mod 2 ^ 40) <$> seqZ a (Z.of_nat (length pkts))) /\
  s' rt_payload = s rt_payload ++ (pkts ≫= snd) /\
  s' rt_header = s rt_header ++
    ((fun p => UdpInfo 0 (dest_ip_array b slot) LEGOMEM_PORT LEGOMEM_PORT (range (axis_data p.1) 15 0)) <$> pkts) /\
  s' timer_rst_req = s timer_rst_req ++ [TimerReq slot timer_rst_type_reset].
Proof.
  intros Hb Hsl Ha Hmax Hne Hp Hq Hd. cbn [run Nat.add]. unfold buff_retrans at 1, read. rewrite Hb, Hq. cbn [seq_end seq_start].
  assert (0 < length pkts)%nat by (destruct pkts; [easy|cbn; lia]). rewrite (proj2 (Z.ltb_ge _ _)) by lia.
  match goal with |- context [run buff_retrans _ ?b1 ?s1] =>
    pose proof (retrans_all pkts Hp Hne b1 s1 rest eq_refl) as Hr; set (b1' := b1) in *; set (s1' := s1) in * end.
  destruct (run _ _ b1' s1') as [b2 s2].
  destruct Hr as ((Hi & _ & _) & H1 & H2 & H3 & H4 & H5 & H6 & H7); [unfold s1'; streams; exact Hd|cbn; lia..|].
  assert (Ho : s2 gbn_retrans_req = s1' gbn_retrans_req) by (apply H7; unfold retrans_chans; chans).
  rewrite Ho, H3, H4, H5, H6. unfold s1'. streams. repeat split; auto. f_equal. apply list_fmap_ext. intros i n _.
  change (rt_seq b1') with a. now rewrite (packet_address_eq b1' slot).
Qed.

Definition ex_buff : buff_state :=
  BuffState BUF_STATE_RECV_INFO (fun _ => 9) (Axis 0 0 0) BUF_STATE_RECV_REQ (RetransReq 0 0 0) 0 0 0.
Lemma buff_retrans_correct_witness :
  let s := write gbn_retrans_req (RetransReq 3 130 130) (set_stream dm_rd_data (Axis 24 0 255 :: ex_words) no_streams) in
  let '(b', s') := run buff_retrans 4 ex_buff s in
  s' rt_payload = ex_words /\ start_address <$> s' dm_rd_cmd_1 = [buff_address 3 2 mod 2 ^ 40].
Proof.
  cbn zeta. set (s := write gbn_retrans_req _ _).
  pose proof (buff_retrans_correct ex_buff s 3 130 [(Axis 24 0 255, ex_words)] [] []) as H.
  specialize (H eq_refl ltac:(vm_compute; intuition congruence) ltac:(lia) ltac:(cbn; lia) ltac:(discriminate)
    ltac:(repeat constructor) eq_refl eq_refl).
  change (1 + length (stored [(Axis 24 0 255, ex_words)]))%nat with 4%nat in H.
  destruct (run _ _ _ _) as [b' s']. destruct H as (_ & _ & _ & _ & H1 & H2 & _). split; [exact H2|rewrite H1; vm_compute; reflexivity].
Defined.

(** The stored packets of all windows of all sessions lie in the part of the
    memory set aside for them, [MAX_PACKET_SIZE] bytes each without overlap; two
    numbers of one session that are in flight together have different places. *)
Theorem buff_address_disjoint slot n slot' n' :
  0 <= slot < NR_MAX_SESSIONS_PER_NODE -> 0 <= slot' < NR_MAX_SESSIONS_PER_NODE ->
  slot <> slot' \/ n < n' < n + WINDOW_SIZE ->
  let a := buff_address slot (n mod WINDOW_SIZE) in
  let a' := buff_address slot' (n' mod WINDOW_SIZE) in
  FPGA_MEMORY_MAP_MAPPING_BASE + _FPGA_MEMORY_MAP_NETCACHE_START <= a /\
  a + MAX_PACKET_SIZE <= FPGA_MEMORY_MAP_MAPPING_BASE + _FPGA_MEMORY_MAP_NETCACHE_END /\
  a mod 2 ^ 40 = a /\ (a + MAX_PACKET_SIZE <= a' \/ a' + MAX_PACKET_SIZE <= a).
Proof.
  intros Hs Hs' Hd. cbn zeta. rewrite !buff_address_eq by easy.
  change NR_MAX_SESSIONS_PER_NODE with 1024 in *. unfold BUFF_ADDRESS_START, FPGA_MEMORY_MAP_MAPPING_BASE,
    _FPGA_MEMORY_MAP_NETCACHE_START, _FPGA_MEMORY_MAP_NETCACHE_END, WINDOW_SIZE, WINDOW_SIZE_WIDTH, MAX_PACKET_SIZE in *.
  change (2 ^ 7) with 128 in *. change (2 ^ 40) with 1099511627776.
  pose proof (Z.mod_pos_bound n 128 ltac:(lia)). pose proof (Z.mod_pos_bound n' 128 ltac:(lia)).
  assert (slot <> slot' \/ n mod 128 <> n' mod 128) by (destruct Hd; [auto|right; Z.to_euclidean_division_equations; lia]).
  set (i := n mod 128) in *. set (j := n' mod 128) in *. clearbody i j.
  rewrite Z.mod_small by lia. repeat split; [lia..|]. destruct (Z.lt_total (slot * 128 + i) (slot' * 128 + j)) as [?|[?|?]]; lia.
Qed.

Lemma buff_address_disjoint_witness :
  buff_address 5 (127 mod WINDOW_SIZE) + MAX_PACKET_SIZE <= buff_address 5 (128 mod WINDOW_SIZE) \/
  buff_address 5 (128 mod WINDOW_SIZE) + MAX_PACKET_SIZE <= buff_address 5 (127 mod WINDOW_SIZE).
Proof.
  apply (buff_address_disjoint 5 127 5 128); [vm_compute; intuition congruence..|right; vm_compute; intuition congruence].
Defined.

(** ** The timer *)

(** As long as no request comes in between, an active timer of a session
    signals exactly once: in the scan that visits the session after its time has
    been counted down, [1024 * time] scans after the first one that visits it; it
    is then inactive, and an inactive timer never signals. *)
Theorem timer_fires_once n i m (s : streams) :
  0 <= i < NR_MAX_SESSIONS_PER_NODE -> 0 <= scan_slot_id m < NR_MAX_SESSIONS_PER_NODE -> 0 <= time (timeout_array m i) ->
  s timer_rst_req = [] ->
  let left := (i - scan_slot_id m - 1) mod NR_MAX_SESSIONS_PER_NODE + NR_MAX_SESSIONS_PER_NODE * time (timeout_array m i) in
  let '(m', s') := run retrans_timer n m s in
  active (timeout_array m' i) = active (timeout_array m i) && (Z.of_nat n <=? left) /\
  fired i s' = fired i s ++ (if active (timeout_array m i) && (left <? Z.of_nat n) then [i] else []).
Proof. apply timer_run. Qed.

Lemma timer_fires_once_witness :
  let m := TimerState (fun _ => TimerEntry true 2) 0 in
  let '(m', s') := run retrans_timer 2049 m no_streams in
  active (timeout_array m' 1) = false /\ fired 1 s' = [1].
Proof.
  cbn zeta. pose proof (timer_fires_once 2049 1 (TimerState (fun _ => TimerEntry true 2) 0) no_streams
    ltac:(vm_compute; intuition congruence) ltac:(vm_compute; intuition congruence) ltac:(cbn; lia) eq_refl) as H.
  cbn zeta in H. destruct (run _ _ _ _) as [m' s']. destruct H as [H1 H2].
  rewrite H1, H2. vm_compute. split; reflexivity.
Defined.

(** ** Where the state table fails *)

(** The state table, with something arriving before each iteration. *)
Fixpoint play (events : list (streams -> streams)) (st : table_state) (s : streams) : table_state * streams :=
  match events with
  | [] => (st, s)
  | e :: events => let '(st, s) := state_table_64 st (e s) in play events st s
  end.

(** Session 1 is opened and sends two packets; the acknowledgement of the first
    arrives in the iteration in which the second gets its number. *)
Definition ack_of (n : Z) : query_req := QueryReq (set_dest_slot (set_src_slot (set_pkt_seq (set_pkt_type 0 GBN_PKT_ACK) n) 2) 1) 7 9.
Definition lost_timer_events : list (streams -> streams) :=
  [ write init_req (ConnReq 1 GBN_SOC2FPGA_SET_TYPE_OPEN);
    write check_full_req 1; id; write tx_finish_sig true;
    write check_full_req 1; write state_query_req (ack_of 1); write tx_finish_sig true ].
Definition timer0 : timer_state := TimerState (fun _ => TimerEntry false 0) 0.

Lemma lost_timer_play :
  let '(st, s) := play lost_timer_events (TableState ex_rx0 ex_tx0 ex_tables0) no_streams in
  last_sent_seqnum_array (st_tab st) 1 = 2 /\ last_ackd_seqnum_array (st_tab st) 1 = 1 /\
  s timer_rst_req = [TimerReq 1 timer_rst_type_reset; TimerReq 1 timer_rst_type_stop] /\ s rt_timeout_sig = [].
Proof. vm_compute. repeat split. Qed.

(** C34: an acknowledgement that arrives while the next packet gets its number
    stops the timer for good: the acknowledgement is compared with the number
    sent before, and the sender with the number acknowledged before, so that
    nobody restarts it.  The second packet is in flight, and however long the
    timer runs it never asks for its retransmission. *)
Theorem ack_send_race_loses_timer n :
  let '(st, s) := play lost_timer_events (TableState ex_rx0 ex_tx0 ex_tables0) no_streams in
  last_sent_seqnum_array (st_tab st) 1 = 2 /\ last_ackd_seqnum_array (st_tab st) 1 = 1 /\
  let '(m, s') := run retrans_timer (2 + n) timer0 s in
  active (timeout_array m 1) = false /\ fired 1 s' = [].
Proof.
  pose proof lost_timer_play as H. destruct (play _ _ _) as [st s]. destruct H as (H1 & H2 & H3 & H4).
  split; [exact H1|]. split; [exact H2|]. rewrite run_add. cbn [run].
  rewrite (timer_request timer0 s _ _ H3), (timer_request _ _ (TimerReq 1 timer_rst_type_stop) []) by now streams.
  cbn [tm_slotid rst_type].
  match goal with |- context [run retrans_timer n ?m1 ?s1] =>
    pose proof (timer_run n 1 m1 s1 ltac:(lia) ltac:(cbn; lia) ltac:(cbn; rewrite !fn_lookup_insert; cbn; vm_compute; discriminate)) as Ht;
    set (s2 := s1) in * end.
  destruct (run retrans_timer n _ _) as [m s']. destruct Ht as [Ha Hf]; [unfold s2; now streams|].
  cbn [timeout_array] in Ha, Hf. rewrite fn_lookup_insert in Ha, Hf. cbn [active andb] in Ha, Hf.
  rewrite Ha, Hf. unfold fired, s2. streams. rewrite H4. easy.
Qed.

(** A session that was closed is not dead: its expected number is 0, and a
    data packet numbered 0 is let through, after which the session goes on as if
    it had been opened again.  A packet with another number is answered, when
    replies are enabled, with a NACK that carries the number [2 ^ 32 - 1]. *)
Theorem closed_session_accepts r t s k q s1 :
  read init_req s = Some (ConnReq k GBN_SOC2FPGA_SET_TYPE_CLOSE, s1) ->
  handle_rx_state r = TAB_STATE_RECV_RX_REQ -> range (q_dest_ip q) 7 0 <> 0xff ->
  0 < k -> dest_slot (gbn_word q) = k -> 0 < src_slot (gbn_word q) -> pkt_type (gbn_word q) = GBN_PKT_DATA ->
  s state_query_req = [] -> s state_query_rsp = [] -> s rsp_payload = [] ->
  let '(t0, s0) := state_table_init t s in
  let '(r1, t1, s2) := state_table_rx r t0 (write state_query_req q s0) in
  let '(_, t2, s3) := state_table_rx r1 t1 s2 in
  if pkt_seq (gbn_word q) =? 0 then s3 state_query_rsp = [true] /\ expected_seqnum_array t2 k = 1
  else s3 state_query_rsp = [false] /\ expected_seqnum_array t2 k = 0 /\
    (ack_enable_bitmap t k = true ->
      exists p, s3 rsp_payload = [p] /\ pkt_type (axis_data p) = GBN_PKT_NACK /\ pkt_seq (axis_data p) = 2 ^ 32 - 1).
Proof.
  intros Hi Hr Hb Hk Hd Hs Ht Hq Hv Hp. unfold state_table_init. rewrite Hi.
  change (set_type (ConnReq k GBN_SOC2FPGA_SET_TYPE_CLOSE) =? GBN_SOC2FPGA_SET_TYPE_OPEN) with false. cbn [cm_slotid].
  destruct (read_some _ _ _ _ Hi) as [_ Ho]. set (s0 := write state_query_req q s1). set (t0 := set_expected t k 0).
  assert (Hx : expected_seqnum_array t0 k = 0) by (cbn; now rewrite fn_lookup_insert).
  pose proof (data_two_steps r t0 s0 q (set_stream state_query_req [] s0) Hr) as H. cbn zeta in H.
  destruct (state_table_rx r t0 s0) as [[r1 t1] s2]. destruct (state_table_rx r1 t1 s2) as [[r2 t2] s3].
  destruct H as (_ & H1 & H2 & H3); [|auto; lia..|].
  { unfold read, s0. streams. now rewrite Ho, Hq by discriminate. }
  rewrite (H2 k), H1. rewrite Hd, Hx in *. unfold s0 in *. streams. streams_in H3. rewrite !Ho, Hv in * by discriminate.
  rewrite Hp in H3. rewrite bool_decide_eq_true_2 by easy. destruct (Z.eqb_spec (pkt_seq (gbn_word q)) 0) as [Hz|Hz]; [split; reflexivity|].
  split; [reflexivity|]. split; [reflexivity|]. intros He. unfold table_reply in H3. rewrite Hd, Hx, (proj2 (Z.eqb_neq _ _) Hz) in H3.
  change (ack_enable_bitmap t0 k) with (ack_enable_bitmap t k) in H3.
  pose proof (pkt_seq_bound (gbn_word q)). rewrite He, (proj2 (Z.ltb_lt _ _)) in H3 by lia.
  destruct H3 as (p & Hp' & _ & Ht' & Hn' & _). exists p. split; [exact Hp'|]. split; [exact Ht'|]. rewrite Hn'. reflexivity.
Qed.

Definition ex_closing : streams := write init_req (ConnReq 1 GBN_SOC2FPGA_SET_TYPE_CLOSE) no_streams.
Definition ex_data0 : query_req := QueryReq (set_dest_slot (set_src_slot (set_pkt_seq (set_pkt_type 0 GBN_PKT_DATA) 0) 2) 1) 7 9.
Lemma closed_session_accepts_witness :
  let '(t0, s0) := state_table_init (st_tab (b_state ex_board)) ex_closing in
  let '(r1, t1, s2) := state_table_rx ex_rx0 t0 (write state_query_req ex_data0 s0) in
  let '(_, t2, s3) := state_table_rx r1 t1 s2 in
  s3 state_query_rsp = [true] /\ expected_seqnum_array t2 1 = 1.
Proof.
  pose proof (closed_session_accepts ex_rx0 (st_tab (b_state ex_board)) ex_closing 1 ex_data0 (set_stream init_req [] ex_closing)
    eq_refl eq_refl ltac:(vm_compute; congruence) ltac:(lia) eq_refl eq_refl eq_refl eq_refl eq_refl eq_refl) as H.
  destruct (state_table_init _ _) as [t0 s0]. destruct (state_table_rx ex_rx0 _ _) as [[r1 t1] s2].
  destruct (state_table_rx r1 t1 s2) as [[r2 t2] s3]. exact H.
Defined.
