(* ===== verification/Hlist.v ===== *)
(** * Lists with a single head pointer, and hash tables

    [struct hlist_head] and [struct hlist_node] of include/uapi/list.h, and the
    hash tables of include/uapi/hashtable.h built on them.  A node does not know
    the list it is in: [pprev] holds the address of the pointer that points to it,
    a head's [first] or another node's [next].  [hlist s h l] says that the nodes
    reachable from the head [h] are [l] in this order and that every [pprev] is
    right; [hash_rep] says which nodes a table holds, each in the bucket of its
    key.  Processes, sessions and boards are kept in such tables. *)

From stdpp Require Import functions.
From S2P Require Import Prelude Bitops.

#[local] Set Warnings "-clear-no-such-hyp".

Section hlist.
(** The locations of the heads and of the nodes. *)
Context {H N : Type} `{EqDecision H} `{EqDecision N}.

(** What a [struct hlist_node **] points to. *)
Inductive hslot := First (h : H) | Next (n : N).

(** [None] is [NULL]. *)
Record hheap := HHeap { first : H -> option N; hnext : N -> option N; pprev : N -> option hslot }.

Definition set_first (s : hheap) (h : H) (p : option N) : hheap := HHeap (<[h := p]> (first s)) (hnext s) (pprev s).
Definition set_hnext (s : hheap) (n : N) (p : option N) : hheap := HHeap (first s) (<[n := p]> (hnext s)) (pprev s).
Definition set_pprev (s : hheap) (n : N) (p : option hslot) : hheap := HHeap (first s) (hnext s) (<[n := p]> (pprev s)).

(** [*p] and [*p = v]; writing through [NULL] is [None]. *)
Definition deref (s : hheap) (p : hslot) : option N := match p with First h => first s h | Next n => hnext s n end.
Definition put (s : hheap) (p : hslot) (v : option N) : hheap :=
  match p with First h => set_first s h v | Next n => set_hnext s n v end.
Definition store_slot (s : hheap) (p : option hslot) (v : option N) : option hheap :=
  match p with None => None | Some p => Some (put s p v) end.
(** [if (p) p->pprev = v] *)
Definition fix_pprev (s : hheap) (p : option N) (v : option hslot) : hheap :=
  match p with None => s | Some n => set_pprev s n v end.

(** ** Operations *)

Definition INIT_HLIST_HEAD (s : hheap) (h : H) : hheap := set_first s h None.
Definition INIT_HLIST_NODE (s : hheap) (n : N) : hheap := set_pprev (set_hnext s n None) n None.
Definition hlist_unhashed (s : hheap) (n : N) : bool := bool_decide (pprev s n = None).
Definition hlist_empty (s : hheap) (h : H) : bool := bool_decide (first s h = None).

Definition __hlist_del (s : hheap) (n : N) : option hheap :=
  let next := hnext s n in
  let pp := pprev s n in
  s ← store_slot s pp next;
  Some (fix_pprev s next pp).

(** [poison1] and [poison2] stand for [LIST_POISON1] and [LIST_POISON2]. *)
Definition hlist_del (poison1 : option N) (poison2 : option hslot) (s : hheap) (n : N) : option hheap :=
  s ← __hlist_del s n;
  Some (set_pprev (set_hnext s n poison1) n poison2).

Definition hlist_del_init (s : hheap) (n : N) : option hheap :=
  if negb (hlist_unhashed s n) then s ← __hlist_del s n; Some (INIT_HLIST_NODE s n) else Some s.

Definition hlist_add_head (s : hheap) (n : N) (h : H) : hheap :=
  let f := first s h in
  let s := set_hnext s n f in
  let s := fix_pprev s f (Some (Next n)) in
  let s := set_first s h (Some n) in
  set_pprev s n (Some (First h)).

Definition hlist_add_before (s : hheap) (n next : N) : option hheap :=
  let s := set_pprev s n (pprev s next) in
  let s := set_hnext s n (Some next) in
  let s := set_pprev s next (Some (Next n)) in
  store_slot s (pprev s n) (Some n).

(** Puts [next] after [n]. *)
Definition hlist_add_after (s : hheap) (n next : N) : hheap :=
  let s := set_hnext s next (hnext s n) in
  let s := set_hnext s n (Some next) in
  let s := set_pprev s next (Some (Next n)) in
  fix_pprev s (hnext s next) (Some (Next next)).

Definition hlist_add_fake (s : hheap) (n : N) : hheap := set_pprev s n (Some (Next n)).

Definition hlist_move_list (s : hheap) (old new : H) : hheap :=
  let s := set_first s new (first s old) in
  let s := fix_pprev s (first s new) (Some (First new)) in
  set_first s old None.

(** The nodes a [hlist_for_each] loop visits; [fuel] bounds the iterations. *)
Fixpoint hlist_walk (fuel : nat) (s : hheap) (pos : option N) : option (list N) :=
  match fuel with
  | O => None
  | S fuel' =>
      match pos with
      | None => Some []
      | Some n => cons n <$> hlist_walk fuel' s (hnext s n)
      end
  end.
Definition hlist_for_each (fuel : nat) (s : hheap) (h : H) : option (list N) := hlist_walk fuel s (first s h).

(** [hlist_for_each_entry] with a body that returns at the first entry that
    satisfies [p]; [Some None]: the loop ran to the end. *)
Fixpoint hlist_search (fuel : nat) (p : N -> bool) (s : hheap) (pos : option N) : option (option N) :=
  match fuel with
  | O => None
  | S fuel' =>
      match pos with
      | None => Some None
      | Some n => if p n then Some (Some n) else hlist_search fuel' p s (hnext s n)
      end
  end.

(** ** Hash tables *)

(** A table is the function from indices to the addresses of its heads; [hash_min]
    on 32-bit keys. *)
Definition hash_min (val bits : Z) : Z := hash_32 val bits.

Fixpoint __hash_init (s : hheap) (ht : Z -> H) (sz : nat) : hheap :=
  match sz with
  | O => s
  | S i => INIT_HLIST_HEAD (__hash_init s ht i) (ht (Z.of_nat i))
  end.
Definition hash_add (s : hheap) (ht : Z -> H) (bits : Z) (n : N) (key : Z) : hheap :=
  hlist_add_head s n (ht (hash_min key bits)).
Definition hash_hashed (s : hheap) (n : N) : bool := negb (hlist_unhashed s n).
Fixpoint __hash_empty (s : hheap) (ht : Z -> H) (i : Z) (left : nat) : bool :=
  match left with
  | O => true
  | S left' => if negb (hlist_empty s (ht i)) then false else __hash_empty s ht (i + 1) left'
  end.
Definition hash_del (s : hheap) (n : N) : option hheap := hlist_del_init s n.
(** The first entry [hash_for_each_possible] meets that satisfies [p]. *)
Definition hash_for_each_possible (fuel : nat) (p : N -> bool) (s : hheap) (ht : Z -> H) (bits key : Z) : option (option N) :=
  hlist_search fuel p s (first s (ht (hash_min key bits))).

(** [hash_for_each]: the entries in the order in which it meets them, and the
    first that satisfies [p]; [left] buckets are left from bucket [i] on. *)
Fixpoint hash_for_each (fuel : nat) (s : hheap) (ht : Z -> H) (i : Z) (left : nat) : option (list N) :=
  match left with
  | O => Some []
  | S left' =>
      l ← hlist_for_each fuel s (ht i);
      r ← hash_for_each fuel s ht (i + 1) left';
      Some (l ++ r)
  end.
Fixpoint hash_for_each_first (fuel : nat) (p : N -> bool) (s : hheap) (ht : Z -> H) (i : Z) (left : nat) : option (option N) :=
  match left with
  | O => Some None
  | S left' =>
      r ← hlist_search fuel p s (first s (ht i));
      match r with
      | Some n => Some (Some n)
      | None => hash_for_each_first fuel p s ht (i + 1) left'
      end
  end.

(** ** Representation *)

Fixpoint hchain (s : hheap) (a : hslot) (l : list N) : Prop :=
  match l with
  | [] => deref s a = None
  | x :: l => deref s a = Some x /\ pprev s x = Some a /\ hchain s (Next x) l
  end.
Definition hlist (s : hheap) (h : H) (l : list N) : Prop := NoDup l /\ hchain s (First h) l.

(** Only the heads [hs] and the nodes [ns] changed. *)
Definition hsame (hs : list H) (ns : list N) (s s' : hheap) : Prop :=
  (forall h, h ∉ hs -> first s' h = first s h) /\
  (forall n, n ∉ ns -> hnext s' n = hnext s n /\ pprev s' n = pprev s n).

Lemma hchain_frame s s' a l :
  deref s' a = deref s a -> (forall n, n ∈ l -> hnext s' n = hnext s n /\ pprev s' n = pprev s n) ->
  hchain s a l -> hchain s' a l.
Proof.
  revert a. induction l as [|x l IH]; intros a Ha Hn; cbn.
  - intros E. now rewrite Ha.
  - intros (E & Hp & Hc). destruct (Hn x) as [Hx1 Hx2]; [left|]. rewrite Ha, Hx2. split_and!; auto.
    apply IH; auto. intros n Hin. apply Hn. now right.
Qed.

Lemma hlist_frame s s' hs ns h l :
  hsame hs ns s s' -> h ∉ hs -> (forall n, n ∈ l -> n ∉ ns) -> hlist s h l -> hlist s' h l.
Proof. intros [Hf Hn] Hh Hl [Hd Hc]. split; [auto|]. eapply hchain_frame; [| |exact Hc]; [now apply Hf|]. intros n Hin. now apply Hn, Hl. Qed.

Lemma hlist_head s h l : hlist s h l -> first s h = head l.
Proof. intros [_ Hc]. destruct l as [|x l]; cbn in Hc; [exact Hc|apply Hc]. Qed.

Lemma hlist_empty_spec s h l : hlist s h l -> hlist_empty s h = true <-> l = [].
Proof. intros Hl. unfold hlist_empty. rewrite bool_decide_eq_true, (hlist_head _ _ _ Hl). now destruct l. Qed.

(** The links from [a] through [l], and the slot at which they end. *)
Fixpoint hseg (s : hheap) (a : hslot) (l : list N) : Prop :=
  match l with
  | [] => True
  | x :: l => deref s a = Some x /\ pprev s x = Some a /\ hseg s (Next x) l
  end.
Fixpoint hend (a : hslot) (l : list N) : hslot := match l with [] => a | x :: l => hend (Next x) l end.

Lemma hchain_app s a l1 l2 : hchain s a (l1 ++ l2) <-> hseg s a l1 /\ hchain s (hend a l1) l2.
Proof. revert a. induction l1 as [|x l1 IH]; intros a; cbn; [tauto|]. rewrite IH. tauto. Qed.

Lemma hend_snoc a l x : hend a (l ++ [x]) = Next x.
Proof. revert a. induction l as [|y l IH]; intros a; cbn; auto. Qed.

Lemma hend_in a l : hend a l = a \/ exists x, x ∈ l /\ hend a l = Next x.
Proof.
  revert a. induction l as [|y l IH]; intros a; cbn; [auto|]. right. destruct (IH (Next y)) as [->|(x & Hx & ->)].
  - exists y. split; [left|easy].
  - exists x. split; [now right|easy].
Qed.

(** A segment is kept when only the slot at its end is written. *)
Lemma hseg_frame s s' a l :
  NoDup l -> (forall x, x ∈ l -> a <> Next x) ->
  (forall x, x ∈ l -> pprev s' x = pprev s x) -> (forall c, c <> hend a l -> c = a \/ (exists x, x ∈ l /\ c = Next x) -> deref s' c = deref s c) ->
  hseg s a l -> hseg s' a l.
Proof.
  revert a. induction l as [|x l IH]; intros a Hd Ha Hp Hc; cbn; [easy|]. intros (E & Hx & Hs).
  apply NoDup_cons in Hd as [Hxl Hd]. split_and!.
  - rewrite Hc; auto. cbn. destruct (hend_in (Next x) l) as [->|(y & Hy & ->)]; apply Ha; [left|now right].
  - rewrite Hp; [auto|left].
  - apply IH; auto.
    + intros y Hy [= <-]. contradiction.
    + intros y Hy. apply Hp. now right.
    + intros c Hne [->|(y & Hy & ->)]; apply Hc; auto; right; eexists; (split; [|reflexivity]); [left|now right].
Qed.

(** A chain is moved to another slot. *)
Lemma hchain_move s s' b b' l :
  hchain s b l -> NoDup l -> deref s' b' = head l -> (forall x, head l = Some x -> pprev s' x = Some b') ->
  (forall x, x ∈ l -> hnext s' x = hnext s x) -> (forall x, x ∈ tail l -> pprev s' x = pprev s x) -> hchain s' b' l.
Proof.
  intros Hc Hd Hb Hp Hn Ht. destruct l as [|x l]; [exact Hb|]. cbn in *. destruct Hc as (_ & _ & Hc). split_and!; auto.
  eapply hchain_frame; [| |exact Hc].
  - apply Hn. left.
  - intros y Hy. split; [apply Hn; now right|now apply Ht].
Qed.

(** ** The operations on sequences *)

Lemma deref_put_eq s p v : deref (put s p v) p = v.
Proof. destruct p; apply fn_lookup_insert. Qed.
Lemma deref_put_ne s p v c : c <> p -> deref (put s p v) c = deref s c.
Proof. destruct p, c; cbn; intros Hc; rewrite ?fn_lookup_insert_ne by congruence; easy. Qed.
Lemma pprev_put s p v : pprev (put s p v) = pprev s.
Proof. now destruct p. Qed.
Lemma deref_fix_pprev s p v c : deref (fix_pprev s p v) c = deref s c.
Proof. now destruct p. Qed.
Lemma fix_pprev_first s p v h : first (fix_pprev s p v) h = first s h.
Proof. now destruct p. Qed.
Lemma fix_pprev_hnext s p v n : hnext (fix_pprev s p v) n = hnext s n.
Proof. now destruct p. Qed.
Lemma fix_pprev_eq s n v : pprev (fix_pprev s (Some n) v) n = v.
Proof. cbn. apply fn_lookup_insert. Qed.
Lemma fix_pprev_ne s p v n : p <> Some n -> pprev (fix_pprev s p v) n = pprev s n.
Proof. destruct p as [m|]; [|easy]. cbn. intros Hm. apply fn_lookup_insert_ne. congruence. Qed.

Lemma hend_fresh h l x : x ∉ l -> Next x <> hend (First h) l.
Proof. intros Hx E. destruct (hend_in (First h) l) as [Hb|(z & Hz & Hb)]; rewrite Hb in E; [discriminate|]. injection E as ->. contradiction. Qed.

(** A node [y] is linked in between [l1] and [l2]. *)
Definition linked (s s' : hheap) (b : hslot) (y : N) (nxt : option N) : Prop :=
  deref s' b = Some y /\ hnext s' y = nxt /\ pprev s' y = Some b /\
  (forall x, nxt = Some x -> pprev s' x = Some (Next y)) /\
  (forall c, c <> b -> c <> Next y -> deref s' c = deref s c) /\
  (forall x, x <> y -> nxt <> Some x -> pprev s' x = pprev s x).

Lemma hlist_linked s s' h l1 l2 y :
  hlist s h (l1 ++ l2) -> y ∉ l1 ++ l2 -> linked s s' (hend (First h) l1) y (head l2) ->
  hlist s' h (l1 ++ y :: l2) /\ hsame [h] (y :: l1 ++ l2) s s'.
Proof.
  intros [Hd Hc] Hy (Lb & Ln & Lp & Lx & Lc & Lq). apply hchain_app in Hc as [Hs1 Hc]. apply not_elem_of_app in Hy as [Hy1 Hy2].
  apply NoDup_app in Hd as (Hd1 & Hd12 & Hd2). set (b := hend (First h) l1) in *.
  assert (Hhd : forall x, head l2 = Some x -> x ∈ l2) by (intros x Hx; destruct l2; [easy|injection Hx as ->; left]).
  assert (Hb : forall x, x ∈ y :: l2 -> Next x <> b) by (intros x [->|Hx]%elem_of_cons; apply hend_fresh; [auto|intros Hx'; exact (Hd12 x Hx' Hx)]).
  split; [split|split].
  - apply NoDup_app. split_and!; auto; [|now constructor]. intros x Hx [->|Hx']%elem_of_cons; [contradiction|exact (Hd12 x Hx Hx')].
  - apply hchain_app. split; [|cbn; split_and!; auto].
    + eapply hseg_frame; [exact Hd1|easy| | |exact Hs1].
      * intros x Hx. apply Lq; [intros ->; contradiction|]. intros E. exact (Hd12 x Hx (Hhd x E)).
      * intros c Hc' Hc2. apply Lc; [auto|]. destruct Hc2 as [->|(x & Hx & ->)]; [easy|]. intros [= ->]. contradiction.
    + eapply hchain_move; [exact Hc|exact Hd2|exact Ln|exact Lx| |].
      * intros x Hx. apply (Lc (Next x)); [apply Hb; now right|]. intros [= ->]. contradiction.
      * intros x Hx. destruct l2 as [|z l2]; [now apply not_elem_of_nil in Hx|]. apply NoDup_cons in Hd2 as [Hz _].
        apply Lq; [intros ->; apply Hy2; now right|]. cbn. intros [= ->]. contradiction.
  - intros h' Hh. apply (Lc (First h')); [|easy]. unfold b. destruct (hend_in (First h) l1) as [->|(z & _ & ->)]; [|easy]. intros [= ->]. apply Hh. left.
  - intros m Hm. rewrite not_elem_of_cons, not_elem_of_app in Hm. destruct Hm as (Hmy & Hm1 & Hm2). split.
    + apply (Lc (Next m)); [now apply hend_fresh|congruence].
    + apply Lq; [auto|]. intros E. exact (Hm2 (Hhd m E)).
Qed.

Lemma hlist_add_head_spec s n h l :
  hlist s h l -> n ∉ l ->
  hlist (hlist_add_head s n h) h (n :: l) /\ hsame [h] (n :: l) s (hlist_add_head s n h).
Proof.
  intros Hl Hn. apply (hlist_linked s _ h [] l n Hl Hn). unfold hlist_add_head. rewrite (hlist_head _ _ _ Hl).
  assert (Hhd : forall x, head l = Some x -> n <> x) by (intros x Hx <-; destruct l; [easy|injection Hx as ->; apply Hn; left]).
  unfold linked. cbn [hend deref set_pprev set_first first hnext pprev]. rewrite !fn_lookup_insert, fix_pprev_hnext.
  cbn [set_hnext hnext]. rewrite fn_lookup_insert. split_and!; auto.
  - intros x Hx. rewrite fn_lookup_insert_ne by auto. rewrite Hx. apply fix_pprev_eq.
  - intros [h'|m] H1 H2; cbn; [rewrite fn_lookup_insert_ne by congruence; now rewrite fix_pprev_first|].
    rewrite fix_pprev_hnext. cbn. apply fn_lookup_insert_ne. congruence.
  - intros x H1 H2. rewrite fn_lookup_insert_ne by auto. now rewrite fix_pprev_ne.
Qed.

Lemma hlist_add_before_spec s n h l1 x l2 :
  hlist s h (l1 ++ x :: l2) -> n ∉ l1 ++ x :: l2 ->
  exists s', hlist_add_before s n x = Some s' /\ hlist s' h (l1 ++ n :: x :: l2) /\ hsame [h] (n :: l1 ++ x :: l2) s s'.
Proof.
  intros Hl Hn. pose proof (proj2 Hl) as Hc. apply hchain_app in Hc as [_ (_ & Hp & _)].
  assert (Hnx : n <> x) by (intros ->; apply Hn; rewrite elem_of_app, elem_of_cons; auto).
  assert (Hbn : hend (First h) l1 <> Next n) by (apply not_eq_sym, hend_fresh; rewrite not_elem_of_app in Hn; tauto).
  unfold hlist_add_before. rewrite Hp. cbn [set_pprev set_hnext pprev]. rewrite fn_lookup_insert_ne, fn_lookup_insert by auto.
  cbn [store_slot]. eexists. split; [reflexivity|]. apply (hlist_linked s _ h l1 (x :: l2) n Hl Hn).
  unfold linked. cbn [head]. rewrite deref_put_eq, pprev_put. split_and!; auto.
  - match goal with |- hnext ?w n = _ => change (deref w (Next n) = Some x) end. rewrite deref_put_ne by auto. cbn. apply fn_lookup_insert.
  - cbn. rewrite fn_lookup_insert_ne by auto. apply fn_lookup_insert.
  - intros y [= <-]. cbn. apply fn_lookup_insert.
  - intros c H1 H2. rewrite deref_put_ne by auto. destruct c as [h'|m]; [easy|]. cbn. apply fn_lookup_insert_ne. congruence.
  - intros y H1 H2. cbn. rewrite !fn_lookup_insert_ne by congruence. easy.
Qed.

Lemma hlist_add_after_spec s x n h l1 l2 :
  hlist s h (l1 ++ x :: l2) -> n ∉ l1 ++ x :: l2 ->
  hlist (hlist_add_after s x n) h (l1 ++ x :: n :: l2) /\ hsame [h] (n :: l1 ++ x :: l2) s (hlist_add_after s x n).
Proof.
  intros Hl Hn. pose proof (proj2 Hl) as Hc. apply hchain_app in Hc as [_ (_ & _ & Hc)].
  assert (Hx : hnext s x = head l2) by (destruct l2; [exact Hc|apply Hc]).
  assert (Hnx : x <> n) by (intros ->; apply Hn; rewrite elem_of_app, elem_of_cons; auto).
  assert (Hhd : forall y, head l2 = Some y -> n <> y).
  { intros y Hy <-. destruct l2; [easy|injection Hy as ->]. apply Hn. rewrite elem_of_app, !elem_of_cons. auto. }
  replace (l1 ++ x :: l2) with ((l1 ++ [x]) ++ l2) in * by now rewrite <- app_assoc.
  replace (l1 ++ x :: n :: l2) with ((l1 ++ [x]) ++ n :: l2) by now rewrite <- app_assoc.
  apply (hlist_linked s _ h _ l2 n Hl Hn). rewrite hend_snoc. unfold hlist_add_after, linked. cbn [set_pprev set_hnext hnext].
  rewrite (fn_lookup_insert_ne (<[n:=_]> _)), fn_lookup_insert, Hx by auto. rewrite deref_fix_pprev, fix_pprev_hnext. cbn [deref hnext].
  split_and!.
  - apply fn_lookup_insert.
  - cbn. rewrite fn_lookup_insert_ne by auto. apply fn_lookup_insert.
  - rewrite fix_pprev_ne by (intros E; now apply (Hhd n)). cbn. apply fn_lookup_insert.
  - intros y Hy. rewrite Hy. apply fix_pprev_eq.
  - intros c H1 H2. rewrite deref_fix_pprev. destruct c as [h'|m]; [easy|]. cbn. now rewrite !fn_lookup_insert_ne by congruence.
  - intros y H1 H2. rewrite fix_pprev_ne by auto. cbn. now rewrite fn_lookup_insert_ne by auto.
Qed.

Lemma hlist_move_list_spec s old new l :
  hlist s old l -> old <> new ->
  hlist (hlist_move_list s old new) new l /\ hlist (hlist_move_list s old new) old [] /\ hsame [old; new] l s (hlist_move_list s old new).
Proof.
  intros Hl Hne. pose proof (hlist_head _ _ _ Hl) as Hh. destruct Hl as [Hd Hc]. unfold hlist_move_list. rewrite Hh.
  cbn [set_first first]. rewrite fn_lookup_insert. split_and!; [split; [auto|]|split; [constructor|]|split].
  - eapply hchain_move; [exact Hc|exact Hd| | | |].
    + cbn. rewrite fn_lookup_insert_ne by auto. rewrite fix_pprev_first. cbn. apply fn_lookup_insert.
    + intros x Hx. cbn. rewrite Hx. apply fix_pprev_eq.
    + intros x Hx. cbn. now rewrite fix_pprev_hnext.
    + intros x Hx. cbn. destruct l as [|y l]; [easy|]. apply NoDup_cons in Hd as [Hy _]. rewrite fix_pprev_ne; [easy|]. cbn. intros [= ->]. contradiction.
  - cbn. apply fn_lookup_insert.
  - intros h Hh'. rewrite !not_elem_of_cons in Hh'. cbn. rewrite fn_lookup_insert_ne by naive_solver. rewrite fix_pprev_first. cbn. apply fn_lookup_insert_ne. naive_solver.
  - intros x Hx. cbn. rewrite fix_pprev_hnext, fix_pprev_ne; [easy|]. destruct l; [easy|]. cbn. intros [= ->]. apply Hx. left.
Qed.

(** Removing a node. *)
Lemma __hlist_del_spec s h l1 x l2 :
  hlist s h (l1 ++ x :: l2) ->
  exists s', __hlist_del s x = Some s' /\ hlist s' h (l1 ++ l2) /\ hsame [h] (l1 ++ l2) s s'.
Proof.
  intros [Hd Hc]. apply hchain_app in Hc as [Hs1 Hc]. cbn in Hc. destruct Hc as (Hx & Hp & Hc).
  apply NoDup_app in Hd as (Hd1 & Hd12 & Hd2). apply NoDup_cons in Hd2 as [Hx2 Hd2].
  assert (Hl12 : forall y, y ∈ l1 -> y ∉ l2) by (intros y Hy Hy'; apply (Hd12 y Hy); now right).
  assert (Hn : hnext s x = head l2) by (destruct l2; [exact Hc|apply Hc]).
  assert (Hhd : forall y, head l2 = Some y -> y ∈ l2) by (intros y Hy; destruct l2; [easy|injection Hy as ->; left]).
  unfold __hlist_del. rewrite Hp, Hn. cbn [store_slot mbind option_bind]. set (b := hend (First h) l1) in *.
  assert (Hb : forall y, y ∈ l2 -> Next y <> b) by (intros y Hy; apply hend_fresh; intros Hy'; exact (Hl12 y Hy' Hy)).
  eexists. split; [reflexivity|]. split; [split|split].
  - apply NoDup_app. auto.
  - apply hchain_app. split.
    + eapply hseg_frame; [exact Hd1|easy| | |exact Hs1].
      * intros y Hy. rewrite fix_pprev_ne, pprev_put; [easy|]. intros E. exact (Hl12 y Hy (Hhd y E)).
      * intros c Hc' _. now rewrite deref_fix_pprev, deref_put_ne.
    + eapply hchain_move; [exact Hc|exact Hd2| | | |].
      * rewrite deref_fix_pprev. apply deref_put_eq.
      * intros y Hy. rewrite Hy. apply fix_pprev_eq.
      * intros y Hy. rewrite fix_pprev_hnext. change (deref (put s b (head l2)) (Next y) = deref s (Next y)). apply deref_put_ne. auto.
      * intros y Hy. rewrite fix_pprev_ne, pprev_put; [easy|]. destruct l2 as [|z l2]; [easy|]. cbn in *. intros [= ->].
        apply NoDup_cons in Hd2 as [Hy' _]. contradiction.
  - intros h' Hh. rewrite fix_pprev_first. change (deref (put s b (head l2)) (First h') = deref s (First h')). apply deref_put_ne.
    unfold b. destruct (hend_in (First h) l1) as [->|(z & _ & ->)]; [|easy]. intros [= ->]. apply Hh. left.
  - intros m Hm. apply not_elem_of_app in Hm as [Hm1 Hm2]. rewrite fix_pprev_hnext, fix_pprev_ne, pprev_put by auto. split; [|easy].
    change (deref (put s b (head l2)) (Next m) = deref s (Next m)). apply deref_put_ne. now apply hend_fresh.
Qed.

Lemma hlist_set_other s h l x p q : x ∉ l -> hlist s h l -> hlist (set_pprev (set_hnext s x p) x q) h l.
Proof.
  intros Hx. apply (hlist_frame _ _ [] [x]); [split|apply not_elem_of_nil|].
  - easy.
  - intros n Hn. apply not_elem_of_cons in Hn as [Hn _]. cbn. now rewrite !fn_lookup_insert_ne by auto.
  - intros n Hn Hx'. apply list_elem_of_singleton in Hx'. now subst.
Qed.

Lemma NoDup_not_in {A} (l1 : list A) x l2 : NoDup (l1 ++ x :: l2) -> x ∉ l1 ++ l2.
Proof. intros Hd. apply (NoDup_Permutation_proper _ (x :: l1 ++ l2)) in Hd; [now apply NoDup_cons in Hd|apply Permutation_sym, Permutation_middle]. Qed.

Lemma elem_of_middle {A} (l1 l2 : list A) n m : m ∈ l1 ++ n :: l2 <-> m = n \/ m ∈ l1 ++ l2.
Proof. rewrite !elem_of_app, elem_of_cons. tauto. Qed.

Lemma hlist_del_spec p q s h l1 x l2 :
  hlist s h (l1 ++ x :: l2) ->
  exists s', hlist_del p q s x = Some s' /\ hlist s' h (l1 ++ l2) /\ hnext s' x = p /\ pprev s' x = q /\ hsame [h] (l1 ++ x :: l2) s s'.
Proof.
  intros Hl. destruct (__hlist_del_spec _ _ _ _ _ Hl) as (s1 & E & H1 & [H2 H3]). unfold hlist_del. rewrite E. cbn [mbind option_bind].
  eexists. split; [reflexivity|]. pose proof (NoDup_not_in _ _ _ (proj1 Hl)) as Hx. split_and!.
  - now apply hlist_set_other.
  - cbn. apply fn_lookup_insert.
  - cbn. apply fn_lookup_insert.
  - split; [exact H2|]. intros n Hn. rewrite not_elem_of_app, not_elem_of_cons in Hn. cbn. rewrite !fn_lookup_insert_ne by naive_solver.
    apply H3. rewrite not_elem_of_app. tauto.
Qed.

Lemma hlist_pprev s h l x : hlist s h l -> x ∈ l -> pprev s x <> None.
Proof.
  intros [_ Hc] Hx. apply list_elem_of_split in Hx as (l1 & l2 & ->). apply hchain_app in Hc as [_ (_ & Hp & _)]. now rewrite Hp.
Qed.

Lemma hlist_del_init_spec s h l1 x l2 :
  hlist s h (l1 ++ x :: l2) ->
  exists s', hlist_del_init s x = Some s' /\ hlist s' h (l1 ++ l2) /\ hlist_unhashed s' x = true /\ hsame [h] (l1 ++ x :: l2) s s'.
Proof.
  intros Hl. unfold hlist_del_init, hlist_unhashed. rewrite bool_decide_eq_false_2 by (eapply hlist_pprev; [exact Hl|rewrite elem_of_app, elem_of_cons; auto]).
  destruct (hlist_del_spec None None s h l1 x l2 Hl) as (s' & E & H1 & _ & H2 & H3). exists s'. split_and!; auto.
  now rewrite bool_decide_eq_true.
Qed.

(** ** Loops *)

Lemma hlist_walk_spec fuel s a l : hchain s a l -> (length l < fuel)%nat -> hlist_walk fuel s (deref s a) = Some l.
Proof.
  revert fuel a. induction l as [|x l IH]; intros [|fuel] a Hc Hf; cbn in *; try lia.
  - now rewrite Hc.
  - destruct Hc as (-> & _ & Hc). change (hnext s x) with (deref s (Next x)). now rewrite (IH fuel (Next x) Hc) by lia.
Qed.

Lemma hlist_search_spec fuel p s a l : hchain s a l -> (length l < fuel)%nat ->
  hlist_search fuel p s (deref s a) = Some (head (filter (fun x => p x = true) l)).
Proof.
  revert fuel a. induction l as [|x l IH]; intros [|fuel] a Hc Hf; cbn [hlist_search length hchain] in *; try lia.
  - now rewrite Hc.
  - destruct Hc as (-> & _ & Hc). rewrite filter_cons. destruct (p x) eqn:E; [now rewrite decide_True by easy|].
    rewrite decide_False by easy. change (hnext s x) with (deref s (Next x)). apply (IH fuel (Next x) Hc). lia.
Qed.

(** ** Hash tables *)

Lemma hash_min_range key bits : 0 <= bits <= 32 -> 0 <= hash_min key bits < 2 ^ bits.
Proof.
  intros Hb. unfold hash_min, hash_32, __hash_32. rewrite Z.shiftr_div_pow2 by lia.
  pose proof (Z.mod_pos_bound (key * GOLDEN_RATIO_32) (2 ^ 32) ltac:(lia)) as Hw. fold (wrap32 (key * GOLDEN_RATIO_32)) in Hw. split; [apply Z.div_pos; lia|]. apply Z.div_lt_upper_bound; [lia|].
  rewrite <- Z.pow_add_r by lia. replace (32 - bits + bits) with 32 by lia. lia.
Qed.

Section table.
Context (ht : Z -> H) (bits : Z) (Hbits : 0 <= bits <= 32).
Context (Hinj : forall i j, 0 <= i < 2 ^ bits -> 0 <= j < 2 ^ bits -> ht i = ht j -> i = j).

(** The table holds the nodes [ns], each in the bucket of its key. *)
Definition hash_rep (key : N -> Z) (s : hheap) (ns : list N) : Prop :=
  NoDup ns /\ forall i, 0 <= i < 2 ^ bits ->
    exists l, hlist s (ht i) l /\ forall n, n ∈ l <-> n ∈ ns /\ hash_min (key n) bits = i.

Lemma hash_init_bucket s sz i : 0 <= i < Z.of_nat sz -> first (__hash_init s ht sz) (ht i) = None.
Proof.
  induction sz as [|sz IH]; [lia|]. intros Hi. cbn. destruct (decide (ht i = ht (Z.of_nat sz))) as [E|E].
  - rewrite E. apply fn_lookup_insert.
  - rewrite fn_lookup_insert_ne by auto. apply IH. destruct (Z.eq_dec i (Z.of_nat sz)) as [->|]; [easy|lia].
Qed.

Lemma hash_init_rep key s : hash_rep key (__hash_init s ht (Z.to_nat (2 ^ bits))) [].
Proof.
  split; [constructor|]. intros i Hi. exists []. split; [split; [constructor|]|].
  - cbn. apply hash_init_bucket. rewrite Z2Nat.id by lia. lia.
  - intros n. split; [easy|]. now intros [Hn%not_elem_of_nil _].
Qed.

Lemma hash_rep_frame key s s' hs ns' ns :
  hsame hs ns' s s' -> (forall i, 0 <= i < 2 ^ bits -> ht i ∉ hs) -> (forall n, n ∈ ns -> n ∉ ns') ->
  hash_rep key s ns -> hash_rep key s' ns.
Proof.
  intros Hs Hh Hn [Hd Hr]. split; [auto|]. intros i Hi. destruct (Hr i Hi) as (l & Hl & Hm). exists l. split; [|auto].
  eapply hlist_frame; eauto. intros n Hin. apply Hn. now apply Hm in Hin as [? _].
Qed.

Lemma hash_rep_key key key' s ns : (forall n, n ∈ ns -> key' n = key n) -> hash_rep key s ns -> hash_rep key' s ns.
Proof.
  intros Hk [Hd Hr]. split; [auto|]. intros i Hi. destruct (Hr i Hi) as (l & Hl & Hm). exists l. split; [auto|].
  intros n. rewrite Hm. split; intros [H1 H2]; (split; [auto|]); [rewrite Hk|rewrite <- Hk]; auto.
Qed.

Lemma hash_add_rep key s ns n : hash_rep key s ns -> n ∉ ns -> hash_rep key (hash_add s ht bits n (key n)) (n :: ns).
Proof.
  intros [Hd Hr] Hn. split; [now constructor|]. intros i Hi. set (j := hash_min (key n) bits).
  assert (Hj : 0 <= j < 2 ^ bits) by now apply hash_min_range. destruct (Hr j Hj) as (l & Hl & Hm).
  assert (Hnl : n ∉ l) by (rewrite Hm; tauto). destruct (hlist_add_head_spec s n (ht j) l Hl Hnl) as [H1 H2].
  unfold hash_add. fold j. destruct (Z.eq_dec i j) as [->|Hij].
  - exists (n :: l). split; [auto|]. intros m. rewrite !elem_of_cons, Hm. naive_solver.
  - destruct (Hr i Hi) as (l' & Hl' & Hm'). exists l'. split.
    + eapply hlist_frame; [exact H2| | |exact Hl']; [rewrite list_elem_of_singleton; intros E; apply Hij; now apply Hinj|].
      intros m Hm1 [->|Hm2]%elem_of_cons; [apply Hm' in Hm1; tauto|]. apply Hm' in Hm1. apply Hm in Hm2. naive_solver.
    + intros m. rewrite Hm', elem_of_cons. split; [tauto|]. intros [[->|?] E]; [now destruct Hij|auto].
Qed.

Lemma hash_del_rep key s ns n ns1 ns2 : ns = ns1 ++ n :: ns2 -> hash_rep key s ns ->
  exists s', hash_del s n = Some s' /\ hash_rep key s' (ns1 ++ ns2) /\ hlist_unhashed s' n = true.
Proof.
  intros -> [Hd Hr]. set (j := hash_min (key n) bits). assert (Hj : 0 <= j < 2 ^ bits) by now apply hash_min_range.
  destruct (Hr j Hj) as (l & Hl & Hm). assert (Hnl : n ∈ l) by (rewrite Hm, elem_of_app, elem_of_cons; auto).
  apply list_elem_of_split in Hnl as (l1 & l2 & ->). destruct (hlist_del_init_spec s (ht j) l1 n l2 Hl) as (s' & E & H1 & Hu & H2).
  exists s'. split_and!; auto. pose proof (NoDup_not_in _ _ _ Hd) as Hno. pose proof (NoDup_not_in _ _ _ (proj1 Hl)) as Hno'. split.
  - apply (NoDup_Permutation_proper _ (n :: ns1 ++ ns2)) in Hd; [now apply NoDup_cons in Hd|apply Permutation_sym, Permutation_middle].
  - intros i Hi. destruct (Z.eq_dec i j) as [->|Hij].
    + exists (l1 ++ l2). split; [auto|]. intros m. specialize (Hm m). rewrite !elem_of_middle in Hm.
      destruct (decide (m = n)) as [->|Hmn]; [tauto|]. split; [intros Hin|intros [Hin Em]]; [destruct (proj1 Hm (or_intror Hin)); tauto|].
      destruct (proj2 Hm (conj (or_intror Hin) Em)); [contradiction|auto].
    + destruct (Hr i Hi) as (l' & Hl' & Hm'). exists l'. split.
      * eapply hlist_frame; [exact H2| | |exact Hl']; [rewrite list_elem_of_singleton; intros Eh; apply Hij; now apply Hinj|].
        intros m Hm1 Hm2. apply Hm' in Hm1. apply Hm in Hm2. naive_solver.
      * intros m. rewrite Hm', elem_of_middle. split; [|tauto]. intros [[->|?] Ei]; [now destruct Hij|auto].
Qed.

(** The loop over the bucket of a key. *)
Lemma hash_search_spec fuel p key s ns k : hash_rep key s ns -> (length ns < fuel)%nat ->
  exists r, hash_for_each_possible fuel p s ht bits k = Some r /\
    match r with
    | Some n => n ∈ ns /\ p n = true /\ hash_min (key n) bits = hash_min k bits
    | None => forall n, n ∈ ns -> hash_min (key n) bits = hash_min k bits -> p n = false
    end.
Proof.
  intros [Hd Hr] Hf. destruct (Hr (hash_min k bits)) as (l & [Hdl Hc] & Hm); [now apply hash_min_range|].
  assert (Hlen : (length l <= length ns)%nat) by (apply submseteq_length, NoDup_submseteq; [auto|]; intros n Hn; now apply Hm in Hn as [? _]).
  unfold hash_for_each_possible. exists (head (filter (fun x => p x = true) l)).
  split; [apply (hlist_search_spec fuel p s (First (ht (hash_min k bits))) l Hc); lia|].
  destruct (filter _ l) as [|n r] eqn:E; cbn.
  - intros n Hn Hk. destruct (p n) eqn:Ep; [|easy]. assert (Hin : n ∈ filter (fun x => p x = true) l) by (apply list_elem_of_filter; split; [auto|now apply Hm]).
    rewrite E in Hin. now apply not_elem_of_nil in Hin.
  - assert (Hin : n ∈ filter (fun x => p x = true) l) by (rewrite E; left). apply list_elem_of_filter in Hin as [Hp Hin]. apply Hm in Hin. tauto.
Qed.

(** Looking up by the key itself. *)
Lemma hash_lookup_spec fuel key s ns k : hash_rep key s ns -> (length ns < fuel)%nat ->
  exists r, hash_for_each_possible fuel (fun n => key n =? k) s ht bits k = Some r /\
    match r with Some n => n ∈ ns /\ key n = k | None => forall n, n ∈ ns -> key n <> k end.
Proof.
  intros Hr Hf. destruct (hash_search_spec fuel (fun n => key n =? k) key s ns k Hr Hf) as (r & E & H1). exists r. split; [exact E|].
  destruct r as [n|]; [destruct H1 as (? & ?%Z.eqb_eq & _); auto|]. intros n Hn Hk. specialize (H1 n Hn ltac:(now rewrite Hk)). apply Z.eqb_neq in H1. contradiction.
Qed.

(** A bucket is no longer than the table. *)
Lemma hash_bucket key s ns i : hash_rep key s ns -> 0 <= i < 2 ^ bits ->
  exists l, hlist s (ht i) l /\ (length l <= length ns)%nat /\ forall n, n ∈ l <-> n ∈ ns /\ hash_min (key n) bits = i.
Proof.
  intros [Hd Hr] Hi. destruct (Hr i Hi) as (l & Hl & Hm). exists l. split; [exact Hl|]. split; [|exact Hm].
  apply submseteq_length, NoDup_submseteq; [apply Hl|]. intros n Hn. now apply Hm in Hn as [? _].
Qed.

Lemma hash_for_each_from fuel key s ns : hash_rep key s ns -> (length ns < fuel)%nat -> forall left i, 0 <= i -> i + Z.of_nat left = 2 ^ bits ->
  exists l, hash_for_each fuel s ht i left = Some l /\ NoDup l /\ forall n, n ∈ l <-> n ∈ ns /\ i <= hash_min (key n) bits.
Proof.
  intros Hr Hf. induction left as [|left IH]; intros i Hi Hs; cbn [hash_for_each].
  - exists []. split; [easy|]. split; [constructor|]. intros n. split; [intros Hn; now apply not_elem_of_nil in Hn|]. pose proof (hash_min_range (key n) bits Hbits). lia.
  - destruct (hash_bucket key s ns i Hr ltac:(lia)) as (l & [Hd Hc] & Hlen & Hm). destruct (IH (i + 1)) as (r & E & Hdr & Hr'); [lia|lia|].
    unfold hlist_for_each. change (first s (ht i)) with (deref s (First (ht i))). rewrite (hlist_walk_spec fuel s (First (ht i)) l Hc), E by lia. cbn [mbind option_bind].
    exists (l ++ r). split; [easy|]. split.
    + apply NoDup_app. split_and!; auto. intros n Hn Hn'. apply Hm in Hn as [_ Hn]. apply Hr' in Hn' as [_ Hn']. lia.
    + intros n. rewrite elem_of_app, Hm, Hr'. split; [intros [[? ?]|[? ?]]; split; auto; lia|]. intros [? ?]. destruct (Z.eq_dec (hash_min (key n) bits) i); [left; auto|right; split; [auto|lia]].
Qed.

(** [hash_for_each] meets every entry once. *)
Lemma hash_for_each_spec fuel key s ns : hash_rep key s ns -> (length ns < fuel)%nat ->
  exists l, hash_for_each fuel s ht 0 (Z.to_nat (2 ^ bits)) = Some l /\ NoDup l /\ forall n, n ∈ l <-> n ∈ ns.
Proof.
  intros Hr Hf. pose proof (Z.pow_pos_nonneg 2 bits ltac:(lia) ltac:(lia)). destruct (hash_for_each_from fuel key s ns Hr Hf (Z.to_nat (2 ^ bits)) 0) as (l & E & Hd & Hl); [lia|lia|].
  exists l. split; [exact E|]. split; [exact Hd|]. intros n. rewrite Hl. pose proof (hash_min_range (key n) bits Hbits). split; [tauto|]. intros; split; [auto|lia].
Qed.

Lemma hash_first_of_each fuel p key s ns : hash_rep key s ns -> (length ns < fuel)%nat -> forall left i l, 0 <= i -> i + Z.of_nat left = 2 ^ bits ->
  hash_for_each fuel s ht i left = Some l -> hash_for_each_first fuel p s ht i left = Some (head (filter (fun n => p n = true) l)).
Proof.
  intros Hr Hf. induction left as [|left IH]; intros i l Hi Hs E; cbn [hash_for_each hash_for_each_first] in *; [now injection E as <-|].
  destruct (hash_bucket key s ns i Hr ltac:(lia)) as (b & [Hd Hc] & Hlen & Hm). unfold hlist_for_each in E. change (first s (ht i)) with (deref s (First (ht i))) in *.
  rewrite (hlist_walk_spec fuel s (First (ht i)) b Hc) in E by lia. cbn [mbind option_bind] in E. destruct (hash_for_each fuel s ht (i + 1) left) as [r|] eqn:Er; [|discriminate E].
  cbn [mbind option_bind] in E. injection E as <-. rewrite (hlist_search_spec fuel p s (First (ht i)) b Hc) by lia. cbn [mbind option_bind]. rewrite filter_app.
  destruct (filter _ b) as [|n l]; [|easy]. cbn [head app]. apply IH; [lia|lia|easy].
Qed.

(** The first entry that satisfies [p], if there is one. *)
Lemma hash_for_each_first_spec fuel p key s ns : hash_rep key s ns -> (length ns < fuel)%nat ->
  exists r, hash_for_each_first fuel p s ht 0 (Z.to_nat (2 ^ bits)) = Some r /\
    match r with Some n => n ∈ ns /\ p n = true | None => forall n, n ∈ ns -> p n = false end.
Proof.
  intros Hr Hf. destruct (hash_for_each_spec fuel key s ns Hr Hf) as (l & E & _ & Hl). pose proof (Z.pow_pos_nonneg 2 bits ltac:(lia) ltac:(lia)).
  exists (head (filter (fun n => p n = true) l)). split; [apply (hash_first_of_each fuel p key s ns Hr Hf); auto; lia|].
  destruct (filter _ l) as [|n r] eqn:Ef; cbn [head].
  - intros n Hn. destruct (p n) eqn:Ep; [|easy]. apply Hl in Hn. assert (Hin : n ∈ filter (fun x => p x = true) l) by (apply list_elem_of_filter; auto). rewrite Ef in Hin. now apply not_elem_of_nil in Hin.
  - assert (Hin : n ∈ filter (fun x => p x = true) l) by (rewrite Ef; left). apply list_elem_of_filter in Hin as [Hp Hin]. split; [now apply Hl|auto].
Qed.

Lemma hash_empty_spec key s ns : hash_rep key s ns -> __hash_empty s ht 0 (Z.to_nat (2 ^ bits)) = true <-> ns = [].
Proof.
  intros [Hd Hr].
  assert (G : forall left i, 0 <= i -> i + Z.of_nat left = 2 ^ bits ->
    __hash_empty s ht i left = true <-> forall j, i <= j < 2 ^ bits -> first s (ht j) = None).
  { induction left as [|left IH]; intros i Hi Hs; cbn [__hash_empty]; [split; [lia|easy]|].
    unfold hlist_empty. destruct (decide (first s (ht i) = None)) as [E|E].
    - rewrite bool_decide_eq_true_2 by auto. cbn [negb]. rewrite IH by lia. split; intros Hj j Hij; [|apply Hj; lia].
      destruct (Z.eq_dec j i) as [->|]; [auto|apply Hj; lia].
    - rewrite bool_decide_eq_false_2 by auto. cbn [negb]. split; [easy|]. intros Hj. destruct E. apply Hj. lia. }
  assert (0 < 2 ^ bits) by (apply Z.pow_pos_nonneg; lia). rewrite (G _ 0) by lia. split.
  - intros Hj. destruct ns as [|n ns]; [easy|]. set (j := hash_min (key n) bits). assert (Hb : 0 <= j < 2 ^ bits) by now apply hash_min_range.
    destruct (Hr j Hb) as (l & Hl & Hm). pose proof (hlist_head _ _ _ Hl) as Hh. rewrite Hj in Hh by lia.
    assert (Hin : n ∈ l) by (apply Hm; split; [left|easy]). destruct l; [now apply not_elem_of_nil in Hin|easy].
  - intros -> j Hj. destruct (Hr j ltac:(lia)) as (l & Hl & Hm). rewrite (hlist_head _ _ _ Hl). destruct l as [|x l]; [easy|].
    assert (Hx : x ∈ x :: l) by left. apply Hm in Hx as [Hx _]. now apply not_elem_of_nil in Hx.
Qed.
End table.
End hlist.
Arguments hheap : clear implicits.
Arguments hslot : clear implicits.

(** ** Properties *)

(** C35: the updates of single-headed lists implement the operations on sequences:
    adding at the head, before and after a node, deleting (also in the variant
    that marks the node as unhashed) and moving a list to another head; they touch
    only the nodes and heads of the list, and walking the list lists its nodes. *)
Theorem hlist_updates_refine {H N} `{EqDecision H} `{EqDecision N} (s : hheap H N) (h : H) (l1 l2 : list N) (x : N) :
  hlist s h (l1 ++ x :: l2) ->
  hlist_for_each (S (length (l1 ++ x :: l2))) s h = Some (l1 ++ x :: l2) /\
  (forall n, n ∉ l1 ++ x :: l2 ->
     (let s' := hlist_add_head s n h in hlist s' h (n :: l1 ++ x :: l2) /\ hsame [h] (n :: l1 ++ x :: l2) s s') /\
     (exists s', hlist_add_before s n x = Some s' /\ hlist s' h (l1 ++ n :: x :: l2) /\ hsame [h] (n :: l1 ++ x :: l2) s s') /\
     (let s' := hlist_add_after s x n in hlist s' h (l1 ++ x :: n :: l2) /\ hsame [h] (n :: l1 ++ x :: l2) s s')) /\
  (forall p q, exists s', hlist_del p q s x = Some s' /\ hlist s' h (l1 ++ l2) /\ hnext s' x = p /\ pprev s' x = q /\ hsame [h] (l1 ++ x :: l2) s s') /\
  (exists s', hlist_del_init s x = Some s' /\ hlist s' h (l1 ++ l2) /\ hlist_unhashed s' x = true /\ hsame [h] (l1 ++ x :: l2) s s') /\
  (forall new, h <> new -> let s' := hlist_move_list s h new in
     hlist s' new (l1 ++ x :: l2) /\ hlist s' h [] /\ hsame [h; new] (l1 ++ x :: l2) s s').
Proof.
  intros Hl. split_and!.
  - apply (hlist_walk_spec _ s (First h)); [apply Hl|lia].
  - intros n Hn. split; [now apply hlist_add_head_spec|]. split; [now apply hlist_add_before_spec|now apply hlist_add_after_spec].
  - intros p q. now apply hlist_del_spec.
  - now apply hlist_del_init_spec.
  - intros new Hne. now apply hlist_move_list_spec.
Qed.

Lemma hlist_updates_refine_witness :
  let s := hlist_add_head (hlist_add_head (HHeap (fun _ : Z => None) (fun _ : Z => None) (fun _ => None)) 2 0) 1 0 in
  exists s', hlist_add_before s 5 2 = Some s' /\ hlist s' 0 [1; 5; 2].
Proof.
  intros s. assert (H0 : hlist (HHeap (fun _ : Z => None) (fun _ : Z => None) (fun _ => None)) 0 []) by (split; [constructor|reflexivity]).
  assert (H1 : hlist s 0 [1; 2]).
  { apply hlist_add_head_spec; [apply (hlist_add_head_spec _ 2 0 [] H0), not_elem_of_nil|]. intros Hx%list_elem_of_singleton. discriminate Hx. }
  destruct (hlist_updates_refine s 0 [1] [] 2 H1) as (_ & H & _). destruct (H 5) as (_ & (s' & E & Hs & _) & _).
  - intros Hx. apply elem_of_cons in Hx as [Hx|Hx%list_elem_of_singleton]; discriminate Hx.
  - exists s'. split; [exact E|exact Hs].
Defined.
