(* ===== verification/Process.v ===== *)
(** * Processes

    [struct proc_info] of include/uapi/sched.h with its reference count and its
    list of unused vRegions, and the two tables of processes: the one of the
    board (board/soc/core/sched.c) and the one of the monitor
    (host/main_monitor.c).  [ptable_inv] says that a table is well formed: its
    hash table holds exactly the live processes, each in the bucket of its id and
    with a positive reference count. *)

From stdpp Require Import functions.
From S2P Require Import Prelude Bitops DList Hlist RbTree Vma.

#[local] Set Warnings "-clear-no-such-hyp".

Definition ESRCH : Z := 3.

Definition NR_MAX_SYSTEM_PID : Z := 65535.
Definition NR_MAX_USER_PID : Z := 60000.

(** ** The structure *)

(** The location of [free_list_head]; region [j]'s [list] is at [j]. *)
Definition free_list_head : Z := -1.

(** The vRegions themselves are part of the state of the node that uses them. *)
Record proc_info := Proc {
  p_flags : Z; p_pid : Z; p_node : Z;
  refcount : Z;
  p_lists : heap Z;
  p_nr_vmas : Z;
  cached_vregion_index : Z;
  p_host_ip : Z;
}.
Definition set_pid (p : proc_info) (x : Z) : proc_info :=
  Proc (p_flags p) x (p_node p) (refcount p) (p_lists p) (p_nr_vmas p) (cached_vregion_index p) (p_host_ip p).
Definition set_refcount (p : proc_info) (x : Z) : proc_info :=
  Proc (p_flags p) (p_pid p) (p_node p) x (p_lists p) (p_nr_vmas p) (cached_vregion_index p) (p_host_ip p).
Definition set_lists (p : proc_info) (h : heap Z) : proc_info :=
  Proc (p_flags p) (p_pid p) (p_node p) (refcount p) h (p_nr_vmas p) (cached_vregion_index p) (p_host_ip p).
Definition set_cached_index (p : proc_info) (x : Z) : proc_info :=
  Proc (p_flags p) (p_pid p) (p_node p) (refcount p) (p_lists p) (p_nr_vmas p) x (p_host_ip p).
Definition set_host_ip (p : proc_info) (x : Z) : proc_info :=
  Proc (p_flags p) (p_pid p) (p_node p) (refcount p) (p_lists p) (p_nr_vmas p) (cached_vregion_index p) x.

Definition poison_list : Z := -2.

Definition __vregion_freelist_dequeue_head (p : proc_info) : Z * proc_info :=
  let v := next (p_lists p) free_list_head in
  (v, set_lists p (list_del poison_list poison_list (p_lists p) v)).

(** [None] is [NULL]. *)
Definition vregion_freelist_dequeue_head (p : proc_info) : option Z * proc_info :=
  if negb (list_empty (p_lists p) free_list_head) then
    let '(v, p) := __vregion_freelist_dequeue_head p in (Some v, p)
  else (None, p).

Definition vregion_freelist_enqueue_tail (p : proc_info) (v : Z) : proc_info :=
  set_lists p (list_add_tail (p_lists p) v free_list_head).

(** The loop of [init_proc_info] on the list, over [n] regions. *)
Fixpoint init_freelist (n : nat) (p : proc_info) : proc_info :=
  match n with
  | O => p
  | S j =>
      let p := init_freelist j p in
      if negb (Z.of_nat j =? 0) then vregion_freelist_enqueue_tail p (Z.of_nat j) else p
  end.

Definition init_proc_info (p : proc_info) : proc_info :=
  let p := Proc 0 0 0 1 (INIT_LIST_HEAD (p_lists p) free_list_head) 0 (cached_vregion_index p) (p_host_ip p) in
  init_freelist (Z.to_nat NR_VREGIONS) p.

(** ** Tables of processes *)

(** The hash table, the memory of the processes, and the addresses the allocator
    will return; the allocation fails when there is none left. *)
Record ptable := PTable {
  phash : hheap Z Z;
  pmem : Z -> proc_info;
  pavail : list Z;
}.
Definition set_phash (t : ptable) (s : hheap Z Z) : ptable := PTable s (pmem t) (pavail t).
Definition set_proc (t : ptable) (a : Z) (p : proc_info) : ptable := PTable (phash t) (<[a := p]> (pmem t)) (pavail t).
Definition set_pavail (t : ptable) (l : list Z) : ptable := PTable (phash t) (pmem t) l.
Definition pid_at (t : ptable) (a : Z) : Z := p_pid (pmem t a).

(** [None] is [BUG]. *)
Definition get_proc_info (t : ptable) (a : Z) : option ptable :=
  let r := refcount (pmem t a) in
  if r <? 1 then None else Some (set_proc t a (set_refcount (pmem t a) (sint32 (r + 1)))).

(** [free_proc] is the one of the board or of the monitor. *)
Definition put_proc_info (free_proc : ptable -> Z -> option ptable) (t : ptable) (a : Z) : option ptable :=
  let r := refcount (pmem t a) in
  let t := set_proc t a (set_refcount (pmem t a) (sint32 (r - 1))) in
  if r =? 1 then free_proc t a else Some t.

Section table.
(** [PID_ARRAY_HASH_BITS], and a bound on the length of the buckets. *)
Context (bits : Z) (fuel : nat).

Definition proc_hash_array : Z -> Z := fun i => i.

(** The process with an id; 0 is [NULL]. *)
Definition find_proc (t : ptable) (pid : Z) : option (option Z) :=
  hash_for_each_possible fuel (fun a => pid_at t a =? pid) (phash t) proc_hash_array bits pid.

Definition get_proc_by_pid (t : ptable) (pid : Z) : option (Z * ptable) :=
  r ← find_proc t pid;
  match r with
  | Some a => t ← get_proc_info t a; Some (a, t)
  | None => Some (0, t)
  end.

(** sched.c: the memory comes from [mmap] and is zero. *)
Definition zero_proc : proc_info := Proc 0 0 0 0 (Heap (fun _ => 0) (fun _ => 0)) 0 0 0.
Definition soc_alloc_proc (t : ptable) (pid host_ip : Z) : option (Z * ptable) :=
  match pavail t with
  | [] => Some (0, t)
  | new :: l =>
      let p := set_pid (init_proc_info zero_proc) pid in
      let p := if negb (host_ip =? 0) then set_host_ip p host_ip else p in
      let t := set_proc (set_pavail t l) new p in
      old ← find_proc t pid;
      match old with
      | Some _ => Some (0, t)
      | None => Some (new, set_phash t (hash_add (phash t) proc_hash_array bits new pid))
      end
  end.

(** [free] is the end of the object: nothing refers to it any more. *)
Definition soc_free_proc (t : ptable) (a : Z) : option ptable :=
  if a =? 0 then Some t
  else if negb (refcount (pmem t a) =? 0) then Some t
  else
    r ← find_proc t (pid_at t a);
    match r with
    | Some tsk => s ← hash_del (phash t) tsk; Some (set_phash t s)
    | None => Some t
    end.

(** main_monitor.c: the memory comes from [malloc]. *)
Definition mon_alloc_proc (t : ptable) (pid host_ip : Z) : Z * ptable :=
  match pavail t with
  | [] => (0, t)
  | new :: l =>
      let p := set_host_ip (set_pid (init_proc_info (pmem t new)) pid) host_ip in
      let t := set_proc (set_pavail t l) new p in
      (new, set_phash t (hash_add (phash t) proc_hash_array bits new pid))
  end.

Definition mon_free_proc (t : ptable) (a : Z) : option ptable :=
  if a =? 0 then Some t
  else if negb (refcount (pmem t a) =? 0) then Some t
  else
    r ← hash_for_each_possible fuel (fun x => x =? a) (phash t) proc_hash_array bits (pid_at t a);
    match r with
    | Some _ => s ← hash_del (phash t) a; Some (set_phash t s)
    | None => Some t
    end.
End table.

(** ** The list of unused regions *)

(** The unused regions of a process, in the order in which they are given out. *)
Definition unused (p : proc_info) (l : list Z) : Prop :=
  dlist (p_lists p) free_list_head l /\ forall v, v ∈ l -> 0 <= v.

Lemma unused_not_head p l : unused p l -> free_list_head ∉ l.
Proof. intros [_ Hl] Hin. specialize (Hl _ Hin). unfold free_list_head in Hl. lia. Qed.

Lemma enqueue_unused p l v : unused p l -> v ∉ l -> 0 <= v -> unused (vregion_freelist_enqueue_tail p v) (l ++ [v]).
Proof.
  intros [Hd Hl] Hv H0. split; [|intros w [?|?%list_elem_of_singleton]%elem_of_app; [auto|lia]].
  cbn. apply dlist_list_add_tail; auto. intros [E|?]%elem_of_cons; [unfold free_list_head in E; lia|contradiction].
Qed.

Lemma dequeue_unused p l : unused p l ->
  match vregion_freelist_dequeue_head p with
  | (Some v, p') => exists l', l = v :: l' /\ unused p' l' /\ p_pid p' = p_pid p /\ refcount p' = refcount p
  | (None, p') => l = [] /\ p' = p
  end.
Proof.
  intros [Hd Hl]. unfold vregion_freelist_dequeue_head. pose proof (dlist_list_empty _ _ _ Hd) as He.
  destruct (list_empty (p_lists p) free_list_head); cbn [negb]; [split; [now apply He|easy]|].
  destruct l as [|v l]; [discriminate (proj2 He eq_refl)|]. unfold __vregion_freelist_dequeue_head.
  rewrite (dlist_first _ _ _ Hd). cbn. exists l. split_and!; auto. split; [|intros w Hw; apply Hl; now right].
  cbn. apply (dlist_list_del poison_list poison_list _ _ [] v l Hd).
Qed.

Lemma init_freelist_unused n p : unused p [] ->
  unused (init_freelist n p) (seqZ 1 (Z.of_nat n - 1)) /\ p_pid (init_freelist n p) = p_pid p /\ refcount (init_freelist n p) = refcount p.
Proof.
  intros Hp. induction n as [|n IH]; [easy|]. cbn [init_freelist]. destruct IH as (IH & H1 & H2).
  destruct (Z.eqb_spec (Z.of_nat n) 0) as [E|E]; cbn [negb].
  - replace (seqZ 1 (Z.of_nat (S n) - 1)) with (seqZ 1 (Z.of_nat n - 1)); [auto|].
    rewrite !seqZ_nil by lia. easy.
  - replace (Z.of_nat (S n) - 1) with (Z.of_nat n - 1 + 1) by lia. rewrite seqZ_app by lia. replace (1 + (Z.of_nat n - 1)) with (Z.of_nat n) by lia.
    rewrite (seqZ_cons (Z.of_nat n) 1), (seqZ_nil _ (Z.pred 1)) by lia. split; [|easy]. apply enqueue_unused; [auto| |lia].
    rewrite elem_of_seqZ. lia.
Qed.

(** After [init_proc_info] all regions but the first are unused. *)
Lemma init_proc_info_spec p :
  unused (init_proc_info p) (seqZ 1 (NR_VREGIONS - 1)) /\ p_pid (init_proc_info p) = 0 /\ refcount (init_proc_info p) = 1.
Proof.
  assert (Hn : Z.of_nat (Z.to_nat NR_VREGIONS) = NR_VREGIONS) by (apply Z2Nat.id; vm_compute; discriminate).
  unfold init_proc_info. generalize dependent (Z.to_nat NR_VREGIONS). intros n Hn. rewrite <- Hn.
  match goal with |- context [init_freelist n ?q] => destruct (init_freelist_unused n q) as (H1 & H2 & H3) end; [|auto].
  split; [apply dlist_init|]. intros v Hv. now apply not_elem_of_nil in Hv.
Qed.

Lemma init_proc_info_cached p : cached_vregion_index (init_proc_info p) = (cached_vregion_index p).
Proof.
  unfold init_proc_info. generalize (Z.to_nat NR_VREGIONS). intros n. set (q := Proc _ _ _ _ _ _ _ _).
  change (cached_vregion_index p) with (cached_vregion_index q). induction n as [|n IH]; [reflexivity|]. cbn [init_freelist].
  destruct (negb _); exact IH.
Qed.
#[global] Opaque init_proc_info.

(** ** Well-formed tables *)

Definition key_rep (bits : Z) (t : ptable) (ps : list Z) : Prop :=
  hash_rep proc_hash_array bits (pid_at t) (phash t) ps.

(** [ps] are the live processes. *)
Record ptable_inv (bits : Z) (t : ptable) (ps : list Z) : Prop := {
  pt_rep : key_rep bits t ps;
  pt_pids a b : a ∈ ps -> b ∈ ps -> pid_at t a = pid_at t b -> a = b;
  pt_live a : a ∈ ps -> a <> 0 /\ 0 < refcount (pmem t a);
  pt_nodup : NoDup (pavail t);
  pt_avail a : a ∈ pavail t -> (a ∉ ps) /\ a <> 0;
}.

(** The tables agree on everything but the reference count of [a]. *)
Definition same_but_count (a : Z) (t t' : ptable) : Prop :=
  phash t' = phash t /\ pavail t' = pavail t /\ (forall b, b <> a -> pmem t' b = pmem t b) /\
  pmem t' a = set_refcount (pmem t a) (refcount (pmem t' a)).

Section inv.
Context (bits : Z) (fuel : nat) (Hbits : 0 <= bits <= 32).

Lemma buckets_inj i j : 0 <= i < 2 ^ bits -> 0 <= j < 2 ^ bits -> proc_hash_array i = proc_hash_array j -> i = j.
Proof. easy. Qed.

Lemma find_proc_spec t ps pid : key_rep bits t ps -> (length ps < fuel)%nat ->
  exists r, find_proc bits fuel t pid = Some r /\
    match r with Some a => a ∈ ps /\ pid_at t a = pid | None => forall a, a ∈ ps -> pid_at t a <> pid end.
Proof. intros Hr Hf. exact (hash_lookup_spec proc_hash_array bits Hbits fuel (pid_at t) (phash t) ps pid Hr Hf). Qed.

Lemma find_proc_in t ps a : ptable_inv bits t ps -> (length ps < fuel)%nat -> a ∈ ps -> find_proc bits fuel t (pid_at t a) = Some (Some a).
Proof.
  intros Ht Hf Ha. destruct (find_proc_spec t ps (pid_at t a) (pt_rep _ _ _ Ht) Hf) as (r & -> & Hr).
  destruct r as [b|]; [|now destruct (Hr a Ha)]. destruct Hr as [Hb E]. do 2 f_equal. now apply (pt_pids _ _ _ Ht).
Qed.

Lemma same_count_pid a t t' b : same_but_count a t t' -> pid_at t' b = pid_at t b.
Proof. intros (_ & _ & Hb & Ha). unfold pid_at. destruct (decide (b = a)) as [->|Hne]; [now rewrite Ha|now rewrite Hb]. Qed.

Lemma same_count_key a t t' ps : same_but_count a t t' -> key_rep bits t ps -> key_rep bits t' ps.
Proof.
  intros Hs Hr. unfold key_rep. rewrite (proj1 Hs). eapply hash_rep_key; [|exact Hr]. intros n _. now apply (same_count_pid a).
Qed.

Lemma same_count_inv a t t' ps : same_but_count a t t' -> 0 < refcount (pmem t' a) -> ptable_inv bits t ps -> ptable_inv bits t' ps.
Proof.
  intros Hs Hr Ht. pose proof Hs as (Hh & Hav & Hb & Ha). split.
  - eapply same_count_key; [exact Hs|apply Ht].
  - intros x y Hx Hy. rewrite !(same_count_pid _ _ _ _ Hs). now apply Ht.
  - intros x Hx. destruct (decide (x = a)) as [->|Hne]; [split; [now apply Ht|auto]|rewrite Hb by auto; now apply Ht].
  - rewrite Hav. apply Ht.
  - rewrite Hav. apply Ht.
Qed.

Lemma set_refcount_same t a r : same_but_count a t (set_proc t a (set_refcount (pmem t a) r)).
Proof. split_and!; auto; cbn; [intros b Hb; now rewrite fn_lookup_insert_ne by auto|now rewrite fn_lookup_insert]. Qed.

Lemma refcount_set t a r : refcount (pmem (set_proc t a (set_refcount (pmem t a) r)) a) = r.
Proof. cbn. now rewrite fn_lookup_insert. Qed.

(** Taking a reference. *)
Lemma get_proc_spec t ps pid : ptable_inv bits t ps -> (length ps < fuel)%nat ->
  (exists a, a ∈ ps /\ pid_at t a = pid /\ (refcount (pmem t a) < 2 ^ 31 - 1 ->
     exists t', get_proc_by_pid bits fuel t pid = Some (a, t') /\ same_but_count a t t' /\ refcount (pmem t' a) = refcount (pmem t a) + 1)) \/
  ((forall a, a ∈ ps -> pid_at t a <> pid) /\ get_proc_by_pid bits fuel t pid = Some (0, t)).
Proof.
  intros Ht Hf. destruct (find_proc_spec t ps pid (pt_rep _ _ _ Ht) Hf) as (r & E & Hr). unfold get_proc_by_pid. rewrite E. cbn [mbind option_bind].
  destruct r as [a|]; [left|auto]. destruct Hr as [Ha Hp]. exists a. split_and!; auto. intros Hmax.
  pose proof (pt_live _ _ _ Ht a Ha) as [_ Hlive]. unfold get_proc_info. rewrite (proj2 (Z.ltb_ge _ _)) by lia. cbn [mbind option_bind].
  eexists. split; [reflexivity|]. split; [apply set_refcount_same|]. rewrite refcount_set. apply sint32_small. lia.
Qed.

(** Dropping a reference that is not the last one. *)
Lemma put_proc_more free t a : 1 < refcount (pmem t a) < 2 ^ 31 ->
  exists t', put_proc_info free t a = Some t' /\ same_but_count a t t' /\ refcount (pmem t' a) = refcount (pmem t a) - 1.
Proof.
  intros Hr. unfold put_proc_info. rewrite (proj2 (Z.eqb_neq _ _)) by lia. eexists. split; [reflexivity|].
  split; [apply set_refcount_same|]. rewrite refcount_set. apply sint32_small. lia.
Qed.

Lemma same_count_trans a t1 t2 t3 : same_but_count a t1 t2 -> same_but_count a t2 t3 -> same_but_count a t1 t3.
Proof.
  intros (A1 & A2 & A3 & A4) (B1 & B2 & B3 & B4). split_and!; [congruence|congruence|intros b Hb; rewrite B3, A3; auto|].
  rewrite B4 at 1. now rewrite A4.
Qed.

(** Removing a process from the table. *)
Lemma remove_proc t ps1 a ps2 s : ptable_inv bits t (ps1 ++ a :: ps2) -> forall t', same_but_count a t t' ->
  hash_rep proc_hash_array bits (pid_at t') s (ps1 ++ ps2) -> ptable_inv bits (set_phash t' s) (ps1 ++ ps2).
Proof.
  intros Ht t' Hs Hr. pose proof Hs as (Hh & Hav & Hb & Ha). assert (Hsub : forall x, x ∈ ps1 ++ ps2 -> x ∈ ps1 ++ a :: ps2) by (intros x; rewrite elem_of_middle; auto).
  pose proof (NoDup_not_in _ _ _ (proj1 (pt_rep _ _ _ Ht))) as Hna. split.
  - exact Hr.
  - intros x y Hx Hy. cbn. rewrite !(same_count_pid _ _ _ _ Hs : pid_at (set_phash t' s) _ = _). apply Ht; auto.
  - intros x Hx. cbn. rewrite Hb by (intros ->; contradiction). apply Ht; auto.
  - cbn. rewrite Hav. apply Ht.
  - cbn. rewrite Hav. intros x Hx. destruct (pt_avail _ _ _ Ht x Hx). auto.
Qed.

Lemma put_proc_last_soc t ps1 a ps2 : ptable_inv bits t (ps1 ++ a :: ps2) -> (length (ps1 ++ a :: ps2) < fuel)%nat -> refcount (pmem t a) = 1 ->
  exists t', put_proc_info (soc_free_proc bits fuel) t a = Some t' /\ ptable_inv bits t' (ps1 ++ ps2) /\
    (forall b, b <> a -> pmem t' b = pmem t b) /\ pavail t' = pavail t.
Proof.
  intros Ht Hf Hr. unfold put_proc_info. rewrite Hr. cbn [Z.eqb Pos.eqb]. set (t1 := set_proc t a _).
  assert (Hs : same_but_count a t t1) by apply set_refcount_same. assert (Hin : a ∈ ps1 ++ a :: ps2) by (rewrite elem_of_middle; auto).
  pose proof (pt_live _ _ _ Ht a Hin) as [Ha0 _]. unfold soc_free_proc. rewrite (proj2 (Z.eqb_neq _ _)) by auto.
  unfold t1 at 1. rewrite refcount_set. change (sint32 (1 - 1) =? 0) with true. cbn [negb].
  assert (E : find_proc bits fuel t1 (pid_at t1 a) = Some (Some a)).
  { pose proof (find_proc_spec t1 _ (pid_at t1 a) (same_count_key _ _ _ _ Hs (pt_rep _ _ _ Ht)) Hf) as (r & -> & H1).
    destruct r as [b|]; [|now destruct (H1 a Hin)]. destruct H1 as [Hb Eb]. do 2 f_equal. rewrite !(same_count_pid _ _ _ _ Hs) in Eb. now apply (pt_pids _ _ _ Ht). }
  rewrite E. cbn [mbind option_bind].
  destruct (hash_del_rep proc_hash_array bits Hbits buckets_inj (pid_at t1) (phash t1) _ a ps1 ps2 eq_refl (same_count_key _ _ _ _ Hs (pt_rep _ _ _ Ht))) as (s & -> & Hrep & _).
  cbn [mbind option_bind]. eexists. split; [reflexivity|]. split; [eapply remove_proc; eauto|]. split; [apply Hs|apply Hs].
Qed.

Lemma put_proc_last_mon t ps1 a ps2 : ptable_inv bits t (ps1 ++ a :: ps2) -> (length (ps1 ++ a :: ps2) < fuel)%nat -> refcount (pmem t a) = 1 ->
  exists t', put_proc_info (mon_free_proc bits fuel) t a = Some t' /\ ptable_inv bits t' (ps1 ++ ps2) /\
    (forall b, b <> a -> pmem t' b = pmem t b) /\ pavail t' = pavail t /\ pid_at t' a = pid_at t a.
Proof.
  intros Ht Hf Hr. unfold put_proc_info. rewrite Hr. cbn [Z.eqb Pos.eqb]. set (t1 := set_proc t a _).
  assert (Hs : same_but_count a t t1) by apply set_refcount_same. assert (Hin : a ∈ ps1 ++ a :: ps2) by (rewrite elem_of_middle; auto).
  pose proof (pt_live _ _ _ Ht a Hin) as [Ha0 _]. unfold mon_free_proc. rewrite (proj2 (Z.eqb_neq _ _)) by auto.
  unfold t1 at 1. rewrite refcount_set. change (sint32 (1 - 1) =? 0) with true. cbn [negb].
  pose proof (same_count_key _ _ _ _ Hs (pt_rep _ _ _ Ht)) as Hk.
  destruct (hash_search_spec proc_hash_array bits Hbits fuel (fun x => x =? a) (pid_at t1) (phash t1) _ (pid_at t1 a) Hk Hf) as (r & -> & H1).
  destruct r as [b|]; [|specialize (H1 a Hin eq_refl); now rewrite Z.eqb_refl in H1]. cbn [mbind option_bind].
  destruct (hash_del_rep proc_hash_array bits Hbits buckets_inj (pid_at t1) (phash t1) _ a ps1 ps2 eq_refl Hk) as (s & -> & Hrep & _).
  cbn [mbind option_bind]. eexists. split; [reflexivity|]. split; [eapply remove_proc; eauto|]. split; [apply Hs|]. split; [apply Hs|apply (same_count_pid a _ _ a Hs)].
Qed.

(** A new process in the table. *)
Lemma insert_proc t ps new l p : ptable_inv bits t ps -> pavail t = new :: l -> 0 < refcount p ->
  (forall a, a ∈ ps -> pid_at t a <> p_pid p) ->
  let t1 := set_proc (set_pavail t l) new p in
  ptable_inv bits (set_phash t1 (hash_add (phash t1) proc_hash_array bits new (p_pid p))) (new :: ps).
Proof.
  intros Ht Hav Hr Hno. cbn zeta. pose proof (pt_avail _ _ _ Ht new ltac:(rewrite Hav; left)) as [Hnew Hn0].
  pose proof (pt_nodup _ _ _ Ht) as Hd. rewrite Hav in Hd. apply NoDup_cons in Hd as [Hnl Hd]. set (t1 := set_proc (set_pavail t l) new p).
  assert (Hk : forall a, a ∈ ps -> pid_at t1 a = pid_at t a) by (intros a Ha; unfold pid_at; cbn; rewrite fn_lookup_insert_ne; [easy|intros ->; contradiction]).
  assert (Hkn : pid_at t1 new = p_pid p) by (unfold pid_at; cbn; now rewrite fn_lookup_insert). split.
  - rewrite <- Hkn. apply (hash_add_rep proc_hash_array bits Hbits buckets_inj (pid_at t1)); [|auto]. eapply hash_rep_key; [exact Hk|apply Ht].
  - intros a b [->|Ha]%elem_of_cons [->|Hb]%elem_of_cons; change (pid_at (set_phash t1 _) ?x) with (pid_at t1 x); auto; rewrite ?Hkn, ?Hk by auto; intros E.
    + now destruct (Hno b Hb).
    + now destruct (Hno a Ha).
    + now apply Ht.
  - intros a [->|Ha]%elem_of_cons; cbn; [now rewrite fn_lookup_insert|]. rewrite fn_lookup_insert_ne by (intros ->; contradiction). now apply Ht.
  - exact Hd.
  - intros a Ha. cbn in Ha. destruct (pt_avail _ _ _ Ht a) as [H1 H2]; [rewrite Hav; now right|]. split; [|auto].
    intros [->|?]%elem_of_cons; contradiction.
Qed.

Lemma soc_alloc_spec t ps pid host_ip : ptable_inv bits t ps -> (length ps < fuel)%nat -> (forall a, a ∈ ps -> pid_at t a <> pid) ->
  (pavail t = [] /\ soc_alloc_proc bits fuel t pid host_ip = Some (0, t)) \/
  (exists new l t', pavail t = new :: l /\ soc_alloc_proc bits fuel t pid host_ip = Some (new, t') /\ ptable_inv bits t' (new :: ps) /\
     pid_at t' new = pid /\ refcount (pmem t' new) = 1 /\ cached_vregion_index (pmem t' new) = 0 /\
     (forall a, a <> new -> pmem t' a = pmem t a) /\ pavail t' = l).
Proof.
  intros Ht Hf Hno. unfold soc_alloc_proc. destruct (pavail t) as [|new l] eqn:Hav; [auto|right].
  destruct (init_proc_info_spec zero_proc) as (_ & _ & Hone). pose proof (init_proc_info_cached zero_proc) as Hc. generalize dependent (init_proc_info zero_proc). intros q Hone Hc.
  set (p := if negb _ then _ else _).
  assert (Hp : p_pid p = pid /\ refcount p = 1 /\ cached_vregion_index p = 0) by (unfold p; destruct (negb _); auto).
  pose proof (pt_avail _ _ _ Ht new ltac:(rewrite Hav; left)) as [Hnew _]. destruct Hp as (Hp1 & Hp2 & Hp3).
  pose proof (insert_proc t ps new l p Ht Hav ltac:(lia) ltac:(now rewrite Hp1)) as Hi. cbn zeta in Hi. rewrite Hp1 in Hi.
  set (t1 := set_proc _ new p) in *.
  assert (Hk : key_rep bits t1 ps).
  { eapply hash_rep_key; [|apply Ht]. intros a Ha. unfold pid_at. cbn. rewrite fn_lookup_insert_ne; [easy|intros ->; contradiction]. }
  destruct (find_proc_spec t1 ps pid Hk Hf) as (r & -> & H1). cbn [mbind option_bind].
  assert (r = None) as ->.
  { destruct r as [a|]; [|easy]. destruct H1 as [Ha E]. destruct (Hno a Ha). rewrite <- E. unfold pid_at. cbn. rewrite fn_lookup_insert_ne; [easy|intros ->; contradiction]. }
  eexists new, l, _. split; [easy|]. split; [reflexivity|]. split; [exact Hi|]. unfold pid_at. cbn. rewrite !fn_lookup_insert.
  split_and!; auto. intros a Ha. now rewrite fn_lookup_insert_ne by auto.
Qed.

(** An id that is in use is refused. *)
Lemma soc_alloc_dup t ps a host_ip : ptable_inv bits t ps -> (length ps < fuel)%nat -> a ∈ ps ->
  exists t', soc_alloc_proc bits fuel t (pid_at t a) host_ip = Some (0, t') /\ ptable_inv bits t' ps /\ forall b, b ∈ ps -> pmem t' b = pmem t b.
Proof.
  intros Ht Hf Ha. unfold soc_alloc_proc. destruct (pavail t) as [|new l] eqn:Hav; [eauto|].
  generalize (init_proc_info zero_proc). intros q. set (t1 := set_proc _ new _).
  pose proof (pt_avail _ _ _ Ht new ltac:(rewrite Hav; left)) as [Hnew _].
  assert (Hm : forall b, b ∈ ps -> pmem t1 b = pmem t b) by (intros b Hb; cbn; rewrite fn_lookup_insert_ne; [easy|intros ->; contradiction]).
  assert (Hk : key_rep bits t1 ps) by (eapply hash_rep_key; [|apply Ht]; intros b Hb; unfold pid_at; now rewrite Hm).
  destruct (find_proc_spec t1 ps (pid_at t a) Hk Hf) as (r & -> & H1). cbn [mbind option_bind].
  destruct r as [b|]; [|destruct (H1 a Ha); unfold pid_at; now rewrite Hm]. exists t1. split_and!; auto.
  pose proof (pt_nodup _ _ _ Ht) as Hd. rewrite Hav in Hd. apply NoDup_cons in Hd as [_ Hd]. split; auto.
  - intros x y Hx Hy. unfold pid_at. rewrite !Hm by auto. now apply Ht.
  - intros x Hx. rewrite Hm by auto. now apply Ht.
  - intros x Hx. apply Ht. rewrite Hav. now right.
Qed.
End inv.

(** ** Properties *)

(** The board's table of processes is a map from ids to processes with exact
    reference counts: a look-up finds the process with the id exactly if there is
    one, and takes a reference; a new process is entered once, with one reference,
    unless its id is in use or memory has run out, and leaves the others alone; a
    process leaves the table exactly when its last reference is dropped. *)
Theorem process_table_correct bits fuel t ps :
  0 <= bits <= 32 -> ptable_inv bits t ps -> (length ps < fuel)%nat -> (forall a, a ∈ ps -> refcount (pmem t a) < 2 ^ 31 - 1) ->
  (forall pid, exists a t', get_proc_by_pid bits fuel t pid = Some (a, t') /\ ptable_inv bits t' ps /\
     (a = 0 /\ t' = t /\ (forall b, b ∈ ps -> pid_at t b <> pid) \/
      a ∈ ps /\ pid_at t a = pid /\ same_but_count a t t' /\ refcount (pmem t' a) = refcount (pmem t a) + 1)) /\
  (forall pid host_ip, exists a t', soc_alloc_proc bits fuel t pid host_ip = Some (a, t') /\ (forall b, b ∈ ps -> pmem t' b = pmem t b) /\
     (a = 0 /\ ptable_inv bits t' ps /\ ((exists b, b ∈ ps /\ pid_at t b = pid) \/ pavail t = []) \/
      (a ∉ ps) /\ ptable_inv bits t' (a :: ps) /\ pid_at t' a = pid /\ refcount (pmem t' a) = 1 /\ (forall b, b ∈ ps -> pid_at t b <> pid))) /\
  (forall a ps1 ps2, ps = ps1 ++ a :: ps2 -> exists t', put_proc_info (soc_free_proc bits fuel) t a = Some t' /\ (forall b, b <> a -> pmem t' b = pmem t b) /\
     if decide (refcount (pmem t a) = 1) then ptable_inv bits t' (ps1 ++ ps2) else ptable_inv bits t' ps /\ refcount (pmem t' a) = refcount (pmem t a) - 1).
Proof.
  intros Hbits Ht Hf Hc. split_and!.
  - intros pid. destruct (get_proc_spec bits fuel Hbits t ps pid Ht Hf) as [(a & Ha & Hp & H)|[Hno E]].
    + destruct (H (Hc a Ha)) as (t' & E & Hs & Hr). pose proof (pt_live _ _ _ Ht a Ha) as [_ Hpos]. exists a, t'. split; [exact E|]. split; [|right; auto].
      apply (same_count_inv bits a t); auto. lia.
    + exists 0, t. split; [exact E|]. split; [exact Ht|left; auto].
  - intros pid ip. destruct (find_proc_spec bits fuel Hbits t ps pid (pt_rep _ _ _ Ht) Hf) as ([a|] & _ & H).
    + destruct H as [Ha <-]. destruct (soc_alloc_dup bits fuel Hbits t ps a ip Ht Hf Ha) as (t' & E & Ht' & Hm). exists 0, t'. split; [exact E|]. split; [exact Hm|].
      left. split_and!; auto. left. eauto.
    + destruct (soc_alloc_spec bits fuel Hbits t ps pid ip Ht Hf H) as [[Hav E]|(new & l & t' & Hav & E & Ht' & H1 & H2 & _ & H4 & _)].
      * exists 0, t. split; [exact E|]. split; [auto|]. left. auto.
      * pose proof (pt_avail _ _ _ Ht new ltac:(rewrite Hav; left)) as [Hnew _]. exists new, t'. split; [exact E|]. split; [|right; auto].
        intros b Hb. apply H4. intros ->. contradiction.
  - intros a ps1 ps2 ->. assert (Ha : a ∈ ps1 ++ a :: ps2) by (rewrite elem_of_middle; auto). pose proof (pt_live _ _ _ Ht a Ha) as [_ Hpos]. specialize (Hc a Ha).
    destruct (decide (refcount (pmem t a) = 1)) as [H1|H1].
    + destruct (put_proc_last_soc bits fuel Hbits t ps1 a ps2 Ht Hf H1) as (t' & E & Ht' & Hm & _). exists t'. auto.
    + destruct (put_proc_more (soc_free_proc bits fuel) t a ltac:(lia)) as (t' & E & Hs & Hr). exists t'. split; [exact E|]. split; [apply Hs|].
      split; [|exact Hr]. apply (same_count_inv bits a t); auto. lia.
Qed.

Definition ex_procs : ptable :=
  PTable (__hash_init (HHeap (fun _ => None) (fun _ => None) (fun _ => None)) proc_hash_array (Z.to_nat (2 ^ 5))) (fun _ => zero_proc) [100].

Lemma process_table_correct_witness :
  exists t', soc_alloc_proc 5 3 ex_procs 7 0 = Some (100, t') /\ ptable_inv 5 t' [100] /\ pid_at t' 100 = 7.
Proof.
  assert (Hnil : forall a : Z, a ∉ []) by (intros a; apply not_elem_of_nil).
  destruct (process_table_correct 5 3 ex_procs []) as (_ & H & _).
  - lia.
  - split; [apply (hash_init_rep proc_hash_array 5); lia|intros a b Ha; now destruct (Hnil a)|intros a Ha; now destruct (Hnil a)|apply NoDup_singleton|].
    intros a ->%list_elem_of_singleton. split; [apply Hnil|lia].
  - cbn. lia.
  - intros a Ha. now destruct (Hnil a).
  - destruct (H 7 0) as (a & t' & E & _ & Ht). destruct Ht as [(_ & _ & [(b & Hb & _)|Ht])|(_ & Ht & Hp & _)]; [now destruct (Hnil b)|discriminate Ht|].
    assert (a = 100) as ->; [|exists t'; split; [exact E|split; [exact Ht|exact Hp]]].
    unfold soc_alloc_proc in E. cbn [pavail ex_procs] in E. revert E. generalize (init_proc_info zero_proc). intros q E.
    destruct (find_proc _ _ _ _) as [[b|]|]; cbn [mbind option_bind] in E; [|congruence|discriminate E].
    injection E as <- _. destruct (pt_live _ _ _ Ht 0 ltac:(left)) as [Hz _]. now destruct Hz.
Defined.
