(* ===== verification/Session.v ===== *)
(** * Network sessions

    The table of sessions of a node: host/session.c and, with minor differences,
    board/soc/core/session.c; and the sessions a node keeps per board
    ([board_add_session] and its companions of include/uapi/sched.h).
    [sessions_ok] says that the bitmap of ids and the flags of the sessions agree. *)

From stdpp Require Import functions.
From S2P Require Import Prelude Bitops Hlist Gbn.

#[local] Set Warnings "-clear-no-such-hyp".

(** ** The table *)

Definition SESSION_NET_FLAGS_ALLOCATED : Z := 1.
Definition SESSION_NET_FLAGS_THREAD_CREATED : Z := 2.

(** [s_board] is the index of the [board_info] the session belongs to, [None] is [NULL]. *)
Record session := Session { s_board_ip : Z; s_udp_port : Z; s_ids : session_net; s_flags : Z; s_tid : Z; s_board : option Z }.

Definition init_session_net : session := Session 0 0 (SessionNet 0 0) 0 0 None.
Definition set_local_session_id (s : session) (id : Z) : session :=
  Session (s_board_ip s) (s_udp_port s) (SessionNet id (remote_session_id (s_ids s))) (s_flags s) (s_tid s) (s_board s).
Definition set_remote_session_id (s : session) (id : Z) : session :=
  Session (s_board_ip s) (s_udp_port s) (SessionNet (session_id (s_ids s)) id) (s_flags s) (s_tid s) (s_board s).
Definition set_flags (s : session) (f : Z) : session := Session (s_board_ip s) (s_udp_port s) (s_ids s) f (s_tid s) (s_board s).
Definition set_endpoint (s : session) (ip port : Z) : session := Session ip port (s_ids s) (s_flags s) (s_tid s) (s_board s).
Definition set_tid (s : session) (tid : Z) : session := Session (s_board_ip s) (s_udp_port s) (s_ids s) (s_flags s) tid (s_board s).
Definition set_board_info (s : session) (b : option Z) : session := Session (s_board_ip s) (s_udp_port s) (s_ids s) (s_flags s) (s_tid s) b.

(** [session_net_map] and [session_id_map]. *)
Record session_table := STable { session_net_map : Z -> session; session_id_map : list Z }.
Definition set_session (t : session_table) (i : Z) (s : session) : session_table :=
  STable (<[i := s]> (session_net_map t)) (session_id_map t).
Definition set_id_map (t : session_table) (m : list Z) : session_table := STable (session_net_map t) m.

(** A session is its index; [None] is [NULL]. *)
Definition find_net_session (t : session_table) (id : Z) : option Z :=
  if NR_MAX_SESSIONS_PER_NODE <=? id then None
  else if Z.land (s_flags (session_net_map t id)) SESSION_NET_FLAGS_ALLOCATED =? 0 then None
  else Some id.

(** The search starts at [offset]: 0 on a host, 1 on a board. *)
Definition alloc_session_from (offset : Z) (t : session_table) : option Z * session_table :=
  let bit := find_next_zero_bit (session_id_map t) NR_MAX_SESSIONS_PER_NODE offset in
  if NR_MAX_SESSIONS_PER_NODE <=? bit then (None, t)
  else
    let t := set_id_map t (__set_bit bit (session_id_map t)) in
    let ses := set_local_session_id init_session_net bit in
    let ses := set_flags ses (Z.lor (s_flags ses) SESSION_NET_FLAGS_ALLOCATED) in
    (Some bit, set_session t bit ses).
Definition host_alloc_session : session_table -> option Z * session_table := alloc_session_from 0.
Definition soc_alloc_session : session_table -> option Z * session_table := alloc_session_from (LEGOMEM_MGMT_SESSION_ID + 1).

(** [free_session_by_id] of the board; [free_session] of the host does the same
    with the index of its argument. *)
Definition free_session_by_id (t : session_table) (id : Z) : session_table :=
  if NR_MAX_SESSIONS_PER_NODE <=? id then t
  else if id =? LEGOMEM_MGMT_SESSION_ID then t
  else
    let '(_, m) := __test_and_clear_bit id (session_id_map t) in
    set_session (set_id_map t m) id (set_flags (session_net_map t id) 0).
Definition free_session (t : session_table) (ses : Z) : session_table := free_session_by_id t (wrap32 ses).

(** ** Sessions of a board *)

Definition NR_HT_BOARD_SESSIONS_BITS : Z := 3.

(** The table of a board, with the locations of its buckets; the key of a session
    is its id. *)
Section board_sessions.
Context {H : Type} `{EqDecision H} (ht_sessions : Z -> H) (fuel : nat) (ids : Z -> Z).

Definition board_add_session (s : hheap H Z) (ses : Z) : hheap H Z :=
  hash_add s ht_sessions NR_HT_BOARD_SESSIONS_BITS ses (ids ses).

(** 0 or -1 *)
Definition board_remove_session (s : hheap H Z) (ses : Z) : option (Z * hheap H Z) :=
  r ← hash_for_each_possible fuel (fun x => ids x =? ids ses) s ht_sessions NR_HT_BOARD_SESSIONS_BITS (ids ses);
  match r with
  | Some _ => s ← hash_del s ses; Some (0, s)
  | None => Some (-1, s)
  end.

Definition board_find_session (s : hheap H Z) (session_id : Z) : option (option Z) :=
  hash_for_each_possible fuel (fun x => ids x =? session_id) s ht_sessions NR_HT_BOARD_SESSIONS_BITS session_id.
End board_sessions.

(** ** Invariant *)

Definition in_use (t : session_table) (i : Z) : Prop := bm_bit (session_id_map t) i = true.

Definition allocated_flag (f : Z) : Prop := Z.land f SESSION_NET_FLAGS_ALLOCATED <> 0.

Record sessions_ok (t : session_table) : Prop := {
  so_map : bitmap_fits (session_id_map t) NR_MAX_SESSIONS_PER_NODE;
  so_flags i : 0 <= i < NR_MAX_SESSIONS_PER_NODE -> in_use t i <-> allocated_flag (s_flags (session_net_map t i));
  so_free i : 0 <= i < NR_MAX_SESSIONS_PER_NODE -> ~ in_use t i -> s_flags (session_net_map t i) = 0;
  so_id i : 0 <= i < NR_MAX_SESSIONS_PER_NODE -> in_use t i -> session_id (s_ids (session_net_map t i)) = i;
}.

Lemma in_use_dec t i : {in_use t i} + {~ in_use t i}.
Proof. unfold in_use. destruct (bm_bit _ _); [now left|now right]. Qed.

Lemma find_net_session_spec t id : sessions_ok t -> 0 <= id ->
  (id < NR_MAX_SESSIONS_PER_NODE /\ in_use t id /\ find_net_session t id = Some id) \/
  (~ (id < NR_MAX_SESSIONS_PER_NODE /\ in_use t id) /\ find_net_session t id = None).
Proof.
  intros Ht Hid. unfold find_net_session. destruct (Z.leb_spec NR_MAX_SESSIONS_PER_NODE id); [right; split; [lia|easy]|].
  destruct (in_use_dec t id) as [Hu|Hu].
  - left. split_and!; auto. now rewrite (proj2 (Z.eqb_neq _ 0) (proj1 (so_flags t Ht id ltac:(lia)) Hu)).
  - right. split; [tauto|]. rewrite (so_free t Ht id) by (auto; lia). reflexivity.
Qed.

Lemma sessions_map_length t : sessions_ok t -> NR_MAX_SESSIONS_PER_NODE <= 64 * Z.of_nat (length (session_id_map t)).
Proof. intros [(_ & Hm & _) _ _ _]. lia. Qed.

Lemma alloc_session_spec offset t : sessions_ok t -> 0 <= offset < NR_MAX_SESSIONS_PER_NODE ->
  match alloc_session_from offset t with
  | (Some i, t') =>
      sessions_ok t' /\ offset <= i < NR_MAX_SESSIONS_PER_NODE /\ ~ in_use t i /\ (forall j, offset <= j < i -> in_use t j) /\
      (forall j, 0 <= j -> in_use t' j <-> j = i \/ in_use t j) /\ forall j, j <> i -> session_net_map t' j = session_net_map t j
  | (None, t') => t' = t /\ forall j, offset <= j < NR_MAX_SESSIONS_PER_NODE -> in_use t j
  end.
Proof.
  intros Ht Ho. unfold alloc_session_from. pose proof (sessions_map_length t Ht) as Hlen. pose proof (so_map t Ht) as Hf.
  destruct (lowest_zero_bit (session_id_map t) NR_MAX_SESSIONS_PER_NODE offset Hf ltac:(lia)) as [(Hb & Hz & Hlow)|(Hb & Hall)].
  2: { rewrite Hb. change (NR_MAX_SESSIONS_PER_NODE <=? NR_MAX_SESSIONS_PER_NODE) with true. easy. }
  set (b := find_next_zero_bit _ _ _) in *. rewrite (proj2 (Z.leb_gt _ _)) by lia.
  assert (Hu : forall j, 0 <= j -> bm_bit (__set_bit b (session_id_map t)) j = true <-> j = b \/ in_use t j).
  { intros j Hj. rewrite __set_bit_bit by lia. unfold in_use. destruct (Z.eqb_spec j b); cbn; intuition. }
  split_and!; auto; try lia; [|unfold in_use; congruence|intros j Hj; cbn; now apply fn_lookup_insert_ne, not_eq_sym]. split; cbn [session_id_map session_net_map set_session set_id_map].
  - now apply set_bit_fits.
  - intros j Hj. unfold in_use at 1. cbn. rewrite Hu by lia. destruct (decide (j = b)) as [->|Hne]; [rewrite fn_lookup_insert; split; [intros _; discriminate|auto]|].
    rewrite fn_lookup_insert_ne, <- (so_flags t Ht) by auto. intuition.
  - intros j Hj. unfold in_use at 1. cbn. rewrite Hu by lia. intros Hn. rewrite fn_lookup_insert_ne by (intros ->; intuition).
    apply Ht; intuition.
  - intros j Hj. unfold in_use at 1. cbn. rewrite Hu by lia. destruct (decide (j = b)) as [->|Hne]; [now rewrite fn_lookup_insert|].
    rewrite fn_lookup_insert_ne by auto. intros [?|?]; [contradiction|now apply Ht].
Qed.

Lemma free_session_spec t id : sessions_ok t -> 0 <= id ->
  let t' := free_session_by_id t id in
  sessions_ok t' /\
  (forall j, 0 <= j < NR_MAX_SESSIONS_PER_NODE -> in_use t' j <-> in_use t j /\ (j = id -> id = LEGOMEM_MGMT_SESSION_ID)) /\
  forall j, j <> id -> session_net_map t' j = session_net_map t j.
Proof.
  intros Ht Hid. pose proof (sessions_map_length t Ht) as Hlen. unfold free_session_by_id.
  destruct (Z.leb_spec NR_MAX_SESSIONS_PER_NODE id); [split_and!; auto; intros j Hj; split; [|tauto]; intros Hu; split; [auto|lia]|].
  destruct (Z.eqb_spec id LEGOMEM_MGMT_SESSION_ID) as [->|Hne]; [split_and!; auto; intuition|].
  rewrite test_and_clear_spec by apply Ht.
  assert (Hu : forall j, 0 <= j -> bm_bit (__clear_bit id (session_id_map t)) j = true <-> in_use t j /\ j <> id).
  { intros j Hj. rewrite __clear_bit_bit by lia. unfold in_use. destruct (Z.eqb_spec j id); cbn; [split; [discriminate|tauto]|tauto]. }
  cbn [session_net_map set_session set_id_map]. split_and!.
  - split; cbn [session_id_map session_net_map set_session set_id_map].
    + now apply clear_bit_fits, Ht.
    + intros j Hj. unfold in_use at 1. cbn. rewrite Hu by lia. destruct (decide (j = id)) as [->|Hn]; [rewrite fn_lookup_insert; cbn; split; [intros [_ ?]; contradiction|intros Hc; now destruct Hc]|].
      rewrite fn_lookup_insert_ne, <- (so_flags t Ht) by auto. intuition.
    + intros j Hj. unfold in_use at 1. cbn. rewrite Hu by lia. destruct (decide (j = id)) as [->|Hn]; [now rewrite fn_lookup_insert|].
      rewrite fn_lookup_insert_ne by auto. intros Hnot. apply Ht; intuition.
    + intros j Hj. unfold in_use at 1. cbn. rewrite Hu by lia. intros [H1 H2]. rewrite fn_lookup_insert_ne by auto. now apply Ht.
  - intros j Hj. unfold in_use at 1. cbn. rewrite Hu by lia. intuition.
  - intros j Hj. now rewrite fn_lookup_insert_ne by auto.
Qed.

(** Writing the fields of a session in use. *)
Lemma set_session_ok t i ses : sessions_ok t -> 0 <= i < NR_MAX_SESSIONS_PER_NODE -> in_use t i -> allocated_flag (s_flags ses) ->
  session_id (s_ids ses) = i -> sessions_ok (set_session t i ses).
Proof.
  intros Ht Hi Hu Hf Hid. split; cbn [session_id_map session_net_map set_session]; [apply Ht| | |]; intros j Hj; unfold in_use; cbn;
    (destruct (decide (j = i)) as [->|Hne]; [rewrite fn_lookup_insert|rewrite fn_lookup_insert_ne by auto]).
  - easy.
  - now apply (so_flags t Ht).
  - intros Hn. now destruct (Hn Hu).
  - now apply (so_free t Ht).
  - easy.
  - now apply (so_id t Ht).
Qed.

(** ** Properties *)

(** The table at start-up, and the calls a node makes. *)
Definition no_sessions : session_table := STable (fun _ => init_session_net) (repeat 0 16).
Inductive session_step (offset : Z) : session_table -> session_table -> Prop :=
  | session_alloc t : session_step offset t (alloc_session_from offset t).2
  | session_free t id : 0 <= id -> session_step offset t (free_session_by_id t id).

Lemma no_sessions_ok : sessions_ok no_sessions.
Proof.
  assert (Hb : forall i, 0 <= i < NR_MAX_SESSIONS_PER_NODE -> ~ in_use no_sessions i).
  { intros i Hi. unfold in_use, bm_bit. cbn [session_id_map no_sessions]. replace (word_at (repeat 0 16) (i / BITS_PER_LONG)) with 0; [now rewrite Z.testbit_0_l|].
    unfold word_at. generalize (Z.to_nat (i / BITS_PER_LONG)). intros n. do 16 (destruct n as [|n]; [reflexivity|]). now destruct n. }
  split; [split; [repeat constructor; unfold is_word; lia|vm_compute; intuition congruence]| | |]; intros i Hi.
  - split; [intros Hu; now destruct (Hb i Hi)|intros Hc; now destruct Hc].
  - reflexivity.
  - intros Hu. now destruct (Hb i Hi).
Qed.

Lemma session_steps_ok offset t : 0 <= offset < NR_MAX_SESSIONS_PER_NODE -> rtc (session_step offset) no_sessions t -> sessions_ok t.
Proof.
  intros Ho Hr. pose proof no_sessions_ok as H0. induction Hr as [|t1 t2 t3 Hs _ IH]; [auto|]. apply IH. destruct Hs as [t|t id Hid].
  - pose proof (alloc_session_spec offset t H0 Ho) as H. destruct (alloc_session_from offset t) as [[i|] t']; cbn; [apply H|]. destruct H as [-> _]. auto.
  - now apply free_session_spec.
Qed.

(** In every state of the session table that allocations and releases reach
    from start-up, a session is found by its id exactly while it is allocated, and
    carries its id; an allocation returns the lowest unused id from the offset on,
    makes it used and touches no other session, and fails only when all are used;
    a release ends exactly the session it names, and never the management session. *)
Theorem session_table_correct offset t :
  0 <= offset < NR_MAX_SESSIONS_PER_NODE -> rtc (session_step offset) no_sessions t ->
  (forall id, 0 <= id < NR_MAX_SESSIONS_PER_NODE ->
     (find_net_session t id = Some id <-> in_use t id) /\ (in_use t id -> session_id (s_ids (session_net_map t id)) = id)) /\
  match alloc_session_from offset t with
  | (Some i, t') =>
      offset <= i < NR_MAX_SESSIONS_PER_NODE /\ ~ in_use t i /\ (forall j, offset <= j < i -> in_use t j) /\
      find_net_session t' i = Some i /\ (forall j, 0 <= j -> in_use t' j <-> j = i \/ in_use t j) /\
      forall j, j <> i -> session_net_map t' j = session_net_map t j
  | (None, t') => t' = t /\ forall j, offset <= j < NR_MAX_SESSIONS_PER_NODE -> in_use t j
  end /\
  forall id, 0 <= id ->
    let t' := free_session_by_id t id in
    (forall j, 0 <= j < NR_MAX_SESSIONS_PER_NODE -> in_use t' j <-> in_use t j /\ (j = id -> id = LEGOMEM_MGMT_SESSION_ID)) /\
    forall j, j <> id -> session_net_map t' j = session_net_map t j.
Proof.
  intros Ho Hr. pose proof (session_steps_ok offset t Ho Hr) as Ht. split_and!.
  - intros id Hid. split; [|now apply Ht]. destruct (find_net_session_spec t id Ht ltac:(lia)) as [(_ & Hu & ->)|(Hn & ->)]; [easy|].
    split; [discriminate|]. intros Hu. destruct Hn. split; [lia|auto].
  - pose proof (alloc_session_spec offset t Ht Ho) as H. destruct (alloc_session_from offset t) as [[i|] t']; [|exact H].
    destruct H as (Ht' & H1 & H2 & H3 & H4 & H5). split_and!; auto; try lia.
    destruct (find_net_session_spec t' i Ht' ltac:(lia)) as [(_ & _ & ->)|(Hn & _)]; [easy|]. destruct Hn. split; [lia|]. apply H4; [lia|auto].
  - intros id Hid. now apply free_session_spec.
Qed.

Lemma session_table_correct_witness :
  exists t', soc_alloc_session no_sessions = (Some 1, t') /\ find_net_session t' 1 = Some 1.
Proof.
  destruct (session_table_correct 1 no_sessions) as (_ & H & _); [vm_compute; intuition congruence|constructor|].
  assert (E : (soc_alloc_session no_sessions).1 = Some 1) by (vm_compute; reflexivity).
  unfold soc_alloc_session in *. change (LEGOMEM_MGMT_SESSION_ID + 1) with 1 in *.
  destruct (alloc_session_from 1 no_sessions) as [r t']. cbn in E. subst r. exists t'. split; [reflexivity|]. apply H.
Defined.

(** The sessions kept per board are a map from ids to sessions: a session that
    was added is found by its id and by no other, adding keeps the others, and a
    removed one is no longer found; removing an id that is not there reports -1. *)
Theorem board_sessions_refine_map {X} `{EqDecision X} (ht_sessions : Z -> X) fuel ids s ns :
  (forall i j, 0 <= i < 2 ^ NR_HT_BOARD_SESSIONS_BITS -> 0 <= j < 2 ^ NR_HT_BOARD_SESSIONS_BITS -> ht_sessions i = ht_sessions j -> i = j) ->
  hash_rep ht_sessions NR_HT_BOARD_SESSIONS_BITS ids s ns -> (S (length ns) < fuel)%nat ->
  (forall x y, x ∈ ns -> y ∈ ns -> ids x = ids y -> x = y) ->
  (forall id, exists r, board_find_session ht_sessions fuel ids s id = Some r /\ forall x, r = Some x <-> x ∈ ns /\ ids x = id) /\
  (forall x, x ∉ ns -> hash_rep ht_sessions NR_HT_BOARD_SESSIONS_BITS ids (board_add_session ht_sessions ids s x) (x :: ns)) /\
  (forall x ns1 ns2, ns = ns1 ++ x :: ns2 -> exists s', board_remove_session ht_sessions fuel ids s x = Some (0, s') /\
     hash_rep ht_sessions NR_HT_BOARD_SESSIONS_BITS ids s' (ns1 ++ ns2)) /\
  (forall x, (forall y, y ∈ ns -> ids y <> ids x) -> board_remove_session ht_sessions fuel ids s x = Some (-1, s)).
Proof.
  intros Hht Hr Hf Hinj. assert (Hb : 0 <= NR_HT_BOARD_SESSIONS_BITS <= 32) by (vm_compute; intuition congruence).
  split_and!.
  - intros id. destruct (hash_lookup_spec ht_sessions _ Hb fuel ids s ns id Hr ltac:(lia)) as (r & E & H). exists r. split; [exact E|].
    intros x. destruct r as [y|].
    + destruct H as [Hy <-]. split; [now intros [= <-]|]. intros [Hx E']. f_equal. now apply Hinj.
    + split; [discriminate|]. intros [Hx E']. now destruct (H x Hx).
  - intros x Hx. now apply hash_add_rep.
  - intros x ns1 ns2 ->. unfold board_remove_session.
    destruct (hash_lookup_spec ht_sessions _ Hb fuel ids s _ (ids x) Hr ltac:(lia)) as (r & -> & H). cbn [mbind option_bind].
    destruct r as [y|]; [|now destruct (H x); [rewrite elem_of_middle; auto|]].
    destruct (hash_del_rep ht_sessions _ Hb Hht ids s _ x ns1 ns2 eq_refl Hr) as (s' & -> & Hs' & _). cbn [mbind option_bind]. eauto.
  - intros x Hx. unfold board_remove_session.
    destruct (hash_lookup_spec ht_sessions _ Hb fuel ids s _ (ids x) Hr ltac:(lia)) as (r & -> & H). cbn [mbind option_bind].
    destruct r as [y|]; [|easy]. destruct H as [Hy E]. now destruct (Hx y Hy).
Qed.

Lemma board_sessions_refine_map_witness :
  exists s', board_find_session (fun i => i) 3 (fun x => x) (board_add_session (fun i => i) (fun x => x) (__hash_init (HHeap (fun _ => None) (fun _ => None) (fun _ => None)) (fun i => i) 8) 5) 5 = Some s' /\
    forall x, s' = Some x <-> x ∈ [5] /\ x = 5.
Proof.
  assert (Hb : 0 <= NR_HT_BOARD_SESSIONS_BITS <= 32) by (split; vm_compute; discriminate).
  set (s0 := __hash_init _ _ 8). assert (H0 : hash_rep (fun i : Z => i) NR_HT_BOARD_SESSIONS_BITS (fun x => x) s0 []).
  { apply (hash_init_rep (fun i : Z => i) NR_HT_BOARD_SESSIONS_BITS Hb). }
  destruct (board_sessions_refine_map (fun i => i) 3 (fun x => x) (board_add_session (fun i => i) (fun x => x) s0 5) [5]) as [H _].
  - easy.
  - apply (hash_add_rep (fun i : Z => i) NR_HT_BOARD_SESSIONS_BITS Hb (fun i j _ _ E => E) (fun x => x)); [exact H0|apply not_elem_of_nil].
  - cbn. lia.
  - easy.
  - apply (H 5).
Defined.
