(* ===== verification/Server.v ===== *)
(** * The requests a board serves

    The handlers of the processor on the board: allocation, release and migration
    of virtual addresses (board/soc/core/handler.c), processes and sessions
    (core.c), and the requests of on-board modules (ctrl.c).  They find or create
    the process of a request, work on its vRegions and page-table entries
    (Pgtable.v), on the table of processes (Process.v) and on the sessions
    (Session.v), and drop their reference again. *)

From stdpp Require Import functions.
From S2P Require Import Prelude Bitops Buddy Hlist RbTree Vma Pgtable Process Gbn Session.


(** ** Messages *)

Definition OP_REQ_ALLOC : Z := 0x80.
Definition OP_REQ_ALLOC_RESP : Z := 0x81.
Definition OP_REQ_FREE : Z := 0x82.
Definition OP_CREATE_PROC : Z := 0x84.
Definition OP_CREATE_PROC_RESP : Z := 0x85.
Definition OP_FREE_PROC : Z := 0x86.
Definition OP_FREE_PROC_RESP : Z := 0x87.
Definition OP_OPEN_SESSION : Z := 0x88.
Definition OP_OPEN_SESSION_RESP : Z := 0x89.
Definition OP_CLOSE_SESSION : Z := 0x8a.
Definition OP_CLOSE_SESSION_RESP : Z := 0x8b.
Definition OP_REQ_MIGRATION_M2B_RECV : Z := 0x90.
Definition OP_REQ_MIGRATION_M2B_RECV_CANCEL : Z := 0x92.
Definition OP_REQ_MIGRATION_M2B_SEND : Z := 0x94.
Definition OP_REQ_MEMBERSHIP_NEW_NODE : Z := 0x98.
Definition OP_REQ_QUERY_STAT : Z := 0x9a.
Definition OP_REQ_QUERY_STAT_RESP : Z := 0x9b.
Definition OP_REQ_SOC_PINGPONG : Z := 0x9f.
Definition OP_REQ_SOC_PINGPONG_RESP : Z := 0xa0.
Definition OP_REQ_TEST_PTE : Z := 0xa1.

Record op_alloc_free := OpAllocFree { op_addr : Z; op_len : Z; op_vregion_idx : Z; op_vm_flags : Z }.

(** [op_test_pte] *)
Definition OP_TEST_PTE_ALLOC : Z := 0.
Record op_test_pte := OpTestPte { test_op : Z; test_pid : Z; test_start : Z; test_end : Z }.

(** A control message to or from the hardware. *)
Record lego_mem_ctrl := Ctrl { param32 : Z; param8 : Z; ctrl_beats : Z; ctrl_cmd : Z; ctrl_addr : Z; epid : Z }.
Definition set_param32 (c : lego_mem_ctrl) (x : Z) : lego_mem_ctrl := Ctrl (wrap32 x) (param8 c) (ctrl_beats c) (ctrl_cmd c) (ctrl_addr c) (epid c).
Definition set_param8 (c : lego_mem_ctrl) (x : Z) : lego_mem_ctrl := Ctrl (param32 c) x (ctrl_beats c) (ctrl_cmd c) (ctrl_addr c) (epid c).
Definition set_cmd (c : lego_mem_ctrl) (x : Z) : lego_mem_ctrl := Ctrl (param32 c) (param8 c) (ctrl_beats c) x (ctrl_addr c) (epid c).
Definition set_addr (c : lego_mem_ctrl) (x : Z) : lego_mem_ctrl := Ctrl (param32 c) (param8 c) (ctrl_beats c) (ctrl_cmd c) x (epid c).
Definition set_epid (c : lego_mem_ctrl) (x : Z) : lego_mem_ctrl := Ctrl (param32 c) (param8 c) (ctrl_beats c) (ctrl_cmd c) (ctrl_addr c) x.

Definition CMD_LEGOMEM_CTRL_CREATE_PROC : Z := 0.
Definition CMD_LEGOMEM_CTRL_ALLOC : Z := 1.
Definition CMD_LEGOMEM_CTRL_FREE : Z := 2.
Definition CMD_LEGOMEM_KVS_ALLOC : Z := 8.
Definition CMD_LEGOMEM_KVS_ALLOC_BOTH : Z := 9.
Definition LEGOMEM_CONT_NET : Z := 0.

(** The fields of a response; [None] is a field the handler leaves as it is. *)
Record response := Resp {
  resp_opcode : option Z;
  resp_ret : option Z;
  resp_addr : option Z;
  resp_id : option Z;
  resp_nocont : bool;
}.
(** [Exit]: the handler ends the program. *)
Inductive outcome := Reply (r : response) | Exit.

(** ** State *)

(** What the key-value store modules keep: the counters of entries, the process
    of the virtual one (its id and structure), and the ranges that were cleared. *)
Record kvs_state := Kvs { cached_kvs_phys_i : Z; cached_index : Z; kvs_virt_pid : Z; kvs_virt_pi : Z; kvs_cleared : list (Z * Z) }.
Definition set_phys_i (k : kvs_state) (x : Z) : kvs_state := Kvs x (cached_index k) (kvs_virt_pid k) (kvs_virt_pi k) (kvs_cleared k).
Definition set_kvs_index (k : kvs_state) (x : Z) : kvs_state := Kvs (cached_kvs_phys_i k) x (kvs_virt_pid k) (kvs_virt_pi k) (kvs_cleared k).
Definition set_virt (k : kvs_state) (pid pi : Z) : kvs_state := Kvs (cached_kvs_phys_i k) (cached_index k) pid pi (kvs_cleared k).
Definition clear_fpga_page (k : kvs_state) (va size : Z) : kvs_state :=
  Kvs (cached_kvs_phys_i k) (cached_index k) (kvs_virt_pid k) (kvs_virt_pi k) ((va, size) :: kvs_cleared k).

(** [ctrl_tx] is the buffer of the thread that serves the control messages,
    [ctrl_sent] the messages sent, oldest first. *)
Record node := MkNode {
  mach : soc;
  ptab : ptable;
  sys_pid_map : list Z;
  mv_base_vaddr : Z; mv_base_size : Z; mv_base_limit : Z;
  sess : session_table;
  kvs : kvs_state;
  ctrl_tx : lego_mem_ctrl;
  ctrl_sent : list lego_mem_ctrl;
}.
Definition set_mach (n : node) (s : soc) : node :=
  MkNode s (ptab n) (sys_pid_map n) (mv_base_vaddr n) (mv_base_size n) (mv_base_limit n) (sess n) (kvs n) (ctrl_tx n) (ctrl_sent n).
Definition set_ptab (n : node) (t : ptable) : node :=
  MkNode (mach n) t (sys_pid_map n) (mv_base_vaddr n) (mv_base_size n) (mv_base_limit n) (sess n) (kvs n) (ctrl_tx n) (ctrl_sent n).
Definition set_sys_pid_map (n : node) (m : list Z) : node :=
  MkNode (mach n) (ptab n) m (mv_base_vaddr n) (mv_base_size n) (mv_base_limit n) (sess n) (kvs n) (ctrl_tx n) (ctrl_sent n).
Definition set_mv (n : node) (vaddr size limit : Z) : node :=
  MkNode (mach n) (ptab n) (sys_pid_map n) vaddr size limit (sess n) (kvs n) (ctrl_tx n) (ctrl_sent n).
Definition set_sess (n : node) (t : session_table) : node :=
  MkNode (mach n) (ptab n) (sys_pid_map n) (mv_base_vaddr n) (mv_base_size n) (mv_base_limit n) t (kvs n) (ctrl_tx n) (ctrl_sent n).
Definition set_kvs (n : node) (k : kvs_state) : node :=
  MkNode (mach n) (ptab n) (sys_pid_map n) (mv_base_vaddr n) (mv_base_size n) (mv_base_limit n) (sess n) k (ctrl_tx n) (ctrl_sent n).
Definition dma_ctrl_send (n : node) (c : lego_mem_ctrl) : node :=
  MkNode (mach n) (ptab n) (sys_pid_map n) (mv_base_vaddr n) (mv_base_size n) (mv_base_limit n) (sess n) (kvs n) (ctrl_tx n) (ctrl_sent n ++ [c]).
(** Sending from [ctrl_tx], filled in. *)
Definition send_tx (n : node) (c : lego_mem_ctrl) : node :=
  MkNode (mach n) (ptab n) (sys_pid_map n) (mv_base_vaddr n) (mv_base_size n) (mv_base_limit n) (sess n) (kvs n) c (ctrl_sent n ++ [c]).

Definition PID_ARRAY_HASH_BITS : Z := 5.
Definition NR_SYSTEM_PID : Z := NR_MAX_SYSTEM_PID - NR_MAX_USER_PID.

(** The loop of [init_proc_info] over the regions of a process. *)
Definition init_regions (s : soc) (pid : Z) : soc :=
  Soc (shadow s) (fpga s) (infos s) (nr_allocated_ptes s) (zone s)
    (fun k => if (fst k =? pid) && (0 <=? snd k) && (snd k <? NR_VREGIONS) then init_vregion (regs s k) else regs s k)
    (cached_vregion_start s) (cleared s) (flushes s).

Section server.
Context (shadow_base devmem_base spare : Z) (fuel : nat).

(** ** Processes (sched.c) *)

Definition get_proc (n : node) (pid : Z) : option (Z * node) :=
  '(a, t) ← get_proc_by_pid PID_ARRAY_HASH_BITS fuel (ptab n) pid;
  Some (a, set_ptab n t).
Definition put_proc (n : node) (a : Z) : option node :=
  t ← put_proc_info (soc_free_proc PID_ARRAY_HASH_BITS fuel) (ptab n) a;
  Some (set_ptab n t).
(** The regions of the new structure are those of its id from now on. *)
Definition alloc_proc (n : node) (pid : Z) : option (Z * node) :=
  '(a, t) ← soc_alloc_proc PID_ARRAY_HASH_BITS fuel (ptab n) pid 0;
  let n := set_ptab n t in
  Some (a, if a =? 0 then n else set_mach n (init_regions (mach n) pid)).

(** The process of a request, created if there is none; 0 is [NULL]. *)
Definition find_or_create (n : node) (pid : Z) : option (Z * node) :=
  '(pi, n) ← get_proc n pid;
  if pi =? 0 then
    '(pi, n) ← alloc_proc n pid;
    if pi =? 0 then Some (0, n)
    else '(_, n) ← get_proc n pid; Some (pi, n)
  else Some (pi, n).

(** ** Requests of on-board modules (ctrl.c) *)

Definition alloc_sys_pid (n : node) : Z * node :=
  let bit := find_next_zero_bit (sys_pid_map n) NR_SYSTEM_PID 1 in
  if NR_SYSTEM_PID <=? bit then (-1 + NR_MAX_USER_PID, n)
  else (bit + NR_MAX_USER_PID, set_sys_pid_map n (__set_bit bit (sys_pid_map n))).

(** [None] is [BUG]. *)
Definition free_sys_pid (n : node) (pid : Z) : option node :=
  if (pid <? NR_MAX_USER_PID) || (NR_MAX_SYSTEM_PID <=? pid) then Some n
  else
    let '(old, m) := __test_and_clear_bit (pid - NR_MAX_USER_PID) (sys_pid_map n) in
    if negb old then None else Some (set_sys_pid_map n m).

(** The code from the label [repeat]; the address and the region, or 0. *)
Fixpoint ctrl_alloc_repeat (left : nat) (s : soc) (pid size vm_flags vregion_idx : Z) : option (Z * Z * soc) :=
  match left with
  | O => None
  | S left' =>
      vi ← index_to_vregion vregion_idx;
      '(addr, _, s) ← alloc_va_vregion shadow_base devmem_base spare fuel s pid vi size (Z.lor LEGOMEM_VM_FLAGS_POPULATE vm_flags);
      if addr =? 0 then
        let vregion_idx := wrap32 (vregion_idx + 1) in
        if vregion_idx =? NR_VREGIONS then Some (0, vregion_idx, s)
        else ctrl_alloc_repeat left' s pid size vm_flags vregion_idx
      else Some (addr, vregion_idx, s)
  end.

Definition __handle_ctrl_alloc (n : node) (pi size vm_flags : Z) : option (Z * node) :=
  let p := pmem (ptab n) pi in
  let vregion_idx := wrap32 (cached_vregion_index p) in
  '(addr, idx, s) ← ctrl_alloc_repeat (Z.to_nat (NR_VREGIONS - vregion_idx)) (mach n) (p_pid p) size vm_flags vregion_idx;
  let n := set_mach n s in
  if addr =? 0 then Some (0, n)
  else Some (addr, set_ptab n (set_proc (ptab n) pi (set_cached_index p (sint32 idx)))).

(** The reference that [get_proc] takes is not dropped. *)
Definition handle_ctrl_alloc (n : node) (rx : lego_mem_ctrl) : option node :=
  let pid := param8 rx + NR_MAX_USER_PID in
  let size := param32 rx in
  '(pi, n) ← get_proc n pid;
  '(v, n) ← (if pi =? 0 then Some (0, n) else __handle_ctrl_alloc n pi size 0);
  Some (send_tx n (set_param32 (set_cmd (set_addr (set_epid (ctrl_tx n) 3) (ctrl_addr rx)) (ctrl_cmd rx)) v)).

(** The id, or 0. *)
Definition __handle_ctrl_create_proc (n : node) : option (Z * node) :=
  let '(pid, n) := alloc_sys_pid n in
  if pid <? 0 then Some (0, n)
  else
    '(pi, n) ← alloc_proc n pid;
    if pi =? 0 then n ← free_sys_pid n pid; Some (0, n)
    else Some (pid, n).

Definition handle_ctrl_create_proc (n : node) (rx : lego_mem_ctrl) : option node :=
  '(pid, n) ← __handle_ctrl_create_proc n;
  let v := if pid =? 0 then 0 else pid - NR_MAX_USER_PID in
  Some (send_tx n (set_param32 (set_cmd (set_addr (set_epid (ctrl_tx n) 3) (ctrl_addr rx)) (ctrl_cmd rx)) v)).

(** ** The key-value store modules (ctrl.c) *)

Definition KVS_PHYS_HASHTABLE_SIZE : Z := 4 * 1024 * 1024.
Definition KVS_PHYS_ENTRY_SIZE : Z := 1024.
Definition EPID_KVS : Z := 3.
Definition KVS_VIRT_ENTRY_SIZE : Z := 1024.
Definition KVS_VIRT_HASHTABLE_SIZE : Z := 4 * 1024 * 1024.
Definition KVS_VIRT_NR_PAGES : Z := 64.
Definition KVS_VIRT_VA_SIZE : Z := PAGE_SIZE * KVS_VIRT_NR_PAGES.

(** One entry to FIFO [fifo]. *)
Definition kvs_fifo (n : node) (fifo addr : Z) : node :=
  send_tx n (set_param32 (set_param8 (set_addr (set_epid (ctrl_tx n) EPID_KVS) fifo) 0) addr).

(** Addresses to clear are relative to [fpga_mem_start_soc_va]. *)
Definition handle_kvs_alloc_phys (n : node) (rx : lego_mem_ctrl) : node :=
  let id := cached_kvs_phys_i (kvs n) in
  let n := set_kvs n (set_phys_i (kvs n) (sint32 (id + 1))) in
  let n := kvs_fifo n 1 (id * KVS_PHYS_ENTRY_SIZE + KVS_PHYS_HASHTABLE_SIZE) in
  if ctrl_cmd rx =? CMD_LEGOMEM_KVS_ALLOC_BOTH then
    let id := cached_kvs_phys_i (kvs n) in
    let n := set_kvs n (set_phys_i (kvs n) (sint32 (id + 1))) in
    let n := set_kvs n (clear_fpga_page (kvs n) (wrap64 (_FPGA_MEMORY_MAP_DATA_START + id * KVS_PHYS_ENTRY_SIZE)) KVS_PHYS_ENTRY_SIZE) in
    kvs_fifo n 0 (id * KVS_PHYS_ENTRY_SIZE + KVS_PHYS_HASHTABLE_SIZE)
  else n.

Definition prepare_kvs_phys (n : node) : node :=
  let n := set_kvs n (clear_fpga_page (kvs n) _FPGA_MEMORY_MAP_DATA_START KVS_PHYS_HASHTABLE_SIZE) in
  send_tx n (set_param32 (set_param8 (set_cmd (set_addr (set_epid (ctrl_tx n) EPID_KVS) 0xff) 0) 5) _FPGA_MEMORY_MAP_DATA_START).

(** [true]: the program exits.  The second message does not set [param8]. *)
Definition handle_kvs_alloc_virt (n : node) (rx : lego_mem_ctrl) : bool * node :=
  let addr := wrap32 (cached_index (kvs n) * KVS_VIRT_ENTRY_SIZE + KVS_VIRT_HASHTABLE_SIZE) in
  let n := set_kvs n (set_kvs_index (kvs n) (sint32 (cached_index (kvs n) + 1))) in
  if KVS_VIRT_VA_SIZE <=? addr then (true, n)
  else
    let n := kvs_fifo n 1 addr in
    (false,
     if ctrl_cmd rx =? CMD_LEGOMEM_KVS_ALLOC_BOTH then
       let addr := wrap32 (cached_index (kvs n) * KVS_VIRT_ENTRY_SIZE + KVS_VIRT_HASHTABLE_SIZE) in
       let n := set_kvs n (set_kvs_index (kvs n) (sint32 (cached_index (kvs n) + 1))) in
       send_tx n (set_param32 (set_addr (set_epid (ctrl_tx n) EPID_KVS) 0) addr)
     else n).

(** [None] is [BUG]. *)
Definition prepare_kvs_virt (n : node) : option node :=
  '(sys_pid, n) ← __handle_ctrl_create_proc n;
  if sys_pid =? 0 then Some n
  else
    '(pi, n) ← get_proc n sys_pid;
    let n := set_kvs n (set_virt (kvs n) sys_pid pi) in
    if pi =? 0 then None
    else
      let n := send_tx n (set_param32 (set_param8 (set_cmd (set_addr (set_epid (ctrl_tx n) EPID_KVS) 0xff) 1) 0) sys_pid) in
      '(addr, n) ← __handle_ctrl_alloc n pi KVS_VIRT_VA_SIZE (Z.lor LEGOMEM_VM_FLAGS_POPULATE LEGOMEM_VM_FLAGS_ZERO);
      if IS_ERR_VALUE addr then Some n
      else Some (send_tx n (set_param32 (set_param8 (set_cmd (set_addr (set_epid (ctrl_tx n) EPID_KVS) 0xff) 0) 0) addr)).

Definition prepare_multiversion : node -> lego_mem_ctrl -> option node := handle_ctrl_create_proc.

(** The memory of the testing module: process 1, in region 0. *)
Definition prepare_100g_test (n : node) : option node :=
  '(pi, n) ← alloc_proc n 1;
  if pi =? 0 then Some n
  else
    vi ← index_to_vregion 0;
    '(_, _, s) ← alloc_va_vregion shadow_base devmem_base spare fuel (mach n) (pid_at (ptab n) pi) vi (PAGE_SIZE * 8) LEGOMEM_VM_FLAGS_POPULATE;
    Some (set_mach n s).

(** The loop over the regions from [vregion_idx] on; [left] are left. *)
Fixpoint onboard_regions (left : nat) (s : soc) (pid vregion_idx : Z) : option soc :=
  match left with
  | O => Some s
  | S left' =>
      vi ← index_to_vregion vregion_idx;
      '(addr, _, s) ← alloc_va_vregion shadow_base devmem_base spare fuel s pid vi VREGION_SIZE (Z.lor LEGOMEM_VM_FLAGS_POPULATE LEGOMEM_VM_FLAGS_USE_SPARE_PFN);
      if addr =? 0 then Some s else onboard_regions left' s pid (vregion_idx + 1)
  end.

Definition prepare_onboard_va (n : node) : option node :=
  '(pi, n) ← alloc_proc n 1;
  if pi =? 0 then Some n
  else
    let pid := pid_at (ptab n) pi in
    vi ← index_to_vregion 0;
    '(addr, _, s) ← alloc_va_vregion shadow_base devmem_base spare fuel (mach n) pid vi (PAGE_SIZE * 8) LEGOMEM_VM_FLAGS_POPULATE;
    if addr =? 0 then Some (set_mach n s)
    else s ← onboard_regions (Z.to_nat (NR_VREGIONS - 1)) s pid 1; Some (set_mach n s).

(** The thread: it returns before the loop that dispatches the messages, of
    which [ctrl_dispatch] is the body.  [true]: the program exits. *)
Definition ctrl_poll_func (n : node) : option node := prepare_onboard_va n.
Definition ctrl_dispatch (n : node) (rx : lego_mem_ctrl) : option (bool * node) :=
  if ctrl_cmd rx =? CMD_LEGOMEM_CTRL_CREATE_PROC then n ← handle_ctrl_create_proc n rx; Some (false, n)
  else if ctrl_cmd rx =? CMD_LEGOMEM_CTRL_ALLOC then n ← handle_ctrl_alloc n rx; Some (false, n)
  else if ctrl_cmd rx =? CMD_LEGOMEM_CTRL_FREE then Some (false, n)
  else if (ctrl_cmd rx =? CMD_LEGOMEM_KVS_ALLOC) || (ctrl_cmd rx =? CMD_LEGOMEM_KVS_ALLOC_BOTH) then Some (handle_kvs_alloc_virt n rx)
  else Some (false, n).

(** ** Allocation and release (handler.c) *)

Definition MV_VREGION : Z := 0xFFFFFFFFDEADBEEF.

(** The branch for the multi-version module, which does not know the region. *)
Definition handle_mv_alloc (n : node) (pi len : Z) : option (Z * node) :=
  '(addr, n) ←
    (if mv_base_vaddr n =? 0 then
       let size := VREGION_SIZE / 2 in
       '(vaddr, n) ← __handle_ctrl_alloc n pi size 0;
       Some (vaddr, set_mv n vaddr size (vaddr +w size))
     else Some (mv_base_vaddr n, n));
  Some (addr, set_mv n (mv_base_vaddr n +w len) (mv_base_size n) (mv_base_limit n)).

Definition board_soc_handle_alloc_free (n : node) (is_alloc : bool) (pid : Z) (ops : op_alloc_free) : option (outcome * node) :=
  let resp ret addr nocont := Reply (Resp (Some OP_REQ_ALLOC_RESP) (Some ret) addr None nocont) in
  '(pi, n) ← find_or_create n pid;
  if pi =? 0 then Some (resp (wrap32 (- ENOMEM)) None false, n)
  else
    '(r, n) ←
      (if is_alloc then
         if op_vregion_idx ops =? MV_VREGION then
           '(addr, n) ← handle_mv_alloc n pi (op_len ops);
           Some (resp 0 (Some addr) true, n)
         else
           vi ← index_to_vregion (wrap32 (op_vregion_idx ops));
           '(addr, _, s) ← alloc_va_vregion shadow_base devmem_base spare fuel (mach n) (pid_at (ptab n) pi) vi (op_len ops) (op_vm_flags ops);
           let n := set_mach n s in
           if IS_ERR_VALUE addr then Some (resp (wrap32 (- ENOMEM)) (Some 0xdeadbeef) false, n)
           else Some (resp 0 (Some addr) false, n)
       else
         '(ret, s) ← free_va shadow_base devmem_base fuel (mach n) (pid_at (ptab n) pi) (op_addr ops) (op_len ops);
         Some (resp (wrap32 ret) None false, set_mach n s));
    n ← put_proc n pi;
    Some (r, n).

(** ** Migration (handler.c) *)

(** The command to the memory pipeline is not part of the model; the program
    exits right after it. *)
Definition board_soc_handle_migration_send (n : node) (pid : Z) : option (outcome * node) :=
  '(pi, n) ← get_proc n pid;
  if pi =? 0 then Some (Reply (Resp None (Some (- ESRCH)) None None false), n)
  else Some (Exit, n).

Definition board_soc_handle_migration_recv (n : node) (pid vregion_index : Z) : option (outcome * node) :=
  let resp ret := Reply (Resp None (Some ret) None None false) in
  '(pi, n) ← find_or_create n pid;
  if pi =? 0 then Some (resp (- ENOMEM), n)
  else
    vi ← index_to_vregion vregion_index;
    '(addr, _, s) ← alloc_va_vregion shadow_base devmem_base spare fuel (mach n) (pid_at (ptab n) pi) vi VREGION_SIZE LEGOMEM_VM_FLAGS_POPULATE;
    let n := set_mach n s in
    let r := if IS_ERR_VALUE addr then resp (- ENOMEM) else resp 0 in
    n ← put_proc n pi;
    Some (r, n).

Definition board_soc_handle_migration_recv_cancel (n : node) (pid vregion_index : Z) : option (outcome * node) :=
  let resp ret := Reply (Resp None (Some ret) None None false) in
  '(pi, n) ← get_proc n pid;
  if pi =? 0 then Some (resp (- ESRCH), n)
  else
    vi ← index_to_vregion vregion_index;
    '(_, s) ← free_va_vregion shadow_base devmem_base fuel (mach n) (pid_at (ptab n) pi) vi
      (vregion_index_to_va vregion_index) (vregion_index_to_va (wrap32 (vregion_index + 1)) -w 1);
    n ← put_proc (set_mach n s) pi;
    Some (resp 0, n).

(** ** Processes and sessions (core.c) *)

Definition handle_create_proc (n : node) (pid : Z) : option (outcome * node) :=
  '(pi, n) ← alloc_proc n pid;
  if pi =? 0 then Some (Reply (Resp None (Some (- ENOMEM)) None None false), n)
  else Some (Reply (Resp (Some OP_CREATE_PROC_RESP) (Some 0) None (Some pid) false), n).

Definition handle_free_proc (n : node) (pid : Z) : option (outcome * node) :=
  '(pi, n) ← get_proc n pid;
  if pi =? 0 then Some (Reply (Resp None (Some (- ESRCH)) None None false), n)
  else
    n ← put_proc n pi;
    n ← put_proc n pi;
    Some (Reply (Resp (Some OP_FREE_PROC_RESP) (Some 0) None None false), n).

(** [ctrl] is the buffer of the request for control messages. *)
Definition handle_open_session (n : node) (ctrl : lego_mem_ctrl) (remote_id dest_ip : Z) : outcome * node :=
  match soc_alloc_session (sess n) with
  | (None, t) => (Reply (Resp None None None (Some 0) false), set_sess n t)
  | (Some i, t) =>
      let session_id := get_local_session_id (s_ids (session_net_map t i)) in
      let ses := set_endpoint (set_remote_session_id (session_net_map t i) remote_id) dest_ip 0 in
      let n := set_sess n (set_session t i ses) in
      let n := dma_ctrl_send n (set_cmd (set_epid (set_param32 ctrl (set_gbn_conn_req session_id GBN_SOC2FPGA_SET_TYPE_OPEN)) LEGOMEM_CONT_NET) 0) in
      (Reply (Resp (Some OP_OPEN_SESSION_RESP) None None (Some session_id) false), n)
  end.

Definition handle_close_session (n : node) (ctrl : lego_mem_ctrl) (session_id : Z) : outcome * node :=
  let n := set_sess n (free_session_by_id (sess n) session_id) in
  (Reply (Resp (Some OP_CLOSE_SESSION_RESP) None None (Some 0) false),
   dma_ctrl_send n (set_cmd (set_epid (set_param32 ctrl (set_gbn_conn_req session_id GBN_SOC2FPGA_SET_TYPE_CLOSE)) LEGOMEM_CONT_NET) 0)).

(** ** Testing the page table (pgtable.c) *)

(** The result of [alloc_proc] is used as it is: [None] also if it is [NULL] and
    gets dereferenced. *)
Definition handle_test_pte (n : node) (op : op_test_pte) : option node :=
  '(pi, n) ← alloc_proc n (test_pid op);
  if test_op op =? OP_TEST_PTE_ALLOC then
    if (pi =? 0) && (test_start op <? test_end op) then None
    else s ← alloc_fpga_pte_range shadow_base devmem_base spare fuel (mach n) (pid_at (ptab n) pi) (test_start op) (test_end op) 0 PAGE_SIZE; Some (set_mach n s)
  else if pi =? 0 then None
  else s ← free_fpga_pte_range shadow_base devmem_base (sys_free_va shadow_base devmem_base fuel) fuel (mach n) (pid_at (ptab n) pi) (test_start op) (test_end op) PAGE_SIZE; Some (set_mach n s).

(** ** The dispatcher (core.c) *)

Record request := Req {
  rq_opcode : Z; rq_pid : Z; rq_ops : op_alloc_free;
  rq_vregion_index : Z; rq_session_id : Z; rq_dest_ip : Z; rq_test : op_test_pte;
  rq_ctrl : lego_mem_ctrl;
}.

(** [OP_RESET_ALL] and [OP_REQ_SOC_DEBUG] do nothing, like an unknown opcode.  The
    boards that [OP_REQ_MEMBERSHIP_NEW_NODE] adds are not part of [node]. *)
Definition worker_handle_request_inline (n : node) (rq : request) : option (outcome * node) :=
  let op := rq_opcode rq in
  let plain opcode ret := Reply (Resp opcode ret None None false) in
  if op =? OP_REQ_ALLOC then board_soc_handle_alloc_free n true (rq_pid rq) (rq_ops rq)
  else if op =? OP_REQ_FREE then board_soc_handle_alloc_free n false (rq_pid rq) (rq_ops rq)
  else if op =? OP_REQ_MIGRATION_M2B_SEND then board_soc_handle_migration_send n (rq_pid rq)
  else if op =? OP_REQ_MIGRATION_M2B_RECV then board_soc_handle_migration_recv n (rq_pid rq) (rq_vregion_index rq)
  else if op =? OP_REQ_MIGRATION_M2B_RECV_CANCEL then board_soc_handle_migration_recv_cancel n (rq_pid rq) (rq_vregion_index rq)
  else if op =? OP_CREATE_PROC then handle_create_proc n (rq_pid rq)
  else if op =? OP_FREE_PROC then handle_free_proc n (rq_pid rq)
  else if op =? OP_OPEN_SESSION then Some (handle_open_session n (rq_ctrl rq) (rq_session_id rq) (rq_dest_ip rq))
  else if op =? OP_CLOSE_SESSION then Some (handle_close_session n (rq_ctrl rq) (rq_session_id rq))
  else if op =? OP_REQ_SOC_PINGPONG then Some (plain (Some OP_REQ_SOC_PINGPONG_RESP) None, n)
  else if op =? OP_REQ_MEMBERSHIP_NEW_NODE then Some (plain (Some OP_OPEN_SESSION_RESP) (Some 0), n)
  else if op =? OP_REQ_TEST_PTE then n ← handle_test_pte n (rq_test rq); Some (plain None None, n)
  else if op =? OP_REQ_QUERY_STAT then Some (plain (Some OP_REQ_QUERY_STAT_RESP) None, n)
  else Some (plain None None, n).
End server.
