(* ===== verification/ServerProofs.v ===== *)
(** * The requests a board serves: invariant and handlers

    [node_inv] ties the parts of a board together: its address spaces and page
    tables are consistent, its table of processes is well formed, only live
    processes have page-table entries, and its sessions and ids are well formed.
    Each handler is shown to keep it and to return. *)

From stdpp Require Import functions relations.
From S2P Require Import Prelude Bitops DList Buddy Hlist RbTree Vma VmaTree VmaOps VmaFree VmaSearch VmaSpec Pgtable PgtableProofs SocProofs SocSpec.
From S2P Require Import Process Gbn Session Server.

#[local] Set Warnings "-clear-no-such-hyp".

(** ** The invariant *)

Definition live (t : ptable) (ps : list Z) (pid : Z) : Prop := exists a, a ∈ ps /\ pid_at t a = pid.

Record node_inv (n : node) (ps : list Z) : Prop := {
  ni_soc : soc_inv buddy_ok (mach n);
  ni_procs : ptable_inv PID_ARRAY_HASH_BITS (ptab n) ps;
  ni_pids pid : live (ptab n) ps pid -> pid_ok pid;
  ni_cached a : a ∈ ps -> 0 <= cached_vregion_index (pmem (ptab n) a) < NR_VREGIONS;
  ni_entries pid va : pid_ok pid -> page_addr va -> entry (mach n) pid va -> live (ptab n) ps pid;
  ni_sess : sessions_ok (sess n);
  ni_sys : bitmap_fits (sys_pid_map n) NR_SYSTEM_PID;
}.

(** The table has room for one more process, and reference counts stay small. *)
Definition counts_ok (n : node) (ps : list Z) : Prop := forall a, a ∈ ps -> refcount (pmem (ptab n) a) < 2 ^ 31 - 2.
Definition room (fuel : nat) (n : node) (ps : list Z) : Prop := (S (length ps) < fuel)%nat /\ counts_ok n ps.

(** What the handlers that work on a process leave alone. *)
Definition same_others (n n' : node) : Prop :=
  sess n' = sess n /\ sys_pid_map n' = sys_pid_map n /\ ctrl_tx n' = ctrl_tx n /\ ctrl_sent n' = ctrl_sent n.

Lemma same_others_trans a b c : same_others a b -> same_others b c -> same_others a c.
Proof. unfold same_others. intuition congruence. Qed.

Lemma hash_bits_ok : 0 <= PID_ARRAY_HASH_BITS <= 32.
Proof. unfold PID_ARRAY_HASH_BITS. lia. Qed.
#[export] Hint Resolve hash_bits_ok : core.

Lemma live_or_not t ps pid : live t ps pid \/ forall a, a ∈ ps -> pid_at t a <> pid.
Proof.
  induction ps as [|a ps IH]; [right; intros a Ha; now apply not_elem_of_nil in Ha|].
  destruct (decide (pid_at t a = pid)) as [E|E]; [left; exists a; split; [left|auto]|].
  destruct IH as [(b & Hb & Eb)|IH]; [left; exists b; split; [now right|auto]|].
  right. intros b [->|Hb]%elem_of_cons; auto.
Qed.

(** The page-table entries of processes that are live stay among those. *)
Lemma node_inv_mach n ps s' :
  node_inv n ps -> soc_inv buddy_ok s' ->
  (forall pid va, pid_ok pid -> page_addr va -> entry s' pid va -> entry (mach n) pid va \/ live (ptab n) ps pid) ->
  node_inv (set_mach n s') ps.
Proof.
  intros Hn Hs He. split; cbn; try apply Hn; [exact Hs|]. intros pid va Hp Hva H.
  destruct (He pid va Hp Hva H) as [H'|H']; [now apply (ni_entries _ _ Hn pid va)|auto].
Qed.

Lemma same_count_live a t t' ps pid : same_but_count a t t' -> live t' ps pid <-> live t ps pid.
Proof. intros Hs. unfold live. setoid_rewrite (fun x => same_count_pid a t t' x Hs). easy. Qed.

Lemma same_count_cached a t t' b : same_but_count a t t' -> cached_vregion_index (pmem t' b) = cached_vregion_index (pmem t b).
Proof. intros (_ & _ & Hb & Ha). destruct (decide (b = a)) as [->|Hne]; [now rewrite Ha|now rewrite Hb]. Qed.

Lemma node_inv_count n ps a t' : same_but_count a (ptab n) t' -> 0 < refcount (pmem t' a) -> node_inv n ps -> node_inv (set_ptab n t') ps.
Proof.
  intros Hs Hr Hn. split; cbn; try apply Hn.
  - eapply same_count_inv; eauto. apply Hn.
  - intros pid Hl. apply (ni_pids _ _ Hn). now apply (same_count_live a _ t').
  - intros b Hb. rewrite (same_count_cached _ _ _ _ Hs). now apply Hn.
  - intros pid va Hp Hva He. apply (same_count_live a _ t' ps pid Hs). now apply (ni_entries _ _ Hn pid va).
Qed.

(** *** Fresh regions *)

Lemma init_regions_entry s pid p va : entry (init_regions s pid) p va <-> entry s p va.
Proof. easy. Qed.

Lemma init_regions_inv s pid : soc_inv buddy_ok s -> pid_ok pid -> (forall va, page_addr va -> ~ entry s pid va) -> soc_inv buddy_ok (init_regions s pid).
Proof.
  intros Hs Hp Hno. split; [destruct (soc_tables _ _ Hs); now split|apply Hs|apply Hs|]. intros p vi Hp' Hvi.
  destruct (soc_region _ _ Hs p vi Hp' Hvi) as (xs & Hv & Ha & Hent). unfold region_ok, init_regions. cbn [regs fst snd].
  destruct (Z.eqb_spec p pid) as [->|Hne]; cbn [andb]; [|exists xs; split_and!; auto].
  rewrite (proj2 (Z.leb_le 0 vi)), (proj2 (Z.ltb_lt vi NR_VREGIONS)) by lia. cbn [andb]. exists []. split_and!.
  - apply init_vregion_inv; [apply Hv|apply Hv|]. eapply pool_ok_mono; [|apply Hv]. intros x Hx. now apply not_elem_of_nil in Hx.
  - intros x Hx. now apply not_elem_of_nil in Hx.
  - intros va Hva _. split; [intros H; now apply mapped_nil in H|]. intros H. now destruct (Hno va Hva).
Qed.

Section handlers.
Context (shadow_base devmem_base spare : Z) (fuel : nat).

(** ** Processes *)

(** Process [pi] is that of [pid], and the caller holds a reference to it. *)
Record holds (n : node) (ps : list Z) (pid pi : Z) : Prop := {
  h_inv : node_inv n ps;
  h_in : pi ∈ ps;
  h_pid : pid_at (ptab n) pi = pid;
  h_count : 1 < refcount (pmem (ptab n) pi) < 2 ^ 31;
}.

Lemma holds_live n ps pid pi : holds n ps pid pi -> live (ptab n) ps pid.
Proof. intros []. exists pi. auto. Qed.

Lemma holds_nonzero n ps pid pi : holds n ps pid pi -> (pi =? 0) = false.
Proof. intros H. apply Z.eqb_neq. apply (pt_live _ _ _ (ni_procs _ _ (h_inv _ _ _ _ H)) pi), H. Qed.

Lemma get_proc_live n ps pid : node_inv n ps -> (length ps < fuel)%nat -> counts_ok n ps -> live (ptab n) ps pid ->
  exists pi n', get_proc fuel n pid = Some (pi, n') /\ holds n' ps pid pi /\ same_but_count pi (ptab n) (ptab n') /\
    refcount (pmem (ptab n') pi) = refcount (pmem (ptab n) pi) + 1 /\ mach n' = mach n /\ same_others n n'.
Proof.
  intros Hn Hf Hc (a & Ha & Hp).
  destruct (get_proc_spec _ fuel hash_bits_ok (ptab n) ps pid (ni_procs _ _ Hn) ltac:(lia)) as [(b & Hb' & Hpb & H)|[Hno _]]; [|now destruct (Hno a Ha)].
  specialize (Hc b Hb'). destruct H as (t' & E & Hs & Hr); [lia|]. pose proof (pt_live _ _ _ (ni_procs _ _ Hn) b Hb') as [_ Hpos].
  unfold get_proc. rewrite E. cbn [mbind option_bind]. exists b, (set_ptab n t'). split; [reflexivity|]. split; [|easy].
  split; cbn; auto; [apply (node_inv_count n ps b t'); auto; lia|now rewrite (same_count_pid _ _ _ _ Hs)|lia].
Qed.

Lemma get_proc_none n ps pid : node_inv n ps -> (length ps < fuel)%nat -> (forall a, a ∈ ps -> pid_at (ptab n) a <> pid) -> get_proc fuel n pid = Some (0, n).
Proof.
  intros Hn Hf Hno.
  destruct (get_proc_spec _ fuel hash_bits_ok (ptab n) ps pid (ni_procs _ _ Hn) ltac:(lia)) as [(b & Hb' & Hpb & _)|[_ E]]; [now destruct (Hno b Hb')|].
  unfold get_proc. rewrite E. cbn. now destruct n.
Qed.

(** Dropping the reference. *)
Lemma put_proc_held n ps pid pi : holds n ps pid pi ->
  exists n', put_proc fuel n pi = Some n' /\ node_inv n' ps /\ same_but_count pi (ptab n) (ptab n') /\
    refcount (pmem (ptab n') pi) = refcount (pmem (ptab n) pi) - 1 /\ mach n' = mach n /\ same_others n n'.
Proof.
  intros H. pose proof (h_count _ _ _ _ H) as Hc.
  destruct (put_proc_more (soc_free_proc PID_ARRAY_HASH_BITS fuel) (ptab n) pi Hc) as (t' & E & Hs & Hr).
  unfold put_proc. rewrite E. cbn [mbind option_bind]. exists (set_ptab n t'). split; [reflexivity|]. split; [|easy].
  apply (node_inv_count n ps pi t'); auto; [lia|apply H].
Qed.

Lemma node_inv_new n ps pid pi t' :
  node_inv n ps -> pid_ok pid -> (forall a, a ∈ ps -> pid_at (ptab n) a <> pid) ->
  ptable_inv PID_ARRAY_HASH_BITS t' (pi :: ps) -> pi ∉ ps -> pid_at t' pi = pid -> cached_vregion_index (pmem t' pi) = 0 ->
  (forall a, a <> pi -> pmem t' a = pmem (ptab n) a) -> node_inv (set_mach (set_ptab n t') (init_regions (mach n) pid)) (pi :: ps).
Proof.
  intros Hn Hp Hno Ht Hpi Hpid Hc Hm. assert (Hq : forall a, a ∈ ps -> pmem t' a = pmem (ptab n) a) by (intros a Ha; apply Hm; intros ->; contradiction).
  assert (Hno' : forall va, page_addr va -> ~ entry (mach n) pid va).
  { intros va Hva He. destruct (ni_entries _ _ Hn pid va Hp Hva He) as (a & Ha & E). now destruct (Hno a Ha). }
  split; cbn; try apply Hn; auto.
  - now apply init_regions_inv; [apply Hn| |].
  - intros p (a & [->|Ha]%elem_of_cons & E); [congruence|]. apply (ni_pids _ _ Hn). exists a. split; [auto|]. unfold pid_at in *. now rewrite <- Hq.
  - intros a [->|Ha]%elem_of_cons; [rewrite Hc; split; vm_compute; [discriminate|reflexivity]|]. rewrite Hq by auto. now apply Hn.
  - intros p va Hp' Hva He. destruct (ni_entries _ _ Hn p va Hp' Hva He) as (a & Ha & E). exists a. split; [now right|]. unfold pid_at in *. now rewrite Hq.
Qed.

(** A new process, unless its id is in use or memory has run out. *)
Lemma alloc_proc_spec n ps pid : node_inv n ps -> (length ps < fuel)%nat -> pid_ok pid ->
  exists pi n', alloc_proc fuel n pid = Some (pi, n') /\ same_others n n' /\
    ((pi = 0 /\ node_inv n' ps /\ mach n' = mach n /\ (forall a, a ∈ ps -> pmem (ptab n') a = pmem (ptab n) a) /\ (live (ptab n) ps pid \/ pavail (ptab n) = [])) \/
     ((pi ∉ ps) /\ node_inv n' (pi :: ps) /\ (forall a, a ∈ ps -> pid_at (ptab n) a <> pid) /\ pid_at (ptab n') pi = pid /\ refcount (pmem (ptab n') pi) = 1 /\
      (forall a, a ∈ ps -> pmem (ptab n') a = pmem (ptab n) a) /\ mach n' = init_regions (mach n) pid)).
Proof.
  intros Hn Hf Hp. unfold alloc_proc. destruct (live_or_not (ptab n) ps pid) as [Hl|Hno].
  - destruct Hl as (a & Ha & Hpa). destruct (soc_alloc_dup _ fuel hash_bits_ok (ptab n) ps a 0 (ni_procs _ _ Hn) Hf Ha) as (t' & E & Ht & Hm).
    rewrite Hpa in E. rewrite E. cbn [mbind option_bind]. rewrite Z.eqb_refl. eexists _, _. split; [reflexivity|]. split; [easy|]. left.
    assert (Hlive : forall p, live t' ps p <-> live (ptab n) ps p).
    { intros p. unfold live, pid_at. split; intros (b & Hb' & Eb); exists b; (split; [auto|]); [rewrite <- Hm|rewrite Hm]; auto. }
    split_and!; auto; [|left; exists a; auto]. split; cbn; try apply Hn; auto.
    + intros p Hl. now apply (ni_pids _ _ Hn), Hlive.
    + intros b Hb'. rewrite Hm by auto. now apply Hn.
    + intros p va Hp' Hva He. apply Hlive. now apply (ni_entries _ _ Hn p va).
  - destruct (soc_alloc_spec _ fuel hash_bits_ok (ptab n) ps pid 0 (ni_procs _ _ Hn) Hf Hno) as [[Hav E]|(new & l & t' & Hav & E & Ht & H1 & H2 & H3 & H4 & H5)].
    + rewrite E. cbn [mbind option_bind]. rewrite Z.eqb_refl. eexists _, _. split; [reflexivity|]. split; [easy|]. left. split_and!; auto. now destruct n.
    + rewrite E. cbn [mbind option_bind]. pose proof (pt_avail _ _ _ (ni_procs _ _ Hn) new ltac:(rewrite Hav; left)) as [Hnew Hn0].
      rewrite (proj2 (Z.eqb_neq new 0)) by auto. eexists _, _. split; [reflexivity|]. split; [easy|]. right.
      split_and!; auto; [exact (node_inv_new n ps pid new t' Hn Hp Hno Ht Hnew H1 H3 H4)|]. intros a Ha. cbn. apply H4. intros ->. contradiction.
Qed.

(** The machine when the process of [pid] may be new. *)
Definition fresh_regions (s s' : soc) (pid : Z) : Prop := s' = s \/ s' = init_regions s pid.

Lemma fresh_same_entries s s' pid : fresh_regions s s' pid -> same_entries s s'.
Proof. intros [->| ->] p va _ _; [easy|apply init_regions_entry]. Qed.

Lemma fresh_full s s' pid : fresh_regions s s' pid -> no_full_bucket s -> no_full_bucket s'.
Proof. intros [->| ->]; auto. Qed.

Lemma fresh_failed s s' pid vi len : fresh_regions s s' pid -> pid_ok pid -> region_failed s' pid vi len -> region_failed s pid vi len.
Proof.
  intros Hf Hp. pose proof (fresh_same_entries _ _ _ Hf) as He. intros [H|H]; [left|right; eapply no_room_ext; eauto].
  destruct Hf as [->| ->]; [auto|]. revert H. unfold init_regions. cbn [regs]. now destruct (_ && _).
Qed.

Lemma find_or_create_spec n ps pid : node_inv n ps -> room fuel n ps -> pid_ok pid ->
  exists pi n', find_or_create fuel n pid = Some (pi, n') /\ same_others n n' /\
    ((pi = 0 /\ node_inv n' ps /\ mach n' = mach n /\ ~ live (ptab n) ps pid /\ pavail (ptab n) = []) \/
     exists ps', holds n' ps' pid pi /\ (ps' = ps \/ ps' = pi :: ps) /\ fresh_regions (mach n) (mach n') pid).
Proof.
  intros Hn [Hf Hc] Hp. unfold find_or_create. destruct (live_or_not (ptab n) ps pid) as [Hl|Hno].
  - destruct (get_proc_live n ps pid Hn ltac:(lia) Hc Hl) as (pi & n' & E & Hh & _ & _ & Em & Hr). rewrite E. cbn [mbind option_bind].
    rewrite (holds_nonzero _ _ _ _ Hh). exists pi, n'. split_and!; auto. right. exists ps. split_and!; auto. now left.
  - rewrite (get_proc_none n ps pid Hn ltac:(lia) Hno). cbn [mbind option_bind]. rewrite Z.eqb_refl.
    destruct (alloc_proc_spec n ps pid Hn ltac:(lia) Hp) as (pi & n' & E & Hr & [(-> & Hn' & Em & _ & Hwhy)|(Hpi & Hn' & _ & Hpid & Hone & Hm & Em)]); rewrite E; cbn [mbind option_bind].
    + rewrite Z.eqb_refl. exists 0, n'. split_and!; auto. left. assert (Hnl : ~ live (ptab n) ps pid) by (intros (a & Ha & Ea); now destruct (Hno a Ha)).
      split_and!; auto. tauto.
    + assert (Hl : live (ptab n') (pi :: ps) pid) by (exists pi; split; [left|auto]).
      assert (Hc' : counts_ok n' (pi :: ps)) by (intros a [->|Ha]%elem_of_cons; [lia|rewrite Hm by auto; now apply Hc]).
      destruct (get_proc_live n' (pi :: ps) pid Hn' ltac:(cbn; lia) Hc' Hl) as (pi' & n2 & E2 & Hh & Hsame & _ & Em2 & Hr2).
      assert (pi' = pi) as ->.
      { apply (pt_pids _ _ _ (ni_procs _ _ Hn')); [apply Hh|left|]. rewrite Hpid, <- (same_count_pid _ _ _ pi' Hsame). exact (h_pid _ _ _ _ Hh). }
      destruct (pt_live _ _ _ (ni_procs _ _ Hn') pi ltac:(left)) as [Hp0 _]. rewrite (proj2 (Z.eqb_neq pi 0)) by auto.
      rewrite E2. cbn [mbind option_bind]. exists pi, n2. split; [reflexivity|]. split; [eapply same_others_trans; eauto|]. right.
      exists (pi :: ps). split_and!; auto. right. congruence.
Qed.

(** ** Creating and ending processes *)

Lemma create_proc_spec n ps pid : node_inv n ps -> room fuel n ps -> pid_ok pid ->
  exists r n' ps', handle_create_proc fuel n pid = Some (Reply r, n') /\ node_inv n' ps' /\ same_others n n' /\ same_entries (mach n) (mach n') /\
    (resp_ret r = Some (- ENOMEM) /\ (live (ptab n) ps pid \/ pavail (ptab n) = []) \/
     resp_ret r = Some 0 /\ resp_id r = Some pid /\ ~ live (ptab n) ps pid /\ live (ptab n') ps' pid).
Proof.
  intros Hn [Hf _] Hp. unfold handle_create_proc.
  destruct (alloc_proc_spec n ps pid Hn ltac:(lia) Hp) as (pi & n' & -> & Hr & [(-> & Hn' & Em & _ & Hwhy)|(Hpi & Hn' & Hno & Hpid & _ & _ & Em)]); cbn [mbind option_bind].
  - rewrite Z.eqb_refl. eexists _, n', ps. split; [reflexivity|]. split_and!; auto. rewrite Em. now intros p va.
  - destruct (pt_live _ _ _ (ni_procs _ _ Hn') pi ltac:(left)) as [Hp0 _]. rewrite (proj2 (Z.eqb_neq pi 0)) by auto.
    eexists _, n', (pi :: ps). split; [reflexivity|]. split_and!; auto; [rewrite Em; intros p va _ _; apply init_regions_entry|]. right. split_and!; auto.
    + intros (a & Ha & Ea). now destruct (Hno a Ha).
    + exists pi. split; [left|auto].
Qed.

Lemma node_inv_removed n t' ps1 a ps2 :
  node_inv n (ps1 ++ a :: ps2) -> ptable_inv PID_ARRAY_HASH_BITS t' (ps1 ++ ps2) -> (forall b, b <> a -> pmem t' b = pmem (ptab n) b) ->
  (forall p, live t' (ps1 ++ ps2) p <-> live (ptab n) (ps1 ++ a :: ps2) p /\ p <> pid_at (ptab n) a) /\
  ((forall va, page_addr va -> ~ entry (mach n) (pid_at (ptab n) a) va) -> node_inv (set_ptab n t') (ps1 ++ ps2)).
Proof.
  intros Hn Ht Hm. pose proof (ni_procs _ _ Hn) as Ht0. pose proof (NoDup_not_in _ _ _ (proj1 (pt_rep _ _ _ Ht0))) as Hna.
  assert (Hq : forall b, b ∈ ps1 ++ ps2 -> b ∈ ps1 ++ a :: ps2 /\ pmem t' b = pmem (ptab n) b).
  { intros b Hb'. split; [rewrite elem_of_middle; auto|]. apply Hm. intros ->. contradiction. }
  assert (Hl : forall p, live t' (ps1 ++ ps2) p <-> live (ptab n) (ps1 ++ a :: ps2) p /\ p <> pid_at (ptab n) a).
  { intros p. unfold live, pid_at. split.
    - intros (b & Hb' & Eb). destruct (Hq b Hb') as [H1 H2]. rewrite H2 in Eb. split; [exists b; auto|]. intros E.
      assert (b = a) as ->; [|contradiction]. apply Ht0; [auto|rewrite elem_of_middle; auto|unfold pid_at; congruence].
    - intros ((b & Hb' & Eb) & Hne). rewrite elem_of_middle in Hb'. destruct Hb' as [->|Hb']; [now rewrite Eb in Hne|]. exists b. split; [auto|].
      now rewrite (proj2 (Hq b Hb')). }
  split; [exact Hl|]. intros Hno. split; cbn; try apply Hn; auto.
  - intros p Hp. now apply (ni_pids _ _ Hn), Hl.
  - intros b Hb'. destruct (Hq b Hb') as [H1 ->]. now apply Hn.
  - intros p va Hp Hva He. apply Hl. split; [now apply (ni_entries _ _ Hn p va)|]. intros ->. now destruct (Hno va Hva).
Qed.

Lemma free_proc_none n ps pid : node_inv n ps -> room fuel n ps -> ~ live (ptab n) ps pid ->
  handle_free_proc fuel n pid = Some (Reply (Resp None (Some (- ESRCH)) None None false), n).
Proof.
  intros Hn [Hf _] Hnl. unfold handle_free_proc. destruct (live_or_not (ptab n) ps pid) as [Hl|Hno]; [contradiction|].
  now rewrite (get_proc_none n ps pid Hn ltac:(lia) Hno).
Qed.

(** Ending the process at [a]: gone with its last reference, and its page-table
    entries are left. *)
Lemma free_proc_live n ps pid a : node_inv n ps -> room fuel n ps -> a ∈ ps -> pid_at (ptab n) a = pid ->
  exists n', handle_free_proc fuel n pid = Some (Reply (Resp (Some OP_FREE_PROC_RESP) (Some 0) None None false), n') /\ mach n' = mach n /\ same_others n n' /\
    (1 < refcount (pmem (ptab n) a) /\ node_inv n' ps \/
     refcount (pmem (ptab n) a) = 1 /\ exists ps1 ps2, ps = ps1 ++ a :: ps2 /\ ptable_inv PID_ARRAY_HASH_BITS (ptab n') (ps1 ++ ps2) /\
       (forall p, live (ptab n') (ps1 ++ ps2) p <-> live (ptab n) ps p /\ p <> pid) /\
       ((forall va, page_addr va -> ~ entry (mach n) pid va) -> node_inv n' (ps1 ++ ps2))).
Proof.
  intros Hn [Hf Hc] Ha Hpa. destruct (get_proc_live n ps pid Hn ltac:(lia) Hc ltac:(exists a; auto)) as (pi & n1 & E & Hh & Hs & Hr & Em & Hr1).
  assert (pi = a) as ->.
  { apply (pt_pids _ _ _ (ni_procs _ _ Hn)); [apply Hh|auto|]. rewrite Hpa, <- (same_count_pid _ _ _ pi Hs). exact (h_pid _ _ _ _ Hh). }
  unfold handle_free_proc. rewrite E. cbn [mbind option_bind]. rewrite (holds_nonzero _ _ _ _ Hh).
  destruct (put_proc_held _ _ _ _ Hh) as (n2 & -> & Hn2 & Hs2 & Hc2 & Em2 & Hr2). cbn [mbind option_bind]. rewrite Hr in Hc2.
  pose proof (same_count_trans _ _ _ _ Hs Hs2) as Hs12. pose proof (pt_live _ _ _ (ni_procs _ _ Hn) a Ha) as [_ Hpos]. specialize (Hc a Ha).
  destruct (decide (refcount (pmem (ptab n) a) = 1)) as [H1|H1].
  - apply list_elem_of_split in Ha as (ps1 & ps2 & ->). unfold put_proc.
    destruct (put_proc_last_soc _ fuel hash_bits_ok (ptab n2) ps1 a ps2 (ni_procs _ _ Hn2) ltac:(lia) ltac:(lia)) as (t' & -> & Ht' & Hm & _). cbn [mbind option_bind].
    eexists. split; [reflexivity|]. split_and!; [cbn; congruence|eapply same_others_trans; [eauto|exact Hr2]|]. right. split; [auto|]. exists ps1, ps2. split; [easy|]. split; [exact Ht'|].
    destruct (node_inv_removed n2 t' ps1 a ps2 Hn2 Ht' Hm) as [Hl Hinv]. rewrite (same_count_pid _ _ _ _ Hs12), Hpa, Em2, Em in *.
    split; [|exact Hinv]. intros p. cbn. rewrite Hl. now rewrite (same_count_live a (ptab n) (ptab n2) _ _ Hs12).
  - assert (Hh2 : holds n2 ps pid a) by (split; auto; [rewrite (same_count_pid _ _ _ _ Hs12); auto|lia]).
    destruct (put_proc_held _ _ _ _ Hh2) as (n3 & -> & Hn3 & _ & _ & Em3 & Hr3). cbn [mbind option_bind]. exists n3. split; [reflexivity|].
    split_and!; [congruence|eapply same_others_trans; [eapply same_others_trans; eauto|eauto]|]. left. split; [lia|auto].
Qed.

(** ** Ids of on-board modules *)

Definition sys_used (n : node) (b : Z) : Prop := bm_bit (sys_pid_map n) b = true.

Lemma node_inv_sys n ps m : node_inv n ps -> bitmap_fits m NR_SYSTEM_PID -> node_inv (set_sys_pid_map n m) ps.
Proof. intros [] H. now split. Qed.

Lemma alloc_sys_pid_spec n ps : node_inv n ps ->
  exists pid n', alloc_sys_pid n = (pid, n') /\ pid_ok pid /\ node_inv n' ps /\ mach n' = mach n /\ ptab n' = ptab n /\
    ((exists b, pid = NR_MAX_USER_PID + b /\ 1 <= b < NR_SYSTEM_PID /\ ~ sys_used n b /\ (forall j, 1 <= j < b -> sys_used n j) /\ sys_pid_map n' = __set_bit b (sys_pid_map n)) \/
     pid = NR_MAX_USER_PID - 1 /\ n' = n /\ forall j, 1 <= j < NR_SYSTEM_PID -> sys_used n j).
Proof.
  intros Hn. unfold alloc_sys_pid. pose proof (ni_sys _ _ Hn) as Hf. assert (HN : NR_SYSTEM_PID = 5535) by reflexivity. assert (HU : NR_MAX_USER_PID = 60000) by reflexivity.
  destruct (lowest_zero_bit (sys_pid_map n) NR_SYSTEM_PID 1 Hf ltac:(lia)) as [(Hb' & Hz & Hlow)|(Hb' & Hall)].
  - set (b := find_next_zero_bit _ _ _) in *. rewrite (proj2 (Z.leb_gt _ _)) by lia. eexists _, _. split; [reflexivity|]. split; [unfold pid_ok; lia|].
    split_and!; auto; [apply node_inv_sys; [auto|now apply set_bit_fits]|]. left. exists b. split_and!; auto; try lia. unfold sys_used. congruence.
  - rewrite Hb', (proj2 (Z.leb_le _ _)) by lia. eexists _, _. split; [reflexivity|]. split; [unfold pid_ok; lia|]. split_and!; auto.
Qed.

Lemma bit_of_set_bit m b size j : bitmap_fits m size -> 0 <= b < size -> 0 <= j -> bm_bit (__set_bit b m) j = true <-> j = b \/ bm_bit m j = true.
Proof.
  intros (_ & Hm & _) Hb' Hj. rewrite __set_bit_bit by lia. destruct (Z.eqb_spec j b); cbn; [split; auto|]. split; [auto|]. now intros [|].
Qed.

(** A process for an on-board module.  When the ids are used up the id before them
    is used, which is one of the ids of users. *)
Lemma ctrl_create_spec n ps : node_inv n ps -> (length ps < fuel)%nat ->
  exists pid n' ps', __handle_ctrl_create_proc fuel n = Some (pid, n') /\ node_inv n' ps' /\ same_entries (mach n) (mach n') /\
    let next := (alloc_sys_pid n).1 in
    (pid = 0 /\ (live (ptab n) ps next \/ pavail (ptab n) = []) /\ (forall j, 0 <= j < NR_SYSTEM_PID -> sys_used n' j <-> sys_used n j) \/
     pid = next /\ ~ live (ptab n) ps pid /\ live (ptab n') ps' pid /\ sys_pid_map n' = sys_pid_map (alloc_sys_pid n).2).
Proof.
  intros Hn Hf. unfold __handle_ctrl_create_proc. destruct (alloc_sys_pid_spec n ps Hn) as (pid & n1 & -> & Hp & Hn1 & Em1 & Et1 & Hpid). cbn [fst snd].
  assert (HN : NR_SYSTEM_PID = 5535) by reflexivity. assert (HU : NR_MAX_USER_PID = 60000) by reflexivity. assert (HM : NR_MAX_SYSTEM_PID = 65535) by reflexivity.
  rewrite (proj2 (Z.ltb_ge pid 0)) by (unfold pid_ok in Hp; lia).
  destruct (alloc_proc_spec n1 ps pid Hn1 Hf Hp) as (pi & n' & -> & (_ & Hsys & _) & [(-> & Hn' & Em & _ & Hwhy)|(Hpi & Hn' & Hno & Hpa & _ & _ & Em)]); cbn [mbind option_bind].
  - rewrite Z.eqb_refl. unfold free_sys_pid. rewrite Em1 in Em. rewrite Et1 in Hwhy.
    destruct Hpid as [(b & -> & Hbr & Hnu & _ & Hset)|(-> & -> & _)].
    + rewrite (proj2 (Z.ltb_ge _ _)), (proj2 (Z.leb_gt _ _)) by lia. cbn [orb]. replace (NR_MAX_USER_PID + b - NR_MAX_USER_PID) with b by lia.
      rewrite test_and_clear_spec by apply Hn'. rewrite Hsys, Hset. pose proof (ni_sys _ _ Hn) as Hfit.
      rewrite (proj2 (bit_of_set_bit _ b _ b Hfit ltac:(lia) ltac:(lia))) by auto. cbn [negb mbind option_bind].
      eexists 0, _, ps. split; [reflexivity|]. split; [apply node_inv_sys; [auto|]; now apply clear_bit_fits, set_bit_fits|]. split; [cbn; rewrite Em; now intros p va|].
      left. split_and!; auto. intros j Hj. unfold sys_used in *. cbn [sys_pid_map set_sys_pid_map].
      rewrite __clear_bit_bit by (pose proof (set_bit_fits b _ _ Hfit) as (_ & H & _); lia). pose proof (bit_of_set_bit _ b _ j Hfit ltac:(lia) ltac:(lia)) as Hj'.
      destruct (Z.eqb_spec j b) as [->|Hne]; cbn; [split; [discriminate|now intros ?%Hnu]|]. rewrite Hj'. tauto.
    + change ((NR_MAX_USER_PID - 1 <? NR_MAX_USER_PID) || (NR_MAX_SYSTEM_PID <=? NR_MAX_USER_PID - 1)) with true. cbn [mbind option_bind].
      eexists 0, _, ps. split; [reflexivity|]. split; [auto|]. split; [rewrite Em; now intros p va|]. left. split_and!; auto. intros j _. unfold sys_used. now rewrite Hsys.
  - destruct (pt_live _ _ _ (ni_procs _ _ Hn') pi ltac:(left)) as [Hp0 _]. rewrite (proj2 (Z.eqb_neq pi 0)) by auto. eexists pid, n', (pi :: ps). split; [reflexivity|]. split; [auto|].
    split; [rewrite Em, Em1; intros p va _ _; apply init_regions_entry|]. right. rewrite Et1 in Hno. split_and!; auto.
    + intros (a & Ha & Ea). now destruct (Hno a Ha).
    + exists pi. split; [left|auto].
Qed.

(** ** Allocation and release *)

Context (Hb : bases_ok shadow_base devmem_base) (Hsp : spare_ok spare) (Hfuel : (260 <= fuel)%nat).

Lemma region_alloc s pid vi len flags :
  soc_inv buddy_ok s -> no_full_bucket s -> pid_ok pid -> 0 <= vi < NR_VREGIONS -> 0 < len <= VREGION_SIZE -> ordinary flags ->
  exists addr r s', alloc_va_vregion shadow_base devmem_base spare fuel s pid vi len flags = Some (addr, r, s') /\ soc_inv buddy_ok s' /\
    (addr <> 0 /\ allocated_range s s' pid vi addr (PAGE_ALIGN len) \/ addr = 0 /\ untouched s s' pid vi /\ region_failed s pid vi (PAGE_ALIGN len)).
Proof.
  intros Hs Hfull Hp Hvi Hlen Hfl. destruct fuel as [|f] eqn:Ef; [lia|]. unfold alloc_va_vregion.
  destruct (alloc_va_vregion_spec buddy_ok shadow_base devmem_base spare (proj1 Hb) (proj2 Hb) Hsp f s pid vi len flags) as (a & r & s' & E & H); auto; [lia|].
  exists a, r, s'. auto.
Qed.

(** The machine of a node whose process has gained entries, or none. *)
Lemma holds_mach n ps pid pi s' : holds n ps pid pi -> soc_inv buddy_ok s' ->
  (forall p va, pid_ok p -> page_addr va -> entry s' p va -> entry (mach n) p va \/ p = pid) -> holds (set_mach n s') ps pid pi.
Proof.
  intros Hh Hs He. split; [|exact (h_in _ _ _ _ Hh)|exact (h_pid _ _ _ _ Hh)|exact (h_count _ _ _ _ Hh)]. apply node_inv_mach; [apply Hh|auto|]. intros p va Hp Hva H.
  destruct (He p va Hp Hva H) as [| ->]; [auto|right]. now apply (holds_live _ _ _ pi).
Qed.

Lemma gained_entries s s' pid a e : gained s s' pid a e -> forall p va, pid_ok p -> page_addr va -> entry s' p va -> entry s p va \/ p = pid.
Proof. intros Hg p va Hp Hva He. apply (Hg p va Hp Hva) in He. tauto. Qed.

Lemma lost_entries s s' pid a e : lost s s' pid a e -> forall p va, pid_ok p -> page_addr va -> entry s' p va -> entry s p va \/ p = pid.
Proof. intros Hg p va Hp Hva He. apply (Hg p va Hp Hva) in He. tauto. Qed.

Lemma same_entries_entries s s' pid : same_entries s s' -> forall p va, pid_ok p -> page_addr va -> entry s' p va -> entry s p va \/ p = pid.
Proof. intros Hg p va Hp Hva He. left. now apply Hg. Qed.

Lemma index_ok vi : 0 <= vi < NR_VREGIONS -> index_to_vregion vi = Some vi.
Proof. intros H. unfold index_to_vregion. now rewrite (proj2 (Z.leb_gt _ _)) by lia. Qed.

(** The outcome of an allocation in region [vi] of a machine. *)
Definition alloc_outcome (s s' : soc) (pid vi addr len : Z) : Prop :=
  addr <> 0 /\ allocated_range s s' pid vi addr len \/ addr = 0 /\ same_entries s s' /\ region_failed s pid vi len.

Lemma outcome_range s s' pid vi addr len : alloc_outcome s s' pid vi addr (PAGE_ALIGN len) -> 0 <= vi < NR_VREGIONS -> 0 < len <= VREGION_SIZE -> 0 <= addr < 2 ^ 50.
Proof.
  intros [(_ & _ & H1 & _ & H2 & _)|(-> & _)] Hvi Hlen; [|lia]. destruct (page_align_region len Hlen) as (_ & H3 & _).
  change NR_VREGIONS with 1048576 in *. change VREGION_SIZE with 1073741824 in *. lia.
Qed.

Lemma same_entries_trans a b c : same_entries a b -> same_entries b c -> same_entries a c.
Proof. intros H1 H2 p va Hp Hva. rewrite (H2 p va Hp Hva). auto. Qed.

Lemma outcome_fresh s s1 s' pid vi addr len : fresh_regions s s1 pid -> pid_ok pid -> alloc_outcome s1 s' pid vi addr len -> alloc_outcome s s' pid vi addr len.
Proof.
  intros Hf Hp. pose proof (fresh_same_entries _ _ _ Hf) as He. intros [(H1 & H2)|(H1 & H2 & H3)]; [left|right]; split; auto.
  - eapply allocated_range_ext; eauto.
  - split; [eapply same_entries_trans; eauto|eapply fresh_failed; eauto].
Qed.

Lemma held_alloc n ps pid pi vi len flags :
  holds n ps pid pi -> no_full_bucket (mach n) -> 0 <= vi < NR_VREGIONS -> 0 < len <= VREGION_SIZE -> ordinary flags ->
  exists addr r s', alloc_va_vregion shadow_base devmem_base spare fuel (mach n) (pid_at (ptab n) pi) vi len flags = Some (addr, r, s') /\
    holds (set_mach n s') ps pid pi /\ alloc_outcome (mach n) s' pid vi addr (PAGE_ALIGN len).
Proof.
  intros Hh Hfull Hvi Hlen Hfl. rewrite (h_pid _ _ _ _ Hh). pose proof (ni_pids _ _ (h_inv _ _ _ _ Hh) pid (holds_live _ _ _ _ Hh)) as Hp.
  destruct (region_alloc (mach n) pid vi len flags (ni_soc _ _ (h_inv _ _ _ _ Hh)) Hfull Hp Hvi Hlen Hfl) as (addr & r & s' & E & Hs & H).
  exists addr, r, s'. split; [exact E|]. destruct H as [(Hne & Hr)|(-> & Hu & Hwhy)]; (split; [apply holds_mach; auto|]).
  - apply (gained_entries _ _ _ addr (addr + PAGE_ALIGN len)), Hr.
  - left. auto.
  - apply same_entries_entries, Hu.
  - right. split_and!; auto. apply Hu.
Qed.

Lemma ctrl_alloc_repeat_spec left s pid i size flags :
  soc_inv buddy_ok s -> no_full_bucket s -> pid_ok pid -> 0 <= i < NR_VREGIONS -> Z.of_nat left = NR_VREGIONS - i -> 0 < size <= VREGION_SIZE ->
  ordinary (Z.lor LEGOMEM_VM_FLAGS_POPULATE flags) ->
  exists addr idx s', ctrl_alloc_repeat shadow_base devmem_base spare fuel left s pid size flags i = Some (addr, idx, s') /\ soc_inv buddy_ok s' /\
    ((addr <> 0 /\ i <= idx < NR_VREGIONS /\ allocated_range s s' pid idx addr (PAGE_ALIGN size)) \/
     (addr = 0 /\ same_entries s s' /\ no_full_bucket s')).
Proof.
  revert s i. induction left as [|left IH]; intros s i Hs Hfull Hp Hi Hl Hsz Hfl; [lia|]. cbn [ctrl_alloc_repeat].
  rewrite index_ok by lia. cbn [mbind option_bind].
  destruct (region_alloc s pid i size (Z.lor LEGOMEM_VM_FLAGS_POPULATE flags) Hs Hfull Hp Hi Hsz Hfl) as (addr & r & s1 & -> & Hs1 & H). cbn [mbind option_bind].
  destruct H as [(Hne & Hr)|(-> & (He & Ei & _) & _)].
  - rewrite (proj2 (Z.eqb_neq addr 0)) by auto. exists addr, i, s1. split; [reflexivity|]. split; [auto|]. left. split_and!; auto; lia.
  - assert (HN : NR_VREGIONS = 1048576) by reflexivity. assert (Hf1 : no_full_bucket s1) by (intros b Hb'; rewrite Ei; now apply Hfull).
    rewrite Z.eqb_refl, (wrap32_small (i + 1)) by lia. destruct (Z.eqb_spec (i + 1) NR_VREGIONS) as [E|E].
    { exists 0, (i + 1), s1. split; [reflexivity|]. split; [auto|]. right. auto. }
    destruct (IH s1 (i + 1)) as (addr & idx & s' & -> & Hs' & H); auto; [lia|lia|]. exists addr, idx, s'. split; [reflexivity|]. split; [auto|].
    destruct H as [(Hne & Hidx & Hr)|(-> & He' & Hf')]; [left|right]; split_and!; auto; try lia.
    + eapply allocated_range_ext; eauto.
    + eapply same_entries_trans; eauto.
Qed.

(** Only the cached index of one process changes. *)
Lemma holds_cached n ps pid pi i : holds n ps pid pi -> 0 <= i < NR_VREGIONS ->
  holds (set_ptab n (set_proc (ptab n) pi (set_cached_index (pmem (ptab n) pi) i))) ps pid pi.
Proof.
  intros Hh Hi. set (t' := set_proc _ _ _).
  assert (Hm : forall b, p_pid (pmem t' b) = p_pid (pmem (ptab n) b) /\ refcount (pmem t' b) = refcount (pmem (ptab n) b)).
  { intros b. unfold t'. cbn. destruct (decide (b = pi)) as [->|Hne]; [now rewrite fn_lookup_insert|now rewrite fn_lookup_insert_ne by auto]. }
  assert (Hpid : forall b, pid_at t' b = pid_at (ptab n) b) by (intros b; apply Hm).
  assert (Hl : forall p, live t' ps p <-> live (ptab n) ps p) by (intros p; unfold live; now setoid_rewrite Hpid).
  pose proof (h_inv _ _ _ _ Hh) as Hn. pose proof (ni_procs _ _ Hn) as Ht.
  split; [|exact (h_in _ _ _ _ Hh)|cbn; rewrite Hpid; exact (h_pid _ _ _ _ Hh)|cbn [ptab set_ptab]; rewrite (proj2 (Hm pi)); exact (h_count _ _ _ _ Hh)].
  split; cbn [mach ptab set_ptab sess sys_pid_map]; [apply Hn| | | | |apply Hn|apply Hn].
  - destruct Ht. split; auto.
    + eapply hash_rep_key; [|exact pt_rep]. auto.
    + intros a b Ha Hb'. rewrite !Hpid. auto.
    + intros a Ha. rewrite (proj2 (Hm a)). auto.
  - intros p Hp. now apply (ni_pids _ _ Hn), Hl.
  - intros a Ha. unfold t'. cbn. destruct (decide (a = pi)) as [->|Hne]; [now rewrite fn_lookup_insert|]. rewrite fn_lookup_insert_ne by auto. now apply Hn.
  - intros p va Hp Hva He. apply Hl. now apply (ni_entries _ _ Hn p va).
Qed.

Lemma held_ctrl_alloc n ps pid pi size flags :
  holds n ps pid pi -> no_full_bucket (mach n) -> 0 < size <= VREGION_SIZE -> ordinary (Z.lor LEGOMEM_VM_FLAGS_POPULATE flags) ->
  exists addr n', __handle_ctrl_alloc shadow_base devmem_base spare fuel n pi size flags = Some (addr, n') /\ holds n' ps pid pi /\ same_others n n' /\
    (addr <> 0 /\ (exists vi, 0 <= vi < NR_VREGIONS /\ allocated_range (mach n) (mach n') pid vi addr (PAGE_ALIGN size)) \/
     addr = 0 /\ same_entries (mach n) (mach n')).
Proof.
  intros Hh Hfull Hsz Hfl. pose proof (h_inv _ _ _ _ Hh) as Hn. pose proof (ni_pids _ _ Hn pid (holds_live _ _ _ _ Hh)) as Hp.
  pose proof (ni_cached _ _ Hn pi (h_in _ _ _ _ Hh)) as Hi. assert (HN : NR_VREGIONS = 1048576) by reflexivity.
  unfold __handle_ctrl_alloc. change (p_pid (pmem (ptab n) pi)) with (pid_at (ptab n) pi). rewrite (h_pid _ _ _ _ Hh).
  set (i := cached_vregion_index (pmem (ptab n) pi)) in *. rewrite (wrap32_small i) by lia.
  destruct (ctrl_alloc_repeat_spec (Z.to_nat (NR_VREGIONS - i)) (mach n) pid i size flags) as (addr & idx & s' & -> & Hs' & H); auto; [apply Hn|rewrite Z2Nat.id by lia; reflexivity|].
  cbn [mbind option_bind]. destruct H as [(Hne & Hidx & Hr)|(-> & He & _)].
  - rewrite (proj2 (Z.eqb_neq addr 0)) by auto. rewrite sint32_small by lia. eexists _, _. split; [reflexivity|].
    split; [|split; [easy|left; split; [auto|exists idx; split; [lia|exact Hr]]]].
    apply (holds_cached (set_mach n s')); [|lia]. apply holds_mach; [auto|auto|]. eapply gained_entries, Hr.
  - rewrite Z.eqb_refl. eexists _, _. split; [reflexivity|]. split; [|split; [easy|right; auto]]. apply holds_mach; [auto|auto|]. now apply same_entries_entries.
Qed.

(** The node after the reference is dropped. *)
Lemma put_mach n ps pid pi s' : holds (set_mach n s') ps pid pi ->
  exists n', put_proc fuel (set_mach n s') pi = Some n' /\ node_inv n' ps /\ live (ptab n') ps pid /\ mach n' = s' /\ same_others n n'.
Proof.
  intros Hh. destruct (put_proc_held _ _ _ _ Hh) as (n' & E & Hn & Hs & _ & Em & Hr). exists n'. split_and!; auto.
  apply (same_count_live pi _ _ ps pid Hs). exact (holds_live _ _ _ _ Hh).
Qed.

Lemma alloc_request_spec n ps pid ops :
  node_inv n ps -> room fuel n ps -> no_full_bucket (mach n) -> pid_ok pid -> op_vregion_idx ops <> MV_VREGION ->
  let vi := wrap32 (op_vregion_idx ops) in
  0 <= vi < NR_VREGIONS -> 0 < op_len ops <= VREGION_SIZE -> ordinary (op_vm_flags ops) ->
  exists r n' ps', board_soc_handle_alloc_free shadow_base devmem_base spare fuel n true pid ops = Some (Reply r, n') /\ node_inv n' ps' /\ same_others n n' /\
    ((resp_ret r = Some (wrap32 (- ENOMEM)) /\ resp_addr r = None /\ mach n' = mach n /\ ~ live (ptab n) ps pid /\ pavail (ptab n) = []) \/
     exists addr, resp_ret r = Some 0 /\ resp_addr r = Some addr /\ live (ptab n') ps' pid /\ alloc_outcome (mach n) (mach n') pid vi addr (PAGE_ALIGN (op_len ops))).
Proof.
  intros Hn Hroom Hfull Hp Hmv vi Hvi Hlen Hfl. unfold board_soc_handle_alloc_free.
  destruct (find_or_create_spec n ps pid Hn Hroom Hp) as (pi & n1 & -> & Hr1 & H). cbn [mbind option_bind].
  destruct H as [(-> & Hn1 & Em & Hnl & Hav)|(ps1 & Hh & _ & Hfr)].
  { rewrite Z.eqb_refl. eexists _, n1, ps. split; [reflexivity|]. split_and!; auto. left. easy. }
  rewrite (holds_nonzero _ _ _ _ Hh), (proj2 (Z.eqb_neq (op_vregion_idx ops) MV_VREGION)) by auto. fold vi. rewrite index_ok by auto. cbn [mbind option_bind].
  destruct (held_alloc n1 ps1 pid pi vi (op_len ops) (op_vm_flags ops) Hh (fresh_full _ _ _ Hfr Hfull) Hvi Hlen Hfl) as (addr & r & s' & -> & Hh' & Ho). cbn [mbind option_bind].
  rewrite not_err by (pose proof (outcome_range _ _ _ _ _ _ Ho Hvi Hlen); lia). cbn [mbind option_bind].
  destruct (put_mach n1 ps1 pid pi s' Hh') as (n' & -> & Hn' & Hl & Em & Hr2). cbn [mbind option_bind].
  eexists _, n', ps1. split; [reflexivity|]. split_and!; auto; [eapply same_others_trans; eauto|]. right. exists addr. split_and!; auto.
  rewrite Em. eapply outcome_fresh; eauto.
Qed.

Lemma free_request_spec n ps pid ops :
  node_inv n ps -> room fuel n ps -> pid_ok pid -> free_args (op_addr ops) (op_len ops) -> free_fuel fuel (op_len ops) ->
  exists r n' ps', board_soc_handle_alloc_free shadow_base devmem_base spare fuel n false pid ops = Some (Reply r, n') /\ node_inv n' ps' /\ same_others n n' /\
    resp_addr r = None /\
    ((resp_ret r = Some (wrap32 (- ENOMEM)) /\ mach n' = mach n /\ ~ live (ptab n) ps pid /\ pavail (ptab n) = []) \/
     exists m, op_addr ops <= m <= op_addr ops + op_len ops /\ lost (mach n) (mach n') pid (op_addr ops) m /\
       (resp_ret r = Some 0 /\ m = op_addr ops + op_len ops \/ resp_ret r = Some (wrap32 (- ENOMEM)))).
Proof.
  intros Hn Hroom Hp Ha Hf. unfold board_soc_handle_alloc_free.
  destruct (find_or_create_spec n ps pid Hn Hroom Hp) as (pi & n1 & -> & Hr1 & H). cbn [mbind option_bind].
  destruct H as [(-> & Hn1 & Em & Hnl & Hav)|(ps1 & Hh & _ & Hfr)].
  { rewrite Z.eqb_refl. eexists _, n1, ps. split; [reflexivity|]. split_and!; auto. }
  rewrite (holds_nonzero _ _ _ _ Hh), (h_pid _ _ _ _ Hh).
  destruct (free_va_range_spec shadow_base devmem_base spare Hb Hsp fuel (mach n1) pid (op_addr ops) (op_len ops)) as (err & s' & m & -> & Hs' & Hm & Hl & Herr); auto; [apply Hh|].
  cbn [mbind option_bind]. assert (Hh' : holds (set_mach n1 s') ps1 pid pi) by (apply holds_mach; auto; eapply lost_entries; eauto).
  destruct (put_mach n1 ps1 pid pi s' Hh') as (n' & -> & Hn' & _ & Em & Hr2). cbn [mbind option_bind].
  eexists _, n', ps1. split; [reflexivity|]. split_and!; auto; [eapply same_others_trans; eauto|]. right. exists m. split; [auto|]. split.
  - rewrite Em. intros p va Hp' Hva. rewrite (Hl p va Hp' Hva), (fresh_same_entries _ _ _ Hfr p va Hp' Hva). easy.
  - destruct Herr as [[-> ->]| ->]; [left|right]; auto.
Qed.

(** The branch of the multi-version module. *)
Lemma mv_request_spec n ps pid ops :
  node_inv n ps -> room fuel n ps -> no_full_bucket (mach n) -> pid_ok pid -> op_vregion_idx ops = MV_VREGION ->
  exists r n' ps', board_soc_handle_alloc_free shadow_base devmem_base spare fuel n true pid ops = Some (Reply r, n') /\ node_inv n' ps'.
Proof.
  intros Hn Hroom Hfull Hp Hmv. unfold board_soc_handle_alloc_free.
  destruct (find_or_create_spec n ps pid Hn Hroom Hp) as (pi & n1 & -> & Hr1 & H). cbn [mbind option_bind].
  destruct H as [(-> & Hn1 & Em & Hnl & Hav)|(ps1 & Hh & _ & Hfr)]; [rewrite Z.eqb_refl; eauto|].
  rewrite (holds_nonzero _ _ _ _ Hh), Hmv, Z.eqb_refl. unfold handle_mv_alloc.
  assert (Hmv' : forall m a b c, holds m ps1 pid pi -> holds (set_mv m a b c) ps1 pid pi) by (intros m a b c [[] ? ? ?]; split; [now split|auto..]).
  assert (Hput : forall m, holds m ps1 pid pi -> exists n', put_proc fuel m pi = Some n' /\ node_inv n' ps1).
  { intros m Hm. destruct (put_proc_held _ _ _ _ Hm) as (n' & E & Hn' & _). eauto. }
  destruct (mv_base_vaddr n1 =? 0); cbn [mbind option_bind].
  - destruct (held_ctrl_alloc n1 ps1 pid pi (VREGION_SIZE / 2) 0 Hh (fresh_full _ _ _ Hfr Hfull)) as (addr & n2 & -> & Hh2 & _);
      [split; vm_compute; [reflexivity|discriminate]|discriminate|]. cbn [mbind option_bind].
    match goal with |- context [put_proc fuel ?m pi] => destruct (Hput m) as (n' & -> & Hn'); [auto|] end. cbn [mbind option_bind]. eauto.
  - match goal with |- context [put_proc fuel ?m pi] => destruct (Hput m) as (n' & -> & Hn'); [auto|] end. cbn [mbind option_bind]. eauto.
Qed.

(** ** Migration *)

Lemma migration_recv_spec n ps pid vi :
  node_inv n ps -> room fuel n ps -> no_full_bucket (mach n) -> pid_ok pid -> 0 <= vi < NR_VREGIONS ->
  exists r n' ps', board_soc_handle_migration_recv shadow_base devmem_base spare fuel n pid vi = Some (Reply r, n') /\ node_inv n' ps' /\
    ((resp_ret r = Some (- ENOMEM) /\ mach n' = mach n) \/
     resp_ret r = Some 0 /\ exists addr, alloc_outcome (mach n) (mach n') pid vi addr (PAGE_ALIGN VREGION_SIZE)).
Proof.
  intros Hn Hroom Hfull Hp Hvi. unfold board_soc_handle_migration_recv.
  assert (Hlen : 0 < VREGION_SIZE <= VREGION_SIZE) by (split; vm_compute; [reflexivity|discriminate]).
  destruct (find_or_create_spec n ps pid Hn Hroom Hp) as (pi & n1 & -> & Hr1 & H). cbn [mbind option_bind].
  destruct H as [(-> & Hn1 & Em & _)|(ps1 & Hh & _ & Hfr)]; [rewrite Z.eqb_refl; eexists _, n1, ps; split; [reflexivity|auto]|].
  rewrite (holds_nonzero _ _ _ _ Hh), index_ok by auto. cbn [mbind option_bind].
  destruct (held_alloc n1 ps1 pid pi vi VREGION_SIZE LEGOMEM_VM_FLAGS_POPULATE Hh (fresh_full _ _ _ Hfr Hfull) Hvi Hlen ltac:(discriminate)) as (addr & r & s' & -> & Hh' & Ho).
  cbn [mbind option_bind]. rewrite not_err by (pose proof (outcome_range _ _ _ _ _ _ Ho Hvi Hlen); lia).
  destruct (put_mach n1 ps1 pid pi s' Hh') as (n' & -> & Hn' & _ & Em & _). cbn [mbind option_bind]. eexists _, n', ps1. split; [reflexivity|]. split; [auto|].
  right. split; [reflexivity|]. exists addr. rewrite Em. eapply outcome_fresh; eauto.
Qed.

(** ** Requests of on-board modules *)

Lemma node_inv_send n ps c : node_inv n ps -> node_inv (send_tx n c) ps.
Proof. intros []. now split. Qed.

Lemma node_inv_kvs n ps k : node_inv n ps -> node_inv (set_kvs n k) ps.
Proof. intros []. now split. Qed.

Lemma ctrl_alloc_spec n ps rx : node_inv n ps -> room fuel n ps -> no_full_bucket (mach n) -> 0 <= param8 rx < 256 -> 0 < param32 rx <= VREGION_SIZE ->
  exists n' v, handle_ctrl_alloc shadow_base devmem_base spare fuel n rx = Some n' /\ node_inv n' ps /\
    ctrl_sent n' = ctrl_sent n ++ [set_param32 (set_cmd (set_addr (set_epid (ctrl_tx n) 3) (ctrl_addr rx)) (ctrl_cmd rx)) v] /\
    let pid := NR_MAX_USER_PID + param8 rx in
    (v <> 0 /\ live (ptab n) ps pid /\ (exists vi, 0 <= vi < NR_VREGIONS /\ allocated_range (mach n) (mach n') pid vi v (PAGE_ALIGN (param32 rx))) \/
     v = 0 /\ same_entries (mach n) (mach n')).
Proof.
  intros Hn [Hf Hc] Hfull H8 H32. unfold handle_ctrl_alloc. rewrite (Z.add_comm (param8 rx)). set (pid := NR_MAX_USER_PID + param8 rx).
  destruct (live_or_not (ptab n) ps pid) as [Hl|Hno].
  - destruct (get_proc_live n ps pid Hn ltac:(lia) Hc Hl) as (pi & n1 & -> & Hh & _ & _ & Em & (Hr1 & Hr2 & Hr3 & Hr4)). cbn [mbind option_bind]. rewrite (holds_nonzero _ _ _ _ Hh).
    destruct (held_ctrl_alloc n1 ps pid pi (param32 rx) 0 Hh ltac:(now rewrite Em) H32 ltac:(discriminate)) as (addr & n2 & -> & Hh2 & (Hq1 & Hq2 & Hq3 & Hq4) & H). cbn [mbind option_bind].
    eexists _, addr. split; [reflexivity|]. split; [apply node_inv_send, Hh2|]. split; [cbn; congruence|]. rewrite Em in H. destruct H as [[H1 H2]|[H1 H2]]; [left|right]; auto.
  - rewrite (get_proc_none n ps pid Hn ltac:(lia) Hno). cbn [mbind option_bind]. rewrite Z.eqb_refl. cbn [mbind option_bind].
    eexists _, 0. split; [reflexivity|]. split; [now apply node_inv_send|]. split; [reflexivity|]. right. split; [reflexivity|]. now intros p va.
Qed.

Lemma kvs_virt_inv n ps rx : node_inv n ps -> node_inv (handle_kvs_alloc_virt n rx).2 ps.
Proof.
  intros Hn. unfold handle_kvs_alloc_virt. destruct (KVS_VIRT_VA_SIZE <=? _); cbn [snd]; [now apply node_inv_kvs|].
  destruct (ctrl_cmd rx =? CMD_LEGOMEM_KVS_ALLOC_BOTH); unfold kvs_fifo; repeat (apply node_inv_send || apply node_inv_kvs); auto.
Qed.
End handlers.

(** ** Sessions *)

Lemma open_session_spec n ps ctrl remote ip : node_inv n ps ->
  exists r n', handle_open_session n ctrl remote ip = (Reply r, n') /\ node_inv n' ps /\
    match (soc_alloc_session (sess n)).1 with
    | Some i =>
        resp_id r = Some i /\ 1 <= i < NR_MAX_SESSIONS_PER_NODE /\ ~ in_use (sess n) i /\ (forall j, 0 <= j -> in_use (sess n') j <-> j = i \/ in_use (sess n) j) /\
        s_ids (session_net_map (sess n') i) = SessionNet i remote /\
        exists c, ctrl_sent n' = ctrl_sent n ++ [c] /\ epid c = LEGOMEM_CONT_NET /\ param32 c = wrap32 (set_gbn_conn_req i GBN_SOC2FPGA_SET_TYPE_OPEN)
    | None => resp_id r = Some 0 /\ n' = n /\ forall j, 1 <= j < NR_MAX_SESSIONS_PER_NODE -> in_use (sess n) j
    end.
Proof.
  intros Hn. unfold handle_open_session. pose proof (alloc_session_spec 1 (sess n) (ni_sess _ _ Hn) ltac:(vm_compute; intuition congruence)) as H.
  change (alloc_session_from 1) with soc_alloc_session in H. destruct (soc_alloc_session (sess n)) as [[i|] t]; cbn [fst].
  - destruct H as (Ht & Hi & Hnu & _ & Hu & _). assert (Hi' : in_use t i) by (apply Hu; [lia|auto]).
    pose proof (so_id t Ht i ltac:(lia) Hi') as Hid. eexists _, _. split; [reflexivity|]. split.
    + set (ses := set_endpoint _ _ _). assert (Hok : sessions_ok (set_session t i ses)) by (apply set_session_ok; auto; [lia|apply (so_flags t Ht i); [lia|auto]]). destruct Hn. now split.
    + cbn [resp_id sess dma_ctrl_send set_sess session_net_map set_session]. unfold get_local_session_id. rewrite Hid, fn_lookup_insert. cbn. rewrite Hid.
      split_and!; auto; try lia. eexists. split; [reflexivity|auto].
  - destruct H as [-> H]. eexists _, _. split; [reflexivity|]. destruct n. cbn. auto.
Qed.

Lemma close_session_spec n ps ctrl id : node_inv n ps -> 0 <= id ->
  exists r n', handle_close_session n ctrl id = (Reply r, n') /\ node_inv n' ps /\
    (forall j, 0 <= j < NR_MAX_SESSIONS_PER_NODE -> in_use (sess n') j <-> in_use (sess n) j /\ (j = id -> id = LEGOMEM_MGMT_SESSION_ID)) /\
    exists c, ctrl_sent n' = ctrl_sent n ++ [c] /\ epid c = LEGOMEM_CONT_NET /\ param32 c = wrap32 (set_gbn_conn_req id GBN_SOC2FPGA_SET_TYPE_CLOSE).
Proof.
  intros Hn Hid. destruct (free_session_spec (sess n) id (ni_sess _ _ Hn) Hid) as (Ht & Hu & _). unfold handle_close_session.
  eexists _, _. split; [reflexivity|]. split; [destruct Hn; now split|]. split; [exact Hu|]. eexists. split; [reflexivity|auto].
Qed.
