(* ===== verification/ServerSpec.v ===== *)
(** * The requests a board serves: the claims

    The states a board reaches from start-up by serving requests, what an
    allocation request promises its client, how processes end, the ids of
    on-board modules, and how opening and closing a session reaches the network
    stack of the FPGA. *)

From stdpp Require Import functions relations.
From S2P Require Import Prelude Bitops DList Buddy Hlist RbTree Vma VmaTree VmaOps VmaFree VmaSearch VmaSpec Pgtable PgtableProofs SocProofs SocSpec.
From S2P Require Import Gbn Fpga FpgaProofs Process Session Server ServerProofs.

#[local] Set Warnings "-clear-no-such-hyp".

(** ** Serving requests *)

(** Decides comparisons of constants. *)
Ltac eval_eqb :=
  repeat match goal with |- context [?a =? ?b] =>
    let c := eval vm_compute in (a =? b) in
    match c with true => change (a =? b) with true | false => change (a =? b) with false end
  end; cbv iota.

Section serving.
Context (shadow_base devmem_base spare : Z) (fuel : nat).

(** The opcodes whose handlers need nothing of their arguments. *)
Definition plain_opcode (op : Z) : Prop :=
  op ∉ [OP_REQ_ALLOC; OP_REQ_FREE; OP_REQ_MIGRATION_M2B_SEND; OP_REQ_MIGRATION_M2B_RECV; OP_REQ_MIGRATION_M2B_RECV_CANCEL; OP_CREATE_PROC; OP_FREE_PROC;
        OP_OPEN_SESSION; OP_CLOSE_SESSION; OP_REQ_TEST_PTE].

(** The requests that clients make: arguments in range, no full bucket when
    entries are to be added, and a process is only ended once its memory has been
    freed.  [OP_REQ_TEST_PTE] and the cancelling of a migration are left out. *)
Inductive request_ok (n : node) : request -> Prop :=
  | ok_alloc rq : rq_opcode rq = OP_REQ_ALLOC -> no_full_bucket (mach n) -> op_vregion_idx (rq_ops rq) <> MV_VREGION ->
      0 <= wrap32 (op_vregion_idx (rq_ops rq)) < NR_VREGIONS -> 0 < op_len (rq_ops rq) <= VREGION_SIZE -> ordinary (op_vm_flags (rq_ops rq)) -> request_ok n rq
  | ok_mv_alloc rq : rq_opcode rq = OP_REQ_ALLOC -> no_full_bucket (mach n) -> op_vregion_idx (rq_ops rq) = MV_VREGION -> request_ok n rq
  | ok_free rq : rq_opcode rq = OP_REQ_FREE -> free_args (op_addr (rq_ops rq)) (op_len (rq_ops rq)) -> free_fuel fuel (op_len (rq_ops rq)) -> request_ok n rq
  | ok_migration_send rq : rq_opcode rq = OP_REQ_MIGRATION_M2B_SEND -> request_ok n rq
  | ok_migration_recv rq : rq_opcode rq = OP_REQ_MIGRATION_M2B_RECV -> no_full_bucket (mach n) -> 0 <= rq_vregion_index rq < NR_VREGIONS -> request_ok n rq
  | ok_create rq : rq_opcode rq = OP_CREATE_PROC -> request_ok n rq
  | ok_free_proc rq : rq_opcode rq = OP_FREE_PROC -> (forall va, page_addr va -> ~ entry (mach n) (rq_pid rq) va) -> request_ok n rq
  | ok_open rq : rq_opcode rq = OP_OPEN_SESSION -> request_ok n rq
  | ok_close rq : rq_opcode rq = OP_CLOSE_SESSION -> 0 <= rq_session_id rq -> request_ok n rq
  | ok_plain rq : plain_opcode (rq_opcode rq) -> request_ok n rq.

Definition control_ok (n : node) (rx : lego_mem_ctrl) : Prop :=
  ctrl_cmd rx = CMD_LEGOMEM_CTRL_ALLOC -> no_full_bucket (mach n) /\ 0 <= param8 rx < 256 /\ 0 < param32 rx <= VREGION_SIZE.

(** Room in the table of processes. *)
Definition table_room (n : node) : Prop := forall ps, key_rep PID_ARRAY_HASH_BITS (ptab n) ps -> room fuel n ps.

Inductive serves : node -> node -> Prop :=
  | serves_request n rq r n' : table_room n -> pid_ok (rq_pid rq) -> request_ok n rq ->
      worker_handle_request_inline shadow_base devmem_base spare fuel n rq = Some (Reply r, n') -> serves n n'
  | serves_control n rx n' : table_room n -> control_ok n rx ->
      ctrl_dispatch shadow_base devmem_base spare fuel n rx = Some (false, n') -> serves n n'.

Context (Hb : bases_ok shadow_base devmem_base) (Hsp : spare_ok spare) (Hfuel : (260 <= fuel)%nat).

Lemma request_served n ps rq : node_inv n ps -> table_room n -> pid_ok (rq_pid rq) -> request_ok n rq ->
  exists o n' ps', worker_handle_request_inline shadow_base devmem_base spare fuel n rq = Some (o, n') /\ node_inv n' ps'.
Proof.
  intros Hn Htr Hp Hrq. pose proof (Htr ps (pt_rep _ _ _ (ni_procs _ _ Hn))) as Hroom. unfold worker_handle_request_inline.
  destruct Hrq as [rq E Hfull H1 H2 H3 H4|rq E Hfull H1|rq E H1 H2|rq E|rq E Hfull H1|rq E|rq E H1|rq E|rq E H1|rq Hno]; cbv zeta; try (rewrite E; eval_eqb).
  - destruct (alloc_request_spec shadow_base devmem_base spare fuel Hb Hsp Hfuel n ps (rq_pid rq) (rq_ops rq)) as (r & n' & ps' & -> & H & _); eauto.
  - destruct (mv_request_spec shadow_base devmem_base spare fuel Hb Hsp Hfuel n ps (rq_pid rq) (rq_ops rq)) as (r & n' & ps' & -> & H); eauto.
  - destruct (free_request_spec shadow_base devmem_base spare fuel Hb Hsp n ps (rq_pid rq) (rq_ops rq)) as (r & n' & ps' & -> & H & _); eauto.
  - unfold board_soc_handle_migration_send. destruct Hroom as [Hf Hc]. destruct (live_or_not (ptab n) ps (rq_pid rq)) as [Hl|Hl].
    + destruct (get_proc_live fuel n ps (rq_pid rq)) as (pi & n' & -> & Hh & _); auto; [lia|]. cbn [mbind option_bind].
      rewrite (holds_nonzero _ _ _ _ Hh). eexists _, n', ps. split; [reflexivity|apply Hh].
    + rewrite (get_proc_none fuel n ps) by (auto; lia). cbn [mbind option_bind]. eauto.
  - destruct (migration_recv_spec shadow_base devmem_base spare fuel Hb Hsp Hfuel n ps (rq_pid rq) (rq_vregion_index rq)) as (r & n' & ps' & -> & H & _); eauto.
  - destruct (create_proc_spec fuel n ps (rq_pid rq)) as (r & n' & ps' & -> & H & _); eauto.
  - destruct (live_or_not (ptab n) ps (rq_pid rq)) as [(a & Ha & Ea)|Hl].
    + destruct (free_proc_live fuel n ps (rq_pid rq) a) as (n' & -> & _ & _ & [[_ H]|(_ & ps1 & ps2 & _ & _ & _ & H)]); eauto.
      eexists _, n', (ps1 ++ ps2). auto.
    + rewrite (free_proc_none fuel n ps) by (auto; intros (a & Ha & Ea); now destruct (Hl a Ha)). eauto.
  - destruct (open_session_spec n ps (rq_ctrl rq) (rq_session_id rq) (rq_dest_ip rq) Hn) as (r & n' & -> & H & _). eauto.
  - destruct (close_session_spec n ps (rq_ctrl rq) (rq_session_id rq) Hn H1) as (r & n' & -> & H & _). eauto.
  - unfold plain_opcode in Hno. rewrite !not_elem_of_cons in Hno. destruct Hno as (N1 & N2 & N3 & N4 & N5 & N6 & N7 & N8 & N9 & N10 & _).
    apply Z.eqb_neq in N1, N2, N3, N4, N5, N6, N7, N8, N9, N10. rewrite N1, N2, N3, N4, N5, N6, N7, N8, N9, N10. repeat case_match; eauto.
Qed.

Lemma control_served n ps rx : node_inv n ps -> table_room n -> control_ok n rx ->
  exists b n' ps', ctrl_dispatch shadow_base devmem_base spare fuel n rx = Some (b, n') /\ node_inv n' ps'.
Proof.
  intros Hn Htr Hrx. pose proof (Htr ps (pt_rep _ _ _ (ni_procs _ _ Hn))) as Hroom. unfold ctrl_dispatch.
  destruct (Z.eqb_spec (ctrl_cmd rx) CMD_LEGOMEM_CTRL_CREATE_PROC) as [_|_].
  { unfold handle_ctrl_create_proc. destruct (ctrl_create_spec fuel n ps Hn) as (pid & n' & ps' & -> & H & _); [destruct Hroom; lia|].
    cbn [mbind option_bind]. eexists _, _, ps'. split; [reflexivity|now apply node_inv_send]. }
  destruct (Z.eqb_spec (ctrl_cmd rx) CMD_LEGOMEM_CTRL_ALLOC) as [E|_].
  { destruct (Hrx E) as (H1 & H2 & H3). destruct (ctrl_alloc_spec shadow_base devmem_base spare fuel Hb Hsp Hfuel n ps rx) as (n' & v & -> & H & _); auto.
    cbn [mbind option_bind]. eauto. }
  destruct (_ =? _); [eauto|]. destruct (_ || _); [|eauto]. pose proof (kvs_virt_inv n ps rx Hn) as H. destruct (handle_kvs_alloc_virt n rx) as [b n']. eauto.
Qed.

Lemma serves_inv n n' ps : serves n n' -> node_inv n ps -> exists ps', node_inv n' ps'.
Proof.
  intros [n1 rq r n1' H1 H2 H3 E|n1 rx n1' H1 H2 E] Hn.
  - destruct (request_served n1 ps rq Hn H1 H2 H3) as (o & w & ps' & E' & H). rewrite E in E'. injection E' as _ <-. eauto.
  - destruct (control_served n1 ps rx Hn H1 H2) as (o & w & ps' & E' & H). rewrite E in E'. injection E' as _ <-. eauto.
Qed.

Lemma serves_reach n n' ps : rtc serves n n' -> node_inv n ps -> exists ps', node_inv n' ps'.
Proof.
  intros Hr. revert ps. induction Hr as [|a b c Hst _ IH]; intros ps Hn; [eauto|]. destruct (serves_inv a b ps Hst Hn) as (ps' & H). eauto.
Qed.
End serving.

(** ** Start-up *)

Definition sys_map0 : list Z := repeat 0 (Z.to_nat (BITS_TO_LONGS NR_SYSTEM_PID)).

(** What [main] leaves besides the machine: no process, no session, no id given. *)
Definition booted (n : node) : Prop :=
  (exists h, phash (ptab n) = __hash_init h proc_hash_array (Z.to_nat (2 ^ PID_ARRAY_HASH_BITS))) /\
  NoDup (pavail (ptab n)) /\ (0 ∉ pavail (ptab n)) /\ sess n = no_sessions /\ sys_pid_map n = sys_map0.

Lemma booted_inv n : booted n -> soc_inv buddy_ok (mach n) -> (forall p va, ~ entry (mach n) p va) -> node_inv n [].
Proof.
  intros ((h & Hh) & Hd & H0 & Hs & Hm) Hsoc Hno. assert (Hnil : forall a : Z, a ∉ []) by (intros a; apply not_elem_of_nil). split; auto.
  - split; [|intros a b Ha; now destruct (Hnil a)|intros a Ha; now destruct (Hnil a)|auto|].
    + unfold key_rep. rewrite Hh. apply (hash_init_rep proc_hash_array PID_ARRAY_HASH_BITS hash_bits_ok).
    + intros a Ha. split; [apply Hnil|]. intros ->. contradiction.
  - intros pid (a & Ha & _). now destruct (Hnil a).
  - intros a Ha. now destruct (Hnil a).
  - intros pid va _ _ He. now destruct (Hno pid va).
  - rewrite Hs. apply no_sessions_ok.
  - rewrite Hm. unfold bitmap_fits, sys_map0. rewrite repeat_length. split; [|vm_compute; intuition congruence].
    apply Forall_forall. intros x Hx. apply list_elem_of_In, repeat_spec in Hx. subst x. unfold is_word. lia.
Qed.

(** ** Claims *)


(** A node after start-up, over a given machine. *)
Definition ex_ctrl : lego_mem_ctrl := Ctrl 0 0 0 0 0 0.
Definition ex_table : ptable := PTable (__hash_init (HHeap (fun _ => None) (fun _ => None) (fun _ => None)) proc_hash_array (Z.to_nat (2 ^ PID_ARRAY_HASH_BITS))) (fun _ => zero_proc) [100; 200].
Definition ex_node (s : soc) : node := MkNode s ex_table sys_map0 0 0 0 no_sessions (Kvs 0 0 0 0 []) ex_ctrl [].

Lemma ex_node_booted s : booted (ex_node s).
Proof.
  split_and!; try reflexivity; [eexists; reflexivity|apply NoDup_cons; split; [|apply NoDup_singleton]|]; cbn [pavail ptab ex_node ex_table].
  - intros H%list_elem_of_singleton. lia.
  - rewrite !not_elem_of_cons. split_and!; try lia. apply not_elem_of_nil.
Qed.

Lemma ex_table_room fuel s : (2 < fuel)%nat -> table_room fuel (ex_node s).
Proof.
  intros Hf ps Hr. assert (ps = []) as ->.
  { destruct ps as [|a ps]; [easy|]. destruct (find_proc_spec PID_ARRAY_HASH_BITS (S (S (length ps))) hash_bits_ok ex_table (a :: ps) 0 Hr ltac:(cbn; lia)) as (r & E & H).
    exfalso. change (find_proc PID_ARRAY_HASH_BITS (S (S (length ps))) ex_table 0) with (Some (@None Z)) in E. injection E as <-.
    apply (H a); [left|reflexivity]. }
  split; [cbn; lia|]. intros a Ha. now apply not_elem_of_nil in Ha.
Qed.

Definition ex_alloc_request : request :=
  Req OP_REQ_ALLOC 7 (OpAllocFree 0 4096 3 LEGOMEM_VM_FLAGS_POPULATE) 0 0 0 (OpTestPte 0 0 0 0) ex_ctrl.

Lemma ex_alloc_request_ok s : no_full_bucket s -> pid_ok (rq_pid ex_alloc_request) /\ request_ok 300 (ex_node s) ex_alloc_request.
Proof.
  intros Hf. split; [unfold pid_ok; cbn; lia|]. apply ok_alloc; [reflexivity|exact Hf|discriminate|split; vm_compute; [discriminate|reflexivity]|split; vm_compute; [reflexivity|discriminate]|discriminate].
Qed.



Lemma ex_node_inv : node_inv (ex_node ex_machine) [] /\ room 300 (ex_node ex_machine) [].
Proof.
  destruct ex_machine_inv as (Hs & _ & Hno). split; [apply booted_inv; [apply ex_node_booted|exact Hs|exact Hno]|].
  split; [cbn; lia|]. intros a Ha. now apply not_elem_of_nil in Ha.
Qed.


(** C6: Ending a process takes it out of the table with its last reference, and
    reports success; but nothing of its memory is released: every page-table entry
    it had stays, and its pages with them, although no live process owns them. *)
Theorem free_proc_keeps_entries fuel n ps pid a va :
  node_inv n ps -> room fuel n ps -> a ∈ ps -> pid_at (ptab n) a = pid -> refcount (pmem (ptab n) a) = 1 -> page_addr va -> entry (mach n) pid va ->
  exists r n' ps', handle_free_proc fuel n pid = Some (Reply r, n') /\ resp_ret r = Some 0 /\ ptable_inv PID_ARRAY_HASH_BITS (ptab n') ps' /\
    (forall p, live (ptab n') ps' p <-> live (ptab n) ps p /\ p <> pid) /\ zone (mach n') = zone (mach n) /\ entry (mach n') pid va /\ ~ node_inv n' ps'.
Proof.
  intros Hn Hroom Ha Hpa H1 Hva He. destruct (free_proc_live fuel n ps pid a Hn Hroom Ha Hpa) as (n' & E & Em & _ & [[H _]|(_ & ps1 & ps2 & -> & Ht & Hl & _)]); [lia|].
  eexists _, n', (ps1 ++ ps2). split; [exact E|]. rewrite Em. split_and!; auto; try apply Hl. intros Hn'.
  assert (Hp : pid_ok pid) by (apply (ni_pids _ _ Hn); exists a; auto). rewrite <- Em in He. now destruct (proj1 (Hl pid) (ni_entries _ _ Hn' pid va Hp Hva He)).
Qed.

(** Process 1 with one page, as [alloc_proc] and [__alloc_va] leave them. *)
Lemma ex_busy : exists t a, node_inv (set_ptab (ex_node (ex_page 1 ex_machine)) t) [a] /\ pid_at t a = 1 /\ refcount (pmem t a) = 1.
Proof.
  destruct ex_node_inv as [Hn _].
  destruct (alloc_proc_spec 300 (ex_node ex_machine) [] 1 Hn ltac:(cbn; lia) ltac:(unfold pid_ok; lia)) as (a & n' & _ & _ & H).
  destruct H as [(_ & _ & _ & _ & [(x & Hx & _)|H])|(_ & Hn' & _ & Hpid & Hone & _ & _)]; [now apply not_elem_of_nil in Hx|discriminate H|].
  exists (ptab n'), a. split; [|auto]. destruct ex_machine_inv as (Hs & Hfull & Hno).
  assert (Hent : forall p va, pid_ok p -> page_addr va -> entry (ex_page 1 ex_machine) p va -> p = 1).
  { intros p va Hp Hva. unfold ex_page.
    destruct (region_alloc 0x10000000 0x7f0000000000 300 300 ex_bases ltac:(right; split; vm_compute; [discriminate|reflexivity]) ltac:(lia) ex_machine 1 0 4096 1)
      as (addr & r & s' & -> & _ & H); [exact Hs|exact Hfull|unfold pid_ok; lia|split; [lia|reflexivity]|split; [lia|vm_compute; discriminate]|discriminate|].
    intros He. destruct H as [(_ & _ & _ & _ & _ & _ & Hg)|(_ & (Hse & _) & _)].
    - apply (Hg p va Hp Hva) in He as [He|[-> _]]; [now destruct (Hno p va)|easy].
    - apply (Hse p va Hp Hva) in He. now destruct (Hno p va). }
  split; cbn [mach ptab set_ptab sess sys_pid_map ex_node]; [now apply ex_page_inv|apply Hn'|apply Hn'|apply Hn'| |apply no_sessions_ok|apply Hn].
  intros p va Hp Hva He. exists a. split; [left|]. now rewrite (Hent p va Hp Hva He).
Qed.

Lemma free_proc_keeps_entries_witness :
  exists n n' r, entry (mach n) 1 (2 ^ 30 - PAGE_SIZE) /\ handle_free_proc 300 n 1 = Some (Reply r, n') /\ resp_ret r = Some 0 /\ entry (mach n') 1 (2 ^ 30 - PAGE_SIZE).
Proof.
  destruct ex_busy as (t & a & Hn & Hp & Hone). set (n := set_ptab _ t) in *.
  assert (He : entry (mach n) 1 (2 ^ 30 - PAGE_SIZE)).
  { exists 4080. split; [unfold in_bucket; vm_compute; split; [discriminate|reflexivity]|]. vm_compute. reflexivity. }
  assert (Hva : page_addr (2 ^ 30 - PAGE_SIZE)) by (split; [split; vm_compute; [discriminate|reflexivity]|reflexivity]).
  destruct (free_proc_keeps_entries 300 n [a] 1 a (2 ^ 30 - PAGE_SIZE)) as (r & n' & ps' & E & Hr & _ & _ & _ & He' & _);
    [exact Hn|split; [cbn; lia|intros x Hx%list_elem_of_singleton; subst x; cbn [ptab n set_ptab]; rewrite Hone; lia]|left|exact Hp|exact Hone|exact Hva|exact He|].
  exists n, n', r. split; [exact He|]. split; [exact E|]. split; [exact Hr|exact He'].
Defined.

(** A process for an on-board module gets the lowest unused system id, which
    becomes used; if that process exists already or memory has run out, the reply
    is 0 and the id is free again.  When all system ids are used, the request does
    not fail: it creates a process with the last id of users. *)
Theorem ctrl_create_proc_correct fuel n ps :
  node_inv n ps -> (length ps < fuel)%nat ->
  exists pid n' ps', __handle_ctrl_create_proc fuel n = Some (pid, n') /\ node_inv n' ps' /\ same_entries (mach n) (mach n') /\
    ((exists b, 1 <= b < NR_SYSTEM_PID /\ ~ sys_used n b /\ (forall j, 1 <= j < b -> sys_used n j) /\
        (pid = NR_MAX_USER_PID + b /\ ~ live (ptab n) ps pid /\ live (ptab n') ps' pid /\ (forall j, 0 <= j < NR_SYSTEM_PID -> sys_used n' j <-> j = b \/ sys_used n j) \/
         pid = 0 /\ (live (ptab n) ps (NR_MAX_USER_PID + b) \/ pavail (ptab n) = []) /\ forall j, 0 <= j < NR_SYSTEM_PID -> sys_used n' j <-> sys_used n j)) \/
     (forall j, 1 <= j < NR_SYSTEM_PID -> sys_used n j) /\
        (pid = NR_MAX_USER_PID - 1 /\ ~ live (ptab n) ps pid /\ live (ptab n') ps' pid \/
         pid = 0 /\ (live (ptab n) ps (NR_MAX_USER_PID - 1) \/ pavail (ptab n) = []))).
Proof.
  intros Hn Hf. destruct (ctrl_create_spec fuel n ps Hn Hf) as (pid & n' & ps' & E & Hn' & He & H). exists pid, n', ps'. split; [exact E|]. split; [exact Hn'|]. split; [exact He|].
  destruct (alloc_sys_pid_spec n ps Hn) as (next & n1 & Ea & _ & _ & _ & _ & Hnext). rewrite Ea in H. cbn [fst snd] in H.
  destruct Hnext as [(b & -> & Hb & Hnu & Hlow & Hset)|(-> & -> & Hall)].
  - left. exists b. split_and!; auto; try lia. destruct H as [(-> & Hwhy & Hsame)|(-> & H1 & H2 & Hmap)]; [right; auto|left; split_and!; auto].
    intros j Hj. unfold sys_used. rewrite Hmap, Hset. apply (bit_of_set_bit _ _ NR_SYSTEM_PID); [apply Hn|lia|lia].
  - right. split; [exact Hall|]. destruct H as [(-> & Hwhy & _)|(-> & H1 & H2 & _)]; [right; auto|left; auto].
Qed.

Lemma ctrl_create_proc_correct_witness :
  exists n' ps', __handle_ctrl_create_proc 300 (ex_node ex_machine) = Some (60001, n') /\ live (ptab n') ps' 60001.
Proof.
  destruct ex_node_inv as [Hn _]. destruct (ctrl_create_proc_correct 300 (ex_node ex_machine) [] Hn ltac:(cbn; lia)) as (pid & n' & ps' & E & _ & _ & H).
  assert (Hfree : ~ sys_used (ex_node ex_machine) 1) by (vm_compute; discriminate).
  destruct H as [(b & Hb & _ & Hlow & H)|(Hall & _)]; [|destruct (Hfree (Hall 1 ltac:(vm_compute; split; [discriminate|reflexivity])))].
  assert (b = 1) as -> by (destruct (decide (b = 1)); [easy|]; destruct (Hfree (Hlow 1 ltac:(lia)))).
  destruct H as [(-> & _ & H & _)|(_ & [(x & Hx & _)|H] & _)]; [|now apply not_elem_of_nil in Hx|discriminate H]. exists n', ps'. split; [exact E|exact H].
Defined.

(** ** Sessions and the network stack of the FPGA *)

(** The control word as [struct conn_mgmt_req]: the first field in the low bits. *)
Definition conn_mgmt_bits (w : Z) : conn_mgmt_req :=
  ConnReq (Z.land w (Z.ones SLOT_ID_WIDTH)) (Z.land (Z.shiftr w SLOT_ID_WIDTH) (Z.ones (16 - SLOT_ID_WIDTH))).

Lemma conn_mgmt_bits_req slot type : 0 <= slot -> 0 <= type < 2 ^ (16 - SLOT_ID_WIDTH) ->
  conn_mgmt_bits (wrap32 (set_gbn_conn_req slot type)) = ConnReq (slot mod 2 ^ SLOT_ID_WIDTH) type.
Proof.
  change (2 ^ (16 - SLOT_ID_WIDTH)) with 64. change (2 ^ SLOT_ID_WIDTH) with 1024. intros Hs Ht. unfold set_gbn_conn_req, conn_mgmt_bits.
  change GBN_CONN_SET_SLOT_ID_MSK with (Z.ones 10). change GBN_CONN_SET_TYPE_MSK with (Z.ones 6). change GBN_CONN_SET_TYPE_SHIFT with 10. change SLOT_ID_WIDTH with 10. change (16 - 10) with 6.
  rewrite !Z.land_ones by lia. change (2 ^ 10) with 1024. change (2 ^ 6) with 64. rewrite (Z.mod_small type) by lia. pose proof (Z.mod_pos_bound slot 1024 ltac:(lia)) as Hm.
  rewrite Z.shiftl_mul_pow2, (wrap32_small (type * 2 ^ 10)) by lia.
  assert (Hl : Z.land (slot mod 1024) (type * 2 ^ 10) = 0).
  { apply Z.bits_inj'. intros i Hi. rewrite Z.land_spec, Z.bits_0. destruct (Z.lt_ge_cases i 10); [rewrite (Z.mul_pow2_bits_low type 10 i) by lia; apply andb_false_r|].
    change 1024 with (2 ^ 10). now rewrite Z.mod_pow2_bits_high by lia. }
  assert (E : Z.lor (slot mod 1024) (type * 2 ^ 10) = slot mod 1024 + type * 1024).
  { rewrite <- (Z.lxor_lor _ _ Hl). symmetry. exact (Z.add_nocarry_lxor _ _ Hl). }
  rewrite E, wrap32_small by lia. f_equal.
  - rewrite Z.mod_add by lia. apply Z.mod_small. lia.
  - rewrite Z.shiftr_div_pow2 by lia. change (2 ^ 10) with 1024. rewrite Z.div_add, (Z.div_small (slot mod 1024)) by lia. apply Z.mod_small. lia.
Qed.

(** The request passes the setup manager and reaches the state table. *)
Lemma setup_reaches_table t (s : streams) slot type : s conn_set_req = [ConnReq slot type] -> s init_req = [] ->
  type = GBN_SOC2FPGA_SET_TYPE_OPEN \/ type = GBN_SOC2FPGA_SET_TYPE_CLOSE ->
  (state_table_init t (setup_manager s)).1 =
    if type =? GBN_SOC2FPGA_SET_TYPE_OPEN then set_countdown (set_expected (set_last_sent (set_last_ackd (set_ack_enable_bit t slot true) slot 0) slot 0) slot 1) slot 0
    else set_expected t slot 0.
Proof.
  intros Hc Hi Ht. unfold setup_manager, read. rewrite Hc. cbn [set_type cm_slotid].
  assert (Hor : (type =? GBN_SOC2FPGA_SET_TYPE_OPEN) || (type =? GBN_SOC2FPGA_SET_TYPE_CLOSE) = true) by (destruct Ht as [->| ->]; reflexivity).
  rewrite Hor. unfold state_table_init, read. streams. rewrite Hi. cbn [app set_type cm_slotid]. now destruct (_ =? _).
Qed.

(** C7: Opening a session: as long as an id is left, the reply carries an id that
    was not in use and now is, and the control message sent makes the network stack
    of the FPGA open the slot of that id, in the state the first packet of the peer
    expects, and no other slot. *)
Theorem open_session_opens_fpga_slot n ps ctrl remote ip j :
  node_inv n ps -> 1 <= j < NR_MAX_SESSIONS_PER_NODE -> ~ in_use (sess n) j ->
  exists i r n' c, handle_open_session n ctrl remote ip = (Reply r, n') /\ node_inv n' ps /\ resp_id r = Some i /\ ~ in_use (sess n) i /\ in_use (sess n') i /\
    s_ids (session_net_map (sess n') i) = SessionNet i remote /\ ctrl_sent n' = ctrl_sent n ++ [c] /\
    forall t (s : streams), s conn_set_req = [conn_mgmt_bits (param32 c)] -> s init_req = [] ->
      let t' := (state_table_init t (setup_manager s)).1 in
      expected_seqnum_array t' i = 1 /\ last_sent_seqnum_array t' i = 0 /\ last_ackd_seqnum_array t' i = 0 /\ ack_enable_bitmap t' i = true /\
      forall k, k <> i -> expected_seqnum_array t' k = expected_seqnum_array t k /\ last_sent_seqnum_array t' k = last_sent_seqnum_array t k /\
        last_ackd_seqnum_array t' k = last_ackd_seqnum_array t k.
Proof.
  intros Hn Hj Hfree. destruct (open_session_spec n ps ctrl remote ip Hn) as (r & n' & E & Hn' & H).
  destruct (soc_alloc_session (sess n)).1 as [i|]; [|destruct H as (_ & _ & H); now destruct (Hfree (H j Hj))].
  destruct H as (Hr & Hi & Hnu & Hu & Hids & c & Hc & _ & Hp). exists i, r, n', c. split_and!; auto; [apply Hu; [lia|auto]|].
  change NR_MAX_SESSIONS_PER_NODE with 1024 in Hi. intros t s Hs Hin. rewrite Hp, conn_mgmt_bits_req in Hs by (try lia; vm_compute; intuition congruence).
  change (2 ^ SLOT_ID_WIDTH) with 1024 in Hs. rewrite Z.mod_small in Hs by lia. cbn zeta. rewrite (setup_reaches_table t s i _ Hs Hin) by auto.
  rewrite Z.eqb_refl. cbn. rewrite !fn_lookup_insert. split_and!; auto. intros k Hk. now rewrite !fn_lookup_insert_ne by auto.
Qed.

Lemma open_session_opens_fpga_slot_witness :
  exists i r n', handle_open_session (ex_node ex_machine) ex_ctrl 5 9 = (Reply r, n') /\ resp_id r = Some i /\ in_use (sess n') i.
Proof.
  destruct (open_session_opens_fpga_slot (ex_node ex_machine) [] ex_ctrl 5 9 1) as (i & r & n' & c & E & _ & Hr & _ & Hu & _);
    [exact (proj1 ex_node_inv)|split; vm_compute; [discriminate|reflexivity]|vm_compute; discriminate|].
  exists i, r, n'. split; [exact E|]. split; [exact Hr|exact Hu].
Defined.

(** Closing a session ends exactly the session it names in the table of the
    processor, and refuses the management session and ids that are too large.  The
    control message is sent all the same: the network stack closes the slot
    numbered by the low ten bits of the id, which for a refused id belongs to the
    management session or to another client's session. *)
Theorem close_session_closes_fpga_slot n ps ctrl id :
  node_inv n ps -> 0 <= id ->
  exists r n' c, handle_close_session n ctrl id = (Reply r, n') /\ node_inv n' ps /\ ctrl_sent n' = ctrl_sent n ++ [c] /\
    (forall j, 0 <= j < NR_MAX_SESSIONS_PER_NODE -> in_use (sess n') j <-> in_use (sess n) j /\ (j = id -> id = LEGOMEM_MGMT_SESSION_ID)) /\
    forall t (s : streams), s conn_set_req = [conn_mgmt_bits (param32 c)] -> s init_req = [] ->
      let t' := (state_table_init t (setup_manager s)).1 in
      expected_seqnum_array t' (id mod NR_MAX_SESSIONS_PER_NODE) = 0 /\
      forall k, k <> id mod NR_MAX_SESSIONS_PER_NODE -> expected_seqnum_array t' k = expected_seqnum_array t k.
Proof.
  intros Hn Hid. destruct (close_session_spec n ps ctrl id Hn Hid) as (r & n' & E & Hn' & Hu & c & Hc & _ & Hp).
  exists r, n', c. split_and!; auto; try apply Hu; auto. intros t s Hs Hin. rewrite Hp, conn_mgmt_bits_req in Hs by (try lia; vm_compute; intuition congruence).
  change (2 ^ SLOT_ID_WIDTH) with NR_MAX_SESSIONS_PER_NODE in Hs. cbn zeta. rewrite (setup_reaches_table t s _ _ Hs Hin) by auto.
  change (GBN_SOC2FPGA_SET_TYPE_CLOSE =? GBN_SOC2FPGA_SET_TYPE_OPEN) with false. cbn. rewrite fn_lookup_insert. split; [auto|]. intros k Hk. now rewrite fn_lookup_insert_ne by auto.
Qed.

Lemma close_session_closes_fpga_slot_witness :
  exists r n' c, handle_close_session (ex_node ex_machine) ex_ctrl 1029 = (Reply r, n') /\ ctrl_sent n' = [c] /\
    forall t (s : streams), s conn_set_req = [conn_mgmt_bits (param32 c)] -> s init_req = [] -> expected_seqnum_array (state_table_init t (setup_manager s)).1 5 = 0.
Proof.
  destruct (close_session_closes_fpga_slot (ex_node ex_machine) [] ex_ctrl 1029 (proj1 ex_node_inv) ltac:(lia)) as (r & n' & c & E & _ & Hc & _ & H).
  exists r, n', c. split; [exact E|]. split; [exact Hc|]. intros t s H1 H2. exact (proj1 (H t s H1 H2)).
Defined.
