(* ===== verification/HashFamily.v ===== *)
(** * Families of hash tables

    A node of the network keeps one hash table of sessions per board and one per
    context, whose nodes are fields of the sessions: many tables share one set of
    nodes.  [tables] says that every table of such a family is well formed and
    that no node is in two of them; each operation on one table keeps the others. *)

From stdpp Require Import functions.
From S2P Require Import Prelude Hlist.

Section family.
(** The tables are named by [T]; bucket [j] of table [t] is at [(t, j)]. *)
Context {T N : Type} `{EqDecision T} `{EqDecision N} (bits : Z) (Hbits : 0 <= bits <= 32).
Implicit Types (s : hheap (T * Z) N) (ls : T -> list N) (ts : T -> Prop).

Definition tables ts (key : N -> Z) s ls : Prop :=
  (forall t, ts t -> hash_rep (pair t) bits key s (ls t)) /\
  (forall t u n, ts t -> ts u -> n ∈ ls t -> n ∈ ls u -> t = u).

Lemma pair_inj (t : T) : forall i j : Z, 0 <= i < 2 ^ bits -> 0 <= j < 2 ^ bits -> (t, i) = (t, j) -> i = j.
Proof. congruence. Qed.

Lemma tables_rep ts key s ls t : tables ts key s ls -> ts t -> hash_rep (pair t) bits key s (ls t).
Proof. intros [H _]. apply H. Qed.

Lemma tables_key ts key key' s ls :
  (forall t n, ts t -> n ∈ ls t -> key' n = key n) -> tables ts key s ls -> tables ts key' s ls.
Proof. intros Hk [Hr Hd]. split; [|exact Hd]. intros t Ht. eapply hash_rep_key; [|now apply Hr]. intros n. now apply Hk. Qed.

Lemma tables_sub ts ts' key s ls : (forall t, ts' t -> ts t) -> tables ts key s ls -> tables ts' key s ls.
Proof. intros Hs [Hr Hd]. split; [auto|]. intros t u n Ht Hu. apply Hd; auto. Qed.

(** Only buckets of [t] and nodes of [ns] changed. *)
Definition kept (t : T) (ns : list N) s s' : Prop :=
  (forall h, h.1 <> t -> first s' h = first s h) /\
  (forall n, n ∉ ns -> hnext s' n = hnext s n /\ pprev s' n = pprev s n).

Lemma kept_rep t u key ns s s' l :
  kept t ns s s' -> u <> t -> (forall n, n ∈ l -> n ∉ ns) -> hash_rep (pair u) bits key s l -> hash_rep (pair u) bits key s' l.
Proof.
  intros [Hf Hn] Hu Hl [Hd Hb]. split; [auto|]. intros i Hi. destruct (Hb i Hi) as (b & [Hdb Hc] & Hm). exists b. split; [|auto]. split; [auto|].
  eapply hchain_frame; [| |exact Hc]; [now apply Hf|]. intros n Hin. apply Hn, Hl. now apply Hm in Hin as [? _].
Qed.

Lemma kept_add key s l t n : hash_rep (pair t) bits key s l -> n ∉ l -> kept t (n :: l) s (hash_add s (pair t) bits n (key n)).
Proof.
  intros [_ Hb] Hn. destruct (Hb (hash_min (key n) bits)) as (b & Hc & Hm); [now apply hash_min_range|].
  destruct (hlist_add_head_spec s n _ b Hc) as [_ [H1 H2]]; [rewrite Hm; tauto|]. split.
  - intros h Hh. apply H1. rewrite list_elem_of_singleton. intros ->. now destruct Hh.
  - intros m Hm'. apply H2. rewrite elem_of_cons, Hm in *. tauto.
Qed.

Lemma kept_del key s s' l t n : hash_rep (pair t) bits key s l -> n ∈ l -> hash_del s n = Some s' -> kept t l s s'.
Proof.
  intros [_ Hb] Hn E. destruct (Hb (hash_min (key n) bits)) as (b & Hc & Hm); [now apply hash_min_range|].
  assert (Hin : n ∈ b) by (apply Hm; auto). apply list_elem_of_split in Hin as (b1 & b2 & ->).
  destruct (hlist_del_init_spec s _ b1 n b2 Hc) as (s1 & E1 & _ & _ & [H1 H2]). unfold hash_del in E. rewrite E in E1. injection E1 as <-. split.
  - intros h Hh. apply H1. rewrite list_elem_of_singleton. intros ->. now destruct Hh.
  - intros m Hm'. apply H2. rewrite Hm. tauto.
Qed.

Lemma kept_init t s sz : kept t [] s (__hash_init s (pair t) sz).
Proof.
  induction sz as [|sz [IH1 IH2]]; [easy|]. cbn [__hash_init]. split; [|exact IH2].
  intros h Hh. cbn. rewrite fn_lookup_insert_ne by (intros <-; now destruct Hh). now apply IH1.
Qed.

Lemma tables_kept ts key s s' ls t l ns :
  tables ts key s ls -> kept t ns s s' -> (forall u n, ts u -> u <> t -> n ∈ ls u -> (n ∉ ns) /\ (n ∉ l)) ->
  hash_rep (pair t) bits key s' l -> tables (fun u => u = t \/ ts u) key s' (<[t := l]> ls).
Proof.
  intros [Hr Hd] Hk Hout Hl. split.
  - intros u Hu. destruct (decide (u = t)) as [->|Hne]; [now rewrite fn_lookup_insert|]. rewrite fn_lookup_insert_ne by auto.
    destruct Hu as [?|Hu]; [contradiction|]. eapply kept_rep; [exact Hk|auto| |now apply Hr]. intros n Hn. now apply (Hout u n Hu Hne).
  - intros u v n Hu Hv. destruct (decide (u = t)) as [->|Hut], (decide (v = t)) as [->|Hvt]; auto;
      rewrite ?fn_lookup_insert, ?fn_lookup_insert_ne by auto; intros H1 H2.
    + destruct Hv as [?|Hv]; [contradiction|]. now destruct (Hout v n Hv Hvt H2).
    + destruct Hu as [?|Hu]; [contradiction|]. now destruct (Hout u n Hu Hut H1).
    + destruct Hu as [?|Hu], Hv as [?|Hv]; try contradiction. now apply (Hd u v n).
Qed.

(** A new, empty table. *)
Lemma tables_init ts key s ls t : tables ts key s ls ->
  tables (fun u => u = t \/ ts u) key (__hash_init s (pair t) (Z.to_nat (2 ^ bits))) (<[t := []]> ls).
Proof.
  intros Ht. eapply tables_kept; [exact Ht|apply kept_init| |now apply hash_init_rep].
  intros u n _ _ _. split; apply not_elem_of_nil.
Qed.

Lemma tables_add ts key s ls t n : tables ts key s ls -> ts t -> (forall u, ts u -> n ∉ ls u) ->
  tables ts key (hash_add s (pair t) bits n (key n)) (<[t := n :: ls t]> ls).
Proof.
  intros Hts Ht Hn. apply (tables_sub (fun u => u = t \/ ts u)); [auto|]. eapply tables_kept; [exact Hts|apply kept_add; [now apply Hts|auto]| |].
  - intros u m Hu Hne Hm. assert (m ∉ n :: ls t) as H; [|auto]. intros [->|Hin]%elem_of_cons; [now apply (Hn u)|]. apply Hne. now apply (proj2 Hts u t m).
  - apply hash_add_rep; auto; [apply pair_inj|now apply Hts].
Qed.

Lemma tables_del ts key s ls t n l1 l2 : tables ts key s ls -> ts t -> ls t = l1 ++ n :: l2 ->
  exists s', hash_del s n = Some s' /\ tables ts key s' (<[t := l1 ++ l2]> ls).
Proof.
  intros Hts Ht E. destruct (hash_del_rep (pair t) bits Hbits (pair_inj t) key s (ls t) n l1 l2 E) as (s' & Es & Hr & _); [now apply Hts|].
  exists s'. split; [auto|]. apply (tables_sub (fun u => u = t \/ ts u)); [auto|].
  eapply tables_kept; [exact Hts|eapply kept_del; [now apply Hts| |exact Es]; rewrite E; apply elem_of_middle; auto| |exact Hr].
  intros u m Hu Hne Hm. assert (H : m ∉ ls t) by (intros Hin; apply Hne; now apply (proj2 Hts u t m)).
  split; [auto|]. intros Hin. apply H. rewrite E. apply elem_of_middle. auto.
Qed.

(** Resetting the fields of a node that is in no table. *)
Lemma tables_init_node ts key s ls n : tables ts key s ls -> (forall u, ts u -> n ∉ ls u) -> tables ts key (INIT_HLIST_NODE s n) ls.
Proof.
  intros [Hr Hd] Hn. split; [|auto]. intros t Ht. destruct (Hr t Ht) as [Hnd Hb]. split; [auto|]. intros i Hi. destruct (Hb i Hi) as (b & Hc & Hm).
  exists b. split; [|auto]. apply hlist_set_other; [|auto]. intros Hin. apply Hm in Hin as [Hin _]. now apply (Hn t).
Qed.

(** The bound on the loops over a table. *)
Lemma tables_length ts key s ls t bound : tables ts key s ls -> ts t -> (forall n, n ∈ ls t -> n ∈ bound) -> (length (ls t) <= length bound)%nat.
Proof. intros Hts Ht Hb. apply submseteq_length, NoDup_submseteq; [apply Hts, Ht|auto]. Qed.
End family.
