(* ===== verification/Rpc.v ===== *)
(** * The RPC transport of hosts (host/net/transport_rpc.c)

    The transport that the configuration selects: requests without acknowledgements,
    with the state of congestion control shared by the sessions of a board.  The
    states are kept in a list and counted by reference.  The credits, the window and
    the time stamps are compiled out in the source; what remains of them are the
    functions that return 0.  The sessions are opened and closed as in
    [net_open_session] and [net_close_session] of net/core.c, on the table of Session. *)

From stdpp Require Import functions.
From S2P Require Import Prelude Bitops DList Hlist Gbn Session.

#[local] Set Warnings "-clear-no-such-hyp".

(** ** State *)

Definition default_credit_send : Z := 4096.
Definition ETIMEDOUT : Z := 110.

(** [struct per_board_send_state], whose list node is in [links]. *)
Record per_board_send_state := SendState { st_board_ip : Z; send_credit : Z; session_cnt : Z }.
(** [struct session_rpc] *)
Record session_rpc := SessionRpc { send_state : Z; ring_head : Z; ring_tail : Z }.

(** The memory that is allocated, by address; [private] is [transport_private] of a
    session, [None] for [NULL].  Using memory that was freed is [None] below. *)
Record rpc := Rpc { states : gmap Z per_board_send_state; rpcs : gmap Z session_rpc; links : heap Z; private : Z -> option Z }.
Definition set_states (w : rpc) (m : gmap Z per_board_send_state) : rpc := Rpc m (rpcs w) (links w) (private w).
Definition set_rpcs (w : rpc) (m : gmap Z session_rpc) : rpc := Rpc (states w) m (links w) (private w).
Definition set_links (w : rpc) (h : heap Z) : rpc := Rpc (states w) (rpcs w) h (private w).
Definition set_private (w : rpc) (s : Z) (p : option Z) : rpc := Rpc (states w) (rpcs w) (links w) (<[s := p]> (private w)).
Definition set_cnt (x : per_board_send_state) (n : Z) : per_board_send_state := SendState (st_board_ip x) (send_credit x) n.

(** What the allocator and the raw network answer while a session is opened: the
    address of the [session_rpc], that of a new state, and whether the message buffer
    is allocated and registered. *)
Record open_env := OpenEnv { raw_up : bool; m_rpc : option Z; m_state : option Z; m_buf : bool; m_msg_buf : bool }.

Section rpc.
(** The address of [global_cc_states.per_board_states], and the values that
    [list_del] leaves in an entry. *)
Context (per_board_states poison1 poison2 : Z).

(** ** Sessions *)

Definition rpc_init_once (w : rpc) : rpc := set_links w (INIT_LIST_HEAD (links w) per_board_states).

(** An error, or the address of the new state. *)
Definition add_board_send_state (w : rpc) (m : option Z) (board_ip : Z) : (Z + Z) * rpc :=
  match m with
  | None => (inl (- ENOMEM), w)
  | Some a =>
      let w := set_states w (<[a := SendState board_ip default_credit_send 0]> (states w)) in
      (inr a, set_links w (list_add (links w) a per_board_states))
  end.

(** The loop of [init_session_rpc]. *)
Fixpoint find_send_state (fuel : nat) (w : rpc) (pos board_ip : Z) : option (option Z) :=
  match fuel with
  | O => None
  | S fuel' =>
      if pos =? per_board_states then Some None
      else
        x ← states w !! pos;
        if st_board_ip x =? board_ip then Some (Some pos) else find_send_state fuel' w (next (links w) pos) board_ip
  end.

Definition init_session_rpc (w : rpc) (m : option Z) (board_ip : Z) : option ((Z + session_rpc) * rpc) :=
  found ← find_send_state (S (size (states w))) w (next (links w) per_board_states) board_ip;
  let '(r, w) := match found with Some a => (inr a, w) | None => add_board_send_state w m board_ip end in
  match r with
  | inl ret => Some (inl ret, w)
  | inr a =>
      x ← states w !! a;
      Some (inr (SessionRpc a 0 0), set_states w (<[a := set_cnt x (sint32 (session_cnt x + 1))]> (states w)))
  end.

Definition rpc_open_session (w : rpc) (e : open_env) (ses board_ip : Z) : option (Z * rpc) :=
  match m_rpc e with
  | None => Some (- ENOMEM, w)
  | Some r =>
      '(i, w) ← init_session_rpc w (m_state e) board_ip;
      match i with
      | inl ret => Some (ret, set_private w ses None)
      | inr x =>
          if negb (m_buf e) then Some (- ENOMEM, set_private w ses None)
          else if negb (m_msg_buf e) then Some (- ENOMEM, set_private w ses None)
          else Some (0, set_private (set_rpcs w (<[r := x]> (rpcs w))) ses (Some r))
      end
  end.

(** [transport_private] keeps the address that is freed. *)
Definition rpc_close_session (w : rpc) (ses : Z) : option rpc :=
  match private w ses with
  | None => Some w
  | Some r =>
      x ← rpcs w !! r;
      let a := send_state x in
      st ← states w !! a;
      let w := set_states w (<[a := set_cnt st (sint32 (session_cnt st - 1))]> (states w)) in
      let w := if session_cnt st =? 1
               then set_states (set_links w (list_del poison1 poison2 (links w) a)) (delete a (states w))
               else w in
      Some (set_rpcs w (delete r (rpcs w)))
  end.

(** [net_open_session] and [net_close_session] with this transport: [alloc_session]
    clears the session, its [transport_private] and [board_ip] included. *)
Definition rpc_net_open_session (t : session_table) (w : rpc) (e : open_env) : option (option Z * session_table * rpc) :=
  match host_alloc_session t with
  | (None, t) => Some (None, t, w)
  | (Some ses, t) =>
      let w := set_private w ses None in
      if negb (raw_up e) then Some (None, free_session t ses, w)
      else
        '(ret, w) ← rpc_open_session w e ses (s_board_ip (session_net_map t ses));
        if negb (ret =? 0) then Some (None, free_session t ses, w) else Some (Some ses, t, w)
  end.
Definition rpc_net_close_session (t : session_table) (w : rpc) (ses : Z) : option (session_table * rpc) :=
  w ← rpc_close_session w ses;
  Some (free_session t ses, w).

(** ** Packets *)

(** The fields of [struct lego_header] that are written. *)
Record lego_fields := LegoFields { l_size : Z; l_src_sesid : Z; l_dst_sesid : Z }.
Definition prepare_legomem_header_for_rpc (packet_size src_sesid dst_sesid : Z) : lego_fields :=
  LegoFields ((packet_size - LEGO_HEADER_OFFSET) mod 2 ^ 16) (src_sesid mod 2 ^ 8) (dst_sesid mod 2 ^ 8).

(** The credits are compiled out. *)
Definition consume_send_credit (w : rpc) (a : Z) : Z := 0.

(** What is handed to the raw network, or the error; [None] is [BUG_ON]. *)
Definition rpc_send_one (w : rpc) (ids : session_net) (ses buf_size : Z) : option (Z + lego_fields) :=
  let p := prepare_legomem_header_for_rpc buf_size (session_id ids) (remote_session_id ids) in
  r ← private w ses;
  if test_management_session ids then Some (inr p)
  else
    x ← rpcs w !! r;
    if negb (consume_send_credit w (send_state x) =? 0) then Some (inl (- ETIMEDOUT)) else Some (inr p).

(** What [raw_net_receive_zerocopy] returns: an error, nothing, or a packet. *)
Inductive raw_result (P : Type) := RawErr (ret : Z) | RawNone | RawPacket (p : P) (size : Z).

(** [raw]: the results of the raw network, in order; the loop waits ([None]) when they
    are used up.  The result is the value returned and the packet delivered. *)
Fixpoint __rpc_receive_one {P} (w : rpc) (ids : session_net) (ses : Z) (non_blocking : bool) (raw : list (raw_result P)) : option (Z * option P * list (raw_result P)) :=
  match raw with
  | [] => None
  | RawErr _ ret :: raw => Some (ret, None, raw)
  | RawNone _ :: raw => if non_blocking then Some (0, None, raw) else __rpc_receive_one w ids ses non_blocking raw
  | RawPacket _ p size :: raw =>
      if test_management_session ids then Some (sint32 size, Some p, raw)
      else
        r ← private w ses;
        _ ← rpcs w !! r;
        Some (sint32 size, Some p, raw)
  end.
Definition rpc_receive_one {P} (w : rpc) (ids : session_net) (ses : Z) (raw : list (raw_result P)) := __rpc_receive_one w ids ses false raw.
Definition rpc_receive_one_nb {P} (w : rpc) (ids : session_net) (ses : Z) (raw : list (raw_result P)) := __rpc_receive_one w ids ses true raw.
End rpc.
