(* ===== verification/RpcSpec.v ===== *)
(** * The RPC transport: properties

    The states that opening and closing sessions reach, with any failure of the
    allocator and of the raw network.  [rpc_inv] says that the list, the states that
    are allocated and the references to them agree. *)

From stdpp Require Import functions.
From S2P Require Import Prelude Bitops DList Hlist Gbn Session Rpc.

#[local] Set Warnings "-clear-no-such-hyp".

(** ** References *)

Definition occ (a : Z) (l : list Z) : Z := Z.of_nat (length (filter (eq a) l)).

Lemma occ_cons a b l : occ a (b :: l) = (if decide (a = b) then 1 else 0) + occ a l.
Proof. unfold occ. rewrite filter_cons. destruct (decide (a = b)); cbn [length]; lia. Qed.
Lemma occ_app a l k : occ a (l ++ k) = occ a l + occ a k.
Proof. unfold occ. rewrite filter_app, length_app. lia. Qed.
Lemma occ_bounds a l : 0 <= occ a l <= Z.of_nat (length l).
Proof. unfold occ. pose proof (length_filter (eq a) l). lia. Qed.
Lemma occ_zero a l : occ a l = 0 <-> a ∉ l.
Proof.
  induction l as [|b l IH]; [split; [intros _; apply not_elem_of_nil|reflexivity]|]. rewrite occ_cons, not_elem_of_cons, <- IH.
  pose proof (occ_bounds a l). destruct (decide (a = b)); intuition lia.
Qed.

(** ** Invariant *)

Section inv.
Context (hd p1 p2 : Z).

(** The state a session uses. *)
Definition state_of (w : rpc) (s : Z) : option Z := r ← private w s; send_state <$> rpcs w !! r.

(** [xs]: the list of states; [op]: the open sessions with their states; [lost]: the
    states counted by sessions that could not be opened. *)
Record rpc_inv (xs : list Z) (op : list (Z * Z)) (lost : list Z) (w : rpc) : Prop := {
  ri_list : dlist (links w) hd xs;
  ri_states a : a ∈ xs <-> is_Some (states w !! a);
  ri_board a b x y : states w !! a = Some x -> states w !! b = Some y -> st_board_ip x = st_board_ip y -> a = b;
  ri_nodup : NoDup op.*1;
  ri_open s a : (s, a) ∈ op -> state_of w s = Some a;
  ri_private s t : s ∈ op.*1 -> t ∈ op.*1 -> private w s = private w t -> s = t;
  ri_cnt a x : states w !! a = Some x -> session_cnt x = occ a (op.*2 ++ lost) /\ 1 <= session_cnt x;
  ri_refs a : a ∈ op.*2 ++ lost -> is_Some (states w !! a);
}.

Lemma list_size xs op lost w : rpc_inv xs op lost w -> length xs = size (states w).
Proof.
  intros Hi. rewrite <- size_dom. assert (Hx : NoDup xs) by (destruct (ri_list _ _ _ _ Hi) as [H _]; now apply NoDup_cons in H).
  rewrite <- (size_list_to_set (C := gset Z) xs Hx). f_equal. apply set_eq. intros a. rewrite elem_of_list_to_set, elem_of_dom. apply Hi.
Qed.

(** The search meets the states of the list in turn. *)
Lemma find_chain w ip xs pos : hd ∉ xs -> (forall a, a ∈ xs -> is_Some (states w !! a)) -> chain (links w) pos xs hd ->
  exists r, find_send_state hd (S (length xs)) w (next (links w) pos) ip = Some r /\
    match r with
    | Some a => a ∈ xs /\ exists x, states w !! a = Some x /\ st_board_ip x = ip
    | None => forall a x, a ∈ xs -> states w !! a = Some x -> st_board_ip x <> ip
    end.
Proof.
  revert pos. induction xs as [|a xs IH]; intros pos Hn Hs; cbn [chain].
  - intros [-> _]. exists None. cbn. rewrite Z.eqb_refl. split; [easy|]. intros a x []%not_elem_of_nil.
  - intros (E & _ & Hc). rewrite E. apply not_elem_of_cons in Hn as [Hne Hn]. destruct (Hs a) as [x Hx]; [set_solver|].
    change (S (length (a :: xs))) with (S (S (length xs))). remember (S (length xs)) as n. cbn [find_send_state].
    rewrite (proj2 (Z.eqb_neq _ _)), Hx by auto. cbn [mbind option_bind]. destruct (Z.eqb_spec (st_board_ip x) ip) as [Ei|Ei].
    + exists (Some a). split; [easy|]. split; [set_solver|eauto].
    + subst n. destruct (IH a Hn) as (r & -> & Hr); [set_solver|exact Hc|]. exists r. split; [easy|]. destruct r as [b|].
      * destruct Hr. split; [set_solver|auto].
      * intros b y [->|Hb]%elem_of_cons Hy; [congruence|eauto].
Qed.

Lemma find_spec xs op lost w ip : rpc_inv xs op lost w ->
  exists r, find_send_state hd (S (size (states w))) w (next (links w) hd) ip = Some r /\
    match r with
    | Some a => exists x, states w !! a = Some x /\ st_board_ip x = ip
    | None => forall a x, states w !! a = Some x -> st_board_ip x <> ip
    end.
Proof.
  intros Hi. destruct (ri_list _ _ _ _ Hi) as [[Hh _]%NoDup_cons Hc].
  destruct (find_chain w ip xs hd Hh (fun a => proj1 (ri_states _ _ _ _ Hi a)) Hc) as (r & E & Hr).
  rewrite (list_size _ _ _ _ Hi) in E. exists r. split; [exact E|]. destruct r as [a|]; [now destruct Hr|].
  intros a x Hx. apply (Hr a x); [|auto]. apply Hi. now exists x.
Qed.

(** Memory that is not in use. *)
Definition fresh_env (w : rpc) (e : open_env) : Prop :=
  (forall r, m_rpc e = Some r -> rpcs w !! r = None) /\ forall a, m_state e = Some a -> states w !! a = None /\ a <> hd.

(** ** Opening *)

(** One more reference to a state of the list, not yet owned by a session. *)
Lemma ref_inv xs op lost w a x : rpc_inv xs op lost w -> states w !! a = Some x -> Z.of_nat (length (op.*2 ++ lost)) < 2 ^ 31 - 1 ->
  rpc_inv xs op (a :: lost) (set_states w (<[a := set_cnt x (sint32 (session_cnt x + 1))]> (states w))).
Proof.
  intros Hi Hx Hb. destruct (ri_cnt _ _ _ _ Hi a x Hx) as [Ec Hc]. pose proof (occ_bounds a (op.*2 ++ lost)) as Ho.
  rewrite sint32_small by lia. split; try apply Hi; cbn [set_states states links private rpcs].
  - intros b. rewrite (ri_states _ _ _ _ Hi). destruct (decide (a = b)) as [->|?]; [rewrite lookup_insert_eq, Hx; split; eauto|now rewrite lookup_insert_ne].
  - intros b c y z Hy Hz E. assert (Hold : forall d u, <[a := set_cnt x (session_cnt x + 1)]> (states w) !! d = Some u -> exists v, states w !! d = Some v /\ st_board_ip v = st_board_ip u).
    { intros d u. destruct (decide (a = d)) as [->|?]; [rewrite lookup_insert_eq; intros [= <-]; eauto|rewrite lookup_insert_ne by auto; eauto]. }
    destruct (Hold b y Hy) as (y' & Hy' & Ey), (Hold c z Hz) as (z' & Hz' & Ez). apply (ri_board _ _ _ _ Hi b c y' z'); congruence.
  - intros b y. rewrite occ_app, occ_cons. destruct (decide (a = b)) as [->|?].
    + rewrite lookup_insert_eq. intros [= <-]. cbn [session_cnt set_cnt]. rewrite decide_True by auto. rewrite Ec, occ_app in *. lia.
    + rewrite lookup_insert_ne by auto. intros Hy. rewrite decide_False by auto. destruct (ri_cnt _ _ _ _ Hi b y Hy) as [E ?]. rewrite E, occ_app in *. lia.
  - intros b Hb'. destruct (decide (a = b)) as [->|?]; [rewrite lookup_insert_eq; eauto|rewrite lookup_insert_ne by auto]. apply (ri_refs _ _ _ _ Hi). set_solver.
Qed.

(** A new state, which the caller counts at once. *)
Lemma add_inv xs op lost w a ip : rpc_inv xs op lost w -> states w !! a = None -> a <> hd -> (forall b x, states w !! b = Some x -> st_board_ip x <> ip) ->
  rpc_inv (a :: xs) op (a :: lost) (set_links (set_states w (<[a := SendState ip default_credit_send 1]> (states w))) (list_add (links w) a hd)).
Proof.
  intros Hi Ha Hn Hip. assert (Hax : a ∉ xs) by (rewrite (ri_states _ _ _ _ Hi), Ha; now intros [? ?]).
  assert (Har : a ∉ op.*2 ++ lost) by (intros H; apply (ri_refs _ _ _ _ Hi) in H; rewrite Ha in H; now destruct H).
  split; try apply Hi; cbn [set_states set_links states links private rpcs].
  - apply dlist_list_add; [apply Hi|]. now rewrite not_elem_of_cons.
  - intros b. rewrite elem_of_cons, (ri_states _ _ _ _ Hi). destruct (decide (a = b)) as [->|?]; [rewrite lookup_insert_eq; split; eauto|rewrite lookup_insert_ne by auto].
    split; [now intros [->|?]|auto].
  - intros b c y z. destruct (decide (a = b)) as [<-|?], (decide (a = c)) as [<-|?]; rewrite ?lookup_insert_eq, ?lookup_insert_ne by auto; auto.
    + intros [= <-] Hz E. now destruct (Hip c z Hz).
    + intros Hy [= <-] E. now destruct (Hip b y Hy).
    + apply Hi.
  - intros b y. rewrite occ_app, occ_cons. destruct (decide (a = b)) as [->|?].
    + rewrite lookup_insert_eq. intros [= <-]. cbn. rewrite decide_True by auto. apply occ_zero in Har. rewrite occ_app in Har. lia.
    + rewrite lookup_insert_ne by auto. intros Hy. rewrite decide_False by auto. destruct (ri_cnt _ _ _ _ Hi b y Hy) as [E ?]. rewrite E, occ_app in *. lia.
  - intros b Hb. destruct (decide (a = b)) as [->|?]; [rewrite lookup_insert_eq; eauto|rewrite lookup_insert_ne by auto]. apply (ri_refs _ _ _ _ Hi). set_solver.
Qed.

(** The session gets a state of its board, found or new, that counts it. *)
Lemma init_spec xs op lost w m ip : rpc_inv xs op lost w -> (forall a, m = Some a -> states w !! a = None /\ a <> hd) ->
  Z.of_nat (length (op.*2 ++ lost)) < 2 ^ 31 - 1 ->
  exists r w', init_session_rpc hd w m ip = Some (r, w') /\ rpcs w' = rpcs w /\ private w' = private w /\
    match r with
    | inl ret => ret = - ENOMEM /\ w' = w
    | inr x => (exists xs', rpc_inv xs' op (send_state x :: lost) w') /\ (exists y, states w' !! send_state x = Some y /\ st_board_ip y = ip) /\
        forall b y, states w' !! b = Some y -> b = send_state x \/ states w !! b = Some y
    end.
Proof.
  intros Hi Hm Hb. unfold init_session_rpc. destruct (find_spec xs op lost w ip Hi) as (f & -> & Hf). cbn [mbind option_bind].
  assert (Hold : forall (M : gmap Z per_board_send_state) a v b y, <[a := v]> M !! b = Some y -> b = a \/ M !! b = Some y).
  { intros M a v b y. destruct (decide (a = b)); [auto|rewrite lookup_insert_ne by auto; auto]. }
  destruct f as [a|].
  - destruct Hf as (x & Hx & <-). rewrite Hx. cbn [mbind option_bind]. eexists (inr _), _. split; [reflexivity|]. split_and!; auto; cbn [send_state].
    + exists xs. now apply ref_inv.
    + eexists. cbn. rewrite lookup_insert_eq. split; reflexivity.
    + intros b y. cbn. apply Hold.
  - destruct m as [a|]; cbn [add_board_send_state]; [|eexists (inl _), _; split; [reflexivity|easy]].
    destruct (Hm a eq_refl) as [Ha Hn]. cbn [set_links set_states states]. rewrite lookup_insert_eq. cbn [mbind option_bind].
    eexists (inr _), _. split; [reflexivity|]. split_and!; auto; cbn [send_state set_states states set_links].
    + exists (a :: xs). rewrite insert_insert_eq. exact (add_inv xs op lost w a ip Hi Ha Hn Hf).
    + eexists. rewrite lookup_insert_eq. split; reflexivity.
    + intros b y Hy. destruct (Hold _ _ _ _ _ Hy) as [->|Hy']; [auto|]. apply (Hold _ _ _ _ _ Hy').
Qed.

Lemma private_inv xs op lost w s p : rpc_inv xs op lost w -> s ∉ op.*1 -> rpc_inv xs op lost (set_private w s p).
Proof.
  intros Hi Hs. split; try apply Hi; cbn [set_private private].
  - intros t a Ht. assert (t <> s) by (intros ->; apply Hs, list_elem_of_fmap; now exists (s, a)).
    unfold state_of. cbn. rewrite fn_lookup_insert_ne by auto. now apply (ri_open _ _ _ _ Hi).
  - intros t u Ht Hu. rewrite !fn_lookup_insert_ne by (intros ->; contradiction). now apply (ri_private _ _ _ _ Hi).
Qed.

(** A counted reference goes to the session. *)
Lemma own_inv xs op lost w s r x : rpc_inv xs op (send_state x :: lost) w -> s ∉ op.*1 -> rpcs w !! r = None ->
  rpc_inv xs ((s, send_state x) :: op) lost (set_private (set_rpcs w (<[r := x]> (rpcs w))) s (Some r)).
Proof.
  intros Hi Hs Hr. assert (Hp : forall t a, (t, a) ∈ op -> t <> s /\ exists q y, private w t = Some q /\ q <> r /\ rpcs w !! q = Some y /\ send_state y = a).
  { intros t a Ht. split; [intros ->; apply Hs, list_elem_of_fmap; now exists (s, a)|]. pose proof (ri_open _ _ _ _ Hi t a Ht) as E. unfold state_of in E.
    destruct (private w t) as [q|]; [|discriminate]. cbn in E. destruct (rpcs w !! q) as [y|] eqn:Ey; [|discriminate]. injection E as E. exists q, y. split_and!; auto. congruence. }
  split; try apply Hi; cbn [set_private set_rpcs private rpcs states fmap list_fmap fst snd app].
  - apply NoDup_cons. split; [exact Hs|apply Hi].
  - intros t a [[= -> ->]|Ht]%elem_of_cons; unfold state_of; cbn.
    + rewrite fn_lookup_insert. cbn. now rewrite lookup_insert_eq.
    + destruct (Hp t a Ht) as (Hne & q & y & E & Hq & Ey & <-). rewrite fn_lookup_insert_ne, E by auto. cbn. rewrite lookup_insert_ne, Ey by auto. reflexivity.
  - assert (Hn : forall t, t ∈ op.*1 -> t <> s /\ private w t <> Some r).
    { intros t ([? a] & -> & Ht)%list_elem_of_fmap. destruct (Hp _ a Ht) as (Hne & q & y & E & Hq & _). cbn [fst]. split; [auto|congruence]. }
    intros t u [->|Ht]%elem_of_cons [->|Hu]%elem_of_cons; rewrite ?fn_lookup_insert; auto.
    + destruct (Hn u Hu) as [? H]. rewrite fn_lookup_insert_ne by auto. intros E. now destruct H.
    + destruct (Hn t Ht) as [? H]. rewrite fn_lookup_insert_ne by auto. intros E. now destruct H.
    + destruct (Hn t Ht), (Hn u Hu). rewrite !fn_lookup_insert_ne by auto. now apply (ri_private _ _ _ _ Hi).
  - intros a y Hy. destruct (ri_cnt _ _ _ _ Hi a y Hy) as [E Hc]. split; [|exact Hc]. rewrite E, occ_cons, !occ_app, occ_cons. lia.
  - intros a Ha. apply (ri_refs _ _ _ _ Hi). set_solver.
Qed.

(** Every state is one of before, apart from its count, or that of the address [ip]. *)
Definition boards_kept (w w' : rpc) (ip : Z -> Prop) : Prop :=
  forall b y, states w' !! b = Some y -> ip (st_board_ip y) \/ exists z, states w !! b = Some z /\ st_board_ip z = st_board_ip y.

Lemma open_spec xs op lost w e s ip : rpc_inv xs op lost w -> fresh_env w e -> s ∉ op.*1 -> Z.of_nat (length (op.*2 ++ lost)) < 2 ^ 31 - 1 ->
  exists ret w', rpc_open_session hd w e s ip = Some (ret, w') /\ boards_kept w w' (eq ip) /\
    ((ret = 0 /\ exists xs' a x, rpc_inv xs' ((s, a) :: op) lost w' /\ states w' !! a = Some x /\ st_board_ip x = ip) \/
     (ret = - ENOMEM /\ exists xs' lost', rpc_inv xs' op lost' w' /\ (length lost' <= S (length lost))%nat)).
Proof.
  intros Hi [Hr Hm] Hs Hb. assert (Hk : boards_kept w w (eq ip)) by (intros b y Hy; eauto). unfold rpc_open_session. destruct (m_rpc e) as [r|] eqn:Er.
  2: { eexists _, _. split; [reflexivity|]. split; [exact Hk|]. right. split; [easy|]. exists xs, lost. split; [auto|lia]. }
  destruct (init_spec xs op lost w (m_state e) ip Hi Hm Hb) as (i & w' & -> & E1 & E2 & H). cbn [mbind option_bind]. destruct i as [ret|x].
  - destruct H as [-> ->]. eexists _, _. split; [reflexivity|]. split; [exact Hk|]. right. split; [easy|]. exists xs, lost. split; [now apply private_inv|lia].
  - destruct H as ((xs' & Hi') & (y & Hy & Ey) & Hold). assert (Hk' : boards_kept w w' (eq ip)).
    { intros b z Hz. destruct (Hold b z Hz) as [->|Hz']; [left; congruence|eauto]. }
    assert (Hfail : exists xs' lost', rpc_inv xs' op lost' (set_private w' s None) /\ (length lost' <= S (length lost))%nat).
    { exists xs', (send_state x :: lost). split; [now apply private_inv|reflexivity]. }
    destruct (m_buf e); cbn [negb]; [|eexists _, _; split; [reflexivity|split; [exact Hk'|auto]]].
    destruct (m_msg_buf e); cbn [negb]; [|eexists _, _; split; [reflexivity|split; [exact Hk'|auto]]].
    eexists _, _. split; [reflexivity|]. split; [exact Hk'|]. left. split; [easy|]. exists xs', (send_state x), y. split; [|now split].
    apply own_inv; auto. rewrite E1. now apply Hr.
Qed.

(** ** Closing *)

(** The session [s] gives up its reference: what the invariant says of the others. *)
Lemma released_inv xs op1 s a op2 lost w w' xs' r : rpc_inv xs (op1 ++ (s, a) :: op2) lost w -> private w s = Some r ->
  private w' = private w -> rpcs w' = delete r (rpcs w) -> dlist (links w') hd xs' -> (forall b, b ∈ xs' <-> is_Some (states w' !! b)) ->
  boards_kept w w' (fun _ => False) -> (forall b x, states w' !! b = Some x -> session_cnt x = occ b ((op1 ++ op2).*2 ++ lost) /\ 1 <= session_cnt x) ->
  (forall b, b ∈ (op1 ++ op2).*2 ++ lost -> is_Some (states w' !! b)) -> rpc_inv xs' (op1 ++ op2) lost w'.
Proof.
  intros Hi Hp E1 E2 Hl Hs Hk Hc Hr. pose proof (ri_nodup _ _ _ _ Hi) as Hnd. rewrite fmap_app in Hnd. cbn [fmap list_fmap fst] in Hnd.
  assert (Hsub : forall t, t ∈ (op1 ++ op2).*1 -> t <> s /\ t ∈ (op1 ++ (s, a) :: op2).*1).
  { intros t Ht. rewrite fmap_app in Ht |- *. cbn [fmap list_fmap fst]. split; [|set_solver]. intros ->. apply NoDup_app in Hnd as (_ & H1 & H2). apply NoDup_cons in H2 as [H2 _]. set_solver. }
  split; auto.
  - intros b c x y Hx Hy E. destruct (Hk b x Hx) as [[]|(x' & Hx' & Ex)], (Hk c y Hy) as [[]|(y' & Hy' & Ey)]. apply (ri_board _ _ _ _ Hi b c x' y'); congruence.
  - rewrite fmap_app. eapply sublist_NoDup; [exact Hnd|]. now apply sublist_app; [|apply sublist_cons].
  - intros t b Ht. assert (Hto : (t, b) ∈ op1 ++ (s, a) :: op2) by set_solver. pose proof (ri_open _ _ _ _ Hi t b Hto) as E. unfold state_of in *. rewrite E1, E2.
    destruct (private w t) as [q|] eqn:Eq; [|discriminate]. cbn in *. rewrite lookup_delete_ne; [exact E|]. intros <-.
    destruct (Hsub t) as [Hne Hin]; [apply list_elem_of_fmap; now exists (t, b)|]. apply Hne. apply (ri_private _ _ _ _ Hi); [exact Hin|rewrite fmap_app; set_solver|congruence].
  - intros t u Ht Hu. rewrite E1. apply (ri_private _ _ _ _ Hi); now apply Hsub.
Qed.

Lemma close_spec xs op1 s a op2 lost w : rpc_inv xs (op1 ++ (s, a) :: op2) lost w -> Z.of_nat (length ((op1 ++ (s, a) :: op2).*2 ++ lost)) < 2 ^ 31 ->
  exists w' xs', rpc_close_session p1 p2 w s = Some w' /\ rpc_inv xs' (op1 ++ op2) lost w' /\ boards_kept w w' (fun _ => False).
Proof.
  intros Hi Hb. set (op := op1 ++ (s, a) :: op2) in *. pose proof (ri_open _ _ _ _ Hi s a ltac:(set_solver)) as E. unfold state_of in E.
  unfold rpc_close_session. destruct (private w s) as [r|] eqn:Ep; [|discriminate]. cbn [mbind option_bind] in E. destruct (rpcs w !! r) as [x|] eqn:Ex; [|discriminate]. injection E as E.
  cbn [mbind option_bind]. rewrite E. destruct (ri_refs _ _ _ _ Hi a) as [st Est]; [subst op; rewrite fmap_app; set_solver|]. rewrite Est. cbn [mbind option_bind].
  assert (Hocc : forall b, occ b (op.*2 ++ lost) = (if decide (b = a) then 1 else 0) + occ b ((op1 ++ op2).*2 ++ lost)).
  { intros b. subst op. rewrite !fmap_app. cbn [fmap list_fmap snd]. rewrite !occ_app, occ_cons. lia. }
  destruct (ri_cnt _ _ _ _ Hi a st Est) as [Ec Hc]. pose proof (occ_bounds a (op.*2 ++ lost)) as Ho. rewrite sint32_small by lia. pose proof (Hocc a) as Ha. rewrite decide_True in Ha by auto.
  assert (Hsome : forall b, b ∈ (op1 ++ op2).*2 ++ lost -> is_Some (states w !! b)) by (intros b Hin; apply (ri_refs _ _ _ _ Hi); subst op; rewrite fmap_app in *; set_solver).
  assert (Hrest : forall b y, b <> a -> states w !! b = Some y -> session_cnt y = occ b ((op1 ++ op2).*2 ++ lost) /\ 1 <= session_cnt y).
  { intros b y Hne Hy. destruct (ri_cnt _ _ _ _ Hi b y Hy) as [Ey Hy1]. rewrite Hocc, decide_False in Ey by auto. auto. }
  destruct (Z.eqb_spec (session_cnt st) 1) as [E1|E1]; cbn [set_states set_links set_rpcs states links rpcs private].
  - assert (Hax : a ∈ xs) by (apply Hi; eauto). apply list_elem_of_split in Hax as (l1 & l2 & ->). rewrite delete_insert_eq.
    assert (Hk : boards_kept w (Rpc (delete a (states w)) (delete r (rpcs w)) (list_del p1 p2 (links w) a) (private w)) (fun _ => False)).
    { intros b y Hy. cbn in Hy. apply lookup_delete_Some in Hy as [_ Hy]. eauto. }
    eexists _, (l1 ++ l2). split; [reflexivity|]. split; [|exact Hk]. eapply (released_inv _ op1 s a op2); [exact Hi|exact Ep|reflexivity|reflexivity| | |exact Hk| |]; unfold set_rpcs, set_states, set_links; cbn [states links].
    + apply dlist_list_del, Hi.
    + intros b. pose proof (dlist_not_in _ _ _ _ _ (ri_list _ _ _ _ Hi)) as Hni. destruct (decide (a = b)) as [<-|?]; [rewrite lookup_delete_eq; split; [set_solver|now intros [? ?]]|].
      rewrite lookup_delete_ne, <- (ri_states _ _ _ _ Hi) by auto. set_solver.
    + intros b y [Hne Hy]%lookup_delete_Some. now apply Hrest.
    + intros b Hin. rewrite lookup_delete_ne; [auto|]. intros <-. revert Hin. apply occ_zero. lia.
  - assert (Hk : boards_kept w (Rpc (<[a := set_cnt st (session_cnt st - 1)]> (states w)) (delete r (rpcs w)) (links w) (private w)) (fun _ => False)).
    { intros b y. cbn. destruct (decide (a = b)) as [<-|?]; [rewrite lookup_insert_eq; intros [= <-]; eauto|rewrite lookup_insert_ne by auto; eauto]. }
    eexists _, xs. split; [reflexivity|]. split; [|exact Hk]. eapply (released_inv _ op1 s a op2); [exact Hi|exact Ep|reflexivity|reflexivity|apply Hi| |exact Hk| |]; unfold set_rpcs, set_states; cbn [states].
    + intros b. rewrite (ri_states _ _ _ _ Hi). destruct (decide (a = b)) as [<-|?]; [rewrite lookup_insert_eq, Est; split; eauto|now rewrite lookup_insert_ne].
    + intros b y. destruct (decide (a = b)) as [<-|?]; [rewrite lookup_insert_eq; intros [= <-]; cbn; lia|rewrite lookup_insert_ne by auto; auto].
    + intros b Hin. destruct (decide (a = b)) as [<-|?]; [rewrite lookup_insert_eq; eauto|rewrite lookup_insert_ne by auto; auto].
Qed.

(** ** The sessions of a node *)

(** [opened]: the open sessions; [failures]: how many could not be opened. *)
Record rpc_conf := RpcConf { c_tab : session_table; c_rpc : rpc; opened : list Z; failures : Z }.

Inductive rpc_step : rpc_conf -> rpc_conf -> Prop :=
  | rs_open t w op n e s t' w' : fresh_env w e -> rpc_net_open_session hd t w e = Some (Some s, t', w') ->
      rpc_step (RpcConf t w op n) (RpcConf t' w' (s :: op) n)
  | rs_fail t w op n e t' w' : fresh_env w e -> rpc_net_open_session hd t w e = Some (None, t', w') ->
      rpc_step (RpcConf t w op n) (RpcConf t' w' op (n + 1))
  | rs_endpoint t w op n s ip port : s ∈ op ->
      rpc_step (RpcConf t w op n) (RpcConf (set_session t s (set_endpoint (session_net_map t s) ip port)) w op n)
  | rs_close t w op1 s op2 n t' w' : rpc_net_close_session p1 p2 t w s = Some (t', w') ->
      rpc_step (RpcConf t w (op1 ++ s :: op2) n) (RpcConf t' w' (op1 ++ op2) n).

Definition rpc_start (h : heap Z) : rpc_conf := RpcConf no_sessions (rpc_init_once hd (Rpc ∅ ∅ h (fun _ => None))) [] 0.
Definition rpc_reachable (c : rpc_conf) : Prop := exists h, rtc rpc_step (rpc_start h) c.

(** The counts stay in the range of [int]. *)
Definition few_failures (c : rpc_conf) : Prop := failures c + NR_MAX_SESSIONS_PER_NODE < 2 ^ 31 - 1.

Record conf_ok (c : rpc_conf) (xs : list Z) (op : list (Z * Z)) (lost : list Z) : Prop := {
  co_rpc : rpc_inv xs op lost (c_rpc c);
  co_opened : op.*1 = opened c;
  co_lost : Z.of_nat (length lost) <= failures c;
  co_tab : sessions_ok (c_tab c);
  co_used s : s ∈ opened c -> 0 <= s < NR_MAX_SESSIONS_PER_NODE /\ in_use (c_tab c) s;
  co_board a x : states (c_rpc c) !! a = Some x -> st_board_ip x = 0;
}.

Lemma alloc_board_ip t s t' : host_alloc_session t = (Some s, t') -> s_board_ip (session_net_map t' s) = 0.
Proof.
  unfold host_alloc_session, alloc_session_from. destruct (_ <=? _); [discriminate|]. intros [= <- <-]. cbn. now rewrite fn_lookup_insert.
Qed.

Lemma opened_length l : NoDup l -> (forall s, s ∈ l -> 0 <= s < NR_MAX_SESSIONS_PER_NODE) -> Z.of_nat (length l) <= NR_MAX_SESSIONS_PER_NODE.
Proof.
  intros Hn Hr. assert (H : l ⊆+ seqZ 0 NR_MAX_SESSIONS_PER_NODE) by (apply NoDup_submseteq; [auto|]; intros s Hs; apply elem_of_seqZ; specialize (Hr s Hs); lia).
  apply submseteq_length in H. rewrite length_seqZ in H. unfold NR_MAX_SESSIONS_PER_NODE in *. lia.
Qed.

Lemma refs_bound c xs op lost : conf_ok c xs op lost -> few_failures c -> Z.of_nat (length (op.*2 ++ lost)) < 2 ^ 31 - 1.
Proof.
  intros Hc Hf. unfold few_failures in Hf. pose proof (co_lost _ _ _ _ Hc). rewrite length_app, length_fmap, <- (length_fmap fst), (co_opened _ _ _ _ Hc).
  assert (Hn : NoDup (opened c)) by (rewrite <- (co_opened _ _ _ _ Hc); apply Hc).
  pose proof (opened_length (opened c) Hn (fun s Hs => proj1 (co_used _ _ _ _ Hc s Hs))). lia.
Qed.

(** The slot of a session is given back. *)
Lemma freed_used t s (l : list Z) : sessions_ok t -> 0 <= s < NR_MAX_SESSIONS_PER_NODE -> s ∉ l ->
  (forall j, j ∈ l -> 0 <= j < NR_MAX_SESSIONS_PER_NODE /\ in_use t j) ->
  sessions_ok (free_session t s) /\ forall j, j ∈ l -> 0 <= j < NR_MAX_SESSIONS_PER_NODE /\ in_use (free_session t s) j.
Proof.
  intros Ht Hs Hn Hl. unfold free_session. rewrite wrap32_small by (unfold NR_MAX_SESSIONS_PER_NODE in *; lia).
  destruct (free_session_spec t s Ht ltac:(lia)) as (Ht' & Hu & _). split; [exact Ht'|]. intros j Hj. destruct (Hl j Hj) as [Hr Hi].
  split; [exact Hr|]. apply Hu; [exact Hr|]. split; [exact Hi|]. intros ->. contradiction.
Qed.

Lemma net_open_spec c xs op lost e : conf_ok c xs op lost -> few_failures c -> fresh_env (c_rpc c) e ->
  exists r t' w', rpc_net_open_session hd (c_tab c) (c_rpc c) e = Some (r, t', w') /\
    exists xs' op' lost', conf_ok (match r with Some s => RpcConf t' w' (s :: opened c) (failures c) | None => RpcConf t' w' (opened c) (failures c + 1) end) xs' op' lost'.
Proof.
  intros Hc Hf He. pose proof (refs_bound _ _ _ _ Hc Hf) as Hb. pose proof (co_lost _ _ _ _ Hc) as Hlost. unfold rpc_net_open_session.
  pose proof (alloc_session_spec 0 (c_tab c) (co_tab _ _ _ _ Hc)) as Ha. fold (host_alloc_session (c_tab c)) in Ha.
  pose proof (alloc_board_ip (c_tab c)) as Hip. destruct (host_alloc_session (c_tab c)) as [[s|] t].
  2: { eexists None, _, _. split; [reflexivity|]. destruct Ha as [-> _]; [unfold NR_MAX_SESSIONS_PER_NODE; lia|]. exists xs, op, lost. destruct Hc. split; cbn in *; auto. lia. }
  destruct Ha as (Ht & Hs & Hns & _ & Hu & _); [unfold NR_MAX_SESSIONS_PER_NODE; lia|]. specialize (Hip s t eq_refl).
  assert (Hso : s ∉ opened c) by (intros H; now destruct (co_used _ _ _ _ Hc s H)). assert (Hsop : s ∉ op.*1) by now rewrite (co_opened _ _ _ _ Hc).
  assert (Hl : forall j, j ∈ opened c -> 0 <= j < NR_MAX_SESSIONS_PER_NODE /\ in_use t j).
  { intros j Hj. destruct (co_used _ _ _ _ Hc j Hj) as [Hr Hi]. split; [exact Hr|]. apply Hu; [lia|auto]. }
  destruct (freed_used t s _ Ht Hs Hso Hl) as [Ht' Hl']. pose proof (private_inv _ _ _ _ s None (co_rpc _ _ _ _ Hc) Hsop) as Hi.
  destruct (raw_up e); cbn [negb].
  2: { eexists None, _, _. split; [reflexivity|]. exists xs, op, lost. split; cbn; auto; [apply Hc|lia|apply Hc]. }
  rewrite Hip. destruct (open_spec xs op lost _ e s 0 Hi He Hsop Hb) as (ret & w' & -> & Hk & H). cbn [mbind option_bind].
  assert (Hz : forall a x, states w' !! a = Some x -> st_board_ip x = 0).
  { intros a x Hx. destruct (Hk a x Hx) as [?|(z & Hz & <-)]; [auto|]. now apply (co_board _ _ _ _ Hc a). }
  destruct H as [(-> & xs' & a & x & Hi' & _)|(-> & xs' & lost' & Hi' & Hlen)].
  - eexists (Some s), _, _. split; [reflexivity|]. exists xs', ((s, a) :: op), lost. split; cbn; auto; [now f_equal; apply Hc|].
    intros j [->|Hj]%elem_of_cons; [|auto]. split; [lia|]. apply Hu; [lia|auto].
  - eexists None, _, _. split; [reflexivity|]. exists xs', op, lost'. split; cbn; auto; [apply Hc|lia].
Qed.

Lemma net_close_spec c xs op lost op1 s op2 : conf_ok c xs op lost -> few_failures c -> opened c = op1 ++ s :: op2 ->
  exists t' w', rpc_net_close_session p1 p2 (c_tab c) (c_rpc c) s = Some (t', w') /\
    exists xs' op', conf_ok (RpcConf t' w' (op1 ++ op2) (failures c)) xs' op' lost.
Proof.
  intros Hc Hf Eo. pose proof (refs_bound _ _ _ _ Hc Hf) as Hb. pose proof (co_opened _ _ _ _ Hc) as Em. rewrite Eo in Em.
  apply fmap_app_inv in Em as (o1 & o2' & E1 & E2 & ->). destruct o2' as [|[s' a] o2]; [discriminate|]. injection E2 as <- E2.
  destruct (close_spec xs o1 s a o2 lost _ (co_rpc _ _ _ _ Hc) ltac:(lia)) as (w' & xs' & E & Hi & Hk). unfold rpc_net_close_session. rewrite E. cbn [mbind option_bind].
  eexists _, _. split; [reflexivity|]. exists xs', (o1 ++ o2). pose proof (co_used _ _ _ _ Hc) as Hu. rewrite Eo in Hu.
  assert (Hn : s ∉ op1 ++ op2). { pose proof (ri_nodup _ _ _ _ (co_rpc _ _ _ _ Hc)) as Hn. rewrite (co_opened _ _ _ _ Hc), Eo in Hn. apply NoDup_app in Hn as (_ & H1 & H2). apply NoDup_cons in H2 as [H2 _]. set_solver. }
  destruct (freed_used (c_tab c) s (op1 ++ op2) (co_tab _ _ _ _ Hc)) as [Ht Hl]; [apply Hu; set_solver|exact Hn|intros j Hj; apply Hu; set_solver|].
  split; cbn; auto; [rewrite fmap_app; f_equal; [now symmetry|symmetry; exact E2]|apply Hc|]. intros b y Hy. destruct (Hk b y Hy) as [[]|(z & Hz & <-)]. now apply (co_board _ _ _ _ Hc b).
Qed.

Lemma rpc_step_ok c c' : rpc_step c c' -> few_failures c' ->
  few_failures c /\ forall xs op lost, conf_ok c xs op lost -> exists xs' op' lost', conf_ok c' xs' op' lost'.
Proof.
  unfold few_failures. intros Hs Hf. destruct Hs as [t w op n e s t' w' He E|t w op n e t' w' He E|t w op n s ip port Hs|t w op1 s op2 n t' w' E]; cbn [failures] in *;
    (split; [lia|]); intros xs ops lost Hc.
  - destruct (net_open_spec _ _ _ _ e Hc) as (r & t1 & w1 & E1 & H); [unfold few_failures; cbn; lia|exact He|]. cbn in E1. rewrite E in E1. now injection E1 as <- <- <-.
  - destruct (net_open_spec _ _ _ _ e Hc) as (r & t1 & w1 & E1 & H); [unfold few_failures; cbn; lia|exact He|]. cbn in E1. rewrite E in E1. now injection E1 as <- <- <-.
  - exists xs, ops, lost. destruct (co_used _ _ _ _ Hc s Hs) as [Hr Hu]. cbn in Hu. pose proof (co_tab _ _ _ _ Hc) as Ht. destruct Hc. split; cbn in *; auto.
    apply set_session_ok; auto; cbn; [now apply (so_flags t Ht)|now apply (so_id t Ht)].
  - destruct (net_close_spec _ _ _ _ op1 s op2 Hc) as (t1 & w1 & E1 & xs' & op' & H); [unfold few_failures; cbn; lia|reflexivity|]. cbn in E1. rewrite E in E1. injection E1 as <- <-. eauto.
Qed.

Lemma rpc_start_ok h : conf_ok (rpc_start h) [] [] [].
Proof.
  split; cbn; auto; [|lia|apply no_sessions_ok|intros s []%not_elem_of_nil|intros a x; now rewrite lookup_empty]. split; cbn.
  - apply dlist_init.
  - intros a. rewrite lookup_empty. split; [intros []%not_elem_of_nil|now intros [? ?]].
  - intros a b x y. now rewrite lookup_empty.
  - constructor.
  - intros s a []%not_elem_of_nil.
  - intros s t []%not_elem_of_nil.
  - intros a x. now rewrite lookup_empty.
  - intros a []%not_elem_of_nil.
Qed.

Lemma rpc_reachable_ok c : rpc_reachable c -> few_failures c -> exists xs op lost, conf_ok c xs op lost.
Proof.
  intros [h Hr]. revert c Hr. apply (rtc_ind_r (fun c => few_failures c -> exists xs op lost, conf_ok c xs op lost)); [intros _; exists [], [], []; apply rpc_start_ok|].
  intros c c' _ Hs IH Hf.
  destruct (rpc_step_ok c c' Hs Hf) as [Hf' H]. destruct (IH Hf') as (xs & op & lost & Hc). eauto.
Qed.

(** How many of the sessions use the state. *)
Definition users (w : rpc) (l : list Z) (a : Z) : Z := Z.of_nat (length (filter (fun s => state_of w s = Some a) l)).

Lemma users_occ w op a : (forall s b, (s, b) ∈ op -> state_of w s = Some b) -> users w op.*1 a = occ a op.*2.
Proof.
  unfold users. induction op as [|[s b] op IH]; intros H; [reflexivity|]. cbn [fmap list_fmap fst snd]. rewrite occ_cons, <- IH by (intros; apply H; set_solver).
  rewrite filter_cons, (H s b) by set_solver. destruct (decide (a = b)) as [->|Hn]; [rewrite decide_True by auto; cbn; lia|rewrite decide_False by congruence; lia].
Qed.

Lemma opened_state c xs op lost s : conf_ok c xs op lost -> s ∈ opened c ->
  exists r x y, private (c_rpc c) s = Some r /\ rpcs (c_rpc c) !! r = Some x /\ states (c_rpc c) !! send_state x = Some y.
Proof.
  intros Hc Hs. pose proof (co_rpc _ _ _ _ Hc) as Hi. rewrite <- (co_opened _ _ _ _ Hc) in Hs. apply list_elem_of_fmap in Hs as ([? a] & -> & Hin). cbn [fst].
  pose proof (ri_open _ _ _ _ Hi _ a Hin) as E. destruct (ri_refs _ _ _ _ Hi a) as [y Hy]; [apply elem_of_app; left; apply list_elem_of_fmap; now exists (z, a)|].
  unfold state_of in E. destruct (private _ z) as [r|]; [|discriminate]. cbn in E. destruct (rpcs _ !! r) as [x|] eqn:Ex; [|discriminate]. injection E as <-. exists r, x, y. auto.
Qed.

(** ** Properties *)


(** C22: the state of congestion control is not kept per board.  A session learns the
    address of its board only after it was opened, so that the transport looks for the
    state of address 0: there is never more than one state, and all sessions, to
    whatever boards, share it. *)
Theorem rpc_state_not_per_board c : rpc_reachable c -> few_failures c ->
  (forall a x, states (c_rpc c) !! a = Some x -> st_board_ip x = 0) /\ (size (states (c_rpc c)) <= 1)%nat /\
  forall s t, s ∈ opened c -> t ∈ opened c -> state_of (c_rpc c) s = state_of (c_rpc c) t.
Proof.
  intros Hr Hf. destruct (rpc_reachable_ok c Hr Hf) as (xs & op & lost & Hc). pose proof (co_rpc _ _ _ _ Hc) as Hi. pose proof (co_board _ _ _ _ Hc) as Hz.
  assert (Hone : forall a b x y, states (c_rpc c) !! a = Some x -> states (c_rpc c) !! b = Some y -> a = b).
  { intros a b x y Ha Hb. apply (ri_board _ _ _ _ Hi a b x y Ha Hb). now rewrite (Hz a x Ha), (Hz b y Hb). }
  split_and!; [exact Hz| |].
  - rewrite <- (list_size _ _ _ _ Hi). destruct (ri_list _ _ _ _ Hi) as [[_ Hn]%NoDup_cons _]. destruct xs as [|a [|b xs]]; cbn; try lia.
    destruct (proj1 (ri_states _ _ _ _ Hi a)) as [x Hx]; [set_solver|]. destruct (proj1 (ri_states _ _ _ _ Hi b)) as [y Hy]; [set_solver|].
    apply NoDup_cons in Hn as [Hn _]. destruct Hn. rewrite (Hone a b x y Hx Hy). set_solver.
  - intros s t Hs Ht. destruct (opened_state _ _ _ _ s Hc Hs) as (r & x & y & E1 & E2 & E3), (opened_state _ _ _ _ t Hc Ht) as (r' & x' & y' & E1' & E2' & E3').
    unfold state_of. rewrite E1, E1'. cbn. rewrite E2, E2'. cbn. f_equal. exact (Hone _ _ _ _ E3 E3').
Qed.
End inv.

(** A receive delivers what the raw network has next: one that does not wait looks
    once; one that waits passes over the times when there was nothing. *)
Theorem rpc_receive_delivers {P} w ids ses (k : nat) (r : raw_result P) raw : is_Some (r' ← private w ses; rpcs w !! r') -> r <> RawNone P ->
  let result := match r with RawErr _ ret => Some (ret, None, raw) | RawPacket _ p size => Some (sint32 size, Some p, raw) | RawNone _ => None end in
  rpc_receive_one w ids ses (repeat (RawNone P) k ++ r :: raw) = result /\ rpc_receive_one_nb w ids ses (r :: raw) = result /\
  rpc_receive_one_nb w ids ses (RawNone P :: raw) = Some (0, None, raw).
Proof.
  intros [x Hx] Hr. destruct (private w ses) as [q|] eqn:Ep; [|discriminate]. cbn in Hx. unfold rpc_receive_one, rpc_receive_one_nb.
  assert (H : forall nb, __rpc_receive_one w ids ses nb (r :: raw) = match r with RawErr _ ret => Some (ret, None, raw) | RawPacket _ p size => Some (sint32 size, Some p, raw) | RawNone _ => None end).
  { intros nb. destruct r as [ret| |p size]; [reflexivity|contradiction|]. cbn. rewrite Ep. cbn. rewrite Hx. cbn. now destruct (test_management_session ids). }
  split_and!; [|apply H|reflexivity]. induction k as [|k IH]; [apply H|exact IH].
Qed.

(** ** Examples *)

Definition ex_open (c : rpc_conf) (e : open_env) : rpc_conf :=
  match rpc_net_open_session 1 (c_tab c) (c_rpc c) e with
  | Some (Some s, t, w) => RpcConf t w (s :: opened c) (failures c)
  | Some (None, t, w) => RpcConf t w (opened c) (failures c + 1)
  | None => c
  end.
Definition ex_connect (c : rpc_conf) (s ip : Z) : rpc_conf :=
  RpcConf (set_session (c_tab c) s (set_endpoint (session_net_map (c_tab c) s) ip 1)) (c_rpc c) (opened c) (failures c).

Lemma ex_open_step c e : fresh_env 1 (c_rpc c) e -> is_Some (rpc_net_open_session 1 (c_tab c) (c_rpc c) e) -> rpc_step 1 2 3 c (ex_open c e).
Proof.
  intros He [[[r t] w] E]. unfold ex_open. rewrite E. destruct c as [t0 w0 op n]. destruct r as [s|]; [now apply (rs_open 1 2 3 t0 w0 op n e)|now apply (rs_fail 1 2 3 t0 w0 op n e)].
Qed.
Lemma ex_connect_step c s ip : s ∈ opened c -> rpc_step 1 2 3 c (ex_connect c s ip).
Proof. destruct c. apply rs_endpoint. Qed.

(** Sessions to two boards; a third is not opened, because its buffer is not
    allocated. *)
Definition ex_env (a b : Z) (buf : bool) : open_env := OpenEnv true (Some a) (Some b) buf true.
Definition ex_one : rpc_conf := ex_connect (ex_open (rpc_start 1 (Heap (fun x => x) (fun x => x))) (ex_env 100 200 true)) 0 7.
Definition ex_two : rpc_conf := ex_connect (ex_open ex_one (ex_env 101 201 true)) 1 8.
Definition ex_three : rpc_conf := ex_open ex_two (ex_env 102 202 false).

Lemma ex_rpc_reachable : rpc_reachable 1 2 3 ex_three.
Proof.
  exists (Heap (fun x => x) (fun x => x)). assert (Hfresh : forall c a b buf, rpcs (c_rpc c) !! a = None -> states (c_rpc c) !! b = None -> b <> 1 -> fresh_env 1 (c_rpc c) (ex_env a b buf)).
  { intros c a b buf Ha Hb Hn. split; cbn; [intros r [= <-]; exact Ha|intros x [= <-]; auto]. }
  assert (Hsome : forall A (o : option A), match o with Some _ => true | None => false end = true -> is_Some o) by (intros A [x|]; [eauto|discriminate]).
  eapply rtc_l; [apply (ex_open_step _ (ex_env 100 200 true)); [apply Hfresh; [vm_compute; reflexivity|vm_compute; reflexivity|lia]|apply Hsome; vm_compute; reflexivity]|].
  eapply rtc_l; [apply (ex_connect_step _ 0 7); vm_compute; left|]. fold ex_one.
  eapply rtc_l; [apply (ex_open_step _ (ex_env 101 201 true)); [apply Hfresh; [vm_compute; reflexivity|vm_compute; reflexivity|lia]|apply Hsome; vm_compute; reflexivity]|].
  eapply rtc_l; [apply (ex_connect_step _ 1 8); vm_compute; left|]. fold ex_two.
  apply rtc_once. apply (ex_open_step _ (ex_env 102 202 false)); [apply Hfresh; [vm_compute; reflexivity|vm_compute; reflexivity|lia]|apply Hsome; vm_compute; reflexivity].
Qed.


Lemma rpc_state_not_per_board_witness : s_board_ip (session_net_map (c_tab ex_three) 0) <> s_board_ip (session_net_map (c_tab ex_three) 1) /\
  state_of (c_rpc ex_three) 0 = state_of (c_rpc ex_three) 1.
Proof.
  split; [vm_compute; discriminate|]. apply (rpc_state_not_per_board 1 2 3 ex_three ex_rpc_reachable); [vm_compute; reflexivity| |]; vm_compute; [right; left|left].
Defined.

(** When both sessions are closed, the state is kept for the one that failed. *)
Example rpc_failed_open_leaks :
  (t_w ← rpc_net_close_session 2 3 (c_tab ex_three) (c_rpc ex_three) 1;
   t_w' ← rpc_net_close_session 2 3 t_w.1 t_w.2 0; Some (states t_w'.2 !! 200)) = Some (Some (SendState 0 4096 1)).
Proof. vm_compute. reflexivity. Qed.
