(* ===== verification/Peer.v ===== *)
(** * Boards and sessions of a host or of the monitor

    What the processes of the host side share: the table of known nodes
    (host/board.c), the sessions kept per board (include/uapi/sched.h) and per
    context (host/context.c), opening and closing of sessions on the sending side
    (host/api.c) and on the receiving side (host/common.c), and the membership
    handlers.  [peer_inv] ties the four hash tables to the session table. *)

From stdpp Require Import functions.
From S2P Require Import Prelude Bitops Hlist HashFamily Gbn Session.

#[local] Set Warnings "-clear-no-such-hyp".

(** ** Constants *)

Definition NR_MAX_BOARDS : Z := 128.
Definition BOARD_HASH_ARRAY_BITS : Z := 5.
Definition CONTEXT_SESSIONS_BITS : Z := 4.
Definition BOARD_INFO_FLAGS_BOARD : Z := 1.
Definition BOARD_INFO_FLAGS_HOST : Z := 2.
Definition BOARD_INFO_FLAGS_MONITOR : Z := 4.
Definition BOARD_INFO_FLAGS_DUMMY : Z := 8.
Definition BOARD_INFO_FLAGS_LOCALHOST : Z := 16.
Definition BOARD_INFO_FLAGS_BITS_MASK : Z := 31.
Definition BOARD_INFO_FLAGS_ALLOCATED : Z := 32.
Definition ANY_BOARD : Z := 2 ^ 32 - 1.
Definition ANY_NODE : Z := 2 ^ 32 - 2.

(** The transport chosen at build time: [CONFIG_TRANSPORT_GBN] or [_RPC]. *)
Inductive transport := TRANSPORT_GBN | TRANSPORT_RPC.

(** A bound on the loops over one bucket: more than the boards and the sessions
    there are. *)
Definition chain_fuel : nat := Z.to_nat 1026.

(** ** State *)

(** [struct board_info]; the addresses and ports are their 32-bit patterns, the
    management session is its index.  Of [local_ei] and [remote_ei] it keeps the
    addresses and the ports. *)
Record board_info := BoardInfo {
  board_id : Z; bi_ip : Z; bi_port : Z; bi_local_port : Z; bi_flags : Z;
  bi_mgmt_session : option Z; mem_total : Z; mem_avail : Z;
}.
Definition set_mgmt_session (b : board_info) (s : option Z) : board_info :=
  BoardInfo (board_id b) (bi_ip b) (bi_port b) (bi_local_port b) (bi_flags b) s (mem_total b) (mem_avail b).
Definition set_bi_flags (b : board_info) (f : Z) : board_info :=
  BoardInfo (board_id b) (bi_ip b) (bi_port b) (bi_local_port b) f (bi_mgmt_session b) (mem_total b) (mem_avail b).
Definition set_bi_addr (b : board_info) (ip port local_port mem : Z) : board_info :=
  BoardInfo (board_id b) ip port local_port (bi_flags b) (bi_mgmt_session b) mem mem.

(** The globals of board.c; a board is its index in [board_info_map]. *)
Record boards := Boards {
  board_info_map : Z -> board_info;
  board_id_map : list Z;
  board_list : hheap Z Z;
  nr_max_board_id : Z;
  nr_online_hosts : Z;
  nr_online_boards : Z;
}.
Definition set_bi (b : boards) (i : Z) (x : board_info) : boards :=
  Boards (<[i := x]> (board_info_map b)) (board_id_map b) (board_list b) (nr_max_board_id b) (nr_online_hosts b) (nr_online_boards b).
Definition set_board_ids (b : boards) (m : list Z) (max : Z) : boards :=
  Boards (board_info_map b) m (board_list b) max (nr_online_hosts b) (nr_online_boards b).
Definition set_board_list (b : boards) (l : hheap Z Z) : boards :=
  Boards (board_info_map b) (board_id_map b) l (nr_max_board_id b) (nr_online_hosts b) (nr_online_boards b).
Definition set_online (b : boards) (h n : Z) : boards :=
  Boards (board_info_map b) (board_id_map b) (board_list b) (nr_max_board_id b) h n.

(** A node: its boards, its sessions, the three hash links of each session, the
    source and destination ports of its [route], and [global_base_udp_port].
    The buckets of board [b] are at [(b, j)], those of context [c] at [(c, j)],
    those of region [v] of [c] at [((c, v), j)]. *)
Record peer := Peer {
  bds : boards;
  tab : session_table;
  link_board : hheap (Z * Z) Z;
  link_context : hheap (Z * Z) Z;
  link_vregion : hheap ((Z * Z) * Z) Z;
  route : Z -> Z * Z;
  global_base_udp_port : Z;
}.
Definition set_bds (p : peer) (b : boards) : peer :=
  Peer b (tab p) (link_board p) (link_context p) (link_vregion p) (route p) (global_base_udp_port p).
Definition set_tab (p : peer) (t : session_table) : peer :=
  Peer (bds p) t (link_board p) (link_context p) (link_vregion p) (route p) (global_base_udp_port p).
Definition set_link_board (p : peer) (s : hheap (Z * Z) Z) : peer :=
  Peer (bds p) (tab p) s (link_context p) (link_vregion p) (route p) (global_base_udp_port p).
Definition set_link_context (p : peer) (s : hheap (Z * Z) Z) : peer :=
  Peer (bds p) (tab p) (link_board p) s (link_vregion p) (route p) (global_base_udp_port p).
Definition set_link_vregion (p : peer) (s : hheap ((Z * Z) * Z) Z) : peer :=
  Peer (bds p) (tab p) (link_board p) (link_context p) s (route p) (global_base_udp_port p).
Definition set_route (p : peer) (i : Z) (r : Z * Z) : peer :=
  Peer (bds p) (tab p) (link_board p) (link_context p) (link_vregion p) (<[i := r]> (route p)) (global_base_udp_port p).

Definition ses_at (p : peer) (i : Z) : session := session_net_map (tab p) i.
Definition bi_at (p : peer) (i : Z) : board_info := board_info_map (bds p) i.
Definition ses_ids (p : peer) (i : Z) : Z := session_id (s_ids (ses_at p i)).
Definition update_ses (p : peer) (i : Z) (s : session) : peer := set_tab p (set_session (tab p) i s).
Definition update_bi (p : peer) (i : Z) (b : board_info) : peer := set_bds p (set_bi (bds p) i b).

(** ** Boards: sched.h and board.c *)

Definition special_board_info_type (type : Z) : bool :=
  let type := Z.land type BOARD_INFO_FLAGS_BITS_MASK in
  (type =? BOARD_INFO_FLAGS_MONITOR) || (type =? BOARD_INFO_FLAGS_DUMMY) || (type =? BOARD_INFO_FLAGS_LOCALHOST).

Definition board_key (ip port : Z) : Z := sint32 (ip + port).

Definition alloc_board_info (b : boards) : option Z * boards :=
  let bit := find_next_zero_bit (board_id_map b) NR_MAX_BOARDS 0 in
  if NR_MAX_BOARDS <=? bit then (None, b)
  else
    let b := set_board_ids b (__set_bit bit (board_id_map b)) bit in
    let b := set_board_list b (INIT_HLIST_NODE (board_list b) bit) in
    (Some bit, set_bi b bit (BoardInfo bit 0 0 0 BOARD_INFO_FLAGS_ALLOCATED None 0 0)).

(** The hash table of the board is emptied; the counters are not modelled. *)
Definition init_board_info (p : peer) (bi : Z) : peer :=
  set_link_board p (__hash_init (link_board p) (pair bi) (Z.to_nat (2 ^ NR_HT_BOARD_SESSIONS_BITS))).

(** [None] is [BUG] *)
Definition remove_board (b : boards) (bi : Z) : option boards :=
  let x := board_info_map b bi in
  r ← hash_for_each_possible chain_fuel (fun i => bi_ip (board_info_map b i) =? bi_ip x)
        (board_list b) (fun j => j) BOARD_HASH_ARRAY_BITS (board_key (bi_ip x) (bi_port x));
  match r with
  | None => Some b
  | Some _ =>
      let '(set, m) := __test_and_clear_bit bi (board_id_map b) in
      if negb set then None
      else
        l ← hash_del (board_list b) bi;
        let max := if bi =? nr_max_board_id b then nr_max_board_id b - 1 else nr_max_board_id b in
        Some (set_board_list (set_board_ids b m max) l)
  end.

Definition find_board_by_id (id : Z) : option Z := if NR_MAX_BOARDS <? id then None else Some id.

Definition find_board (b : boards) (ip port : Z) : option (option Z) :=
  let flags i := bi_flags (board_info_map b i) in
  if (ip =? ANY_BOARD) || (ip =? ANY_NODE) then
    hash_for_each_first chain_fuel
      (fun i => negb (special_board_info_type (flags i)) &&
                negb ((ip =? ANY_BOARD) && (Z.land (flags i) BOARD_INFO_FLAGS_BOARD =? 0)))
      (board_list b) (fun j => j) 0 (Z.to_nat (2 ^ BOARD_HASH_ARRAY_BITS))
  else
    hash_for_each_possible chain_fuel
      (fun i => negb (special_board_info_type (flags i)) &&
                ((bi_ip (board_info_map b i) =? ip) && (bi_port (board_info_map b i) =? port)))
      (board_list b) (fun j => j) BOARD_HASH_ARRAY_BITS (board_key ip port).

(** ** Sessions of a context: context.c *)

Definition context_key (tid ip port : Z) : Z := sint32 (tid + ip + port).
Definition ses_context_key (p : peer) (x : Z) : Z := context_key (s_tid (ses_at p x)) (s_board_ip (ses_at p x)) (s_udp_port (ses_at p x)).
Definition same_endpoint (p : peer) (tid ip port x : Z) : bool :=
  (s_tid (ses_at p x) =? tid) && ((s_udp_port (ses_at p x) =? port) && (s_board_ip (ses_at p x) =? ip)).

(** [init_legomem_context] clears the buckets of a new context. *)
Definition init_context_sessions (p : peer) (ctx : Z) : peer :=
  set_link_context p (__hash_init (link_context p) (pair ctx) (Z.to_nat (2 ^ CONTEXT_SESSIONS_BITS))).

Definition context_add_session (p : peer) (ctx ses : Z) : peer :=
  set_link_context p (hash_add (link_context p) (pair ctx) CONTEXT_SESSIONS_BITS ses (ses_context_key p ses)).

Definition context_find_session (p : peer) (ctx tid ip port : Z) : option (option Z) :=
  hash_for_each_possible chain_fuel (same_endpoint p tid ip port) (link_context p) (pair ctx) CONTEXT_SESSIONS_BITS (context_key tid ip port).

(** 0 or -1 *)
Definition context_remove_session (p : peer) (ctx ses : Z) : option (Z * peer) :=
  let x := ses_at p ses in
  r ← hash_for_each_possible chain_fuel (same_endpoint p (s_tid x) (s_board_ip x) (s_udp_port x))
        (link_context p) (pair ctx) CONTEXT_SESSIONS_BITS (ses_context_key p ses);
  match r with
  | Some _ => s ← hash_del (link_context p) ses; Some (0, set_link_context p s)
  | None => Some (-1, p)
  end.

(** ** Opening and closing: net/core.c and api.c *)

(** [alloc_session] of the host with [init_session_net]. *)
Definition peer_alloc_session (p : peer) : option Z * peer :=
  match host_alloc_session (tab p) with
  | (None, _) => (None, p)
  | (Some i, t) =>
      let p := set_tab p t in
      let p := set_link_board p (INIT_HLIST_NODE (link_board p) i) in
      let p := set_link_context p (INIT_HLIST_NODE (link_context p) i) in
      let p := set_link_vregion p (INIT_HLIST_NODE (link_vregion p) i) in
      (Some i, set_route p i (0, 0))
  end.
Definition peer_free_session (p : peer) (ses : Z) : peer := set_tab p (free_session (tab p) ses).

(** A port in the header of a packet has 16 bits. *)
Definition udp16 (x : Z) : Z := x mod 2 ^ 16.

(** [net_up]: the raw network and the transport accept the session. *)
Definition net_open_session (p : peer) (net_up : bool) (bi : Z) : option Z * peer :=
  match peer_alloc_session p with
  | (None, p) => (None, p)
  | (Some ses, p) =>
      if negb net_up then (None, peer_free_session p ses)
      else (Some ses, set_route p ses (udp16 (bi_local_port (bi_at p bi)), udp16 (bi_port (bi_at p bi))))
  end.
Definition net_close_session (p : peer) (ses : Z) : peer := peer_free_session p ses.

Definition peer_board_add (p : peer) (bi ses : Z) : peer :=
  set_link_board p (board_add_session (pair bi) (ses_ids p) (link_board p) ses).
Definition peer_board_remove (p : peer) (bi ses : Z) : option peer :=
  '(_, s) ← board_remove_session (pair bi) chain_fuel (ses_ids p) (link_board p) ses;
  Some (set_link_board p s).

(** The thread of the session, if it has one, has stopped. *)
Definition generic_handle_close_session (p : peer) (ctx : option Z) (bi ses : Z) : option (Z * peer) :=
  p ← peer_board_remove p bi ses;
  p ← match ctx with
      | Some c => '(_, p) ← context_remove_session p c ses; Some p
      | None => Some p
      end;
  Some (0, net_close_session p ses).

(** The fields a new session of board [bi] starts with. *)
Definition set_session_board (p : peer) (ses bi tid : Z) : peer :=
  let b := bi_at p bi in
  update_ses p ses (set_tid (set_board_info (set_endpoint (ses_at p ses) (bi_ip b) (bi_port b)) (Some bi)) tid).
Definition patch_udp_ports (p : peer) (ses port : Z) : peer :=
  set_route p ses (udp16 (global_base_udp_port p + session_id (s_ids (ses_at p ses))),
                   udp16 (port + remote_session_id (s_ids (ses_at p ses)))).

(** The receiving side; [thread_up]: the handler thread starts. *)
Definition generic_handle_open_session (p : peer) (net_up thread_up : bool) (bi dst_sesid : Z) : option (option Z * peer) :=
  match net_open_session p net_up bi with
  | (None, p) => Some (None, p)
  | (Some ses, p) =>
      let p := set_session_board p ses bi 0 in
      let p := update_ses p ses (set_remote_session_id (ses_at p ses) dst_sesid) in
      let p := peer_board_add p bi ses in
      if negb thread_up then
        p ← peer_board_remove p bi ses;
        Some (None, net_close_session p ses)
      else
        Some (Some ses, update_ses p ses (set_flags (ses_at p ses) (Z.lor (s_flags (ses_at p ses)) SESSION_NET_FLAGS_THREAD_CREATED)))
  end.

(** The answer of the remote side to [OP_OPEN_SESSION] or [OP_CLOSE_SESSION] for a
    session id: its [session_id], or [None] when it cannot be reached. *)
Definition answer := Z -> option Z.

(** The sending side. *)
Definition ____legomem_open_session (cfg : transport) (p : peer) (net_up : bool) (ask : answer)
    (ctx bi : option Z) (tid : Z) (is_local_mgmt is_remote_mgmt : bool) : option (option Z * peer) :=
  match bi with
  | None => Some (None, p)
  | Some bi =>
      if is_local_mgmt && is_remote_mgmt then Some (None, p)
      else
        match net_open_session p net_up bi with
        | (None, p) => Some (None, p)
        | (Some ses, p) =>
            let p := set_session_board p ses bi tid in
            let bookkeeping p :=
              let p := peer_board_add p bi ses in
              let p := match ctx with Some c => context_add_session p c ses | None => p end in
              Some (Some ses, p) in
            let connected p dst :=
              let p := update_ses p ses (set_remote_session_id (ses_at p ses) dst) in
              bookkeeping (patch_udp_ports p ses (bi_port (bi_at p bi))) in
            if is_local_mgmt then bookkeeping p
            else if is_remote_mgmt then connected p LEGOMEM_MGMT_SESSION_ID
            else
              match cfg with
              | TRANSPORT_RPC => connected p (ses_ids p ses)
              | TRANSPORT_GBN =>
                  match bi_mgmt_session (bi_at p bi) with
                  | None => None
                  | Some _ =>
                      match ask (ses_ids p ses) with
                      | None => Some (None, net_close_session p ses)
                      | Some dst => if dst =? 0 then Some (None, net_close_session p ses) else connected p dst
                      end
                  end
              end
        end
  end.

Definition legomem_open_session cfg p net_up ask ctx bi tid := ____legomem_open_session cfg p net_up ask ctx bi tid false false.
(** The send buffer of the session is not modelled; [mmap] never returns [NULL]. *)
Definition legomem_open_session_remote_mgmt cfg p net_up bi := ____legomem_open_session cfg p net_up (fun _ => None) None (Some bi) 0 false true.
Definition legomem_open_session_local_mgmt cfg p net_up bi := ____legomem_open_session cfg p net_up (fun _ => None) None (Some bi) 0 true false.

Definition legomem_close_session (cfg : transport) (p : peer) (ask : answer) (ctx : option Z) (ses : Z) : option (Z * peer) :=
  let x := ses_at p ses in
  bi ← s_board x;
  match cfg with
  | TRANSPORT_GBN =>
      if test_management_session (s_ids x) then generic_handle_close_session p ctx bi ses
      else
        match bi_mgmt_session (bi_at p bi) with
        | None => None
        | Some _ =>
            match ask (remote_session_id (s_ids x)) with
            | None => Some (- EIO, p)
            | Some r => if negb (r =? 0) then Some (- EFAULT, p) else generic_handle_close_session p ctx bi ses
            end
        end
  | TRANSPORT_RPC => generic_handle_close_session p ctx bi ses
  end.

(** ** Members of the cluster: board.c, common.c and util.c *)

Definition add_board (cfg : transport) (p : peer) (net_up : bool) (mem ip port local_port : Z) (is_local : bool) : option (option Z * peer) :=
  match alloc_board_info (bds p) with
  | (None, _) => Some (None, p)
  | (Some bi, b) =>
      let p := init_board_info (set_bds p b) bi in
      let p := update_bi p bi (set_bi_addr (bi_at p bi) ip port local_port mem) in
      '(ses, p) ← (if is_local then legomem_open_session_local_mgmt else legomem_open_session_remote_mgmt) cfg p net_up bi;
      let p := update_bi p bi (set_mgmt_session (bi_at p bi) ses) in
      let key := board_key (bi_ip (bi_at p bi)) (bi_port (bi_at p bi)) in
      Some (Some bi, set_bds p (set_board_list (bds p) (hash_add (board_list (bds p)) (fun j => j) BOARD_HASH_ARRAY_BITS bi key)))
  end.

Definition or_flags (p : peer) (bi f : Z) : peer := update_bi p bi (set_bi_flags (bi_at p bi) (Z.lor (bi_flags (bi_at p bi)) f)).

(** [mac_found]: the address of the new node can be resolved. *)
Definition handle_new_node (cfg : transport) (p : peer) (net_up mac_found : bool) (type mem ip port : Z) : option peer :=
  if negb mac_found then Some p
  else
    '(r, p) ← add_board cfg p net_up mem ip port (global_base_udp_port p) false;
    match r with
    | None => Some p
    | Some bi =>
        let p := or_flags p bi type in
        if negb (Z.land type BOARD_INFO_FLAGS_HOST =? 0) then
          Some (set_bds p (set_online (bds p) (nr_online_hosts (bds p) + 1) (nr_online_boards (bds p))))
        else if negb (Z.land type BOARD_INFO_FLAGS_BOARD =? 0) then
          Some (set_bds p (set_online (bds p) (nr_online_hosts (bds p)) (nr_online_boards (bds p) + 1)))
        else Some p
    end.

Definition manually_add_new_node (cfg : transport) (p : peer) (net_up mac_found : bool) (ip port node_type : Z) : option (Z * peer) :=
  if node_type =? BOARD_INFO_FLAGS_BOARD then
    let p := set_bds p (set_online (bds p) (nr_online_hosts (bds p)) (nr_online_boards (bds p) + 1)) in
    p ← handle_new_node cfg p net_up mac_found node_type 0 ip (udp16 port);
    Some (0, p)
  else Some (- EINVAL, p).

Definition add_localhost_bi (cfg : transport) (p : peer) (net_up : bool) (ip port : Z) : option (Z * peer) :=
  '(r, p) ← add_board cfg p net_up 0 ip port port true;
  match r with
  | None => Some (- ENOMEM, p)
  | Some bi => Some (0, or_flags p bi BOARD_INFO_FLAGS_LOCALHOST)
  end.

(** [None] also stands for the access through a management session that is [NULL]. *)
Definition init_local_management_session (cfg : transport) (p : peer) (net_up : bool) : option (Z * peer) :=
  '(r, p) ← add_board cfg p net_up 0 0 0 0 true;
  match r with
  | None => Some (- ENOMEM, p)
  | Some bi =>
      let p := or_flags p bi BOARD_INFO_FLAGS_DUMMY in
      mgmt ← bi_mgmt_session (bi_at p bi);
      if negb (ses_ids p mgmt =? LEGOMEM_MGMT_SESSION_ID) then Some (- EINVAL, p) else Some (0, p)
  end.

(** The response's [session_id], for a request from [ip] and [port]. *)
Definition host_handle_close_session (p : peer) (ip port session_id : Z) : option (Z * peer) :=
  r ← find_board (bds p) ip port;
  match r with
  | None => Some (wrap32 (- EFAULT), p)
  | Some bi =>
      match find_net_session (tab p) session_id with
      | None => Some (wrap32 (- EFAULT), p)
      | Some ses =>
          '(ret, p) ← generic_handle_close_session p None bi ses;
          if negb (ret =? 0) then Some (wrap32 (- EFAULT), p) else Some (0, p)
      end
  end.

Definition host_handle_open_session (p : peer) (net_up thread_up : bool) (ip port session_id : Z) : option (Z * peer) :=
  r ← find_board (bds p) ip port;
  match r with
  | None => Some (0, p)
  | Some bi =>
      '(r, p) ← generic_handle_open_session p net_up thread_up bi session_id;
      match r with
      | None => Some (0, p)
      | Some ses => Some (ses_ids p ses, patch_udp_ports p ses port)
      end
  end.
