(* ===== verification/PeerProofs.v ===== *)
(** * Boards and sessions: invariant

    [links_inv] ties the sessions in use to the hash tables of the boards and of
    the contexts, [boards_inv] the table of boards to its bitmap; the lemmas say
    what each operation of Peer.v does to them. *)

From stdpp Require Import functions.
From S2P Require Import Prelude Bitops Hlist HashFamily Gbn Session Peer.

#[local] Set Warnings "-clear-no-such-hyp".

Lemma board_bits_ok : 0 <= NR_HT_BOARD_SESSIONS_BITS <= 32.
Proof. split; vm_compute; discriminate. Qed.
Lemma context_bits_ok : 0 <= CONTEXT_SESSIONS_BITS <= 32.
Proof. split; vm_compute; discriminate. Qed.
Lemma board_hash_bits_ok : 0 <= BOARD_HASH_ARRAY_BITS <= 32.
Proof. split; vm_compute; discriminate. Qed.
#[local] Hint Resolve board_bits_ok context_bits_ok board_hash_bits_ok : core.

Lemma chain_fuel_val : Z.of_nat chain_fuel = 1026.
Proof. vm_compute. reflexivity. Qed.
#[global] Opaque chain_fuel.

(** ** Sessions and their tables *)

(** [x] is a session in use of board [b]. *)
Definition linked_to (p : peer) (b x : Z) : Prop :=
  0 <= x < NR_MAX_SESSIONS_PER_NODE /\ in_use (tab p) x /\ s_board (ses_at p x) = Some b /\
  s_board_ip (ses_at p x) = bi_ip (bi_at p b) /\ s_udp_port (ses_at p x) = bi_port (bi_at p b).

(** The boards [B] and the contexts [cs] hold the sessions [ls] and [cl]; a
    session in use that is in no board's table is one of [E]. *)
Record links_inv (E B cs : Z -> Prop) (ls cl : Z -> list Z) (p : peer) : Prop := {
  li_sess : sessions_ok (tab p);
  li_links : tables NR_HT_BOARD_SESSIONS_BITS B (ses_ids p) (link_board p) ls;
  li_linked b x : B b -> x ∈ ls b -> linked_to p b x;
  li_all x : 0 <= x < NR_MAX_SESSIONS_PER_NODE -> in_use (tab p) x -> E x \/ exists b, B b /\ x ∈ ls b;
  li_ctx : tables CONTEXT_SESSIONS_BITS cs (ses_context_key p) (link_context p) cl;
  li_ctx_used c x : cs c -> x ∈ cl c -> 0 <= x < NR_MAX_SESSIONS_PER_NODE /\ in_use (tab p) x;
}.

(** [x] is in the table of no board and of no context. *)
Definition unlinked (B cs : Z -> Prop) (ls cl : Z -> list Z) (x : Z) : Prop :=
  (forall b, B b -> x ∉ ls b) /\ (forall c, cs c -> x ∉ cl c).

(** Everything but session [i] is the same. *)
Definition same_but (i : Z) (p p' : peer) : Prop :=
  (forall j, j <> i -> ses_at p' j = ses_at p j) /\ bds p' = bds p /\ global_base_udp_port p' = global_base_udp_port p.

Lemma same_but_refl i p : same_but i p p.
Proof. easy. Qed.
Lemma same_but_trans i p1 p2 p3 : same_but i p1 p2 -> same_but i p2 p3 -> same_but i p1 p3.
Proof. intros (H1 & H2 & H3) (H4 & H5 & H6). split_and!; [|congruence|congruence]. intros j Hj. rewrite H4, H1; auto. Qed.

Section links.
Context (E B cs : Z -> Prop).
Implicit Types (ls cl : Z -> list Z) (p : peer).

Lemma sessions_bound (l : list Z) : NoDup l -> (forall x, x ∈ l -> 0 <= x < NR_MAX_SESSIONS_PER_NODE) -> (S (length l) < chain_fuel)%nat.
Proof.
  intros Hd Hl. assert (length l <= length (seqZ 0 NR_MAX_SESSIONS_PER_NODE))%nat as Hn.
  { apply submseteq_length, NoDup_submseteq; [auto|]. intros x Hx. apply elem_of_seqZ. specialize (Hl x Hx). lia. }
  rewrite length_seqZ in Hn. pose proof chain_fuel_val. change NR_MAX_SESSIONS_PER_NODE with 1024 in Hn. lia.
Qed.

Lemma board_list_bound ls cl p b : links_inv E B cs ls cl p -> B b -> (S (length (ls b)) < chain_fuel)%nat.
Proof. intros Hp Hb. apply sessions_bound; [apply (li_links _ _ _ _ _ _ Hp), Hb|]. intros x Hx. apply (li_linked _ _ _ _ _ _ Hp b x Hb Hx). Qed.
Lemma context_list_bound ls cl p c : links_inv E B cs ls cl p -> cs c -> (S (length (cl c)) < chain_fuel)%nat.
Proof. intros Hp Hc. apply sessions_bound; [apply (li_ctx _ _ _ _ _ _ Hp), Hc|]. intros x Hx. apply (li_ctx_used _ _ _ _ _ _ Hp c x Hc Hx). Qed.

Lemma ses_ids_used ls cl p x : links_inv E B cs ls cl p -> 0 <= x < NR_MAX_SESSIONS_PER_NODE -> in_use (tab p) x -> ses_ids p x = x.
Proof. intros Hp Hx Hu. now apply (so_id _ (li_sess _ _ _ _ _ _ Hp)). Qed.

(** The invariant on the same sessions and links, for lists that agree. *)
Lemma links_ext B' ls ls' cl p p' : links_inv E B cs ls cl p -> (forall b, B' b <-> B b) -> (forall b, B b -> ls' b = ls b) ->
  tab p' = tab p -> link_board p' = link_board p -> link_context p' = link_context p ->
  (forall b, B b -> bi_ip (bi_at p' b) = bi_ip (bi_at p b) /\ bi_port (bi_at p' b) = bi_port (bi_at p b)) ->
  links_inv E B' cs ls' cl p'.
Proof.
  intros [H1 [H2 H2'] H3 H4 H5 H6] HB Hls Ht Hlb Hlc Hbi.
  assert (Hids : ses_ids p' = ses_ids p) by (unfold ses_ids, ses_at; now rewrite Ht).
  assert (Hkey : ses_context_key p' = ses_context_key p) by (unfold ses_context_key, ses_at; now rewrite Ht).
  split; rewrite ?Ht, ?Hlb, ?Hlc, ?Hids, ?Hkey; auto.
  - split; [intros t Ht'%HB; rewrite Hls; auto|]. intros t u n Ht'%HB Hu%HB. rewrite !Hls; eauto.
  - intros b x Hb%HB. rewrite Hls by auto. intros Hx. destruct (H3 b x Hb Hx) as (K1 & K2 & K3 & K4 & K5). destruct (Hbi b Hb) as [E1 E2].
    unfold linked_to, ses_at in *. rewrite Ht, E1, E2. auto.
  - intros x Hx Hu. destruct (H4 x Hx Hu) as [?|(b & Hb & Hin)]; [auto|]. right. exists b. rewrite HB, Hls; auto.
Qed.

(** Nothing of the invariant is in the route of a session. *)
Lemma links_set_route ls cl p i r : links_inv E B cs ls cl p -> links_inv E B cs ls cl (set_route p i r).
Proof. intros []. now split. Qed.

Lemma alloc_links ls cl p : links_inv E B cs ls cl p ->
  match peer_alloc_session p with
  | (None, p') => p' = p /\ forall x, 0 <= x < NR_MAX_SESSIONS_PER_NODE -> in_use (tab p) x
  | (Some i, p') =>
      0 <= i < NR_MAX_SESSIONS_PER_NODE /\ ~ in_use (tab p) i /\ links_inv (fun x => x = i \/ E x) B cs ls cl p' /\ unlinked B cs ls cl i /\
      same_but i p p' /\ forall j, 0 <= j -> in_use (tab p') j <-> j = i \/ in_use (tab p) j
  end.
Proof.
  intros Hp. unfold peer_alloc_session, host_alloc_session.
  pose proof (alloc_session_spec 0 (tab p) (li_sess _ _ _ _ _ _ Hp) ltac:(now split; vm_compute)) as H.
  destruct (alloc_session_from 0 (tab p)) as [[i|] t]; [|destruct H as [_ H]; auto].
  destruct H as (Ht & Hi & Hn & _ & Hu & Hs).
  assert (Hub : forall b, B b -> i ∉ ls b) by (intros b Hb Hin; apply Hn; apply (li_linked _ _ _ _ _ _ Hp b i Hb Hin)).
  assert (Huc : forall c, cs c -> i ∉ cl c) by (intros c Hc Hin; apply Hn; apply (li_ctx_used _ _ _ _ _ _ Hp c i Hc Hin)).
  split; [lia|]. split; [auto|]. split; [|split; [now split|split; [now split_and!|exact Hu]]]. split; cbn [tab set_route set_link_vregion set_link_context set_link_board set_tab link_board link_context].
  - exact Ht.
  - apply tables_init_node; [|exact Hub]. apply (tables_key _ _ (ses_ids p)); [|apply Hp]. intros b n Hb Hin. unfold ses_ids. cbn. unfold ses_at. cbn. rewrite Hs; [easy|].
    intros ->. now apply (Hub b).
  - intros b x Hb Hin. destruct (li_linked _ _ _ _ _ _ Hp b x Hb Hin) as (H1 & H2 & H3). unfold linked_to, ses_at. cbn. rewrite Hs by (intros ->; now apply (Hub b)).
    split_and!; try apply H3; try lia. apply Hu; [lia|auto].
  - intros x Hx Hin. apply Hu in Hin as [->|Hin]; [auto| |lia]. destruct (li_all _ _ _ _ _ _ Hp x Hx Hin); auto.
  - apply tables_init_node; [|exact Huc]. apply (tables_key _ _ (ses_context_key p)); [|apply Hp]. intros c n Hc Hin. unfold ses_context_key, ses_at. cbn. rewrite Hs; [easy|].
    intros ->. now apply (Huc c).
  - intros c x Hc Hin. destruct (li_ctx_used _ _ _ _ _ _ Hp c x Hc Hin) as (H1 & H2). split; [lia|]. apply Hu; [lia|auto].
Qed.

(** Writing the fields of a session; of one that is in a table, those the tables
    depend on keep their values. *)
Lemma update_links ls cl p i s : links_inv E B cs ls cl p -> 0 <= i < NR_MAX_SESSIONS_PER_NODE -> in_use (tab p) i ->
  allocated_flag (s_flags s) -> session_id (s_ids s) = i ->
  (unlinked B cs ls cl i \/ s_board s = s_board (ses_at p i) /\ s_board_ip s = s_board_ip (ses_at p i) /\
     s_udp_port s = s_udp_port (ses_at p i) /\ s_tid s = s_tid (ses_at p i)) ->
  links_inv E B cs ls cl (update_ses p i s).
Proof.
  intros Hp Hi Hu Hf Hid Hk.
  assert (Hat : forall x, ses_at (update_ses p i s) x = if decide (x = i) then s else ses_at p x).
  { intros x. unfold ses_at. cbn. destruct (decide (x = i)) as [->|Hn]; [apply fn_lookup_insert|now apply fn_lookup_insert_ne, not_eq_sym]. }
  split; cbn [tab update_ses set_tab link_board link_context].
  - apply set_session_ok; auto. apply Hp.
  - apply (tables_key _ _ (ses_ids p)); [|apply Hp]. intros b n Hb Hin. unfold ses_ids. rewrite Hat. destruct (decide (n = i)) as [->|]; [|easy].
    rewrite Hid. symmetry. now apply (ses_ids_used ls cl).
  - intros b x Hb Hin. destruct (li_linked _ _ _ _ _ _ Hp b x Hb Hin) as (H1 & H2 & H3 & H4 & H5). unfold linked_to. rewrite Hat. destruct (decide (x = i)) as [->|]; [|easy].
    destruct Hk as [[Hk _]|(K1 & K2 & K3 & _)]; [now destruct (Hk b Hb)|]. rewrite K1, K2, K3. auto.
  - apply Hp.
  - apply (tables_key _ _ (ses_context_key p)); [|apply Hp]. intros c n Hc Hin. unfold ses_context_key. rewrite Hat. destruct (decide (n = i)) as [->|]; [|easy].
    destruct Hk as [[_ Hk]|(_ & K2 & K3 & K4)]; [now destruct (Hk c Hc)|]. now rewrite K2, K3, K4.
  - apply Hp.
Qed.

(** A session leaves the table once nothing links it. *)
Lemma free_links ls cl p i : links_inv (fun x => x = i \/ E x) B cs ls cl p -> E LEGOMEM_MGMT_SESSION_ID -> 0 <= i < NR_MAX_SESSIONS_PER_NODE ->
  unlinked B cs ls cl i ->
  links_inv E B cs ls cl (peer_free_session p i) /\ same_but i p (peer_free_session p i) /\
  forall j, 0 <= j < NR_MAX_SESSIONS_PER_NODE -> in_use (tab (peer_free_session p i)) j <-> in_use (tab p) j /\ (j = i -> i = LEGOMEM_MGMT_SESSION_ID).
Proof.
  intros Hp He Hi [Hub Huc]. unfold peer_free_session, free_session. rewrite wrap32_small by (change NR_MAX_SESSIONS_PER_NODE with 1024 in Hi; lia).
  destruct (free_session_spec (tab p) i (li_sess _ _ _ _ _ _ Hp) ltac:(lia)) as (Ht & Hu & Hs). split; [|split; [now split_and!|exact Hu]].
  assert (Hat : forall j, j <> i -> ses_at (set_tab p (free_session_by_id (tab p) i)) j = ses_at p j) by exact Hs.
  assert (Hne : forall b x, B b -> x ∈ ls b -> x <> i) by (intros b x Hb Hx ->; now apply (Hub b)).
  assert (Hne' : forall c x, cs c -> x ∈ cl c -> x <> i) by (intros c x Hc Hx ->; now apply (Huc c)).
  split; cbn [tab set_tab link_board link_context]; [exact Ht| | | | |].
  - apply (tables_key _ _ (ses_ids p)); [|apply Hp]. intros b n Hb Hin. unfold ses_ids. rewrite Hat; [easy|eauto].
  - intros b x Hb Hin. destruct (li_linked _ _ _ _ _ _ Hp b x Hb Hin) as (H1 & H2 & H3). unfold linked_to. rewrite Hat by eauto. split_and!; try apply H3; try lia.
    apply Hu; [lia|]. split; [auto|]. intros ->. now destruct (Hub b Hb).
  - intros x Hx [Hin H0]%Hu; [|lia]. destruct (li_all _ _ _ _ _ _ Hp x Hx Hin) as [[->|?]|?]; auto. rewrite H0; auto.
  - apply (tables_key _ _ (ses_context_key p)); [|apply Hp]. intros c n Hc Hin. unfold ses_context_key. rewrite Hat; [easy|eauto].
  - intros c x Hc Hin. destruct (li_ctx_used _ _ _ _ _ _ Hp c x Hc Hin) as (H1 & H2). split; [lia|]. apply Hu; [lia|]. split; [auto|]. intros ->. now destruct (Huc c Hc).
Qed.

Lemma board_add_links ls cl p b i : links_inv (fun x => x = i \/ E x) B cs ls cl p -> B b -> linked_to p b i -> (forall u, B u -> i ∉ ls u) ->
  links_inv E B cs (<[b := i :: ls b]> ls) cl (peer_board_add p b i).
Proof.
  intros Hp Hb Hi Hub. split; cbn [tab peer_board_add set_link_board link_board link_context]; try apply Hp.
  - apply tables_add; auto. apply Hp.
  - intros u x Hu. destruct (decide (u = b)) as [->|Hne]; [rewrite fn_lookup_insert; intros [->|Hin]%elem_of_cons; [exact Hi|]|rewrite fn_lookup_insert_ne by auto; intros Hin];
      now apply (li_linked _ _ _ _ _ _ Hp).
  - intros x Hx Hin. destruct (li_all _ _ _ _ _ _ Hp x Hx Hin) as [[->|?]|(u & Hu & Hxu)]; auto.
    + right. exists b. rewrite fn_lookup_insert. split; [auto|left].
    + right. exists u. split; [auto|]. destruct (decide (u = b)) as [->|Hne]; [rewrite fn_lookup_insert; now right|now rewrite fn_lookup_insert_ne by auto].
Qed.

Lemma board_remove_links ls cl p b i l1 l2 : links_inv E B cs ls cl p -> B b -> ls b = l1 ++ i :: l2 ->
  exists p', peer_board_remove p b i = Some p' /\ links_inv (fun x => x = i \/ E x) B cs (<[b := l1 ++ l2]> ls) cl p' /\
    tab p' = tab p /\ bds p' = bds p /\ global_base_udp_port p' = global_base_udp_port p.
Proof.
  intros Hp Hb Hl. unfold peer_board_remove, board_remove_session. pose proof (board_list_bound ls cl p b Hp Hb) as Hlen.
  destruct (hash_lookup_spec (pair b) _ board_bits_ok chain_fuel (ses_ids p) (link_board p) (ls b) (ses_ids p i)) as (r & -> & Hr);
    [apply (li_links _ _ _ _ _ _ Hp), Hb|lia|]. cbn [mbind option_bind]. destruct r as [y|]; [|now destruct (Hr i); [rewrite Hl; apply elem_of_middle; auto|]].
  destruct (tables_del _ board_bits_ok B (ses_ids p) (link_board p) ls b i l1 l2 (li_links _ _ _ _ _ _ Hp) Hb Hl) as (s' & -> & Hs). cbn [mbind option_bind].
  eexists. split; [reflexivity|]. split; [|easy]. split; cbn [tab set_link_board link_board link_context]; try apply Hp; [exact Hs| |].
  - intros u x Hu. destruct (decide (u = b)) as [->|Hne]; [rewrite fn_lookup_insert|rewrite fn_lookup_insert_ne by auto]; intros Hin;
      apply (li_linked _ _ _ _ _ _ Hp); auto. rewrite Hl. apply elem_of_middle. auto.
  - intros x Hx Hin. destruct (li_all _ _ _ _ _ _ Hp x Hx Hin) as [?|(u & Hu & Hxu)]; auto. destruct (decide (u = b)) as [->|Hne].
    + rewrite Hl in Hxu. apply elem_of_middle in Hxu as [->|Hxu]; [auto|]. right. exists b. now rewrite fn_lookup_insert.
    + right. exists u. now rewrite fn_lookup_insert_ne by auto.
Qed.

Lemma context_add_links ls cl p c i : links_inv E B cs ls cl p -> cs c -> 0 <= i < NR_MAX_SESSIONS_PER_NODE -> in_use (tab p) i -> (forall u, cs u -> i ∉ cl u) ->
  links_inv E B cs ls (<[c := i :: cl c]> cl) (context_add_session p c i).
Proof.
  intros Hp Hc Hi Hin Huc. split; cbn [tab context_add_session set_link_context link_board link_context]; try apply Hp.
  - apply tables_add; auto. apply Hp.
  - intros u x Hu. destruct (decide (u = c)) as [->|Hne]; [rewrite fn_lookup_insert; intros [->|Hx]%elem_of_cons; [auto|]|rewrite fn_lookup_insert_ne by auto; intros Hx];
      now apply (li_ctx_used _ _ _ _ _ _ Hp u x) || now apply (li_ctx_used _ _ _ _ _ _ Hp c x).
Qed.

Lemma same_endpoint_refl p x : same_endpoint p (s_tid (ses_at p x)) (s_board_ip (ses_at p x)) (s_udp_port (ses_at p x)) x = true.
Proof. unfold same_endpoint. now rewrite !Z.eqb_refl. Qed.

Lemma context_remove_links ls cl p c i l1 l2 : links_inv E B cs ls cl p -> cs c -> cl c = l1 ++ i :: l2 ->
  exists p', context_remove_session p c i = Some (0, p') /\ links_inv E B cs ls (<[c := l1 ++ l2]> cl) p' /\
    tab p' = tab p /\ bds p' = bds p /\ global_base_udp_port p' = global_base_udp_port p.
Proof.
  intros Hp Hc Hl. unfold context_remove_session. pose proof (context_list_bound ls cl p c Hp Hc) as Hlen.
  match goal with |- context [hash_for_each_possible _ ?q _ _ _ _] =>
    destruct (hash_search_spec (pair c) _ context_bits_ok chain_fuel q (ses_context_key p) (link_context p) (cl c) (ses_context_key p i)) as (r & -> & Hr) end;
    [apply (li_ctx _ _ _ _ _ _ Hp), Hc|lia|]. cbn [mbind option_bind].
  destruct r as [y|]; [|specialize (Hr i); rewrite same_endpoint_refl in Hr; discriminate Hr; [rewrite Hl; apply elem_of_middle; auto|easy]].
  destruct (tables_del _ context_bits_ok cs (ses_context_key p) (link_context p) cl c i l1 l2 (li_ctx _ _ _ _ _ _ Hp) Hc Hl) as (s' & -> & Hs). cbn [mbind option_bind].
  eexists. split; [reflexivity|]. split; [|easy]. split; cbn [tab set_link_context link_board link_context]; try apply Hp; [exact Hs|].
  intros u x Hu. destruct (decide (u = c)) as [->|Hne]; [rewrite fn_lookup_insert|rewrite fn_lookup_insert_ne by auto]; intros Hx;
    apply (li_ctx_used _ _ _ _ _ _ Hp u x) || apply (li_ctx_used _ _ _ _ _ _ Hp c x); auto. rewrite Hl. apply elem_of_middle. auto.
Qed.
End links.

(** ** Lookups *)

Lemma context_find_spec E B cs ls cl p c tid ip port : links_inv E B cs ls cl p -> cs c ->
  exists r, context_find_session p c tid ip port = Some r /\
    let wanted x := s_tid (ses_at p x) = tid /\ s_udp_port (ses_at p x) = port /\ s_board_ip (ses_at p x) = ip in
    match r with Some x => x ∈ cl c /\ wanted x | None => forall x, x ∈ cl c -> ~ wanted x end.
Proof.
  intros Hp Hc. pose proof (context_list_bound _ _ _ ls cl p c Hp Hc) as Hlen.
  destruct (hash_search_spec (pair c) _ context_bits_ok chain_fuel (same_endpoint p tid ip port) (ses_context_key p) (link_context p) (cl c) (context_key tid ip port)) as (r & E1 & Hr);
    [apply (li_ctx _ _ _ _ _ _ Hp), Hc|lia|]. exists r. split; [exact E1|]. cbv zeta. unfold same_endpoint in Hr. destruct r as [x|].
  - destruct Hr as (Hx & Hr & _). zbool. split_and!; auto.
  - intros x Hx (E2 & E3 & E4). specialize (Hr x Hx). unfold ses_context_key in Hr. rewrite E2, E3, E4, !Z.eqb_refl in Hr. now specialize (Hr eq_refl).
Qed.

Lemma board_find_spec E B cs ls cl p b x : links_inv E B cs ls cl p -> B b ->
  board_find_session (pair b) chain_fuel (ses_ids p) (link_board p) x = Some (if decide (x ∈ ls b) then Some x else None).
Proof.
  intros Hp Hb. pose proof (board_list_bound _ _ _ ls cl p b Hp Hb) as Hlen. unfold board_find_session.
  destruct (hash_lookup_spec (pair b) _ board_bits_ok chain_fuel (ses_ids p) (link_board p) (ls b) x) as (r & -> & Hr);
    [apply (li_links _ _ _ _ _ _ Hp), Hb|lia|]. f_equal.
  assert (Hid : forall y, y ∈ ls b -> ses_ids p y = y) by (intros y Hy; destruct (li_linked _ _ _ _ _ _ Hp b y Hb Hy) as (? & ? & _); now apply (ses_ids_used E B cs ls cl)).
  destruct r as [y|]; [destruct Hr as [Hy <-]; rewrite (Hid y Hy); now rewrite decide_True by auto|].
  rewrite decide_False; [easy|]. intros Hx. now apply (Hr x Hx), Hid.
Qed.

(** A new context. *)
Lemma context_init_links E B cs ls cl p c : links_inv E B cs ls cl p ->
  links_inv E B (fun u => u = c \/ cs u) ls (<[c := []]> cl) (init_context_sessions p c).
Proof.
  intros Hp. pose proof (tables_init _ context_bits_ok cs _ _ _ c (li_ctx _ _ _ _ _ _ Hp)) as Ht.
  split; cbn [tab init_context_sessions set_link_context link_board link_context]; try apply Hp; [exact Ht|].
  intros u x Hu. destruct (decide (u = c)) as [->|Hne]; [rewrite fn_lookup_insert; intros Hx; now apply not_elem_of_nil in Hx|].
  rewrite fn_lookup_insert_ne by auto. destruct Hu as [?|Hu]; [contradiction|]. now apply (li_ctx_used _ _ _ _ _ _ Hp).
Qed.

(** ** Opening *)

(** Only the management session can be in use without being in a table. *)
Definition mgmt_only (x : Z) : Prop := x = LEGOMEM_MGMT_SESSION_ID.

(** No session was opened or closed, none in use was changed. *)
Record quiet (p p' : peer) : Prop := {
  q_used j : 0 <= j < NR_MAX_SESSIONS_PER_NODE -> in_use (tab p') j <-> in_use (tab p) j;
  q_ses j : 0 <= j < NR_MAX_SESSIONS_PER_NODE -> in_use (tab p) j -> ses_at p' j = ses_at p j;
}.

(** The boards and the base port are the same. *)
Definition same_env (p p' : peer) : Prop := bds p' = bds p /\ global_base_udp_port p' = global_base_udp_port p.

(** Session [i] was opened and nothing else happened. *)
Record opened (i : Z) (p p' : peer) : Prop := {
  op_range : 0 <= i < NR_MAX_SESSIONS_PER_NODE;
  op_new : ~ in_use (tab p) i;
  op_used j : 0 <= j -> in_use (tab p') j <-> j = i \/ in_use (tab p) j;
  op_same : same_but i p p';
}.

Lemma quiet_refl p : quiet p p.
Proof. now split. Qed.

Section opening.
Context (B cs : Z -> Prop) (ls cl : Z -> list Z).

(** [i] is being opened: in use and in no table yet. *)
Record opening (i : Z) (p0 p : peer) : Prop := {
  og_links : links_inv (fun x => x = i \/ mgmt_only x) B cs ls cl p;
  og_unlinked : unlinked B cs ls cl i;
  og_opened : opened i p0 p;
}.

Lemma opening_used i p0 p : opening i p0 p -> in_use (tab p) i.
Proof. intros H. apply (op_used _ _ _ (og_opened _ _ _ H)); [apply H|auto]. Qed.

(** Closing it again before it is in a table. *)
Lemma opening_close i p0 p : opening i p0 p ->
  links_inv mgmt_only B cs ls cl (net_close_session p i) /\ same_env p0 (net_close_session p i) /\ (in_use (tab p0) LEGOMEM_MGMT_SESSION_ID -> quiet p0 (net_close_session p i)).
Proof.
  intros [Hl Hu [Hi Hn Hin Hs]]. destruct (free_links mgmt_only B cs ls cl p i Hl eq_refl Hi Hu) as (H1 & H2 & H3).
  destruct (same_but_trans _ _ _ _ Hs H2) as (Hs1 & Hs2 & Hs3). split; [auto|]. split; [now split|]. intros H0.
  assert (Hi0 : i <> LEGOMEM_MGMT_SESSION_ID) by congruence. split; auto.
  - intros j Hj. unfold net_close_session. rewrite H3, Hin by lia. split; [|intros Hju; split; [auto|congruence]]. intros [[->|?] Hc]; [|auto]. now destruct Hi0, Hc.
  - intros j Hj Hju. apply Hs1. congruence.
Qed.

Lemma net_open_links p up bi : links_inv mgmt_only B cs ls cl p ->
  match net_open_session p up bi with
  | (None, p') =>
      links_inv mgmt_only B cs ls cl p' /\ same_env p p' /\ (in_use (tab p) LEGOMEM_MGMT_SESSION_ID -> quiet p p') /\
      (up = false \/ forall x, 0 <= x < NR_MAX_SESSIONS_PER_NODE -> in_use (tab p) x)
  | (Some i, p') => up = true /\ opening i p p'
  end.
Proof.
  intros Hp. unfold net_open_session. pose proof (alloc_links mgmt_only B cs ls cl p Hp) as H.
  destruct (peer_alloc_session p) as [[i|] p1]; [|destruct H as [-> H]; split_and!; auto using quiet_refl; now split].
  destruct H as (Hi & Hn & Hl & Hu & Hs & Hin). assert (Ho : opening i p p1) by (split; auto; now split). destruct up; cbn [negb].
  - split; [easy|]. split; [now apply links_set_route|auto|now split].
  - destruct (opening_close i p p1 Ho) as (? & ? & ?). auto.
Qed.

Lemma net_open_remote p up bi i p' : net_open_session p up bi = (Some i, p') -> remote_session_id (s_ids (ses_at p' i)) = LEGOMEM_MGMT_SESSION_ID.
Proof.
  unfold net_open_session, peer_alloc_session, host_alloc_session, alloc_session_from. destruct (NR_MAX_SESSIONS_PER_NODE <=? _); [discriminate|].
  destruct up; cbn [negb]; [|discriminate]. intros [= <- <-]. unfold ses_at. cbn. now rewrite fn_lookup_insert.
Qed.

Lemma ses_at_update p i s : ses_at (update_ses p i s) i = s.
Proof. apply fn_lookup_insert. Qed.

Lemma same_but_update i p s : same_but i p (update_ses p i s).
Proof. split_and!; [|easy|easy]. intros j Hj. now apply fn_lookup_insert_ne, not_eq_sym. Qed.

Lemma opening_update i p0 p s : opening i p0 p -> s_flags s = s_flags (ses_at p i) -> session_id (s_ids s) = session_id (s_ids (ses_at p i)) ->
  opening i p0 (update_ses p i s).
Proof.
  intros Ho Hf Hid. pose proof (opening_used i p0 p Ho) as Hiu. destruct Ho as [Hl Hu [Hi Hn Hin Hs]]. split; [|auto|].
  - apply update_links; auto; [rewrite Hf; now apply (so_flags _ (li_sess _ _ _ _ _ _ Hl) i Hi)|rewrite Hid; now apply (so_id _ (li_sess _ _ _ _ _ _ Hl))].
  - split; auto. eapply same_but_trans; [exact Hs|apply same_but_update].
Qed.

Lemma opening_route i p0 p r : opening i p0 p -> opening i p0 (set_route p i r).
Proof. intros [Hl Hu [Hi Hn Hin Hs]]. split; [now apply links_set_route|auto|now split]. Qed.

(** The tables after the session was put in them. *)
Definition with_session (ctx : option Z) (i : Z) : Z -> list Z :=
  match ctx with Some c => <[c := i :: cl c]> cl | None => cl end.

Lemma bookkeeping_links i p0 p bi ctx : opening i p0 p -> B bi -> linked_to p bi i -> (forall c, ctx = Some c -> cs c) ->
  let p' := match ctx with Some c => context_add_session (peer_board_add p bi i) c i | None => peer_board_add p bi i end in
  links_inv mgmt_only B cs (<[bi := i :: ls bi]> ls) (with_session ctx i) p' /\ opened i p0 p' /\ tab p' = tab p.
Proof.
  intros Ho Hb Hlk Hc. pose proof (opening_used i p0 p Ho) as Hiu. destruct Ho as [Hl [Hub Huc] [Hi Hn Hin Hs]].
  pose proof (board_add_links mgmt_only B cs ls cl p bi i Hl Hb Hlk Hub) as H1. destruct ctx as [c|]; cbn.
  - split; [|split; [now split|easy]]. apply context_add_links; auto.
  - split; [auto|]. split; [now split|easy].
Qed.

(** The session id of the other side: 0 for a management session, else its answer. *)
Definition agreed (cfg : transport) (ask : answer) (mgmt : bool) (i : Z) : option Z :=
  if mgmt then Some LEGOMEM_MGMT_SESSION_ID
  else match cfg with
       | TRANSPORT_RPC => Some i
       | TRANSPORT_GBN => match ask i with Some d => if d =? 0 then None else Some d | None => None end
       end.

(** Why an opening fails. *)
Definition refused (cfg : transport) (ask : answer) (mgmt up : bool) (p : peer) : Prop :=
  up = false \/ (forall x, 0 <= x < NR_MAX_SESSIONS_PER_NODE -> in_use (tab p) x) \/
  exists i, 0 <= i < NR_MAX_SESSIONS_PER_NODE /\ ~ in_use (tab p) i /\ agreed cfg ask mgmt i = None.

Lemma session_board_opening i p0 p bi tid : opening i p0 p -> bds p = bds p0 ->
  let p' := set_session_board p i bi tid in opening i p0 p' /\ linked_to p' bi i /\ s_tid (ses_at p' i) = tid /\ ses_ids p' i = i.
Proof.
  intros Ho Hb. cbv zeta. assert (Ho' : opening i p0 (set_session_board p i bi tid)) by now apply opening_update.
  pose proof (opening_used _ _ _ Ho') as Hu. pose proof (op_range _ _ _ (og_opened _ _ _ Ho')) as Hi. split; [auto|].
  unfold linked_to, ses_ids. unfold set_session_board in *. rewrite ses_at_update in *. split_and!; auto; try lia.
  apply (so_id _ (li_sess _ _ _ _ _ _ (og_links _ _ _ Ho)) i Hi). now apply (opening_used i p0).
Qed.

Lemma linked_to_tab p p' b x : tab p' = tab p -> bds p' = bds p -> linked_to p b x -> linked_to p' b x.
Proof. unfold linked_to, ses_at, bi_at. now intros -> ->. Qed.

Lemma open_session_links cfg p up ask ctx bi tid lm rm :
  links_inv mgmt_only B cs ls cl p -> B bi -> (forall c, ctx = Some c -> cs c) -> lm && rm = false ->
  (cfg = TRANSPORT_RPC \/ lm || rm = true \/ bi_mgmt_session (bi_at p bi) <> None) ->
  let outcome r p' :=
    match r with
    | Some i =>
        up = true /\ opened i p p' /\ links_inv mgmt_only B cs (<[bi := i :: ls bi]> ls) (with_session ctx i) p' /\
        s_tid (ses_at p' i) = tid /\ agreed cfg ask (lm || rm) i = Some (remote_session_id (s_ids (ses_at p' i)))
    | None =>
        links_inv mgmt_only B cs ls cl p' /\ same_env p p' /\ (in_use (tab p) LEGOMEM_MGMT_SESSION_ID -> quiet p p') /\ refused cfg ask (lm || rm) up p
    end in
  exists r p', ____legomem_open_session cfg p up ask ctx (Some bi) tid lm rm = Some (r, p') /\ outcome r p'.
Proof.
  intros Hp Hb Hc Hm Hcfg outcome. unfold ____legomem_open_session. rewrite Hm. pose proof (net_open_links p up bi Hp) as H.
  pose proof (net_open_remote p up bi) as Hrem.
  destruct (net_open_session p up bi) as [[i|] p1]; [|destruct H as (H1 & H2 & H3 & H4); eexists _, _; split; [reflexivity|]; split; [auto|]; split; [auto|]; split; [auto|]; unfold refused; tauto].
  destruct H as [-> Ho]. destruct (op_same _ _ _ (og_opened _ _ _ Ho)) as (_ & Hbds & _). destruct (session_board_opening i p p1 bi tid Ho Hbds) as (H2 & Hlk & Htid & Hid).
  set (p2 := set_session_board p1 i bi tid) in *.
  assert (Hdone : forall q d, opening i p q -> linked_to q bi i -> s_tid (ses_at q i) = tid -> remote_session_id (s_ids (ses_at q i)) = d ->
    agreed cfg ask (lm || rm) i = Some d ->
    exists r p', Some (Some i, match ctx with Some c => context_add_session (peer_board_add q bi i) c i | None => peer_board_add q bi i end) = Some (r, p') /\ outcome r p').
  { intros q d Ho' Hlk' Ht Hd Ha. destruct (bookkeeping_links i p q bi ctx Ho' Hb Hlk' Hc) as (K1 & K2 & K3). eexists _, _. split; [reflexivity|]. subst d.
    cbn. unfold ses_at in *. rewrite K3. auto. }
  assert (Hconn : forall d, agreed cfg ask (lm || rm) i = Some d ->
    let q := update_ses p2 i (set_remote_session_id (ses_at p2 i) d) in let q := patch_udp_ports q i (bi_port (bi_at q bi)) in
    exists r p', Some (Some i, match ctx with Some c => context_add_session (peer_board_add q bi i) c i | None => peer_board_add q bi i end) = Some (r, p') /\ outcome r p').
  { intros d Ha. cbn zeta. eapply Hdone; [apply opening_route, opening_update; [exact H2|reflexivity|reflexivity]| | | |exact Ha].
    - apply (linked_to_tab (update_ses p2 i (set_remote_session_id (ses_at p2 i) d))); [reflexivity|reflexivity|]. unfold linked_to in *. now rewrite ses_at_update.
    - unfold patch_udp_ports. cbn. unfold ses_at. cbn. now rewrite fn_lookup_insert.
    - unfold patch_udp_ports. cbn. unfold ses_at. cbn. now rewrite fn_lookup_insert. }
  assert (Hfail : agreed cfg ask (lm || rm) i = None -> exists r p', Some (None, net_close_session p2 i) = Some (r, p') /\ outcome r p').
  { intros Ha. eexists _, _. split; [reflexivity|]. destruct (opening_close i p p2 H2) as (K1 & K2 & K3). split_and!; auto; try apply K2. right. right. exists i. destruct (og_opened _ _ _ Ho). auto. }
  destruct lm, rm; try discriminate Hm; cbn [orb] in *.
  - apply (Hdone p2 LEGOMEM_MGMT_SESSION_ID); auto. unfold p2, set_session_board. rewrite ses_at_update. now apply Hrem.
  - now apply Hconn.
  - unfold agreed in *. destruct cfg; [|rewrite Hid in *; now apply Hconn].
    destruct Hcfg as [?|[?|Hmg]]; [discriminate|discriminate|]. replace (bi_at p2 bi) with (bi_at p bi) by (unfold bi_at; cbn; now rewrite Hbds).
    destruct (bi_mgmt_session (bi_at p bi)); [|contradiction]. rewrite Hid. destruct (ask i) as [d|]; [|now apply Hfail].
    destruct (d =? 0); [now apply Hfail|now apply Hconn].
Qed.
End opening.

(** ** Closing *)

Definition without (x : Z) (l : list Z) : list Z := filter (fun y => y <> x) l.

Lemma without_spec x y l : y ∈ without x l <-> y ∈ l /\ y <> x.
Proof. unfold without. rewrite list_elem_of_filter. tauto. Qed.

Lemma without_middle x l1 l2 : NoDup (l1 ++ x :: l2) -> without x (l1 ++ x :: l2) = l1 ++ l2.
Proof.
  intros Hd. pose proof (NoDup_not_in _ _ _ Hd) as Hn. rewrite not_elem_of_app in Hn. unfold without.
  rewrite filter_app, filter_cons_False by auto. assert (Hall : forall l : list Z, x ∉ l -> filter (fun y => y <> x) l = l).
  { clear. induction l as [|y l IH]; [easy|]. rewrite not_elem_of_cons. intros [H1 H2]. rewrite filter_cons_True by auto. now rewrite IH. }
  now rewrite !Hall by apply Hn.
Qed.

(** Session [i] was closed and nothing else happened; the management session stays. *)
Record closed (i : Z) (p p' : peer) : Prop := {
  cl_used j : 0 <= j < NR_MAX_SESSIONS_PER_NODE -> in_use (tab p') j <-> in_use (tab p) j /\ (j = i -> i = LEGOMEM_MGMT_SESSION_ID);
  cl_same : same_but i p p';
}.

Section closing.
Context (B cs : Z -> Prop) (ls cl : Z -> list Z).

(** The context that a session is closed with is the one whose table it is in. *)
Definition owner (ctx : option Z) (ses : Z) : Prop :=
  match ctx with Some c => cs c /\ ses ∈ cl c | None => forall c, cs c -> ses ∉ cl c end.
Definition without_session (ctx : option Z) (ses : Z) : Z -> list Z :=
  match ctx with Some c => <[c := without ses (cl c)]> cl | None => cl end.

Lemma generic_close_links p ctx bi ses : links_inv mgmt_only B cs ls cl p -> B bi -> ses ∈ ls bi -> owner ctx ses ->
  exists p', generic_handle_close_session p ctx bi ses = Some (0, p') /\ closed ses p p' /\
    links_inv mgmt_only B cs (<[bi := without ses (ls bi)]> ls) (without_session ctx ses) p'.
Proof.
  intros Hp Hb Hin Ho. pose proof (proj1 (tables_rep _ _ _ _ _ _ (li_links _ _ _ _ _ _ Hp) Hb)) as Hd.
  pose proof (li_linked _ _ _ _ _ _ Hp bi ses Hb Hin) as (Hr & Hu & _).
  assert (Hub : forall u, B u -> ses ∉ (<[bi := without ses (ls bi)]> ls) u).
  { intros u Hu'. destruct (decide (u = bi)) as [->|Hne]; [rewrite fn_lookup_insert, without_spec; tauto|]. rewrite fn_lookup_insert_ne by auto.
    intros Hx. apply Hne. now apply (proj2 (li_links _ _ _ _ _ _ Hp) u bi ses). }
  assert (Huc : forall u, cs u -> ses ∉ without_session ctx ses u).
  { intros u Hu'. destruct ctx as [c|]; cbn; [|now apply Ho]. destruct Ho as [Hc Hinc]. destruct (decide (u = c)) as [->|Hne]; [rewrite fn_lookup_insert, without_spec; tauto|].
    rewrite fn_lookup_insert_ne by auto. intros Hx. apply Hne. now apply (proj2 (li_ctx _ _ _ _ _ _ Hp) u c ses). }
  unfold generic_handle_close_session. pose proof Hin as Hin'. apply list_elem_of_split in Hin as (l1 & l2 & El).
  destruct (board_remove_links _ _ _ ls cl p bi ses l1 l2 Hp Hb El) as (p1 & -> & H1 & T1 & B1 & P1). cbn [mbind option_bind].
  replace (l1 ++ l2) with (without ses (ls bi)) in H1 by (rewrite El in *; now apply without_middle).
  assert (exists p2, match ctx with Some c => '(_, p) ← context_remove_session p1 c ses; Some p | None => Some p1 end = Some p2 /\
    links_inv (fun x => x = ses \/ mgmt_only x) B cs (<[bi := without ses (ls bi)]> ls) (without_session ctx ses) p2 /\
    tab p2 = tab p /\ bds p2 = bds p /\ global_base_udp_port p2 = global_base_udp_port p) as (p2 & -> & H2 & T2 & B2 & P2).
  { destruct ctx as [c|]; [|eexists; split; [reflexivity|auto]]. destruct Ho as [Hc Hinc]. pose proof (proj1 (tables_rep _ _ _ _ _ _ (li_ctx _ _ _ _ _ _ Hp) Hc)) as Hdc.
    apply list_elem_of_split in Hinc as (k1 & k2 & Ek). destruct (context_remove_links _ _ _ _ cl p1 c ses k1 k2 H1 Hc Ek) as (p2 & -> & H2 & T2 & B2 & P2).
    cbn [mbind option_bind]. eexists. split; [reflexivity|]. rewrite T2, B2, P2. split; [|auto]. cbn. rewrite Ek in *. now rewrite without_middle. }
  cbn [mbind option_bind]. eexists. split; [reflexivity|]. destruct (free_links _ _ _ _ _ p2 ses H2 eq_refl Hr (conj Hub Huc)) as (H3 & H4 & H5). split; [|exact H3].
  split; [intros j Hj; unfold net_close_session; rewrite H5, T2 by lia; easy|]. eapply same_but_trans; [|exact H4]. unfold ses_at. split_and!; [|auto|auto]. intros j _. unfold ses_at. now rewrite T2.
Qed.

(** Closing on the sending side: either the other side agrees, or nothing changes. *)
Lemma close_session_links cfg p ask ctx ses bi : links_inv mgmt_only B cs ls cl p -> B bi -> ses ∈ ls bi -> owner ctx ses ->
  (cfg = TRANSPORT_RPC \/ test_management_session (s_ids (ses_at p ses)) = true \/ bi_mgmt_session (bi_at p bi) <> None) ->
  exists ret p', legomem_close_session cfg p ask ctx ses = Some (ret, p') /\
    ((ret <> 0 /\ p' = p) \/
     (ret = 0 /\ closed ses p p' /\ links_inv mgmt_only B cs (<[bi := without ses (ls bi)]> ls) (without_session ctx ses) p')).
Proof.
  intros Hp Hb Hin Ho Hcfg. destruct (generic_close_links p ctx bi ses Hp Hb Hin Ho) as (p' & Eg & H1 & H2).
  pose proof (li_linked _ _ _ _ _ _ Hp bi ses Hb Hin) as (_ & _ & Hbi & _). unfold legomem_close_session. rewrite Hbi. cbn [mbind option_bind].
  assert (Hgood : exists ret q, generic_handle_close_session p ctx bi ses = Some (ret, q) /\
    ((ret <> 0 /\ q = p) \/ (ret = 0 /\ closed ses p q /\ links_inv mgmt_only B cs (<[bi := without ses (ls bi)]> ls) (without_session ctx ses) q))) by eauto 10.
  destruct cfg; [|exact Hgood]. destruct (test_management_session _); [exact Hgood|]. destruct Hcfg as [?|[?|Hmg]]; [discriminate|discriminate|].
  destruct (bi_mgmt_session _); [|contradiction]. destruct (ask _) as [r|]; [|eexists _, _; split; [reflexivity|]; left; split; [discriminate|easy]].
  destruct (negb (r =? 0)); [|exact Hgood]. eexists _, _. split; [reflexivity|]. left. split; [discriminate|easy].
Qed.
End closing.

(** ** The receiving side *)

Lemma accept_session_links B cs ls cl p up th bi dst : links_inv mgmt_only B cs ls cl p -> B bi ->
  exists r p', generic_handle_open_session p up th bi dst = Some (r, p') /\
    match r with
    | Some i =>
        opened i p p' /\ links_inv mgmt_only B cs (<[bi := i :: ls bi]> ls) cl p' /\ ses_ids p' i = i /\
        remote_session_id (s_ids (ses_at p' i)) = dst
    | None =>
        links_inv mgmt_only B cs ls cl p' /\ same_env p p' /\ (in_use (tab p) LEGOMEM_MGMT_SESSION_ID -> quiet p p') /\
        (up = false \/ th = false \/ forall x, 0 <= x < NR_MAX_SESSIONS_PER_NODE -> in_use (tab p) x)
    end.
Proof.
  intros Hp Hb. unfold generic_handle_open_session. pose proof (net_open_links B cs ls cl p up bi Hp) as H.
  destruct (net_open_session p up bi) as [[i|] p1]; [|destruct H as (H1 & H2 & H3 & H4); eexists _, _; split; [reflexivity|]; split; [auto|]; split; [auto|]; split; [auto|]; tauto].
  destruct H as [-> Ho]. destruct (op_same _ _ _ (og_opened _ _ _ _ _ _ _ Ho)) as (_ & Hbds & _).
  destruct (session_board_opening _ _ _ _ i p p1 bi 0 Ho Hbds) as (H2 & Hlk & Htid & Hid). set (p2 := set_session_board p1 i bi 0) in *.
  set (p3 := update_ses p2 i _). assert (H3 : opening B cs ls cl i p p3) by now apply opening_update.
  assert (Hlk3 : linked_to p3 bi i) by (unfold p3, linked_to in *; now rewrite ses_at_update).
  destruct (bookkeeping_links _ _ _ _ i p p3 bi None H3 Hb Hlk3) as (K1 & K2 & K3); [easy|]. cbn in K1, K2, K3. set (p4 := peer_board_add p3 bi i) in *.
  assert (Hat : ses_at p4 i = set_remote_session_id (ses_at p2 i) dst) by apply ses_at_update.
  pose proof (op_range _ _ _ K2) as Hi. assert (Hiu : in_use (tab p4) i) by (apply (op_used _ _ _ K2); [lia|auto]). destruct th; cbn [negb].
  - eexists _, _. split; [reflexivity|]. split; [|split; [|split]].
    + destruct K2 as [L1 L2 L3 L4]. split; auto. eapply same_but_trans; [exact L4|apply same_but_update].
    + apply update_links; auto; [|now apply (ses_ids_used _ _ _ _ _ _ _ K1)]. unfold allocated_flag. cbn [s_flags set_flags].
      pose proof (proj1 (so_flags _ (li_sess _ _ _ _ _ _ K1) i Hi) Hiu) as Hf. fold (ses_at p4 i) in Hf. unfold allocated_flag in Hf. rewrite Z.land_lor_distr_l. intros [E _]%Z.lor_eq_0_iff. now apply Hf.
    + unfold ses_ids. rewrite ses_at_update. cbn. now apply (ses_ids_used _ _ _ _ _ _ _ K1).
    + rewrite ses_at_update, Hat. reflexivity.
  - destruct (board_remove_links _ _ _ _ _ p4 bi i [] (ls bi) K1 Hb) as (p5 & -> & L1 & T5 & B5 & P5); [now rewrite fn_lookup_insert|]. cbn [mbind option_bind].
    eexists _, _. split; [reflexivity|]. assert (H5 : opening B cs ls cl i p p5).
    { destruct H3 as [_ Hu _]. destruct K2 as [M1 M2 M3 (M4 & M5 & M6)]. split; [|exact Hu|].
      - eapply links_ext; [exact L1|easy| |easy|easy|easy|easy]. intros b _. cbn [app]. destruct (decide (b = bi)) as [->|Hne]; [now rewrite fn_lookup_insert|now rewrite !fn_lookup_insert_ne by auto].
      - split; auto; [now rewrite T5|]. split_and!; [|congruence|congruence]. intros j Hj. unfold ses_at. rewrite T5. now apply M4. }
    destruct (opening_close _ _ _ _ i p p5 H5) as (? & ? & ?). split; [auto|]. split; [auto|]. auto.
Qed.

(** ** Boards *)

Definition bi_key (b : boards) (i : Z) : Z := board_key (bi_ip (board_info_map b i)) (bi_port (board_info_map b i)).

(** The boards [bs] are the ids in use and the entries of the hash table, without
    gaps up to [nr_max_board_id]: nothing of a running node removes a board. *)
Record boards_inv (bs : list Z) (b : boards) : Prop := {
  bo_map : bitmap_fits (board_id_map b) NR_MAX_BOARDS;
  bo_used i : 0 <= i < NR_MAX_BOARDS -> bm_bit (board_id_map b) i = true <-> i ∈ bs;
  bo_range i : i ∈ bs -> 0 <= i < NR_MAX_BOARDS;
  bo_rep : hash_rep (fun j => j) BOARD_HASH_ARRAY_BITS (bi_key b) (board_list b) bs;
  bo_id i : i ∈ bs -> board_id (board_info_map b i) = i;
  bo_max i : bs <> [] -> i ∈ bs <-> 0 <= i <= nr_max_board_id b;
}.

Lemma boards_bound bs b : boards_inv bs b -> (S (length bs) < chain_fuel)%nat.
Proof. intros H. apply sessions_bound; [apply (bo_rep _ _ H)|]. intros x Hx. pose proof (bo_range _ _ H x Hx). change NR_MAX_SESSIONS_PER_NODE with 1024. change NR_MAX_BOARDS with 128 in *. lia. Qed.

Lemma alloc_board_spec bs b : boards_inv bs b ->
  match alloc_board_info b with
  | (None, b') => b' = b /\ forall i, 0 <= i < NR_MAX_BOARDS -> i ∈ bs
  | (Some i, b') =>
      0 <= i < NR_MAX_BOARDS /\ (i ∉ bs) /\ (forall j, 0 <= j < i -> j ∈ bs) /\ bitmap_fits (board_id_map b') NR_MAX_BOARDS /\
      (forall j, 0 <= j < NR_MAX_BOARDS -> bm_bit (board_id_map b') j = true <-> j ∈ i :: bs) /\ nr_max_board_id b' = i /\
      board_list b' = INIT_HLIST_NODE (board_list b) i /\ (forall j, j <> i -> board_info_map b' j = board_info_map b j) /\
      board_info_map b' i = BoardInfo i 0 0 0 BOARD_INFO_FLAGS_ALLOCATED None 0 0 /\
      nr_online_hosts b' = nr_online_hosts b /\ nr_online_boards b' = nr_online_boards b
  end.
Proof.
  intros Hb. unfold alloc_board_info. pose proof (bo_map _ _ Hb) as Hf.
  destruct (lowest_zero_bit (board_id_map b) NR_MAX_BOARDS 0 Hf ltac:(now split; vm_compute)) as [(H1 & Hz & Hlow)|(H1 & Hall)].
  2: { rewrite H1. change (NR_MAX_BOARDS <=? NR_MAX_BOARDS) with true. split; [easy|]. intros i Hi. apply (bo_used _ _ Hb i Hi). now apply Hall. }
  set (i := find_next_zero_bit _ _ _) in *. rewrite (proj2 (Z.leb_gt _ _)) by lia. cbn [board_id_map set_bi set_board_list set_board_ids board_info_map nr_max_board_id board_list].
  assert (Hi : i ∉ bs) by (rewrite <- (bo_used _ _ Hb i) by lia; congruence).
  assert (Hlen : NR_MAX_BOARDS <= 64 * Z.of_nat (length (board_id_map b))) by (destruct Hf as (_ & ? & _); lia).
  split; [lia|]. split; [auto|]. split; [intros j Hj; apply (bo_used _ _ Hb); [lia|now apply Hlow]|]. split; [now apply set_bit_fits|]. split.
  - intros j Hj. rewrite __set_bit_bit, elem_of_cons by lia. rewrite <- (bo_used _ _ Hb j Hj). destruct (Z.eqb_spec j i); cbn; intuition.
  - split_and!; auto; [|apply fn_lookup_insert]. intros j Hj. now apply fn_lookup_insert_ne, not_eq_sym.
Qed.

(** A lookup by address and port. *)
Lemma find_board_spec bs b ip port : boards_inv bs b ->
  exists r, find_board b ip port = Some r /\
    let real i := i ∈ bs /\ special_board_info_type (bi_flags (board_info_map b i)) = false in
    let wanted i := real i /\
      (if ip =? ANY_BOARD then Z.land (bi_flags (board_info_map b i)) BOARD_INFO_FLAGS_BOARD <> 0
       else if ip =? ANY_NODE then True
       else bi_ip (board_info_map b i) = ip /\ bi_port (board_info_map b i) = port) in
    match r with Some i => wanted i | None => forall i, ~ wanted i end.
Proof.
  intros Hb. pose proof (boards_bound _ _ Hb) as Hlen. unfold find_board. destruct (Z.eqb_spec ip ANY_BOARD) as [->|Hn].
  - change (ANY_BOARD =? ANY_NODE) with false. cbn [orb].
    match goal with |- context [hash_for_each_first _ ?q _ _ _ _] =>
      destruct (hash_for_each_first_spec (fun j : Z => j) _ board_hash_bits_ok chain_fuel q _ _ bs (bo_rep _ _ Hb)) as (r & -> & Hr) end; [lia|].
    exists r. split; [easy|]. destruct r as [i|].
    + destruct Hr as [Hi Hr]. zbool. split; [auto|]. destruct (Z.eqb_spec (Z.land (bi_flags (board_info_map b i)) BOARD_INFO_FLAGS_BOARD) 0); easy.
    + intros i [[Hi Hs] Hl]. specialize (Hr i Hi). rewrite Hs in Hr. now rewrite (proj2 (Z.eqb_neq _ _) Hl) in Hr.
  - destruct (Z.eqb_spec ip ANY_NODE) as [->|Hn']; cbn [orb].
    + match goal with |- context [hash_for_each_first _ ?q _ _ _ _] =>
        destruct (hash_for_each_first_spec (fun j : Z => j) _ board_hash_bits_ok chain_fuel q _ _ bs (bo_rep _ _ Hb)) as (r & -> & Hr) end; [lia|].
      exists r. split; [easy|]. destruct r as [i|].
      * destruct Hr as [Hi Hr]. cbn [andb negb] in Hr. rewrite andb_true_r in Hr. zbool. auto.
      * intros i [[Hi Hs] _]. specialize (Hr i Hi). now rewrite Hs in Hr.
    + match goal with |- context [hash_for_each_possible _ ?q _ _ _ _] =>
        destruct (hash_search_spec (fun j : Z => j) _ board_hash_bits_ok chain_fuel q _ _ bs (board_key ip port) (bo_rep _ _ Hb)) as (r & -> & Hr) end; [lia|].
      exists r. split; [easy|]. destruct r as [i|].
      * destruct Hr as (Hi & Hr & _). zbool. auto.
      * intros i [[Hi Hs] [E1 E2]]. specialize (Hr i Hi). unfold bi_key in Hr. rewrite E1, E2, Hs, !Z.eqb_refl in Hr. now specialize (Hr eq_refl).
Qed.

(** ** Nodes *)

Record peer_inv (bs : list Z) (cs : Z -> Prop) (ls cl : Z -> list Z) (p : peer) : Prop := {
  pe_boards : boards_inv bs (bds p);
  pe_links : links_inv mgmt_only (fun b => b ∈ bs) cs ls cl p;
}.

(** [bi] is a new board at [ip] and [port]; the others are the same. *)
Record joined (bi ip port local_port mem : Z) (ses : option Z) (p p' : peer) : Prop := {
  jo_new : bi_at p' bi = BoardInfo bi ip port local_port BOARD_INFO_FLAGS_ALLOCATED ses mem mem;
  jo_others j : j <> bi -> bi_at p' j = bi_at p j;
  jo_hosts : nr_online_hosts (bds p') = nr_online_hosts (bds p);
  jo_boards : nr_online_boards (bds p') = nr_online_boards (bds p);
  jo_max : nr_max_board_id (bds p') = bi;
  jo_port : global_base_udp_port p' = global_base_udp_port p;
}.

(** The node after [alloc_board_info] and [init_board_info]. *)
Lemma new_board_links bs cs ls cl p i b' x : peer_inv bs cs ls cl p -> i ∉ bs -> (forall j, j <> i -> board_info_map b' j = board_info_map (bds p) j) ->
  links_inv mgmt_only (fun b => b ∈ i :: bs) cs (<[i := []]> ls) cl (update_bi (init_board_info (set_bds p b') i) i x).
Proof.
  intros [_ Hl] Hi Hs. pose proof (li_links _ _ _ _ _ _ Hl) as Ht. apply (tables_init _ board_bits_ok _ _ _ _ i) in Ht.
  split; cbn [tab update_bi init_board_info set_bds set_link_board link_board link_context]; try apply Hl.
  - eapply tables_sub; [|exact Ht]. intros t. now rewrite elem_of_cons.
  - intros b y [->|Hb]%elem_of_cons; [rewrite fn_lookup_insert; intros Hy; now apply not_elem_of_nil in Hy|]. assert (Hne : b <> i) by congruence.
    rewrite fn_lookup_insert_ne by auto. intros Hy. destruct (li_linked _ _ _ _ _ _ Hl b y Hb Hy) as (H1 & H2 & H3 & H4 & H5).
    unfold linked_to, ses_at, bi_at in *. cbn. rewrite fn_lookup_insert_ne, Hs by auto. auto.
  - intros y Hy Hu. destruct (li_all _ _ _ _ _ _ Hl y Hy Hu) as [?|(b & Hb & Hin)]; [auto|]. right. exists b. split; [now right|].
    rewrite fn_lookup_insert_ne by congruence. auto.
Qed.

(** The boards after the new one is in the hash table. *)
Lemma new_board_inv bs b b' i x : boards_inv bs b -> 0 <= i < NR_MAX_BOARDS -> i ∉ bs -> (forall j, 0 <= j < i -> j ∈ bs) -> bitmap_fits (board_id_map b') NR_MAX_BOARDS ->
  (forall j, 0 <= j < NR_MAX_BOARDS -> bm_bit (board_id_map b') j = true <-> j ∈ i :: bs) -> nr_max_board_id b' = i ->
  board_list b' = INIT_HLIST_NODE (board_list b) i -> (forall j, j <> i -> board_info_map b' j = board_info_map b j) ->
  board_info_map b' i = x -> board_id x = i ->
  boards_inv (i :: bs) (set_board_list b' (hash_add (board_list b') (fun j => j) BOARD_HASH_ARRAY_BITS i (board_key (bi_ip x) (bi_port x)))).
Proof.
  intros Hb Hi Hn Hlow Hf Hu Hm Hl Hs Hx Hid.
  assert (Hlt : forall j, j ∈ bs -> j < i \/ i < j).
  { intros j Hj. assert (j <> i) by congruence. lia. }
  split; cbn [board_id_map set_board_list board_info_map nr_max_board_id]; auto.
  - intros j [->|Hj]%elem_of_cons; [auto|now apply (bo_range _ _ Hb)].
  - cbn [board_list]. assert (Hrep : hash_rep (fun j => j) BOARD_HASH_ARRAY_BITS (bi_key b') (board_list b') bs).
    { rewrite Hl. apply (hash_rep_key _ _ (bi_key b)); [intros n Hin; unfold bi_key; rewrite Hs; [easy|congruence]|].
      destruct (bo_rep _ _ Hb) as [Hd Hr]. split; [auto|]. intros j Hj. destruct (Hr j Hj) as (l & Hll & Hlm). exists l. split; [|auto].
      apply hlist_set_other; [|auto]. rewrite Hlm. tauto. }
    replace (board_key (bi_ip x) (bi_port x)) with (bi_key b' i) by (unfold bi_key; now rewrite Hx).
    apply (hash_add_rep (fun j : Z => j)); auto.
  - intros j [->|Hj]%elem_of_cons; [now rewrite Hx|]. rewrite Hs by congruence. now apply (bo_id _ _ Hb).
  - intros j _. rewrite Hm, elem_of_cons. split; [|intros Hj; destruct (Z.eq_dec j i); [auto|right; apply Hlow; lia]].
    intros [->|Hj]; [lia|]. pose proof (bo_range _ _ Hb j Hj). destruct (Hlt j Hj); [lia|].
    assert (Hne : bs <> []) by (intros ->; now apply not_elem_of_nil in Hj). pose proof (proj1 (bo_max _ _ Hb j Hne) Hj) as K. destruct Hn. apply (bo_max _ _ Hb i Hne). lia.
Qed.

Lemma add_board_spec cfg bs cs ls cl p up mem ip port local_port is_local : peer_inv bs cs ls cl p ->
  exists r p', add_board cfg p up mem ip port local_port is_local = Some (r, p') /\
    match r with
    | None => p' = p /\ forall i, 0 <= i < NR_MAX_BOARDS -> i ∈ bs
    | Some bi =>
        0 <= bi < NR_MAX_BOARDS /\ (bi ∉ bs) /\ (forall j, 0 <= j < bi -> j ∈ bs) /\
        exists ses, joined bi ip port local_port mem ses p p' /\
          peer_inv (bi :: bs) cs (<[bi := option_list ses]> ls) cl p' /\
          match ses with
          | Some s => up = true /\ 0 <= s < NR_MAX_SESSIONS_PER_NODE /\ ~ in_use (tab p) s /\ (forall j, 0 <= j -> in_use (tab p') j <-> j = s \/ in_use (tab p) j) /\ (forall j, j <> s -> ses_at p' j = ses_at p j)
          | None =>
              in_use (tab p) LEGOMEM_MGMT_SESSION_ID ->
              forall j, 0 <= j < NR_MAX_SESSIONS_PER_NODE -> (in_use (tab p') j <-> in_use (tab p) j) /\ (in_use (tab p) j -> ses_at p' j = ses_at p j)
          end
    end.
Proof.
  intros Hp. unfold add_board. pose proof (alloc_board_spec bs (bds p) (pe_boards _ _ _ _ _ Hp)) as H.
  destruct (alloc_board_info (bds p)) as [[i|] b']; [|destruct H as [_ H]; eexists _, _; split; [reflexivity|exact (conj eq_refl H)]].
  destruct H as (Hi & Hn & Hlow & Hf & Hu & Hm & Hl & Hs & Hx & Hh & Ho). set (x := set_bi_addr _ ip port local_port mem). set (p1 := update_bi _ i x).
  assert (Ex : x = BoardInfo i ip port local_port BOARD_INFO_FLAGS_ALLOCATED None mem mem) by (unfold x, bi_at; cbn; now rewrite Hx).
  pose proof (new_board_links bs cs ls cl p i b' x Hp Hn Hs) as H1. fold p1 in H1.
  assert (Hopen : exists ses p2, (if is_local then legomem_open_session_local_mgmt else legomem_open_session_remote_mgmt) cfg p1 up i = Some (ses, p2) /\
    links_inv mgmt_only (fun b => b ∈ i :: bs) cs (<[i := option_list ses]> ls) cl p2 /\ bds p2 = bds p1 /\ global_base_udp_port p2 = global_base_udp_port p /\
    match ses with Some s => up = true /\ opened s p1 p2 | None => in_use (tab p) LEGOMEM_MGMT_SESSION_ID -> quiet p1 p2 end).
  { assert (E : (if is_local then legomem_open_session_local_mgmt else legomem_open_session_remote_mgmt) cfg p1 up i =
      ____legomem_open_session cfg p1 up (fun _ => None) None (Some i) 0 is_local (negb is_local)) by now destruct is_local.
    rewrite E. assert (Em : is_local && negb is_local = false /\ is_local || negb is_local = true) by now destruct is_local.
    destruct (open_session_links _ cs _ cl cfg p1 up (fun _ => None) None i 0 is_local (negb is_local) H1) as (r & p2 & -> & Hr); [left|easy|apply Em|right; left; apply Em|].
    exists r, p2. split; [easy|]. destruct r as [s|].
    - destruct Hr as (Hup & Ho' & Hl' & _). destruct (op_same _ _ _ Ho') as (_ & B2 & P2). split_and!; auto.
      cbn [with_session] in Hl'. eapply links_ext; [exact Hl'|easy| |easy|easy|easy|easy]. intros b _. cbn. destruct (decide (b = i)) as [->|]; [now rewrite !fn_lookup_insert|now rewrite !fn_lookup_insert_ne by auto].
    - destruct Hr as (Hl' & [B2 P2] & Hq & _). auto. }
  destruct Hopen as (ses & p2 & -> & H2 & B2 & P2 & Hses). cbn [mbind option_bind]. eexists _, _. split; [reflexivity|]. split; [lia|]. split; [auto|]. split; [auto|]. exists ses.
  assert (Exi : bi_at p2 i = x) by (unfold bi_at; rewrite B2; apply fn_lookup_insert).
  assert (Exj : forall j, j <> i -> bi_at p2 j = bi_at p j) by (intros j Hj; unfold bi_at; rewrite B2; cbn; rewrite fn_lookup_insert_ne by auto; now apply Hs).
  rewrite Exi. set (y := set_mgmt_session x ses). rewrite (fn_lookup_insert (board_info_map (bds p2)) i y : bi_at (update_bi p2 i y) i = y). set (p3 := set_bds _ _).
  assert (Ey : y = BoardInfo i ip port local_port BOARD_INFO_FLAGS_ALLOCATED ses mem mem) by (unfold y; now rewrite Ex).
  assert (E3 : bi_at p3 i = y) by apply fn_lookup_insert.
  assert (E3j : forall j, j <> i -> bi_at p3 j = bi_at p2 j) by (intros j Hj; now apply fn_lookup_insert_ne, not_eq_sym). split; [|split].
  - split; [congruence|intros j Hj; now rewrite E3j, Exj| | | |]; unfold p3; cbn; rewrite ?B2, ?P2; auto.
  - split; [|eapply links_ext; [exact H2|easy|easy|easy|easy|easy|]; intros b _; destruct (decide (b = i)) as [->|Hne]; [rewrite E3, Exi, Ey, Ex; easy|now rewrite E3j]].
    unfold p3. cbn [bds set_bds]. apply (new_board_inv bs (bds p)); auto; cbn [bds update_bi set_bds]; rewrite ?B2; auto.
    + apply Hp.
    + intros j Hj. cbn. rewrite !fn_lookup_insert_ne by auto. now apply Hs.
    + now rewrite Ey.
  - destruct ses as [s|]; [destruct Hses as [-> [O1 O2 O3 (O4 & _)]]; exact (conj eq_refl (conj O1 (conj O2 (conj O3 O4))))|]. intros H0 j Hj. destruct (Hses H0) as [Q1 Q2]. split; [now apply (Q1 j)|now apply (Q2 j)].
Qed.
