(* ===== verification/PeerSpec.v ===== *)
(** * Boards and sessions: properties

    The states a host or the monitor reaches from start-up by joining nodes,
    opening and accepting sessions and closing them, and what every one of them
    satisfies: the lookups by address, by id, by board and by context agree. *)

From stdpp Require Import functions.
From S2P Require Import Prelude Bitops Hlist HashFamily Gbn Session Peer PeerProofs.

#[local] Set Warnings "-clear-no-such-hyp".

(** ** Start-up *)

Definition no_links {H} : hheap H Z := HHeap (fun _ => None) (fun _ => None) (fun _ => None).
Definition start_peer (port : Z) : peer :=
  Peer (Boards (fun _ => BoardInfo 0 0 0 0 0 None 0 0) [0; 0] no_links 0 0 0)
    no_sessions no_links no_links no_links (fun _ => (0, 0)) port.

Lemma empty_rep {H} `{EqDecision H} (ht : Z -> H) bits key : hash_rep ht bits key (no_links : hheap H Z) [].
Proof. split; [constructor|]. intros i _. exists []. split; [split; [constructor|easy]|]. intros n. split; [easy|]. now intros [Hn%not_elem_of_nil _]. Qed.

Lemma start_peer_inv port : peer_inv [] (fun _ => False) (fun _ => []) (fun _ => []) (start_peer port).
Proof.
  assert (Hu : forall i, 0 <= i < NR_MAX_SESSIONS_PER_NODE -> ~ in_use no_sessions i).
  { intros i Hi Hin. apply (so_flags _ no_sessions_ok i Hi) in Hin. now destruct Hin. }
  assert (Hno : forall x (P : Prop), x ∈ ([] : list Z) -> P) by (intros x P Hx; now apply not_elem_of_nil in Hx).
  split; [split|split]; cbn [bds start_peer board_id_map board_list tab link_board link_context].
  - split; [repeat constructor; unfold is_word; lia|now vm_compute].
  - intros i Hi. split; [|apply Hno]. unfold bm_bit. replace (word_at [0; 0] (i / BITS_PER_LONG)) with 0; [now rewrite Z.testbit_0_l|].
    unfold word_at. generalize (Z.to_nat (i / BITS_PER_LONG)). intros n. do 2 (destruct n as [|n]; [reflexivity|]). now destruct n.
  - intros i. apply Hno.
  - apply empty_rep.
  - intros i. apply Hno.
  - easy.
  - apply no_sessions_ok.
  - split; [intros t _; apply empty_rep|]. intros t u n _ _. intros Hn. exact (Hno _ _ Hn).
  - intros b x _. intros Hx. exact (Hno _ _ Hx).
  - intros x Hx Hin. now destruct (Hu x Hx).
  - easy.
  - easy.
Qed.

(** ** Steps *)

(** A node with its open contexts, and for each session the context it was opened
    with. *)
Record conf := Conf { c_peer : peer; c_ctxs : list Z; c_own : Z -> option Z }.

Definition known_board (p : peer) (bi : Z) : Prop := 0 <= bi < NR_MAX_BOARDS /\ bm_bit (board_id_map (bds p)) bi = true.

(** The management session of the board is there to carry the request. *)
Definition reachable_board (cfg : transport) (p : peer) (bi : Z) : Prop := cfg = TRANSPORT_RPC \/ bi_mgmt_session (bi_at p bi) <> None.

(** A session is closed with the context it was opened with; a remote node closes
    only its own sessions. *)
Inductive node_step (cfg : transport) : conf -> conf -> Prop :=
  | step_add_board p cx own up mem ip port local_port loc bi p' :
      add_board cfg p up mem ip port local_port loc = Some (bi, p') ->
      node_step cfg (Conf p cx own)
        (Conf p' cx (match bi ≫= fun b => bi_mgmt_session (bi_at p' b) with Some s => <[s := None]> own | None => own end))
  | step_flags p cx own bi f : node_step cfg (Conf p cx own) (Conf (or_flags p bi f) cx own)
  | step_context p cx own c : c ∉ cx -> node_step cfg (Conf p cx own) (Conf (init_context_sessions p c) (c :: cx) own)
  | step_open p cx own up ask ctx bi tid r p' :
      (forall c, ctx = Some c -> c ∈ cx) -> known_board p bi -> reachable_board cfg p bi ->
      legomem_open_session cfg p up ask ctx (Some bi) tid = Some (r, p') ->
      node_step cfg (Conf p cx own) (Conf p' cx (match r with Some s => <[s := ctx]> own | None => own end))
  | step_close p cx own ask ses bi ret p' :
      0 <= ses -> find_net_session (tab p) ses = Some ses -> ses <> LEGOMEM_MGMT_SESSION_ID ->
      s_board (ses_at p ses) = Some bi -> reachable_board cfg p bi ->
      legomem_close_session cfg p ask (own ses) ses = Some (ret, p') ->
      node_step cfg (Conf p cx own) (Conf p' cx own)
  | step_accept p cx own up th ip port id ret p' :
      host_handle_open_session p up th ip port id = Some (ret, p') ->
      node_step cfg (Conf p cx own) (Conf p' cx (<[ret := None]> own))
  | step_remote_close p cx own ip port id ret p' :
      0 <= id -> id <> LEGOMEM_MGMT_SESSION_ID -> own id = None ->
      (forall bi, find_board (bds p) ip port = Some (Some bi) -> find_net_session (tab p) id = Some id -> s_board (ses_at p id) = Some bi) ->
      host_handle_close_session p ip port id = Some (ret, p') ->
      node_step cfg (Conf p cx own) (Conf p' cx own).

(** The states reached after the local management session was opened. *)
Definition node_reachable (cfg : transport) (c : conf) : Prop :=
  exists port p0, init_local_management_session cfg (start_peer port) true = Some (0, p0) /\
    rtc (node_step cfg) (Conf p0 [] (fun _ => None)) c.

(** ** Invariant *)

Record conf_inv (bs : list Z) (ls cl : Z -> list Z) (c : conf) : Prop := {
  ci_peer : peer_inv bs (fun x => x ∈ c_ctxs c) ls cl (c_peer c);
  ci_boards : bs <> [];
  ci_mgmt : in_use (tab (c_peer c)) LEGOMEM_MGMT_SESSION_ID;
  ci_own_mgmt : c_own c LEGOMEM_MGMT_SESSION_ID = None;
  ci_listed x y : x ∈ c_ctxs c -> y ∈ cl x -> c_own c y = Some x;
  ci_owned x y : 0 <= y < NR_MAX_SESSIONS_PER_NODE -> in_use (tab (c_peer c)) y -> c_own c y = Some x -> x ∈ c_ctxs c /\ y ∈ cl x;
}.

Lemma known_board_in bs cs ls cl p bi : peer_inv bs cs ls cl p -> known_board p bi <-> bi ∈ bs.
Proof.
  intros [Hb _]. unfold known_board. split; [intros [H1 H2]; now apply (bo_used _ _ Hb)|].
  intros Hin. pose proof (bo_range _ _ Hb bi Hin). split; [auto|]. now apply (bo_used _ _ Hb).
Qed.

Lemma mgmt_range : 0 <= LEGOMEM_MGMT_SESSION_ID < NR_MAX_SESSIONS_PER_NODE.
Proof. now vm_compute. Qed.

(** A session in use other than the management one is in the table of its board. *)
Lemma used_linked bs cs ls cl p x : peer_inv bs cs ls cl p -> 0 <= x < NR_MAX_SESSIONS_PER_NODE -> in_use (tab p) x -> x <> LEGOMEM_MGMT_SESSION_ID ->
  exists b, b ∈ bs /\ x ∈ ls b /\ linked_to p b x.
Proof.
  intros [_ Hl] Hx Hu Hn. destruct (li_all _ _ _ _ _ _ Hl x Hx Hu) as [?|(b & Hb & Hin)]; [contradiction|]. exists b. split_and!; auto.
  now apply (li_linked _ _ _ _ _ _ Hl).
Qed.

Lemma found_used p x : sessions_ok (tab p) -> 0 <= x -> find_net_session (tab p) x = Some x -> 0 <= x < NR_MAX_SESSIONS_PER_NODE /\ in_use (tab p) x.
Proof. intros Hs Hx E. destruct (find_net_session_spec _ x Hs Hx) as [(H1 & H2 & _)|(_ & E')]; [split; [lia|auto]|congruence]. Qed.

(** Opening [i] with [ctx], closing it, and anything that does neither. *)
Lemma conf_opened bs ls cl p cx own bs' ls' i ctx p' :
  conf_inv bs ls cl (Conf p cx own) -> bs' <> [] -> ~ in_use (tab p) i -> (forall j, 0 <= j -> in_use (tab p') j <-> j = i \/ in_use (tab p) j) ->
  (forall c, ctx = Some c -> c ∈ cx) -> peer_inv bs' (fun x => x ∈ cx) ls' (with_session cl ctx i) p' ->
  conf_inv bs' ls' (with_session cl ctx i) (Conf p' cx (<[i := ctx]> own)).
Proof.
  intros [Hp _ Hm Hom Hli How] Hbs Hn Hu Hc Hp'. cbn [c_peer c_ctxs c_own] in *. assert (Hi0 : LEGOMEM_MGMT_SESSION_ID <> i) by congruence.
  assert (Hni : forall x, x ∈ cx -> i ∉ cl x) by (intros x Hx Hin; apply Hn; apply (li_ctx_used _ _ _ _ _ _ (pe_links _ _ _ _ _ Hp) x i Hx Hin)).
  split; cbn [c_peer c_ctxs c_own]; [exact Hp'|exact Hbs|apply Hu; [apply mgmt_range|auto]|now rewrite fn_lookup_insert_ne by auto| |].
  - intros x y Hx Hy. destruct (decide (y = i)) as [->|Hy'].
    + rewrite fn_lookup_insert. destruct ctx as [c|]; cbn in Hy; [|now destruct (Hni x Hx)]. f_equal. destruct (decide (x = c)) as [->|Hne]; [easy|].
      rewrite fn_lookup_insert_ne in Hy by auto. now destruct (Hni x Hx).
    + rewrite fn_lookup_insert_ne by auto. apply Hli; [auto|]. destruct ctx as [c|]; cbn in Hy; [|auto]. destruct (decide (x = c)) as [->|Hne].
      * rewrite fn_lookup_insert, elem_of_cons in Hy. tauto.
      * now rewrite fn_lookup_insert_ne in Hy by auto.
  - intros x y Hy Hin. destruct (decide (y = i)) as [->|Hy'].
    + rewrite fn_lookup_insert. intros ->. split; [now apply Hc|]. cbn. rewrite fn_lookup_insert. left.
    + rewrite fn_lookup_insert_ne by auto. intros E. apply Hu in Hin as [?|Hin]; [contradiction| |lia]. destruct (How x y Hy Hin E) as [H1 H2]. split; [auto|].
      destruct ctx as [c|]; cbn; [|auto]. destruct (decide (x = c)) as [->|Hne]; [rewrite fn_lookup_insert; now right|now rewrite fn_lookup_insert_ne by auto].
Qed.

Lemma conf_kept bs ls cl p cx own bs' ls' p' :
  conf_inv bs ls cl (Conf p cx own) -> bs' <> [] -> (forall j, 0 <= j < NR_MAX_SESSIONS_PER_NODE -> in_use (tab p') j <-> in_use (tab p) j) ->
  peer_inv bs' (fun x => x ∈ cx) ls' cl p' -> conf_inv bs' ls' cl (Conf p' cx own).
Proof.
  intros [Hp _ Hm Hom Hli How] Hbs Hu Hp'. cbn [c_peer c_ctxs c_own] in *. split; cbn [c_peer c_ctxs c_own]; auto; [apply Hu; [apply mgmt_range|auto]|].
  intros x y Hy Hin. apply How; [auto|]. now apply Hu.
Qed.

Lemma conf_closed bs ls cl p cx own ls' i p' :
  conf_inv bs ls cl (Conf p cx own) -> closed i p p' -> i <> LEGOMEM_MGMT_SESSION_ID ->
  peer_inv bs (fun x => x ∈ cx) ls' (without_session cl (own i) i) p' -> conf_inv bs ls' (without_session cl (own i) i) (Conf p' cx own).
Proof.
  intros [Hp Hbs Hm Hom Hli How] [Hu _] Hi Hp'. cbn [c_peer c_ctxs c_own] in *. split; cbn [c_peer c_ctxs c_own]; auto.
  - apply Hu; [apply mgmt_range|auto].
  - intros x y Hx Hy. apply Hli; [auto|]. destruct (own i) as [c|]; cbn in Hy; [|auto]. destruct (decide (x = c)) as [->|Hne]; [|now rewrite fn_lookup_insert_ne in Hy by auto].
    rewrite fn_lookup_insert in Hy. now apply without_spec in Hy.
  - intros x y Hy Hin E. apply Hu in Hin as [Hin Hne]; [|auto]. assert (y <> i) by tauto. destruct (How x y Hy Hin E) as [H1 H2]. split; [auto|].
    destruct (own i) as [c|] eqn:Ei; cbn; [|auto]. destruct (decide (x = c)) as [->|]; [rewrite fn_lookup_insert; now apply without_spec|now rewrite fn_lookup_insert_ne by auto].
Qed.

(** The context a session is closed with is the owner of its links. *)
Lemma conf_owner bs ls cl p cx own i : conf_inv bs ls cl (Conf p cx own) -> 0 <= i < NR_MAX_SESSIONS_PER_NODE -> in_use (tab p) i ->
  owner (fun x => x ∈ cx) cl (own i) i.
Proof.
  intros [Hp _ _ _ Hli How] Hi Hu. cbn [c_peer c_ctxs c_own] in *. destruct (own i) as [c|] eqn:E; cbn; [now apply How|].
  intros c Hc Hin. now rewrite (Hli c i Hc Hin) in E.
Qed.

Lemma or_flags_inv bs cs ls cl p bi f : peer_inv bs cs ls cl p -> peer_inv bs cs ls cl (or_flags p bi f).
Proof.
  intros [Hb Hl].
  assert (Hat : forall j, bi_ip (bi_at (or_flags p bi f) j) = bi_ip (bi_at p j) /\ bi_port (bi_at (or_flags p bi f) j) = bi_port (bi_at p j) /\ board_id (bi_at (or_flags p bi f) j) = board_id (bi_at p j)).
  { intros j. unfold or_flags, bi_at. cbn. destruct (decide (j = bi)) as [->|Hne]; [now rewrite fn_lookup_insert|now rewrite fn_lookup_insert_ne by auto]. }
  split; [|eapply links_ext; [exact Hl|easy..|]; intros b _; destruct (Hat b) as (H1 & H2 & _); auto]. destruct Hb as [H1 H2 H3 H4 H5 H6]. split; auto.
  - eapply hash_rep_key; [|exact H4]. intros n _. destruct (Hat n) as (E1 & E2 & _). exact (f_equal2 board_key E1 E2).
  - intros i Hi. exact (eq_trans (proj2 (proj2 (Hat i))) (H5 i Hi)).
Qed.

Lemma same_env_inv bs cs ls cl ls' cl' p p' : peer_inv bs cs ls cl p -> bds p' = bds p -> links_inv mgmt_only (fun b => b ∈ bs) cs ls' cl' p' -> peer_inv bs cs ls' cl' p'.
Proof. intros [Hb _] E Hl. split; [now rewrite E|auto]. Qed.

Lemma add_board_step cfg bs ls cl p cx own up mem ip port local_port loc bi p' :
  conf_inv bs ls cl (Conf p cx own) -> add_board cfg p up mem ip port local_port loc = Some (bi, p') ->
  exists bs' ls', conf_inv bs' ls' cl (Conf p' cx (match bi ≫= fun b => bi_mgmt_session (bi_at p' b) with Some s => <[s := None]> own | None => own end)).
Proof.
  intros Hc E. destruct (add_board_spec cfg bs _ ls cl p up mem ip port local_port loc (ci_peer _ _ _ _ Hc)) as (r & q & E' & Hr).
  cbn [c_peer] in E'. rewrite E in E'. injection E' as <- <-. destruct bi as [bi|]; [|destruct Hr as [-> _]; eauto].
  destruct Hr as (_ & _ & _ & ses & Hj & Hp' & Hs). cbn [mbind option_bind]. rewrite (jo_new _ _ _ _ _ _ _ _ Hj). cbn [bi_mgmt_session].
  exists (bi :: bs), (<[bi := option_list ses]> ls). destruct ses as [s|].
  - destruct Hs as (_ & _ & Hn & Hu & _). apply (conf_opened bs ls cl p cx own _ _ s None); auto; discriminate.
  - apply (conf_kept bs ls cl p cx own); auto. intros j Hj'. apply (Hs (ci_mgmt _ _ _ _ Hc) j Hj').
Qed.

Lemma open_step cfg bs ls cl p cx own up ask ctx bi tid r p' :
  conf_inv bs ls cl (Conf p cx own) -> (forall c, ctx = Some c -> c ∈ cx) -> bi ∈ bs -> reachable_board cfg p bi ->
  legomem_open_session cfg p up ask ctx (Some bi) tid = Some (r, p') ->
  exists ls' cl', conf_inv bs ls' cl' (Conf p' cx (match r with Some s => <[s := ctx]> own | None => own end)).
Proof.
  intros Hc Hctx Hb Hrb E. pose proof (ci_peer _ _ _ _ Hc) as Hp. cbn [c_peer c_ctxs] in Hp.
  destruct (open_session_links _ _ ls cl cfg p up ask ctx bi tid false false (pe_links _ _ _ _ _ Hp) Hb Hctx eq_refl) as (r' & q & E' & Hr); [unfold reachable_board in Hrb; tauto|].
  unfold legomem_open_session in E. rewrite E in E'. injection E' as <- <-. destruct r as [s|].
  - destruct Hr as (_ & [_ Hn Hu (_ & Hbd & _)] & Hl & _). eexists _, _. apply (conf_opened bs ls cl p cx own _ _ s ctx); eauto using same_env_inv, ci_boards.
  - destruct Hr as (Hl & [Hbd _] & Hq & _). destruct (Hq (ci_mgmt _ _ _ _ Hc)) as [Hu _]. exists ls, cl. apply (conf_kept bs ls cl p cx own); eauto using same_env_inv, ci_boards.
Qed.

Lemma close_step cfg bs ls cl p cx own ask ses bi ret p' :
  conf_inv bs ls cl (Conf p cx own) -> 0 <= ses < NR_MAX_SESSIONS_PER_NODE -> in_use (tab p) ses -> ses <> LEGOMEM_MGMT_SESSION_ID ->
  s_board (ses_at p ses) = Some bi -> reachable_board cfg p bi -> legomem_close_session cfg p ask (own ses) ses = Some (ret, p') ->
  exists ls' cl', conf_inv bs ls' cl' (Conf p' cx own).
Proof.
  intros Hc Hs Hu Hn Hbi Hrb E. pose proof (ci_peer _ _ _ _ Hc) as Hp. cbn [c_peer c_ctxs] in Hp.
  destruct (used_linked bs _ ls cl p ses Hp Hs Hu Hn) as (b & Hb & Hin & (_ & _ & Eb & _)). assert (b = bi) as -> by congruence.
  destruct (close_session_links _ _ ls cl cfg p ask (own ses) ses bi (pe_links _ _ _ _ _ Hp) Hb Hin (conf_owner _ _ _ _ _ _ _ Hc Hs Hu)) as (ret' & q & E' & Hr); [unfold reachable_board in Hrb; tauto|].
  rewrite E in E'. injection E' as <- <-. destruct Hr as [[_ ->]|(_ & Hcl & Hl)]; [eauto|].
  destruct (cl_same _ _ _ Hcl) as (_ & Hbd & _). eexists _, _. eapply conf_closed; [exact Hc|exact Hcl|auto|eauto using same_env_inv].
Qed.

Lemma conf_own_ext bs ls cl p cx own own' : (forall x, own' x = own x) -> conf_inv bs ls cl (Conf p cx own) -> conf_inv bs ls cl (Conf p cx own').
Proof. intros He [H1 H2 H3 H4 H5 H6]. cbn [c_peer c_ctxs c_own] in *. split; cbn [c_peer c_ctxs c_own]; auto; [now rewrite He|intros; rewrite He; auto|intros x y; rewrite He; auto]. Qed.

Lemma accept_step bs ls cl p cx own up th ip port id ret p' :
  conf_inv bs ls cl (Conf p cx own) -> host_handle_open_session p up th ip port id = Some (ret, p') ->
  exists ls', conf_inv bs ls' cl (Conf p' cx (<[ret := None]> own)).
Proof.
  intros Hc E. pose proof (ci_peer _ _ _ _ Hc) as Hp. cbn [c_peer c_ctxs] in Hp.
  assert (Hno : forall q, conf_inv bs ls cl (Conf q cx own) -> conf_inv bs ls cl (Conf q cx (<[0 := None]> own))).
  { intros q. apply conf_own_ext. intros x. destruct (decide (x = 0)) as [->|]; [rewrite fn_lookup_insert; symmetry; apply (ci_own_mgmt _ _ _ _ Hc)|now rewrite fn_lookup_insert_ne by auto]. }
  unfold host_handle_open_session in E. destruct (find_board_spec bs (bds p) ip port (pe_boards _ _ _ _ _ Hp)) as (r & Er & Hr). rewrite Er in E. cbn [mbind option_bind] in E.
  destruct r as [bi|]; [|injection E as <- <-; exists ls; auto]. destruct Hr as [[Hb _] _].
  destruct (accept_session_links _ _ ls cl p up th bi id (pe_links _ _ _ _ _ Hp) Hb) as (r & q & Ea & Ha). rewrite Ea in E. cbn [mbind option_bind] in E. destruct r as [i|].
  - destruct Ha as ([_ Hn Hu (_ & Hbd & _)] & Hl & Hid & _). injection E as <- <-. rewrite Hid. eexists.
    apply (conf_opened bs ls cl p cx own _ _ i None); [auto|apply (ci_boards _ _ _ _ Hc)|auto|exact Hu|discriminate|]. split; [unfold patch_udp_ports; cbn; rewrite Hbd; apply Hp|apply links_set_route; exact Hl].
  - destruct Ha as (Hl & [Hbd _] & Hq & _). injection E as <- <-. destruct (Hq (ci_mgmt _ _ _ _ Hc)) as [Hu _]. exists ls. apply Hno, (conf_kept bs ls cl p cx own); eauto using same_env_inv, ci_boards.
Qed.

Lemma remote_close_step bs ls cl p cx own ip port id ret p' :
  conf_inv bs ls cl (Conf p cx own) -> 0 <= id -> id <> LEGOMEM_MGMT_SESSION_ID -> own id = None ->
  (forall bi, find_board (bds p) ip port = Some (Some bi) -> find_net_session (tab p) id = Some id -> s_board (ses_at p id) = Some bi) ->
  host_handle_close_session p ip port id = Some (ret, p') -> exists ls' cl', conf_inv bs ls' cl' (Conf p' cx own).
Proof.
  intros Hc Hid Hn Ho Hb E. pose proof (ci_peer _ _ _ _ Hc) as Hp. cbn [c_peer c_ctxs] in Hp. unfold host_handle_close_session in E.
  destruct (find_board_spec bs (bds p) ip port (pe_boards _ _ _ _ _ Hp)) as (r & Er & Hr). rewrite Er in E. cbn [mbind option_bind] in E.
  destruct r as [bi|]; [|injection E as <- <-; eauto]. pose proof (li_sess _ _ _ _ _ _ (pe_links _ _ _ _ _ Hp)) as Hs.
  destruct (find_net_session_spec (tab p) id Hs Hid) as [(H1 & Hu & Ef)|(_ & Ef)]; rewrite Ef in E; [|injection E as <- <-; eauto].
  specialize (Hb bi Er Ef). destruct (used_linked bs _ ls cl p id Hp (conj Hid H1) Hu Hn) as (b & Hb' & Hin & (_ & _ & Eb & _)). assert (b = bi) as -> by congruence.
  pose proof (conf_owner _ _ _ _ _ _ _ Hc (conj Hid H1) Hu) as How. rewrite Ho in How.
  destruct (generic_close_links _ _ ls cl p None bi id (pe_links _ _ _ _ _ Hp) Hb' Hin How) as (q & Eq & Hcl & Hl). rewrite Eq in E. cbn in E. injection E as <- <-.
  destruct (cl_same _ _ _ Hcl) as (_ & Hbd & _). eexists _, _. eapply conf_closed; [exact Hc|exact Hcl|auto|]. rewrite Ho. eauto using same_env_inv.
Qed.

Lemma context_step bs ls cl p cx own c : conf_inv bs ls cl (Conf p cx own) -> c ∉ cx -> conf_inv bs ls (<[c := []]> cl) (Conf (init_context_sessions p c) (c :: cx) own).
Proof.
  intros [[Hb Hl] Hbs Hm Hom Hli How] Hc. cbn [c_peer c_ctxs c_own] in *. split; cbn [c_peer c_ctxs c_own]; auto.
  - split; [exact Hb|]. pose proof (context_init_links _ _ _ ls cl p c Hl) as H. destruct H as [H1 H2 H3 H4 H5 H6]. split; auto.
    + eapply tables_sub; [|exact H5]. intros t. now rewrite elem_of_cons.
    + intros u x Hu. apply H6. now apply elem_of_cons.
  - intros x y [->|Hx]%elem_of_cons; [rewrite fn_lookup_insert; intros Hy; now apply not_elem_of_nil in Hy|]. rewrite fn_lookup_insert_ne by congruence. now apply Hli.
  - intros x y Hy Hin E. destruct (How x y Hy Hin E) as [H1 H2]. split; [now right|]. rewrite fn_lookup_insert_ne by congruence. auto.
Qed.

Lemma node_step_inv cfg c c' bs ls cl : conf_inv bs ls cl c -> node_step cfg c c' -> exists bs' ls' cl', conf_inv bs' ls' cl' c'.
Proof.
  intros Hc Hs. destruct Hs as [p cx own up mem ip port lp loc bi p' E|p cx own bi f|p cx own c Hn|p cx own up ask ctx bi tid r p' Hctx Hb Hrb E|
    p cx own ask ses bi ret p' H0 Hf Hn Hbi Hrb E|p cx own up th ip port id ret p' E|p cx own ip port id ret p' Hid Hn Ho Hb E].
  - destruct (add_board_step cfg bs ls cl p cx own up mem ip port lp loc bi p' Hc E) as (bs' & ls' & H). eauto.
  - exists bs, ls, cl. apply (conf_kept bs ls cl p cx own); [exact Hc|apply (ci_boards _ _ _ _ Hc)|easy|]. apply or_flags_inv, (ci_peer _ _ _ _ Hc).
  - exists bs, ls, (<[c := []]> cl). now apply context_step.
  - exists bs. eapply open_step; eauto. eapply known_board_in; [apply (ci_peer _ _ _ _ Hc)|auto].
  - destruct (found_used p ses (li_sess _ _ _ _ _ _ (pe_links _ _ _ _ _ (ci_peer _ _ _ _ Hc))) H0 Hf) as [Hr Hu]. exists bs. eapply close_step; eauto.
  - destruct (accept_step bs ls cl p cx own up th ip port id ret p' Hc E) as (ls' & H). eauto.
  - exists bs. eapply remote_close_step; eauto.
Qed.

Lemma init_conf cfg p p0 : peer_inv [] (fun _ => False) (fun _ => []) (fun _ => []) p -> init_local_management_session cfg p true = Some (0, p0) ->
  exists bs ls cl, conf_inv bs ls cl (Conf p0 [] (fun _ => None)).
Proof.
  intros Hp0 E. unfold init_local_management_session in E.
  destruct (add_board_spec cfg [] _ _ _ p true 0 0 0 0 true Hp0) as (r & q & Ea & Hr). rewrite Ea in E. cbn [mbind option_bind] in E.
  destruct r as [bi|]; [|discriminate E]. destruct Hr as (_ & _ & _ & ses & Hj & Hp & Hs). set (q' := or_flags q bi _) in *.
  assert (Em : bi_mgmt_session (bi_at q' bi) = ses) by (unfold q', or_flags, bi_at; cbn; rewrite fn_lookup_insert; exact (f_equal bi_mgmt_session (jo_new _ _ _ _ _ _ _ _ Hj))).
  rewrite Em in E. destruct ses as [s|]; [|discriminate E]. cbn [mbind option_bind] in E. destruct (Z.eqb_spec (ses_ids q' s) LEGOMEM_MGMT_SESSION_ID) as [Es|]; [|discriminate E].
  injection E as <-. destruct Hs as (_ & Hsr & _ & Hu & _). assert (Hsu : in_use (tab q) s) by (apply Hu; [lia|auto]).
  pose proof (ses_ids_used _ _ _ _ _ _ s (pe_links _ _ _ _ _ Hp) Hsr Hsu) as Hid. change (ses_ids q' s) with (ses_ids q s) in Es. rewrite Hid in Es. subst s.
  exists [bi], (<[bi := [LEGOMEM_MGMT_SESSION_ID]]> (fun _ => [])), (fun _ => []). split; cbn [c_peer c_ctxs c_own];
    [|discriminate|exact Hsu|reflexivity|intros x y Hx; now apply not_elem_of_nil in Hx|intros x y _ _; discriminate].
  apply or_flags_inv. destruct Hp as [Hb Hl]. split; [exact Hb|]. destruct Hl as [H1 H2 H3 H4 H5 H6]. split; auto.
  - eapply tables_sub; [|exact H5]. intros t Ht. now apply not_elem_of_nil in Ht.
  - intros c x Hc. now apply not_elem_of_nil in Hc.
Qed.

Lemma node_reachable_inv cfg c : node_reachable cfg c -> exists bs ls cl, conf_inv bs ls cl c.
Proof.
  intros (port & p0 & E & Hr). pose proof (init_conf cfg _ p0 (start_peer_inv port) E) as H0. clear E. induction Hr as [|c1 c2 c3 Hs _ IH]; [auto|].
  apply IH. destruct H0 as (bs & ls & cl & H0). eapply node_step_inv; eauto.
Qed.

Lemma start_reachable cfg port : exists p0, init_local_management_session cfg (start_peer port) true = Some (0, p0).
Proof.
  assert (E : fst <$> init_local_management_session cfg (start_peer port) true = Some 0) by (destruct cfg; vm_compute; reflexivity).
  destruct (init_local_management_session cfg (start_peer port) true) as [[r p]|]; [|discriminate E]. injection E as ->. now exists p.
Qed.

(** ** Properties *)

(** C13: in every state a node reaches, the lookups agree with each other.  The
    known boards are those numbered from 0 to [nr_max_board_id]; a lookup by address
    and port ends and returns a real board with that address, any real one or any
    memory board for the wildcards, and fails only when there is none.  A session
    in use is found in the table of the board it belongs to, whose address it
    carries, and in no other board's.  A lookup in a context ends, and finds exactly
    the sessions in use that were opened with the context, by the thread, to the
    address. *)
Theorem node_lookups_agree cfg c : node_reachable cfg c ->
  let p := c_peer c in
  (forall i, known_board p i <-> 0 <= i <= nr_max_board_id (bds p)) /\
  (forall ip port, exists r, find_board (bds p) ip port = Some r /\
    let wanted i := known_board p i /\ special_board_info_type (bi_flags (bi_at p i)) = false /\
      (if ip =? ANY_BOARD then Z.land (bi_flags (bi_at p i)) BOARD_INFO_FLAGS_BOARD <> 0
       else if ip =? ANY_NODE then True else bi_ip (bi_at p i) = ip /\ bi_port (bi_at p i) = port) in
    match r with Some i => wanted i | None => forall i, ~ wanted i end) /\
  (forall x, 0 <= x -> find_net_session (tab p) x = Some x -> x <> LEGOMEM_MGMT_SESSION_ID ->
    exists b, known_board p b /\ s_board (ses_at p x) = Some b /\ s_board_ip (ses_at p x) = bi_ip (bi_at p b) /\ s_udp_port (ses_at p x) = bi_port (bi_at p b) /\
      forall b', known_board p b' -> board_find_session (pair b') chain_fuel (ses_ids p) (link_board p) x = Some (if decide (b' = b) then Some x else None)) /\
  (forall ctx tid ip port, ctx ∈ c_ctxs c -> exists r, context_find_session p ctx tid ip port = Some r /\
    let mine x := 0 <= x /\ find_net_session (tab p) x = Some x /\ c_own c x = Some ctx /\
      s_tid (ses_at p x) = tid /\ s_board_ip (ses_at p x) = ip /\ s_udp_port (ses_at p x) = port in
    match r with Some x => mine x | None => forall x, ~ mine x end).
Proof.
  intros Hr p. destruct (node_reachable_inv cfg c Hr) as (bs & ls & cl & Hc). pose proof (ci_peer _ _ _ _ Hc) as Hp. fold p in Hp.
  pose proof (pe_boards _ _ _ _ _ Hp) as Hb. pose proof (pe_links _ _ _ _ _ Hp) as Hl. pose proof (li_sess _ _ _ _ _ _ Hl) as Hs.
  assert (Hk : forall i, known_board p i <-> i ∈ bs) by (intros i; eapply known_board_in; exact Hp). split_and!.
  - intros i. rewrite Hk. apply (bo_max _ _ Hb). apply (ci_boards _ _ _ _ Hc).
  - intros ip port. destruct (find_board_spec bs (bds p) ip port Hb) as (r & E & H). exists r. split; [exact E|]. cbv zeta in *. destruct r as [i|].
    + rewrite Hk. tauto.
    + intros i. rewrite Hk. specialize (H i). tauto.
  - intros x Hx Hf Hn. destruct (found_used p x Hs Hx Hf) as [Hxr Hu]. destruct (used_linked bs _ ls cl p x Hp Hxr Hu Hn) as (b & Hbb & Hin & (_ & _ & H1 & H2 & H3)).
    exists b. rewrite Hk. split_and!; auto. intros b' Hb'. rewrite Hk in Hb'. rewrite (board_find_spec _ _ _ ls cl p b' x Hl Hb'). f_equal.
    destruct (decide (b' = b)) as [->|Hne]; [now rewrite decide_True|]. rewrite decide_False; [easy|]. intros Hin'. apply Hne. now apply (proj2 (li_links _ _ _ _ _ _ Hl) b' b x).
  - intros ctx tid ip port Hctx. destruct (context_find_spec _ _ _ ls cl p ctx tid ip port Hl Hctx) as (r & E & H). exists r. split; [exact E|]. cbv zeta in *. destruct r as [x|].
    + destruct H as (Hin & H1 & H2 & H3). destruct (li_ctx_used _ _ _ _ _ _ Hl ctx x Hctx Hin) as [Hxr Hu]. split_and!; auto; [lia| |now apply (ci_listed _ _ _ _ Hc)].
      destruct (find_net_session_spec _ x Hs ltac:(lia)) as [(_ & _ & ->)|(Hnot & _)]; [easy|]. destruct Hnot. split; [lia|auto].
    + intros x (Hx & Hf & Ho & H1 & H2 & H3). destruct (found_used p x Hs Hx Hf) as [Hxr Hu]. destruct (ci_owned _ _ _ _ Hc ctx x Hxr Hu Ho) as [_ Hin]. now apply (H x Hin).
Qed.

Lemma node_lookups_agree_witness :
  exists p, node_reachable TRANSPORT_RPC (Conf p [7] (fun _ => None)) /\ exists r, context_find_session p 7 1 2 3 = Some r.
Proof.
  destruct (start_reachable TRANSPORT_RPC 8888) as (p0 & E0). exists (init_context_sessions p0 7).
  assert (Hr : node_reachable TRANSPORT_RPC (Conf (init_context_sessions p0 7) [7] (fun _ => None))).
  { exists 8888, p0. split; [exact E0|]. apply rtc_once, step_context. apply not_elem_of_nil. }
  split; [exact Hr|]. destruct (node_lookups_agree TRANSPORT_RPC _ Hr) as (_ & _ & _ & H).
  destruct (H 7 1 2 3) as (r & E & _); [apply elem_of_cons; now left|]. exists r. exact E.
Defined.

Lemma found_same t t' x : sessions_ok t -> sessions_ok t' -> 0 <= x -> (0 <= x < NR_MAX_SESSIONS_PER_NODE -> in_use t' x <-> in_use t x) ->
  find_net_session t' x = find_net_session t x.
Proof.
  intros H H' Hx Hu. destruct (find_net_session_spec t x H Hx) as [(A & B & ->)|(A & ->)], (find_net_session_spec t' x H' Hx) as [(A' & B' & ->)|(A' & ->)]; auto.
  - destruct A'. split; [auto|]. apply Hu; [lia|auto].
  - destruct A. split; [auto|]. apply Hu; [lia|auto].
Qed.

Lemma found_iff t x : sessions_ok t -> 0 <= x < NR_MAX_SESSIONS_PER_NODE -> find_net_session t x = Some x <-> in_use t x.
Proof. intros H Hx. destruct (find_net_session_spec t x H ltac:(lia)) as [(A & B & ->)|(A & ->)]; [easy|]. split; [discriminate|]. intros Hu. destruct A. split; [lia|auto]. Qed.

Lemma not_found_iff t x : sessions_ok t -> 0 <= x < NR_MAX_SESSIONS_PER_NODE -> find_net_session t x = None <-> ~ in_use t x.
Proof. intros H Hx. destruct (find_net_session_spec t x H ltac:(lia)) as [(A & B & ->)|(A & ->)]; [split; [discriminate|contradiction]|]. split; [|easy]. intros _ Hu. destruct A. split; [lia|auto]. Qed.


(** A node after start-up, and after it opened a session with its first board. *)
Definition ex_boot : peer :=
  match init_local_management_session TRANSPORT_RPC (start_peer 8888) true with Some (_, p) => p | None => start_peer 8888 end.
Definition ex_open : peer :=
  match legomem_open_session TRANSPORT_RPC ex_boot true (fun _ => None) None (Some 0) 5 with Some (_, p) => p | None => ex_boot end.

Lemma ex_boot_reachable : node_reachable TRANSPORT_RPC (Conf ex_boot [] (fun _ => None)).
Proof.
  destruct (start_reachable TRANSPORT_RPC 8888) as (p0 & E0). exists 8888, p0. split; [exact E0|]. unfold ex_boot. rewrite E0. constructor.
Qed.

Lemma ex_boot_known : known_board ex_boot 0.
Proof. split; vm_compute; [split; [discriminate|reflexivity]|reflexivity]. Qed.

Lemma ex_open_reachable : node_reachable TRANSPORT_RPC (Conf ex_open [] (<[1 := None]> (fun _ => None))).
Proof.
  destruct ex_boot_reachable as (port & p0 & E0 & Hr). exists port, p0. split; [exact E0|]. eapply rtc_r; [exact Hr|].
  assert (E : fst <$> legomem_open_session TRANSPORT_RPC ex_boot true (fun _ => None) None (Some 0) 5 = Some (Some 1)) by (vm_compute; reflexivity).
  unfold ex_open. destruct (legomem_open_session TRANSPORT_RPC ex_boot true (fun _ => None) None (Some 0) 5) as [[r p]|] eqn:Eo; [|discriminate E]. injection E as ->.
  exact (step_open TRANSPORT_RPC ex_boot [] (fun _ => None) true (fun _ => None) None 0 5 (Some 1) p ltac:(discriminate) ex_boot_known (or_introl eq_refl) Eo).
Qed.

#[global] Opaque ex_boot ex_open.


(** C20: closing a session in use, in any state a node reaches, with the context it
    was opened with.  An error leaves the node as it was; otherwise the session is
    found neither by its id, nor in the table of any board, nor in any context, and
    no other session is touched.  Without a connection on the other side (the RPC
    transport) closing always succeeds. *)
Theorem close_session_correct cfg c ask ses bi :
  node_reachable cfg c -> 0 <= ses -> find_net_session (tab (c_peer c)) ses = Some ses -> ses <> LEGOMEM_MGMT_SESSION_ID ->
  s_board (ses_at (c_peer c) ses) = Some bi -> reachable_board cfg (c_peer c) bi ->
  let p := c_peer c in
  exists ret p', legomem_close_session cfg p ask (c_own c ses) ses = Some (ret, p') /\ (cfg = TRANSPORT_RPC -> ret = 0) /\ (ret <> 0 -> p' = p) /\
    (ret = 0 ->
      find_net_session (tab p') ses = None /\
      (forall b, known_board p b -> board_find_session (pair b) chain_fuel (ses_ids p') (link_board p') ses = Some None) /\
      (forall ctx tid ip port, ctx ∈ c_ctxs c -> context_find_session p' ctx tid ip port <> Some (Some ses)) /\
      forall j, 0 <= j -> j <> ses -> find_net_session (tab p') j = find_net_session (tab p) j /\ ses_at p' j = ses_at p j).
Proof.
  intros Hr Hs0 Hf Hn Hbi Hrb p. destruct (node_reachable_inv cfg c Hr) as (bs & ls & cl & Hc). pose proof (ci_peer _ _ _ _ Hc) as Hp. fold p in Hp, Hf, Hbi, Hrb.
  pose proof (pe_links _ _ _ _ _ Hp) as Hl. pose proof (li_sess _ _ _ _ _ _ Hl) as Hs. destruct (found_used p ses Hs Hs0 Hf) as [Hsr Hu].
  destruct (used_linked bs _ ls cl p ses Hp Hsr Hu Hn) as (b & Hb & Hin & (_ & _ & Eb & _)). assert (b = bi) as -> by congruence. destruct c as [p1 cx own]. cbn in p. subst p. cbn [c_peer c_ctxs c_own] in *.
  pose proof (conf_owner _ _ _ _ _ _ _ Hc Hsr Hu) as Ho. pose proof (generic_close_links _ _ ls cl p1 (own ses) bi ses Hl Hb Hin Ho) as (q & Eq & _).
  destruct (close_session_links _ _ ls cl cfg p1 ask (own ses) ses bi Hl Hb Hin Ho) as (ret & p' & E & H); [unfold reachable_board in Hrb; tauto|].
  exists ret, p'. split; [exact E|]. split; [intros ->; unfold legomem_close_session in E; rewrite Hbi in E; cbn [mbind option_bind] in E; rewrite Eq in E; now injection E|].
  destruct H as [[Hne ->]|(-> & Hcl & Hl')]; [easy|]. split; [easy|]. intros _. pose proof (conf_closed _ _ _ _ _ _ _ _ _ Hc Hcl Hn (same_env_inv _ _ _ _ _ _ _ _ Hp (proj1 (proj2 (cl_same _ _ _ Hcl))) Hl')) as Hc'.
  pose proof (li_sess _ _ _ _ _ _ Hl') as Hs'. destruct Hcl as [Hcu (Hcs & _)].
  assert (Hnu : ~ in_use (tab p') ses) by (rewrite Hcu by lia; tauto). split; [now apply not_found_iff|]. split; [|split].
  - intros b Hkb. apply (known_board_in _ _ _ _ _ b Hp) in Hkb. rewrite (board_find_spec _ _ _ _ _ p' b ses Hl' Hkb), decide_False; [easy|].
    intros Hx. destruct (li_linked _ _ _ _ _ _ Hl' b ses Hkb Hx) as (_ & ? & _). contradiction.
  - intros ctx tid ip port Hctx Ef. destruct (context_find_spec _ _ _ _ _ p' ctx tid ip port Hl' Hctx) as (r & Er & Hx). rewrite Ef in Er. injection Er as <-. destruct Hx as [Hx _].
    destruct (li_ctx_used _ _ _ _ _ _ Hl' ctx ses Hctx Hx). contradiction.
  - intros j Hj Hne. split; [|now apply Hcs]. apply found_same; auto. intros Hjr. rewrite Hcu by lia. tauto.
Qed.

Lemma close_session_correct_witness :
  exists p', legomem_close_session TRANSPORT_RPC ex_open (fun _ => None) None 1 = Some (0, p') /\ find_net_session (tab p') 1 = None.
Proof.
  destruct (close_session_correct TRANSPORT_RPC (Conf ex_open [] (<[1 := None]> (fun _ => None))) (fun _ => None) 1 0 ex_open_reachable) as (ret & p' & E & H0 & _ & H);
    [lia|vm_compute; reflexivity|discriminate|vm_compute; reflexivity|now left|].
  exists p'. specialize (H0 eq_refl). subst ret. split; [exact E|]. now apply H.
Defined.
