(* ===== verification/Monitor.v ===== *)
(** * The monitor

    host/main_monitor.c: it gives out process ids and vRegions, chooses the board
    a region lives on, coordinates migrations and introduces new nodes to the
    others.  Its table of processes is the one of Process.v, its boards and
    sessions those of Peer.v. *)

From stdpp Require Import functions.
From S2P Require Import Prelude Bitops DList Hlist Process Gbn Session Peer.

#[local] Set Warnings "-clear-no-such-hyp".

Definition MON_PID_HASH_BITS : Z := 10.
Definition VREGION_INFO_FLAG_UNMAPPED_AREA_TOPDOWN : Z := 2.
Definition nr_alloc_board_base : Z := 2.

(** ** State *)

(** The fields of [struct vregion_info] the monitor uses. *)
Record mvregion := MVregion { mv_flags : Z; mv_ip : Z; mv_port : Z }.

(** [m_regions a i] is region [i] of the process at [a]. *)
Record monitor := Mon {
  m_net : peer;
  m_procs : ptable;
  pid_map : list Z;
  m_regions : Z -> Z -> mvregion;
  nr_alloc_board_index : Z;
  sys_nr_hosts : Z;
  sys_nr_boards : Z;
}.
Definition set_net (m : monitor) (x : peer) : monitor :=
  Mon x (m_procs m) (pid_map m) (m_regions m) (nr_alloc_board_index m) (sys_nr_hosts m) (sys_nr_boards m).
Definition set_procs (m : monitor) (x : ptable) : monitor :=
  Mon (m_net m) x (pid_map m) (m_regions m) (nr_alloc_board_index m) (sys_nr_hosts m) (sys_nr_boards m).
Definition set_pid_map (m : monitor) (x : list Z) : monitor :=
  Mon (m_net m) (m_procs m) x (m_regions m) (nr_alloc_board_index m) (sys_nr_hosts m) (sys_nr_boards m).
Definition set_region (m : monitor) (a i : Z) (v : mvregion) : monitor :=
  Mon (m_net m) (m_procs m) (pid_map m) (<[a := <[i := v]> (m_regions m a)]> (m_regions m)) (nr_alloc_board_index m) (sys_nr_hosts m) (sys_nr_boards m).
Definition set_board_index (m : monitor) (x : Z) : monitor :=
  Mon (m_net m) (m_procs m) (pid_map m) (m_regions m) x (sys_nr_hosts m) (sys_nr_boards m).
Definition set_counts (m : monitor) (h b : Z) : monitor :=
  Mon (m_net m) (m_procs m) (pid_map m) (m_regions m) (nr_alloc_board_index m) h b.

(** ** Process ids *)

Definition alloc_pid (m : monitor) : Z * monitor :=
  let bit := find_next_zero_bit (pid_map m) NR_MAX_USER_PID 1 in
  if NR_MAX_USER_PID <=? bit then (-1, m) else (bit, set_pid_map m (__set_bit bit (pid_map m))).

(** [None] is [BUG] *)
Definition free_pid (m : monitor) (pid : Z) : option monitor :=
  if NR_MAX_USER_PID <=? pid then None
  else
    let '(set, map) := __test_and_clear_bit pid (pid_map m) in
    if negb set then None else Some (set_pid_map m map).

(** ** Boards *)

(** The loop [repeat] of [handle_alloc_find_board]; [None]: it does not end within
    the fuel, or follows a [NULL]. *)
Fixpoint find_board_repeat (fuel : nat) (m : monitor) : option (Z * monitor) :=
  match fuel with
  | O => None
  | S fuel' =>
      let b := bds (m_net m) in
      let i := nr_alloc_board_index m in
      bi ← find_board_by_id i;
      let m := set_board_index m (if i =? nr_max_board_id b then nr_alloc_board_base else i + 1) in
      if Z.land (bi_flags (board_info_map b bi)) BOARD_INFO_FLAGS_BOARD =? 0 then find_board_repeat fuel' m
      else Some (bi, m)
  end.

Definition handle_alloc_find_board (fuel : nat) (m : monitor) : option (option Z * monitor) :=
  if nr_online_boards (bds (m_net m)) =? 0 then Some (None, m)
  else '(bi, m) ← find_board_repeat fuel m; Some (Some bi, m).

(** ** Handlers *)

(** [op_alloc_free_ret]; [ret] is an [unsigned int]. *)
Record alloc_resp := AllocResp { ar_ret : Z; ar_ip : Z; ar_port : Z; ar_idx : Z }.
Definition alloc_error (e : Z) : alloc_resp := AllocResp (wrap32 e) 0 0 0.

(** Requests to the boards of a migration. *)
Inductive migration_msg := M2B_RECV (bi : Z) | M2B_SEND (bi : Z) | M2B_RECV_CANCEL (bi : Z).
Record op_migration := OpMigration { src_board_ip : Z; src_udp_port : Z; dst_board_ip : Z; dst_udp_port : Z; mig_vregion : Z }.

(** [op_membership_new_node]: the type, the memory and the address of a node. *)
Record new_node := NewNode { nn_type : Z; nn_mem : Z; nn_ip : Z; nn_port : Z }.

Section handlers.
(** Bounds on the search for a board and on the buckets of processes. *)
Context (tries fuel : nat).

Definition mon_get_proc (m : monitor) (pid : Z) : option (Z * monitor) :=
  '(a, t) ← get_proc_by_pid MON_PID_HASH_BITS fuel (m_procs m) pid; Some (a, set_procs m t).
Definition mon_put_proc (m : monitor) (a : Z) : option monitor :=
  t ← put_proc_info (mon_free_proc MON_PID_HASH_BITS fuel) (m_procs m) a; Some (set_procs m t).

(** The regions of a new process are initialised. *)
Definition mon_init_regions (m : monitor) (a : Z) : monitor :=
  Mon (m_net m) (m_procs m) (pid_map m)
    (<[a := fun i => MVregion VREGION_INFO_FLAG_UNMAPPED_AREA_TOPDOWN (mv_ip (m_regions m a i)) (mv_port (m_regions m a i))]> (m_regions m))
    (nr_alloc_board_index m) (sys_nr_hosts m) (sys_nr_boards m).
Definition mon_new_proc (m : monitor) (pid host_ip : Z) : Z * monitor :=
  let '(a, t) := mon_alloc_proc MON_PID_HASH_BITS (m_procs m) pid host_ip in
  if a =? 0 then (0, m) else (a, mon_init_regions (set_procs m t) a).

(** The [ret] and the [pid] of the response; the test [pid < 0] on an [unsigned
    int] is never true. *)
Definition mon_handle_create_proc (m : monitor) (src_ip : Z) : option (Z * Z * monitor) :=
  let '(r, m) := alloc_pid m in
  let pid := wrap32 r in
  if pid <? 0 then Some (- ENOMEM, 0, m)
  else
    let '(a, m) := mon_new_proc m pid src_ip in
    if a =? 0 then m ← free_pid m pid; Some (- ENOMEM, 0, m)
    else Some (0, pid, m).

Definition mon_handle_free_proc (m : monitor) (pid : Z) : option (Z * monitor) :=
  '(pi, m) ← mon_get_proc m pid;
  if pi =? 0 then Some (- ESRCH, m)
  else
    m ← mon_put_proc m pi;
    m ← mon_put_proc m pi;
    Some (0, m).

Definition alloc_vregion (m : monitor) (pi : Z) : option Z * monitor :=
  match vregion_freelist_dequeue_head (pmem (m_procs m) pi) with
  | (None, p) => (None, m)
  | (Some v, p) =>
      let m := set_procs m (set_proc (m_procs m) pi p) in
      (Some v, set_region m pi v (MVregion VREGION_INFO_FLAG_UNMAPPED_AREA_TOPDOWN (mv_ip (m_regions m pi v)) (mv_port (m_regions m pi v))))
  end.
Definition free_vregion (m : monitor) (pi v : Z) : monitor :=
  set_procs m (set_proc (m_procs m) pi (vregion_freelist_enqueue_tail (pmem (m_procs m) pi) v)).

Definition mon_handle_alloc (m : monitor) (pid len : Z) : option (alloc_resp * monitor) :=
  '(pi, m) ← mon_get_proc m pid;
  if pi =? 0 then Some (alloc_error (- ESRCH), m)
  else
    let out resp m := m ← mon_put_proc m pi; Some (resp, m) in
    if len =? 0 then out (alloc_error (- EINVAL)) m
    else
      match alloc_vregion m pi with
      | (None, m) => out (alloc_error (- ENOMEM)) m
      | (Some vi, m) =>
          '(bi, m) ← handle_alloc_find_board tries m;
          match bi with
          | None => out (alloc_error (- ENODEV)) (free_vregion m pi vi)
          | Some bi =>
              if NR_VREGIONS <=? vi then None
              else
                let b := bi_at (m_net m) bi in
                out (AllocResp 0 (bi_ip b) (bi_port b) vi) m
          end
      end.

(** [handle_free] does nothing. *)
Definition mon_handle_free (m : monitor) : monitor := m.

(** The answers of the boards; [None] when a board cannot be reached. *)
Definition mig_answer := migration_msg -> option Z.
Definition migration_notify (ask : mig_answer) (msg : migration_msg) : Z :=
  match ask msg with None => - EIO | Some r => r end.

(** The [ret] of the response, and the requests sent to the boards.  [None] also
    stands for the use of the region of a process that is not there. *)
Definition handle_migration_h2m (m : monitor) (ask : mig_answer) (pid : Z) (op : op_migration) : option (Z * list migration_msg * monitor) :=
  src ← find_board (bds (m_net m)) (src_board_ip op) (src_udp_port op);
  match src with
  | None => Some (- EFAULT, [], m)
  | Some src_bi =>
      dst ← find_board (bds (m_net m)) (dst_board_ip op) (dst_udp_port op);
      match dst with
      | None => Some (- EFAULT, [], m)
      | Some dst_bi =>
          if negb (migration_notify ask (M2B_RECV dst_bi) =? 0) then Some (- EFAULT, [M2B_RECV dst_bi], m)
          else if negb (migration_notify ask (M2B_SEND src_bi) =? 0) then
            Some (- EFAULT, [M2B_RECV dst_bi; M2B_SEND src_bi; M2B_RECV_CANCEL dst_bi], m)
          else
            '(p, m) ← mon_get_proc m pid;
            if p =? 0 then None
            else if NR_VREGIONS <=? mig_vregion op then None
            else
              let b := bi_at (m_net m) dst_bi in
              let v := m_regions m p (mig_vregion op) in
              Some (0, [M2B_RECV dst_bi; M2B_SEND src_bi], set_region m p (mig_vregion op) (MVregion (mv_flags v) (bi_ip b) (bi_port b)))
      end
  end.

(** [handle_join_cluster] after the checks: the new node is added, and then told of
    each node that was already there. *)
Definition join_node (cfg : transport) (m : monitor) (net_up mac_found : bool) (type mem ip port : Z) : option (Z * list new_node * monitor) :=
  if negb mac_found then Some (- EINVAL, [], m)
  else
    '(r, p) ← add_board cfg (m_net m) net_up mem ip port (global_base_udp_port (m_net m)) false;
    let m := set_net m p in
    match r with
    | None => Some (- ENOMEM, [], m)
    | Some new_bi =>
        let m := set_net m (or_flags (m_net m) new_bi type) in
        let b := bds (m_net m) in
        l ← hash_for_each chain_fuel (board_list b) (fun j => j) 0 (Z.to_nat (2 ^ BOARD_HASH_ARRAY_BITS));
        let others := filter (fun i => i <> new_bi /\ special_board_info_type (bi_flags (board_info_map b i)) = false) l in
        Some (0, map (fun i => let x := board_info_map b i in
                               NewNode (Z.land (bi_flags x) BOARD_INFO_FLAGS_BITS_MASK) (mem_total x) (bi_ip x) (bi_port x)) others, m)
    end.

(** The [ret] of the response, and the messages sent to the new node. *)
Definition handle_join_cluster (cfg : transport) (m : monitor) (net_up mac_found : bool) (type mem ip port : Z) : option (Z * list new_node * monitor) :=
  if type =? BOARD_INFO_FLAGS_HOST then join_node cfg (set_counts m (sys_nr_hosts m + 1) (sys_nr_boards m)) net_up mac_found type mem ip port
  else if type =? BOARD_INFO_FLAGS_BOARD then join_node cfg (set_counts m (sys_nr_hosts m) (sys_nr_boards m + 1)) net_up mac_found type mem ip port
  else Some (- EINVAL, [], m).

(** ** Dispatch *)

Inductive mon_request :=
  | R_ALLOC (pid len : Z) | R_FREE | R_CREATE_PROC (src_ip : Z) | R_FREE_PROC (pid : Z)
  | R_OPEN_SESSION (ip port id : Z) | R_CLOSE_SESSION (ip port id : Z)
  | R_MIGRATION_H2M (pid : Z) (op : op_migration) | R_MIGRATION_B2M
  | R_JOIN_CLUSTER (type mem ip port : Z) | R_OTHER.
Inductive mon_reply :=
  | A_ALLOC (r : alloc_resp) | A_NONE | A_CREATE (ret pid : Z) | A_RET (ret : Z) | A_SESSION (id : Z)
  | A_MIGRATION (ret : Z) (sent : list migration_msg) | A_JOIN (ret : Z) (sent : list new_node).

(** What the network and the boards answer while a request is handled. *)
Record env := Env { e_net_up : bool; e_thread_up : bool; e_mac_found : bool; e_boards : mig_answer }.

Definition mon_worker_handle_request (cfg : transport) (e : env) (m : monitor) (req : mon_request) : option (mon_reply * monitor) :=
  match req with
  | R_ALLOC pid len => '(r, m) ← mon_handle_alloc m pid len; Some (A_ALLOC r, m)
  | R_FREE => Some (A_NONE, mon_handle_free m)
  | R_CREATE_PROC ip => '(ret, pid, m) ← mon_handle_create_proc m ip; Some (A_CREATE ret pid, m)
  | R_FREE_PROC pid => '(ret, m) ← mon_handle_free_proc m pid; Some (A_RET ret, m)
  | R_OPEN_SESSION ip port id => '(r, p) ← host_handle_open_session (m_net m) (e_net_up e) (e_thread_up e) ip port id; Some (A_SESSION r, set_net m p)
  | R_CLOSE_SESSION ip port id => '(r, p) ← host_handle_close_session (m_net m) ip port id; Some (A_SESSION r, set_net m p)
  | R_MIGRATION_H2M pid op => '(ret, sent, m) ← handle_migration_h2m m (e_boards e) pid op; Some (A_MIGRATION ret sent, m)
  | R_MIGRATION_B2M => Some (A_NONE, m)
  | R_JOIN_CLUSTER type mem ip port =>
      '(ret, sent, m) ← handle_join_cluster cfg m (e_net_up e) (e_mac_found e) type mem ip port; Some (A_JOIN ret sent, m)
  | R_OTHER => Some (A_NONE, m)
  end.
End handlers.
