(* ===== verification/MonitorProofs.v ===== *)
(** * The monitor: invariant

    [mon_inv]: the live processes have distinct ids in use, and the regions a
    process has not been given together with those it has are all its regions. *)

From stdpp Require Import functions.
From S2P Require Import Prelude Bitops DList Hlist HashFamily Process Gbn Session Peer PeerProofs PeerSpec Monitor.

#[local] Set Warnings "-clear-no-such-hyp".

(** ** The choice of a board *)

Definition is_memory_board (m : monitor) (i : Z) : Prop :=
  nr_alloc_board_base <= i <= nr_max_board_id (bds (m_net m)) /\ Z.land (bi_flags (bi_at (m_net m) i)) BOARD_INFO_FLAGS_BOARD <> 0.

(** [k] is met before [bi] when the search starts at [i]. *)
Definition met_before (m : monitor) (i bi k : Z) : Prop :=
  nr_alloc_board_base <= k <= nr_max_board_id (bds (m_net m)) /\ (if i <=? bi then i <= k < bi else i <= k \/ k < bi).

Definition next_index (m : monitor) (i : Z) : Z := if i =? nr_max_board_id (bds (m_net m)) then nr_alloc_board_base else i + 1.

(** How far [j] is from [i] in the order of the search. *)
Definition distance (m : monitor) (i j : Z) : Z :=
  if i <=? j then j - i else nr_max_board_id (bds (m_net m)) - i + 1 + (j - nr_alloc_board_base).

Definition index_ok (m : monitor) : Prop :=
  nr_alloc_board_base <= nr_alloc_board_index m /\
  (nr_alloc_board_index m = nr_alloc_board_base \/ nr_alloc_board_index m <= nr_max_board_id (bds (m_net m))).

Lemma find_board_repeat_spec fuel m j : nr_alloc_board_base <= nr_alloc_board_index m <= nr_max_board_id (bds (m_net m)) ->
  nr_max_board_id (bds (m_net m)) < NR_MAX_BOARDS -> is_memory_board m j -> distance m (nr_alloc_board_index m) j < Z.of_nat fuel ->
  exists bi, find_board_repeat fuel m = Some (bi, set_board_index m (next_index m bi)) /\ is_memory_board m bi /\
    forall k, met_before m (nr_alloc_board_index m) bi k -> ~ is_memory_board m k.
Proof.
  revert m. induction fuel as [|fuel IH]; intros m Hi Hmax Hj Hd.
  - destruct Hj as [Hj _]. unfold distance in Hd. destruct (Z.leb_spec (nr_alloc_board_index m) j); lia.
  - cbn [find_board_repeat]. unfold find_board_by_id. rewrite (proj2 (Z.ltb_ge _ _)) by lia. cbn [mbind option_bind]. set (i := nr_alloc_board_index m) in *.
    destruct (Z.eqb_spec (Z.land (bi_flags (board_info_map (bds (m_net m)) i)) BOARD_INFO_FLAGS_BOARD) 0) as [E|E].
    + fold (next_index m i). set (m' := set_board_index m (next_index m i)).
      assert (Hne : j <> i) by (intros ->; now destruct Hj). pose proof Hj as [Hjr _]. unfold nr_alloc_board_base in *.
      assert (Hn : next_index m i = (if i =? nr_max_board_id (bds (m_net m)) then 2 else i + 1)) by reflexivity.
      assert (Hi' : nr_alloc_board_index m' = next_index m i) by reflexivity. assert (Hm' : m_net m' = m_net m) by reflexivity.
      destruct (IH m') as (bi & E1 & H1 & H2); rewrite ?Hi', ?Hm', ?Hn.
      * destruct (Z.eqb_spec i (nr_max_board_id (bds (m_net m)))); lia.
      * exact Hmax.
      * unfold is_memory_board. now rewrite Hm'.
      * unfold distance in *. rewrite Hm'. unfold nr_alloc_board_base in *. destruct (Z.eqb_spec i (nr_max_board_id (bds (m_net m)))); revert Hd; case_bools; lia.
      * exists bi. split; [exact E1|]. split; [exact H1|]. intros k [Hk Hmet].
        destruct (Z.eq_dec k i) as [->|Hki]; [intros [_ Hf]; now apply Hf|]. apply H2. split; [exact Hk|]. rewrite Hi', Hn.
        destruct H1 as [Hb1 Hb2]. rewrite Hm' in Hb1, Hb2. assert (bi <> i) by (intros ->; now apply Hb2). unfold nr_alloc_board_base in *.
        destruct (Z.eqb_spec i (nr_max_board_id (bds (m_net m)))); revert Hmet; case_bools; lia.
    + exists i. split; [reflexivity|]. split; [now split|]. intros k [_ Hmet]. rewrite Z.leb_refl in Hmet. lia.
Qed.

(** Without a memory board the search never ends. *)
Lemma find_board_repeat_diverges fuel m : nr_alloc_board_base <= nr_alloc_board_index m <= nr_max_board_id (bds (m_net m)) ->
  (forall j, ~ is_memory_board m j) -> find_board_repeat fuel m = None.
Proof.
  revert m. induction fuel as [|fuel IH]; intros m Hi Hno; [reflexivity|]. cbn [find_board_repeat]. unfold find_board_by_id.
  destruct (NR_MAX_BOARDS <? nr_alloc_board_index m); [reflexivity|]. cbn [mbind option_bind].
  destruct (Z.eqb_spec (Z.land (bi_flags (board_info_map (bds (m_net m)) (nr_alloc_board_index m))) BOARD_INFO_FLAGS_BOARD) 0) as [E|E]; [|now destruct (Hno (nr_alloc_board_index m))].
  apply IH; [|exact Hno]. cbn. unfold nr_alloc_board_base in *. destruct (Z.eqb_spec (nr_alloc_board_index m) (nr_max_board_id (bds (m_net m)))); lia.
Qed.

(** ** Processes and their regions *)

(** All the regions a process can be given. *)
Definition all_regions : list Z := seqZ 1 (NR_VREGIONS - 1).
#[global] Opaque all_regions.

Lemma all_regions_spec i : i ∈ all_regions <-> 1 <= i < NR_VREGIONS.
Proof. Transparent all_regions. unfold all_regions. rewrite elem_of_seqZ. lia. Opaque all_regions. Qed.

(** [ps] are the live processes; [g pid] are the regions process [pid] was given. *)
Record mon_inv (ps : list Z) (g : Z -> list Z) (m : monitor) : Prop := {
  mi_procs : ptable_inv MON_PID_HASH_BITS (m_procs m) ps;
  mi_map : bitmap_fits (pid_map m) NR_MAX_USER_PID;
  mi_pid a : a ∈ ps -> 1 <= pid_at (m_procs m) a < NR_MAX_USER_PID /\ bm_bit (pid_map m) (pid_at (m_procs m) a) = true;
  mi_count a : a ∈ ps -> refcount (pmem (m_procs m) a) < 2 ^ 31 - 1;
  mi_regions a : a ∈ ps -> exists l, unused (pmem (m_procs m) a) l /\ Permutation (l ++ g (pid_at (m_procs m) a)) all_regions;
  mi_fresh pid : 1 <= pid < NR_MAX_USER_PID -> bm_bit (pid_map m) pid = false -> g pid = [];
  mi_given pid : NoDup (g pid) /\ forall i, i ∈ g pid -> i ∈ all_regions;
  mi_index : index_ok m;
}.

Lemma mon_bits_ok : 0 <= MON_PID_HASH_BITS <= 32.
Proof. split; vm_compute; discriminate. Qed.
#[local] Hint Resolve mon_bits_ok : core.

Lemma all_regions_nodup : NoDup all_regions.
Proof. Transparent all_regions. apply NoDup_seqZ. Opaque all_regions. Qed.

(** The ids in use and those of the processes are the same. *)
Definition same_ids (m m' : monitor) : Prop := pid_map m' = pid_map m /\ forall b, pid_at (m_procs m') b = pid_at (m_procs m) b.

(** One process changes its count or its list; the ids stay. *)
Lemma mon_inv_update ps g g' m m' a : mon_inv ps g m -> a ∈ ps -> pid_map m' = pid_map m -> index_ok m' ->
  phash (m_procs m') = phash (m_procs m) -> pavail (m_procs m') = pavail (m_procs m) -> (forall b, b <> a -> pmem (m_procs m') b = pmem (m_procs m) b) ->
  pid_at (m_procs m') a = pid_at (m_procs m) a -> 0 < refcount (pmem (m_procs m') a) < 2 ^ 31 - 1 ->
  (forall q, q <> pid_at (m_procs m) a -> g' q = g q) ->
  (exists l, unused (pmem (m_procs m') a) l /\ Permutation (l ++ g' (pid_at (m_procs m) a)) all_regions) -> mon_inv ps g' m'.
Proof.
  intros Hm Ha Hmap Hix Hh Hav Hb Hpa Hr Hg Hl. pose proof (mi_procs _ _ _ Hm) as Ht.
  assert (Hpid : forall b, pid_at (m_procs m') b = pid_at (m_procs m) b).
  { intros b. destruct (decide (b = a)) as [->|Hne]; [auto|]. unfold pid_at. now rewrite Hb. }
  split; rewrite ?Hmap; try apply Hm; auto.
  - split; rewrite ?Hh, ?Hav; try apply Ht.
    + unfold key_rep. rewrite Hh. eapply hash_rep_key; [|apply Ht]. intros n _. apply Hpid.
    + intros x y Hx Hy. rewrite !Hpid. now apply Ht.
    + intros x Hx. destruct (decide (x = a)) as [->|Hne]; [split; [now apply (pt_live _ _ _ Ht)|lia]|rewrite Hb by auto; now apply Ht].
  - intros x Hx. rewrite Hpid. now apply (mi_pid _ _ _ Hm).
  - intros x Hx. destruct (decide (x = a)) as [->|Hne]; [lia|]. rewrite Hb by auto. now apply (mi_count _ _ _ Hm).
  - intros x Hx. rewrite Hpid. destruct (decide (x = a)) as [->|Hne]; [exact Hl|]. rewrite Hb, Hg by (auto; intros E; apply Hne; now apply (pt_pids _ _ _ Ht)).
    now apply (mi_regions _ _ _ Hm).
  - intros q Hq Hz. destruct (decide (q = pid_at (m_procs m) a)) as [->|Hne]; [destruct (mi_pid _ _ _ Hm a Ha); congruence|]. rewrite Hg by auto. now apply (mi_fresh _ _ _ Hm).
  - intros q. destruct (decide (q = pid_at (m_procs m) a)) as [->|Hne]; [|rewrite Hg by auto; now apply (mi_given _ _ _ Hm)].
    destruct Hl as (l & _ & Hp). split.
    + pose proof all_regions_nodup as Hd. rewrite <- Hp in Hd. now apply NoDup_app in Hd as (_ & _ & ?).
    + intros i Hi. rewrite <- Hp. apply elem_of_app. auto.
Qed.

Section with_fuel.
Context (tries fuel : nat) (Htries : NR_MAX_BOARDS <= Z.of_nat tries) (Hfuel : NR_MAX_USER_PID <= Z.of_nat fuel).

Lemma live_bound ps g m : mon_inv ps g m -> (length ps < fuel)%nat.
Proof.
  intros Hm. pose proof (mi_procs _ _ _ Hm) as Ht. assert (Hlen : (length (map (pid_at (m_procs m)) ps) <= length (seqZ 1 (NR_MAX_USER_PID - 1)))%nat).
  { apply submseteq_length, NoDup_submseteq.
    - apply NoDup_fmap_2_strong; [|apply (pt_rep _ _ _ Ht)]. intros x y Hx Hy. now apply (pt_pids _ _ _ Ht).
    - intros x (a & -> & Ha)%list_elem_of_fmap. apply elem_of_seqZ. destruct (mi_pid _ _ _ Hm a Ha). lia. }
  rewrite length_map, length_seqZ in Hlen. unfold NR_MAX_USER_PID in *. lia.
Qed.

(** Taking and dropping a reference to the process with an id. *)
Lemma mon_get_spec ps g m pid : mon_inv ps g m ->
  (exists a t, a ∈ ps /\ pid_at (m_procs m) a = pid /\ mon_get_proc fuel m pid = Some (a, set_procs m t) /\ same_but_count a (m_procs m) t /\
     refcount (pmem t a) = refcount (pmem (m_procs m) a) + 1) \/
  ((forall a, a ∈ ps -> pid_at (m_procs m) a <> pid) /\ mon_get_proc fuel m pid = Some (0, set_procs m (m_procs m))).
Proof.
  intros Hm. destruct (get_proc_spec _ fuel mon_bits_ok (m_procs m) ps pid (mi_procs _ _ _ Hm) (live_bound _ _ _ Hm)) as [(a & Ha & Hp & H)|[Hno E]].
  - left. destruct (H (mi_count _ _ _ Hm a Ha)) as (t & E & Hs & Hr). exists a, t. split_and!; auto. unfold mon_get_proc. now rewrite E.
  - right. split; [auto|]. unfold mon_get_proc. now rewrite E.
Qed.

Lemma mon_put_spec m a : 1 < refcount (pmem (m_procs m) a) < 2 ^ 31 ->
  exists t, mon_put_proc fuel m a = Some (set_procs m t) /\ same_but_count a (m_procs m) t /\ refcount (pmem t a) = refcount (pmem (m_procs m) a) - 1.
Proof.
  intros Hr. destruct (put_proc_more (mon_free_proc MON_PID_HASH_BITS fuel) (m_procs m) a Hr) as (t & E & Hs & Hc). exists t. split; [|auto]. unfold mon_put_proc. now rewrite E.
Qed.

(** Process [a] holds one more reference, and its list may have changed. *)
Record holding (m : monitor) (a : Z) (m2 : monitor) : Prop := {
  hd_map : pid_map m2 = pid_map m;
  hd_hash : phash (m_procs m2) = phash (m_procs m);
  hd_avail : pavail (m_procs m2) = pavail (m_procs m);
  hd_others b : b <> a -> pmem (m_procs m2) b = pmem (m_procs m) b;
  hd_pid : pid_at (m_procs m2) a = pid_at (m_procs m) a;
  hd_count : refcount (pmem (m_procs m2) a) = refcount (pmem (m_procs m) a) + 1;
}.

(** The end of a handler: the reference is dropped. *)
Lemma mon_out ps g g' m m2 a : mon_inv ps g m -> a ∈ ps -> holding m a m2 -> index_ok m2 ->
  (forall q, q <> pid_at (m_procs m) a -> g' q = g q) ->
  (exists l, unused (pmem (m_procs m2) a) l /\ Permutation (l ++ g' (pid_at (m_procs m) a)) all_regions) ->
  exists m', mon_put_proc fuel m2 a = Some m' /\ mon_inv ps g' m' /\ m_net m' = m_net m2 /\ same_ids m m'.
Proof.
  intros Hm Ha [H1 H2 H3 H4 H5 H6] Hix Hg (l & Hl & Hp). pose proof (mi_count _ _ _ Hm a Ha) as Hc. destruct (pt_live _ _ _ (mi_procs _ _ _ Hm) a Ha) as [_ Hpos].
  destruct (mon_put_spec m2 a ltac:(lia)) as (t & E & (S1 & S2 & S3 & S4) & Hr). exists (set_procs m2 t). split; [exact E|]. split.
  2: { split; [easy|]. split; [exact H1|]. intros b. cbn. unfold pid_at in *. destruct (decide (b = a)) as [->|Hne]; [rewrite S4; exact H5|now rewrite S3, H4]. }
  apply (mon_inv_update ps g g' m _ a); auto; cbn [m_procs set_procs].
  - now rewrite S1.
  - now rewrite S2.
  - intros b Hb. now rewrite S3, H4.
  - unfold pid_at in *. rewrite S4. exact H5.
  - rewrite Hr. lia.
  - exists l. split; [|auto]. rewrite S4. exact Hl.
Qed.

Lemma alloc_vregion_spec m a l : unused (pmem (m_procs m) a) l ->
  match alloc_vregion m a with
  | (None, m') => l = [] /\ m' = m
  | (Some v, m') => exists l', l = v :: l' /\ unused (pmem (m_procs m') a) l' /\ m_net m' = m_net m /\ nr_alloc_board_index m' = nr_alloc_board_index m /\
      forall m0, holding m0 a m -> holding m0 a m'
  end.
Proof.
  intros Hl. unfold alloc_vregion. pose proof (dequeue_unused _ _ Hl) as H. destruct (vregion_freelist_dequeue_head _) as [[v|] p']; [|tauto].
  destruct H as (l' & -> & Hl' & Hpid & Hr). exists l'. cbn. rewrite fn_lookup_insert. split_and!; auto. intros m0 [H1 H2 H3 H4 H5 H6]. split; cbn; auto.
  - intros b Hb. rewrite fn_lookup_insert_ne by auto. now apply H4.
  - unfold pid_at in *. cbn. now rewrite fn_lookup_insert, Hpid.
  - now rewrite fn_lookup_insert, Hr.
Qed.

Lemma free_vregion_spec m a l v : unused (pmem (m_procs m) a) l -> v ∉ l -> 0 <= v ->
  unused (pmem (m_procs (free_vregion m a v)) a) (l ++ [v]) /\ forall m0, holding m0 a m -> holding m0 a (free_vregion m a v).
Proof.
  intros Hl Hv H0. cbn. rewrite fn_lookup_insert. split; [now apply enqueue_unused|]. intros m0 [H1 H2 H3 H4 H5 H6]. split; cbn; auto.
  - intros b Hb. rewrite fn_lookup_insert_ne by auto. now apply H4.
  - unfold pid_at in *. cbn. now rewrite fn_lookup_insert.
  - now rewrite fn_lookup_insert.
Qed.

(** The answer to an allocation request of a live process. *)
Inductive alloc_answer (m : monitor) (given : list Z) (len : Z) : alloc_resp -> option Z -> Prop :=
  | ans_inval : len = 0 -> alloc_answer m given len (alloc_error (- EINVAL)) None
  | ans_nomem : len <> 0 -> Permutation given all_regions -> alloc_answer m given len (alloc_error (- ENOMEM)) None
  | ans_nodev : len <> 0 -> nr_online_boards (bds (m_net m)) = 0 -> alloc_answer m given len (alloc_error (- ENODEV)) None
  | ans_ok bi i : len <> 0 -> i ∈ all_regions -> i ∉ given -> is_memory_board m bi ->
      (forall k, met_before m (nr_alloc_board_index m) bi k -> ~ is_memory_board m k) ->
      alloc_answer m given len (AllocResp 0 (bi_ip (bi_at (m_net m) bi)) (bi_port (bi_at (m_net m) bi)) i) (Some i).

Lemma find_board_answer m j : index_ok m -> nr_max_board_id (bds (m_net m)) < NR_MAX_BOARDS -> nr_online_boards (bds (m_net m)) <> 0 -> is_memory_board m j ->
  exists bi, handle_alloc_find_board tries m = Some (Some bi, set_board_index m (next_index m bi)) /\ is_memory_board m bi /\
    (forall k, met_before m (nr_alloc_board_index m) bi k -> ~ is_memory_board m k) /\ index_ok (set_board_index m (next_index m bi)).
Proof.
  intros [Hi1 Hi2] Hmax Hon Hj. pose proof Hj as [Hjr _]. unfold handle_alloc_find_board. rewrite (proj2 (Z.eqb_neq _ _) Hon).
  destruct (find_board_repeat_spec tries m j) as (bi & E & Hb & Hmet); auto; [lia| |].
  - unfold distance, nr_alloc_board_base, NR_MAX_BOARDS in *. case_bools; lia.
  - exists bi. rewrite E. cbn [mbind option_bind]. split; [reflexivity|]. split; [exact Hb|]. split; [exact Hmet|]. destruct Hb as [Hb _].
    unfold index_ok, next_index, nr_alloc_board_base in *. cbn. destruct (Z.eqb_spec bi (nr_max_board_id (bds (m_net m)))); lia.
Qed.

(** The regions given after an answer. *)
Definition give (g : Z -> list Z) (pid : Z) (r : option Z) : Z -> list Z :=
  match r with Some i => <[pid := i :: g pid]> g | None => g end.

Lemma give_other g pid r q : q <> pid -> give g pid r q = g q.
Proof. intros Hq. destruct r; cbn; [now rewrite fn_lookup_insert_ne by auto|easy]. Qed.

Lemma get_holding m a t : same_but_count a (m_procs m) t -> refcount (pmem t a) = refcount (pmem (m_procs m) a) + 1 -> holding m a (set_procs m t).
Proof. intros (S1 & S2 & S3 & S4) Hr. split; cbn; auto. unfold pid_at. now rewrite S4. Qed.

Lemma mon_alloc_spec ps g m pid len : mon_inv ps g m -> nr_max_board_id (bds (m_net m)) < NR_MAX_BOARDS ->
  (nr_online_boards (bds (m_net m)) = 0 \/ exists j, is_memory_board m j) ->
  exists resp r m', mon_handle_alloc tries fuel m pid len = Some (resp, m') /\ m_net m' = m_net m /\ same_ids m m' /\ mon_inv ps (give g pid r) m' /\
    ((forall a, a ∈ ps -> pid_at (m_procs m) a <> pid) /\ resp = alloc_error (- ESRCH) /\ r = None \/
     (exists a, a ∈ ps /\ pid_at (m_procs m) a = pid) /\ alloc_answer m (g pid) len resp r).
Proof.
  intros Hm Hmax Hon. unfold mon_handle_alloc. destruct (mon_get_spec ps g m pid Hm) as [(a & t & Ha & Hp & -> & Hs & Hr)|[Hno ->]]; cbn [mbind option_bind].
  2: { exists (alloc_error (- ESRCH)), None, (set_procs m (m_procs m)). cbn. split; [easy|]. split; [easy|]. split; [easy|]. split; [|left; auto]. destruct Hm as [? ? ? ? ? ? ? ?]; now split. }
  destruct (pt_live _ _ _ (mi_procs _ _ _ Hm) a Ha) as [Ha0 _]. rewrite (proj2 (Z.eqb_neq _ _) Ha0). pose proof (get_holding m a t Hs Hr) as Hh. set (m1 := set_procs m t) in *.
  destruct (mi_regions _ _ _ Hm a Ha) as (l & Hl & Hperm). rewrite Hp in Hperm.
  assert (Hl1 : unused (pmem (m_procs m1) a) l) by (cbn; destruct Hs as (_ & _ & _ & ->); exact Hl).
  assert (Hend : forall r m2 resp, holding m a m2 -> index_ok m2 -> m_net m2 = m_net m -> (exists l, unused (pmem (m_procs m2) a) l /\ Permutation (l ++ give g pid r pid) all_regions) ->
    alloc_answer m (g pid) len resp r -> exists resp' r' m', (m' ← mon_put_proc fuel m2 a; Some (resp, m')) = Some (resp', m') /\ m_net m' = m_net m /\ same_ids m m' /\ mon_inv ps (give g pid r') m' /\
      ((forall a, a ∈ ps -> pid_at (m_procs m) a <> pid) /\ resp' = alloc_error (- ESRCH) /\ r' = None \/ (exists a, a ∈ ps /\ pid_at (m_procs m) a = pid) /\ alloc_answer m (g pid) len resp' r')).
  { intros r m2 resp H1 H2 H3 H4 H5. destruct (mon_out ps g (give g pid r) m m2 a Hm Ha H1 H2) as (m' & E & Hinv & Hnet & Hids); [rewrite Hp; apply give_other|now rewrite Hp|].
    rewrite E. cbn [mbind option_bind]. exists resp, r, m'. split; [easy|]. split; [congruence|]. split; [auto|]. split; [auto|]. right. split; [eauto|auto]. }
  pose proof (mi_index _ _ _ Hm) as Hix. destruct (Z.eqb_spec len 0) as [Hlen|Hlen]; [apply (Hend None m1); auto; [eauto|now constructor]|].
  pose proof (alloc_vregion_spec m1 a l Hl1) as Hv. destruct (alloc_vregion m1 a) as [[v|] m2].
  2: { destruct Hv as [-> ->]. apply (Hend None m1); auto; [exists []; auto|]. now apply ans_nomem. }
  destruct Hv as (l' & -> & Hl2 & Hn2 & Hi2 & Hh2). specialize (Hh2 m Hh). pose proof (all_regions_nodup) as Hnd. rewrite <- Hperm in Hnd. cbn in Hnd. apply NoDup_cons in Hnd as [Hv1 Hnd].
  rewrite not_elem_of_app in Hv1. destruct Hv1 as [Hvl Hvg]. assert (Hva : v ∈ all_regions) by (rewrite <- Hperm; left). pose proof (proj1 (all_regions_spec v) Hva) as Hvr.
  assert (Hix2 : index_ok m2) by (unfold index_ok in *; now rewrite Hn2, Hi2). destruct (decide (nr_online_boards (bds (m_net m)) = 0)) as [Hz|Hz].
  - unfold handle_alloc_find_board. rewrite Hn2. cbn [m_net m1 set_procs]. rewrite Hz. cbn [Z.eqb mbind option_bind].
    destruct (free_vregion_spec m2 a l' v Hl2 Hvl ltac:(lia)) as [Hl3 Hh3]. apply (Hend None); auto; [|now apply ans_nodev].
    exists (l' ++ [v]). split; [exact Hl3|]. cbn [give]. rewrite <- Hperm. cbn. rewrite <- app_assoc. symmetry. apply Permutation_middle.
  - destruct Hon as [?|(j & Hj)]; [contradiction|]. destruct (find_board_answer m2 j Hix2) as (bi & -> & Hb & Hmet & Hix3); [now rewrite Hn2..|unfold is_memory_board; now rewrite Hn2|].
    cbn [mbind option_bind]. rewrite (proj2 (Z.leb_gt _ _)) by lia. set (m3 := set_board_index m2 _) in *.
    assert (Hnet : m_net m3 = m_net m) by (unfold m3; cbn; now rewrite Hn2). rewrite Hnet.
    apply (Hend (Some v) m3); auto; [destruct Hh2; now split| |].
    + exists l'. split; [exact Hl2|]. cbn [give]. rewrite fn_lookup_insert, <- Hperm. symmetry. apply Permutation_middle.
    + apply ans_ok; auto; [unfold is_memory_board in *; now rewrite Hn2 in Hb|]. intros k Hk Hmk. apply (Hmet k); unfold met_before, is_memory_board in *; now rewrite ?Hn2, ?Hi2.
Qed.

(** ** Creation and release *)

Lemma mon_map_length ps g m : mon_inv ps g m -> NR_MAX_USER_PID <= 64 * Z.of_nat (length (pid_map m)).
Proof. intros Hm. destruct (mi_map _ _ _ Hm) as (_ & H & _). clear Htries Hfuel. lia. Qed.

(** Only the ids in use change, and those of the live processes stay in use. *)
Lemma mon_inv_map ps g m x : mon_inv ps g m -> bitmap_fits x NR_MAX_USER_PID ->
  (forall q, 1 <= q < NR_MAX_USER_PID -> bm_bit (pid_map m) q = true -> bm_bit x q = true) -> mon_inv ps g (set_pid_map m x).
Proof.
  intros Hm Hx Hb. destruct Hm as [? ? Hpid ? ? Hfresh ? ?]. split; auto; cbn [pid_map set_pid_map m_procs].
  - intros a Ha. destruct (Hpid a Ha). auto.
  - intros q Hq Hz. apply Hfresh; [auto|]. destruct (bm_bit (pid_map m) q) eqn:E; [|easy]. rewrite Hb in Hz; auto.
Qed.

Lemma alloc_pid_spec ps g m : mon_inv ps g m ->
  (exists pid, alloc_pid m = (pid, set_pid_map m (__set_bit pid (pid_map m))) /\ 1 <= pid < NR_MAX_USER_PID /\ bm_bit (pid_map m) pid = false /\
     (forall q, 1 <= q < pid -> bm_bit (pid_map m) q = true) /\ mon_inv ps g (set_pid_map m (__set_bit pid (pid_map m)))) \/
  (alloc_pid m = (-1, m) /\ forall q, 1 <= q < NR_MAX_USER_PID -> bm_bit (pid_map m) q = true).
Proof.
  intros Hm. pose proof (mi_map _ _ _ Hm) as Hf. pose proof (mon_map_length ps g m Hm) as Hlen. unfold alloc_pid.
  destruct (lowest_zero_bit (pid_map m) NR_MAX_USER_PID 1 Hf ltac:(now split; vm_compute)) as [(H1 & Hz & Hlow)|(H1 & Hall)].
  - left. set (b := find_next_zero_bit _ _ _) in *. rewrite (proj2 (Z.leb_gt _ _)) by lia. exists b. split_and!; auto; try lia.
    apply mon_inv_map; [auto|now apply set_bit_fits|]. intros q Hq E. rewrite __set_bit_bit by lia. rewrite E. apply orb_true_r.
  - right. rewrite H1. change (NR_MAX_USER_PID <=? NR_MAX_USER_PID) with true. auto.
Qed.

Lemma new_proc_spec ps g m pid ip : mon_inv ps g m -> 1 <= pid < NR_MAX_USER_PID -> bm_bit (pid_map m) pid = true ->
  (forall a, a ∈ ps -> pid_at (m_procs m) a <> pid) -> g pid = [] ->
  (pavail (m_procs m) = [] /\ mon_new_proc m pid ip = (0, m)) \/
  (exists a m', mon_new_proc m pid ip = (a, m') /\ a <> 0 /\ (a ∉ ps) /\ mon_inv (a :: ps) g m' /\ pid_at (m_procs m') a = pid /\
     refcount (pmem (m_procs m') a) = 1 /\ m_net m' = m_net m /\ pid_map m' = pid_map m /\ forall b, b ∈ ps -> pid_at (m_procs m') b = pid_at (m_procs m) b).
Proof.
  intros Hm Hpid Hbit Hno Hg. pose proof (mi_procs _ _ _ Hm) as Ht. unfold mon_new_proc, mon_alloc_proc. destruct (pavail (m_procs m)) as [|new l] eqn:Hav; [auto|right].
  pose proof (pt_avail _ _ _ Ht new ltac:(rewrite Hav; left)) as [Hnew Hn0]. rewrite (proj2 (Z.eqb_neq _ _) Hn0).
  destruct (init_proc_info_spec (pmem (m_procs m) new)) as (Hun & _ & Hone). generalize dependent (init_proc_info (pmem (m_procs m) new)). intros q Hun Hone.
  set (p := set_host_ip (set_pid q pid) ip). pose proof (insert_proc _ mon_bits_ok (m_procs m) ps new l p Ht Hav ltac:(cbn; rewrite Hone; lia) Hno) as Hi. cbn zeta in Hi.
  eexists new, _. split; [reflexivity|]. change (p_pid p) with pid in Hi. set (t := set_phash _ _) in *. split; [auto|]. split; [auto|].
  assert (Hat : pmem t new = p) by (cbn; apply fn_lookup_insert). assert (Hoth : forall b, b ∈ ps -> pmem t b = pmem (m_procs m) b) by (intros b Hb; cbn; apply fn_lookup_insert_ne; congruence).
  split; [|cbn [m_procs mon_init_regions set_procs m_net pid_map]; unfold pid_at; rewrite Hat; split_and!; auto; intros b Hb; now rewrite Hoth].
  split; cbn [m_procs mon_init_regions set_procs pid_map]; try apply Hm; [exact Hi| | |].
  - intros a [->|Ha]%elem_of_cons; unfold pid_at; [rewrite Hat; auto|]. rewrite Hoth by auto. now apply (mi_pid _ _ _ Hm).
  - intros a [->|Ha]%elem_of_cons; [rewrite Hat; cbn; rewrite Hone; lia|]. rewrite Hoth by auto. now apply (mi_count _ _ _ Hm).
  - intros a [->|Ha]%elem_of_cons; unfold pid_at; [rewrite Hat|rewrite Hoth by auto; now apply (mi_regions _ _ _ Hm)].
    exists all_regions. split; [exact Hun|]. change (p_pid p) with pid. rewrite Hg, app_nil_r. reflexivity.
Qed.

Lemma mon_create_spec ps g m ip q0 : mon_inv ps g m -> 1 <= q0 < NR_MAX_USER_PID -> bm_bit (pid_map m) q0 = false ->
  exists ret pid m', mon_handle_create_proc m ip = Some (ret, pid, m') /\ m_net m' = m_net m /\
    (ret = - ENOMEM /\ pavail (m_procs m) = [] /\ mon_inv ps g m' /\ m_procs m' = m_procs m /\ (forall q, 0 <= q -> bm_bit (pid_map m') q = bm_bit (pid_map m) q) \/
     ret = 0 /\ 1 <= pid <= q0 /\ bm_bit (pid_map m) pid = false /\ g pid = [] /\
     (forall q, 0 <= q -> bm_bit (pid_map m') q = (q =? pid) || bm_bit (pid_map m) q) /\
     exists a, (a ∉ ps) /\ mon_inv (a :: ps) g m' /\ pid_at (m_procs m') a = pid /\ refcount (pmem (m_procs m') a) = 1 /\
       forall b, b ∈ ps -> pid_at (m_procs m') b = pid_at (m_procs m) b).
Proof.
  intros Hm Hq0 Hz0. unfold mon_handle_create_proc. destruct (alloc_pid_spec ps g m Hm) as [(pid & -> & Hpid & Hz & Hlow & Hm1)|[_ Hall]]; [|rewrite Hall in Hz0 by auto; discriminate].
  rewrite wrap32_small by (unfold NR_MAX_USER_PID in Hpid; lia). rewrite (proj2 (Z.ltb_ge _ _)) by lia. pose proof (mon_map_length ps g m Hm) as Hlen.
  assert (Hset : bm_bit (__set_bit pid (pid_map m)) pid = true) by (rewrite __set_bit_bit by lia; now rewrite Z.eqb_refl).
  pose proof (mi_fresh _ _ _ Hm pid Hpid Hz) as Hg.
  destruct (new_proc_spec ps g _ pid ip Hm1 Hpid Hset) as [[Hav ->]|(a & m' & -> & Ha0 & Ha & Hm' & Hp & Hr & Hn & Hmap & Hpids)]; auto.
  - intros a Ha E. destruct (mi_pid _ _ _ Hm a Ha) as [_ Hb]. cbn in E. rewrite E in Hb. congruence.
  - cbn [Z.eqb]. unfold free_pid. rewrite (proj2 (Z.leb_gt _ _)) by lia. cbn [pid_map set_pid_map]. pose proof (mi_map _ _ _ Hm1) as Hf1. cbn in Hf1.
    assert (Hlen1 : length (__set_bit pid (pid_map m)) = length (pid_map m)) by apply length_insert.
    rewrite (test_and_clear_spec _ _ (proj1 Hf1)), Hset. cbn [negb mbind option_bind]. eexists _, _, _. split; [reflexivity|]. split; [reflexivity|]. left. split; [easy|]. split; [exact Hav|].
    assert (Hback : forall q, 0 <= q -> bm_bit (__clear_bit pid (__set_bit pid (pid_map m))) q = bm_bit (pid_map m) q).
    { intros q Hq. rewrite __clear_bit_bit, __set_bit_bit by lia. destruct (Z.eqb_spec q pid) as [->|]; [now rewrite Hz|easy]. }
    split; [|easy]. apply (mon_inv_map ps g m _ Hm); [now apply clear_bit_fits|]. intros q Hq E. now rewrite Hback by lia.
  - rewrite (proj2 (Z.eqb_neq _ _) Ha0). eexists _, _, _. split; [reflexivity|]. split; [exact Hn|]. right. split; [easy|].
    assert (Hle : 1 <= pid <= q0); [|split_and!; try lia; auto; [intros q Hq; rewrite Hmap; cbn; now apply __set_bit_bit; lia|exists a; split_and!; auto]].
    split; [lia|]. destruct (Z.le_gt_cases pid q0) as [?|Hgt]; [auto|]. rewrite Hlow in Hz0 by lia. discriminate.
Qed.

Lemma mon_inv_remove ps1 a ps2 g m m' : mon_inv (ps1 ++ a :: ps2) g m -> ptable_inv MON_PID_HASH_BITS (m_procs m') (ps1 ++ ps2) -> pid_map m' = pid_map m -> index_ok m' ->
  (forall b, b <> a -> pmem (m_procs m') b = pmem (m_procs m) b) -> mon_inv (ps1 ++ ps2) g m'.
Proof.
  intros Hm Ht Hmap Hix Hb. pose proof (NoDup_not_in _ _ _ (proj1 (pt_rep _ _ _ (mi_procs _ _ _ Hm)))) as Hna.
  assert (Hsame : forall x, x ∈ ps1 ++ ps2 -> pmem (m_procs m') x = pmem (m_procs m) x /\ x ∈ ps1 ++ a :: ps2).
  { intros x Hx. split; [apply Hb; congruence|apply elem_of_middle; auto]. }
  split; rewrite ?Hmap; try apply Hm; auto; unfold pid_at; intros x Hx; destruct (Hsame x Hx) as [-> Hin].
  - now apply (mi_pid _ _ _ Hm).
  - now apply (mi_count _ _ _ Hm).
  - now apply (mi_regions _ _ _ Hm).
Qed.

(** The process goes with its last reference. *)
Lemma mon_free_spec ps g m pid : mon_inv ps g m ->
  exists ret m', mon_handle_free_proc fuel m pid = Some (ret, m') /\ m_net m' = m_net m /\ pid_map m' = pid_map m /\ (forall b, b ∈ ps -> pid_at (m_procs m') b = pid_at (m_procs m) b) /\
    ((forall a, a ∈ ps -> pid_at (m_procs m) a <> pid) /\ ret = - ESRCH /\ mon_inv ps g m' \/
     exists ps1 a ps2, ps = ps1 ++ a :: ps2 /\ pid_at (m_procs m) a = pid /\ ret = 0 /\
       if decide (refcount (pmem (m_procs m) a) = 1) then mon_inv (ps1 ++ ps2) g m'
       else mon_inv ps g m' /\ refcount (pmem (m_procs m') a) = refcount (pmem (m_procs m) a) - 1).
Proof.
  intros Hm. unfold mon_handle_free_proc. destruct (mon_get_spec ps g m pid Hm) as [(a & t & Ha & Hp & -> & Hs & Hr)|[Hno ->]]; cbn [mbind option_bind].
  2: { eexists _, _. cbn. split; [reflexivity|]. split; [reflexivity|]. split; [reflexivity|]. split; [reflexivity|]. left. split; [auto|]. split; [easy|]. destruct Hm as [? ? ? ? ? ? ? ?]; now split. }
  destruct (pt_live _ _ _ (mi_procs _ _ _ Hm) a Ha) as [Ha0 Hpos]. rewrite (proj2 (Z.eqb_neq _ _) Ha0). pose proof (get_holding m a t Hs Hr) as Hh. set (m1 := set_procs m t) in *.
  destruct (mi_regions _ _ _ Hm a Ha) as (l & Hl & Hperm). pose proof (mi_count _ _ _ Hm a Ha) as Hc.
  destruct (mon_put_spec m1 a) as (t2 & E2 & Hs2 & Hr2); [cbn; lia|]. cbn [m_procs m1 set_procs] in Hs2, Hr2. pose proof (same_count_trans _ _ _ _ Hs Hs2) as Hs12.
  assert (Hm2 : mon_inv ps g (set_procs m t2)).
  { pose proof Hs12 as (S1 & S2 & S3 & S4). apply (mon_inv_update ps g g m _ a); auto; cbn; [apply Hm|unfold pid_at; now rewrite S4|lia|exists l; now rewrite S4]. }
  rewrite E2. cbn [mbind option_bind]. change (set_procs m1 t2) with (set_procs m t2). apply list_elem_of_split in Ha as (ps1 & ps2 & ->).
  destruct (decide (refcount (pmem (m_procs m) a) = 1)) as [H1|H1].
  - unfold mon_put_proc. destruct (put_proc_last_mon _ fuel mon_bits_ok t2 ps1 a ps2 (mi_procs _ _ _ Hm2) (live_bound _ _ _ Hm2)) as (t3 & E3 & Ht3 & Hb3 & _ & Hpa); [lia|].
    cbn [m_procs set_procs]. rewrite E3. cbn [mbind option_bind]. eexists _, _. split; [reflexivity|]. split; [reflexivity|]. split; [reflexivity|].
    split; [intros b _; rewrite <- (same_count_pid a _ _ b Hs12); unfold pid_at; cbn; destruct (decide (b = a)) as [->|Hne]; [exact Hpa|now rewrite Hb3]|]. right. exists ps1, a, ps2. rewrite decide_True by auto.
    split_and!; auto. now apply (mon_inv_remove ps1 a ps2 g (set_procs m t2)); [|exact Ht3|..|apply Hm|].
  - destruct (mon_put_spec (set_procs m t2) a) as (t3 & E3 & Hs3 & Hr3); [cbn; lia|]. rewrite E3. cbn [mbind option_bind]. eexists _, _. split; [reflexivity|]. split; [reflexivity|]. split; [reflexivity|].
    cbn in Hs3, Hr3. pose proof (same_count_trans _ _ _ _ Hs12 Hs3) as Hs123. split; [intros b _; apply (same_count_pid a _ _ b Hs123)|]. destruct Hs123 as (S1 & S2 & S3 & S4).
    right. exists ps1, a, ps2. rewrite decide_False by auto.
    split_and!; auto; [|cbn; lia]. apply (mon_inv_update _ g g m _ a); auto; cbn; [apply elem_of_middle; auto|apply Hm|unfold pid_at; now rewrite S4|lia|exists l; now rewrite S4].
Qed.

(** ** Migration *)

(** What the monitor tells the boards, and what it concludes. *)
Inductive migration_outcome (m : monitor) (ask : mig_answer) (op : op_migration) : Z -> list migration_msg -> option Z -> Prop :=
  | mig_unknown : (find_board (bds (m_net m)) (src_board_ip op) (src_udp_port op) = Some None \/ find_board (bds (m_net m)) (dst_board_ip op) (dst_udp_port op) = Some None) ->
      migration_outcome m ask op (- EFAULT) [] None
  | mig_refused dst : find_board (bds (m_net m)) (dst_board_ip op) (dst_udp_port op) = Some (Some dst) -> ask (M2B_RECV dst) <> Some 0 ->
      migration_outcome m ask op (- EFAULT) [M2B_RECV dst] None
  | mig_cancelled src dst : find_board (bds (m_net m)) (src_board_ip op) (src_udp_port op) = Some (Some src) -> find_board (bds (m_net m)) (dst_board_ip op) (dst_udp_port op) = Some (Some dst) ->
      ask (M2B_RECV dst) = Some 0 -> ask (M2B_SEND src) <> Some 0 -> migration_outcome m ask op (- EFAULT) [M2B_RECV dst; M2B_SEND src; M2B_RECV_CANCEL dst] None
  | mig_done src dst : find_board (bds (m_net m)) (src_board_ip op) (src_udp_port op) = Some (Some src) -> find_board (bds (m_net m)) (dst_board_ip op) (dst_udp_port op) = Some (Some dst) ->
      ask (M2B_RECV dst) = Some 0 -> ask (M2B_SEND src) = Some 0 -> migration_outcome m ask op 0 [M2B_RECV dst; M2B_SEND src] (Some dst).

Lemma notify_zero ask msg : migration_notify ask msg = 0 <-> ask msg = Some 0.
Proof. unfold migration_notify. destruct (ask msg) as [r|]; [split; congruence|]. split; discriminate. Qed.

Lemma mon_migration_spec ps g bs m ask pid op a : mon_inv ps g m -> boards_inv bs (bds (m_net m)) -> a ∈ ps -> pid_at (m_procs m) a = pid ->
  refcount (pmem (m_procs m) a) < 2 ^ 31 - 2 -> mig_vregion op < NR_VREGIONS ->
  exists ret sent moved m', handle_migration_h2m fuel m ask pid op = Some (ret, sent, m') /\ migration_outcome m ask op ret sent moved /\ same_ids m m' /\ mon_inv ps g m' /\
    match moved with
    | None => m' = m
    | Some dst =>
        mv_ip (m_regions m' a (mig_vregion op)) = bi_ip (bi_at (m_net m) dst) /\ mv_port (m_regions m' a (mig_vregion op)) = bi_port (bi_at (m_net m) dst) /\
        (forall b i, (b, i) <> (a, mig_vregion op) -> m_regions m' b i = m_regions m b i) /\ m_net m' = m_net m /\
        refcount (pmem (m_procs m') a) = refcount (pmem (m_procs m) a) + 1
    end.
Proof.
  intros Hm Hb Ha Hp Hc Hidx. unfold handle_migration_h2m.
  destruct (find_board_spec bs _ (src_board_ip op) (src_udp_port op) Hb) as (r1 & E1 & _). rewrite E1. cbn [mbind option_bind].
  destruct r1 as [src|]; [|eexists _, _, None, m; split; [reflexivity|]; split; [apply mig_unknown; left; exact E1|exact (conj (conj eq_refl (fun _ => eq_refl)) (conj Hm eq_refl))]].
  destruct (find_board_spec bs _ (dst_board_ip op) (dst_udp_port op) Hb) as (r2 & E2 & _). rewrite E2. cbn [mbind option_bind].
  destruct r2 as [dst|]; [|eexists _, _, None, m; split; [reflexivity|]; split; [apply mig_unknown; right; exact E2|exact (conj (conj eq_refl (fun _ => eq_refl)) (conj Hm eq_refl))]].
  destruct (Z.eqb_spec (migration_notify ask (M2B_RECV dst)) 0) as [Hrecv|Hrecv]; rewrite notify_zero in Hrecv; cbn [negb];
    [|eexists _, _, None, m; split; [reflexivity|]; split; [exact (mig_refused m ask op dst E2 Hrecv)|exact (conj (conj eq_refl (fun _ => eq_refl)) (conj Hm eq_refl))]].
  destruct (Z.eqb_spec (migration_notify ask (M2B_SEND src)) 0) as [Hsend|Hsend]; rewrite notify_zero in Hsend; cbn [negb];
    [|eexists _, _, None, m; split; [reflexivity|]; split; [exact (mig_cancelled m ask op src dst E1 E2 Hrecv Hsend)|exact (conj (conj eq_refl (fun _ => eq_refl)) (conj Hm eq_refl))]].
  destruct (mon_get_spec ps g m pid Hm) as [(a' & t & Ha' & Hp' & -> & Hs & Hr)|[Hno _]]; [|now destruct (Hno a Ha)].
  assert (a' = a) as -> by (apply (pt_pids _ _ _ (mi_procs _ _ _ Hm)); congruence). destruct (pt_live _ _ _ (mi_procs _ _ _ Hm) a Ha) as [Ha0 Hpos].
  cbn [mbind option_bind]. rewrite (proj2 (Z.eqb_neq _ _) Ha0), (proj2 (Z.leb_gt _ _)) by lia. eexists _, _, (Some dst), _. split; [reflexivity|]. split; [exact (mig_done m ask op src dst E1 E2 Hrecv Hsend)|].
  split; [split; [reflexivity|intros b; apply (same_count_pid a _ _ _ Hs)]|]. split.
  - destruct (mi_regions _ _ _ Hm a Ha) as (l & Hl & Hperm). destruct Hs as (S1 & S2 & S3 & S4).
    apply (mon_inv_update ps g g m _ a); auto; cbn; [apply Hm|unfold pid_at; now rewrite S4|lia|exists l; now rewrite S4].
  - cbn. rewrite !fn_lookup_insert. cbn. split; [easy|]. split; [easy|]. split; [|auto]. intros b i Hne. destruct (decide (b = a)) as [->|Hba]; [|now rewrite fn_lookup_insert_ne by auto].
    rewrite fn_lookup_insert, fn_lookup_insert_ne; [easy|congruence].
Qed.
End with_fuel.

(** ** Joining *)

Lemma max_of_new bs b bi : boards_inv bs b -> bs <> [] -> bi ∉ bs -> 0 <= bi -> (forall j, 0 <= j < bi -> j ∈ bs) -> bi = nr_max_board_id b + 1.
Proof.
  intros Hb Hne Hn H0 Hlow. pose proof (fun i => bo_max _ _ Hb i Hne) as Hmax.
  assert (~ (0 <= bi <= nr_max_board_id b)) by (rewrite <- Hmax; auto).
  destruct (Z.eq_dec bi 0) as [->|]; [destruct bs as [|x bs]; [easy|]; pose proof (proj1 (Hmax x) ltac:(left)); lia|].
  pose proof (proj1 (Hmax (bi - 1)) (Hlow (bi - 1) ltac:(lia))). lia.
Qed.

(** The message that introduces node [i]. *)
Definition introduction (p : peer) (i : Z) : new_node :=
  NewNode (Z.land (bi_flags (bi_at p i)) BOARD_INFO_FLAGS_BITS_MASK) (mem_total (bi_at p i)) (bi_ip (bi_at p i)) (bi_port (bi_at p i)).

Definition join_done cfg (bs : list Z) (m : monitor) up (type mem ip port ret : Z) (sent : list new_node) (m' : monitor) : Prop :=
  exists bi p, add_board cfg (m_net m) up mem ip port (global_base_udp_port (m_net m)) false = Some (Some bi, p) /\ m_net m' = or_flags p bi type /\ ret = 0 /\
    exists l, NoDup l /\ (forall i, i ∈ l <-> i ∈ bs /\ special_board_info_type (bi_flags (bi_at (m_net m) i)) = false) /\ sent = map (introduction (m_net m)) l.

Lemma join_node_spec cfg bs cs ls cl m up mac type mem ip port : peer_inv bs cs ls cl (m_net m) ->
  exists ret sent m', join_node cfg m up mac type mem ip port = Some (ret, sent, m') /\
    m_procs m' = m_procs m /\ pid_map m' = pid_map m /\ nr_alloc_board_index m' = nr_alloc_board_index m /\
    (ret <> 0 /\ sent = [] /\ m_net m' = m_net m /\ (mac = false \/ forall i, 0 <= i < NR_MAX_BOARDS -> i ∈ bs) \/
     join_done cfg bs m up type mem ip port ret sent m').
Proof.
  intros Hp. unfold join_node. destruct mac; cbn [negb]; [|eexists _, _, m; split; [reflexivity|]; split_and!; auto; left; split; [discriminate|auto]].
  destruct (add_board_spec cfg bs cs ls cl (m_net m) up mem ip port (global_base_udp_port (m_net m)) false Hp) as (r & p & E & H). rewrite E. cbn [mbind option_bind].
  destruct r as [bi|]; [|destruct H as [-> Hall]; eexists _, _, _; split; [reflexivity|]; split_and!; auto; left; split; [discriminate|auto]].
  destruct H as (_ & Hn & _ & ses & Hj & Hp' & _). cbn [m_net set_net]. set (q := or_flags p bi type). pose proof (or_flags_inv _ _ _ _ _ bi type Hp') as Hq. fold q in Hq.
  pose proof (pe_boards _ _ _ _ _ Hq) as Hb.
  destruct (hash_for_each_spec (fun j : Z => j) _ board_hash_bits_ok chain_fuel _ _ _ (bo_rep _ _ Hb)) as (l & -> & Hd & Hl); [pose proof (boards_bound _ _ Hb); lia|].
  cbn [mbind option_bind]. eexists _, _, _. split; [reflexivity|]. split_and!; auto. right. exists bi, p. split; [exact E|]. split; [reflexivity|]. split; [reflexivity|].
  assert (Hat : forall i, i <> bi -> board_info_map (bds q) i = bi_at (m_net m) i).
  { intros i Hi. unfold q, or_flags. cbn. rewrite fn_lookup_insert_ne by auto. now apply (jo_others _ _ _ _ _ _ _ _ Hj). }
  exists (filter (fun i => i <> bi /\ special_board_info_type (bi_flags (board_info_map (bds q) i)) = false) l). split; [apply NoDup_filter, Hd|]. split.
  - intros i. rewrite list_elem_of_filter, Hl, elem_of_cons. split.
    + intros [[Hi Hs] [?|Hin]]; [contradiction|]. rewrite Hat in Hs by auto. auto.
    + intros [Hin Hs]. assert (i <> bi) by congruence. rewrite Hat by auto. auto.
  - apply map_ext_in. intros i Hi%list_elem_of_In. apply list_elem_of_filter in Hi as [[Hi _] _]. cbv zeta. unfold introduction. now rewrite Hat by auto.
Qed.

Lemma mon_join_spec cfg bs cs ls cl m up mac type mem ip port : peer_inv bs cs ls cl (m_net m) ->
  exists ret sent m', handle_join_cluster cfg m up mac type mem ip port = Some (ret, sent, m') /\
    m_procs m' = m_procs m /\ pid_map m' = pid_map m /\ nr_alloc_board_index m' = nr_alloc_board_index m /\
    (ret <> 0 /\ sent = [] /\ m_net m' = m_net m /\
       ((type <> BOARD_INFO_FLAGS_HOST /\ type <> BOARD_INFO_FLAGS_BOARD) \/ mac = false \/ forall i, 0 <= i < NR_MAX_BOARDS -> i ∈ bs) \/
     (type = BOARD_INFO_FLAGS_HOST \/ type = BOARD_INFO_FLAGS_BOARD) /\ join_done cfg bs m up type mem ip port ret sent m').
Proof.
  intros Hp. unfold handle_join_cluster. destruct (Z.eqb_spec type BOARD_INFO_FLAGS_HOST) as [Ht|Ht].
  - destruct (join_node_spec cfg bs cs ls cl (set_counts m (sys_nr_hosts m + 1) (sys_nr_boards m)) up mac type mem ip port Hp) as (ret & sent & m' & E & H1 & H2 & H3 & H4).
    exists ret, sent, m'. split_and!; auto. tauto.
  - destruct (Z.eqb_spec type BOARD_INFO_FLAGS_BOARD) as [Ht'|Ht'].
    + destruct (join_node_spec cfg bs cs ls cl (set_counts m (sys_nr_hosts m) (sys_nr_boards m + 1)) up mac type mem ip port Hp) as (ret & sent & m' & E & H1 & H2 & H3 & H4).
      exists ret, sent, m'. split_and!; auto. tauto.
    + eexists _, _, m. split; [reflexivity|]. split_and!; auto. left. split; [discriminate|auto].
Qed.
