(* ===== verification/MonitorSpec.v ===== *)
(** * The monitor: properties

    The states the monitor reaches from start-up by handling requests, with the
    history of the ids and regions it gave out.  An id is given to one process only,
    a region to a process once only, for the whole life of the monitor. *)

From stdpp Require Import functions.
From S2P Require Import Prelude Bitops DList Hlist HashFamily Process Gbn Session Peer PeerProofs PeerSpec Monitor MonitorProofs.

#[local] Set Warnings "-clear-no-such-hyp".

(** ** Steps *)

(** [avail] are the addresses the allocator will return. *)
Definition empty_monitor (p : peer) (avail : list Z) : monitor :=
  Mon p (PTable (__hash_init (HHeap (fun _ => None) (fun _ => None) (fun _ => None)) proc_hash_array (Z.to_nat (2 ^ MON_PID_HASH_BITS))) (fun _ => zero_proc) avail)
    (repeat 0 938) (fun _ _ => MVregion 0 0 0) nr_alloc_board_base 0 0.

(** The part of [main] before the boards of the command line are added. *)
Definition mon_init (cfg : transport) (p : peer) (port ip : Z) (avail : list Z) : option monitor :=
  '(r, p) ← init_local_management_session cfg p true;
  if negb (r =? 0) then None
  else
    '(_, p) ← add_localhost_bi cfg p true ip port;
    Some (empty_monitor p avail).
Definition mon_boot (cfg : transport) (port ip : Z) (avail : list Z) : option monitor := mon_init cfg (start_peer port) port ip avail.

(** With the ids and the regions given out so far. *)
Record mconf := MConf { mc_mon : monitor; mc_pids : list Z; mc_given : Z -> list Z }.

Definition record_reply (c : mconf) (m : monitor) (req : mon_request) (reply : mon_reply) : mconf :=
  match req, reply with
  | R_ALLOC pid _, A_ALLOC r => if ar_ret r =? 0 then MConf m (mc_pids c) (<[pid := ar_idx r :: mc_given c pid]> (mc_given c)) else MConf m (mc_pids c) (mc_given c)
  | R_CREATE_PROC _, A_CREATE ret pid => if ret =? 0 then MConf m (pid :: mc_pids c) (mc_given c) else MConf m (mc_pids c) (mc_given c)
  | _, _ => MConf m (mc_pids c) (mc_given c)
  end.

Section reachability.
Context (cfg : transport) (tries fuel : nat) (Htries : NR_MAX_BOARDS <= Z.of_nat tries) (Hfuel : NR_MAX_USER_PID <= Z.of_nat fuel).

(** What the requests must respect: ids have not run out; a migration names a live
    process and one of its regions, and its count does not overflow; a node closes
    only its own sessions, and never the management session. *)
Definition admissible (m : monitor) (req : mon_request) : Prop :=
  match req with
  | R_CREATE_PROC _ => exists q, 1 <= q < NR_MAX_USER_PID /\ bm_bit (pid_map m) q = false
  | R_MIGRATION_H2M pid op => mig_vregion op < NR_VREGIONS /\
      exists a, find_proc MON_PID_HASH_BITS fuel (m_procs m) pid = Some (Some a) /\ refcount (pmem (m_procs m) a) < 2 ^ 31 - 2
  | R_CLOSE_SESSION ip port id => 0 <= id /\ id <> LEGOMEM_MGMT_SESSION_ID /\
      forall bi, find_board (bds (m_net m)) ip port = Some (Some bi) -> find_net_session (tab (m_net m)) id = Some id -> s_board (ses_at (m_net m) id) = Some bi
  | _ => True
  end.

(** A request is handled, or a board of the command line is added, whose address can
    be resolved. *)
Inductive mon_step : mconf -> mconf -> Prop :=
  | step_request c e req reply m' :
      admissible (mc_mon c) req -> mon_worker_handle_request tries fuel cfg e (mc_mon c) req = Some (reply, m') ->
      mon_step c (record_reply c m' req reply)
  | step_manual c up ip port p' :
      nr_max_board_id (bds (m_net (mc_mon c))) < NR_MAX_BOARDS - 1 ->
      manually_add_new_node cfg (m_net (mc_mon c)) up true ip port BOARD_INFO_FLAGS_BOARD = Some (0, p') ->
      mon_step c (MConf (set_net (mc_mon c) p') (mc_pids c) (mc_given c)).

Definition mon_reachable (c : mconf) : Prop :=
  exists port ip avail m, NoDup avail /\ (0 ∉ avail) /\ mon_boot cfg port ip avail = Some m /\ rtc mon_step (MConf m [] (fun _ => [])) c.

(** ** Invariant *)

Record mconf_inv (ps bs : list Z) (ls cl : Z -> list Z) (c : mconf) : Prop := {
  mn_mon : mon_inv ps (mc_given c) (mc_mon c);
  mn_net : conf_inv bs ls cl (Conf (m_net (mc_mon c)) [] (fun _ => None));
  mn_max : 1 <= nr_max_board_id (bds (m_net (mc_mon c)));
  mn_online : nr_online_boards (bds (m_net (mc_mon c))) = 0 \/ exists j, is_memory_board (mc_mon c) j;
  mn_nodup : NoDup (mc_pids c);
  mn_pids q : q ∈ mc_pids c -> 1 <= q < NR_MAX_USER_PID /\ bm_bit (pid_map (mc_mon c)) q = true;
  mn_live a : a ∈ ps -> pid_at (m_procs (mc_mon c)) a ∈ mc_pids c;
}.

Lemma max_board bs ls cl p cx own : conf_inv bs ls cl (Conf p cx own) -> 0 <= nr_max_board_id (bds p) -> nr_max_board_id (bds p) < NR_MAX_BOARDS.
Proof.
  intros Hc H0. pose proof (pe_boards _ _ _ _ _ (ci_peer _ _ _ _ Hc)) as Hb. apply (bo_range _ _ Hb).
  apply (bo_max _ _ Hb _ (ci_boards _ _ _ _ Hc)). cbn. lia.
Qed.

(** The network may change as long as the boards that were there stay. *)
Definition boards_grow (p p' : peer) : Prop :=
  nr_max_board_id (bds p) <= nr_max_board_id (bds p') /\
  forall i, 0 <= i <= nr_max_board_id (bds p) -> bi_at p' i = bi_at p i.

Lemma memory_board_grow m m' j : boards_grow (m_net m) (m_net m') -> is_memory_board m j -> is_memory_board m' j.
Proof. intros [H1 H2] [Hj Hf]. unfold nr_alloc_board_base in *. split; [unfold nr_alloc_board_base; lia|]. rewrite H2 by lia. exact Hf. Qed.

Lemma mon_inv_net ps g m p' : mon_inv ps g m -> nr_max_board_id (bds (m_net m)) <= nr_max_board_id (bds p') -> mon_inv ps g (set_net m p').
Proof. intros [H1 H2 H3 H4 H5 H6 H7 [H8 H9]] Hx. split; auto. split; [exact H8|]. cbn. lia. Qed.

Lemma mconf_net ps bs ls cl c bs' ls' cl' p' : mconf_inv ps bs ls cl c -> conf_inv bs' ls' cl' (Conf p' [] (fun _ => None)) ->
  boards_grow (m_net (mc_mon c)) p' -> nr_online_boards (bds p') = nr_online_boards (bds (m_net (mc_mon c))) ->
  mconf_inv ps bs' ls' cl' (MConf (set_net (mc_mon c) p') (mc_pids c) (mc_given c)).
Proof.
  intros [H1 H2 H3 H4 H5 H6 H7] Hc Hg Ho. split; cbn [mc_mon mc_pids mc_given m_net set_net]; auto.
  - apply mon_inv_net; [auto|apply Hg].
  - destruct Hg. lia.
  - rewrite Ho. destruct H4 as [?|(j & Hj)]; [auto|]. right. exists j. eapply memory_board_grow; [|exact Hj]. exact Hg.
Qed.

Lemma own_none bs ls cl p ret : conf_inv bs ls cl (Conf p [] (<[ret := None]> (fun _ : Z => None))) -> conf_inv bs ls cl (Conf p [] (fun _ => None)).
Proof. apply conf_own_ext. intros x. destruct (decide (x = ret)) as [->|]; [now rewrite fn_lookup_insert|now rewrite fn_lookup_insert_ne by auto]. Qed.

(** Sessions do not touch the boards. *)
Lemma accept_bds bs cs ls cl p up th ip port id ret p' : peer_inv bs cs ls cl p -> host_handle_open_session p up th ip port id = Some (ret, p') -> bds p' = bds p.
Proof.
  intros Hp E. unfold host_handle_open_session in E. destruct (find_board_spec bs (bds p) ip port (pe_boards _ _ _ _ _ Hp)) as (r & Er & Hr). rewrite Er in E. cbn [mbind option_bind] in E.
  destruct r as [bi|]; [|now injection E as <- <-]. destruct Hr as [[Hb _] _].
  destruct (accept_session_links _ _ ls cl p up th bi id (pe_links _ _ _ _ _ Hp) Hb) as (r & q & Ea & Ha). rewrite Ea in E. cbn [mbind option_bind] in E.
  destruct r as [i|]; injection E as <- <-; [apply (op_same _ _ _ (proj1 Ha))|apply Ha].
Qed.

Lemma remote_close_bds p ip port id ret p' : host_handle_close_session p ip port id = Some (ret, p') -> bds p' = bds p.
Proof.
  unfold host_handle_close_session. destruct (find_board _ _ _) as [[bi|]|]; cbn [mbind option_bind]; [|now intros [= <- <-]|discriminate].
  destruct (find_net_session _ _) as [ses|]; [|now intros [= <- <-]]. unfold generic_handle_close_session, peer_board_remove.
  destruct (board_remove_session _ _ _ _ _) as [[r s]|]; cbn; [|discriminate]. now intros [= <- <-].
Qed.

Lemma same_bds_grow p p' : bds p' = bds p -> boards_grow p p' /\ nr_online_boards (bds p') = nr_online_boards (bds p).
Proof. intros E. unfold boards_grow, bi_at. rewrite E. easy. Qed.

(** A new board is the next one. *)
Lemma joined_grow bs ls cl p bi ip port lp mem ses p' f : conf_inv bs ls cl (Conf p [] (fun _ => None)) -> bi ∉ bs -> 0 <= bi -> (forall j, 0 <= j < bi -> j ∈ bs) ->
  joined bi ip port lp mem ses p p' -> boards_grow p (or_flags p' bi f) /\ bi = nr_max_board_id (bds p) + 1 /\ bi_at (or_flags p' bi f) bi = set_bi_flags (bi_at p' bi) (Z.lor BOARD_INFO_FLAGS_ALLOCATED f) /\
  nr_max_board_id (bds (or_flags p' bi f)) = bi /\ nr_online_boards (bds (or_flags p' bi f)) = nr_online_boards (bds p).
Proof.
  intros Hc Hn H0 Hlow Hj. pose proof (max_of_new bs (bds p) bi (pe_boards _ _ _ _ _ (ci_peer _ _ _ _ Hc)) (ci_boards _ _ _ _ Hc) Hn H0 Hlow) as Hbi.
  pose proof (jo_max _ _ _ _ _ _ _ _ Hj) as Hmax. split_and!; auto.
  - split; [cbn; lia|]. intros i Hi. unfold or_flags, bi_at. cbn. rewrite fn_lookup_insert_ne by lia. apply (jo_others _ _ _ _ _ _ _ _ Hj). lia.
  - unfold or_flags, bi_at. cbn. rewrite fn_lookup_insert. pose proof (jo_new _ _ _ _ _ _ _ _ Hj) as E. unfold bi_at in E. now rewrite E.
  - apply (jo_boards _ _ _ _ _ _ _ _ Hj).
Qed.

Lemma flags_conf bs ls cl p cx own bi f : conf_inv bs ls cl (Conf p cx own) -> conf_inv bs ls cl (Conf (or_flags p bi f) cx own).
Proof. intros Hc. apply (conf_kept bs ls cl p cx own); [exact Hc|apply (ci_boards _ _ _ _ Hc)|easy|]. apply or_flags_inv, (ci_peer _ _ _ _ Hc). Qed.

Lemma online_conf bs ls cl p cx own h n : conf_inv bs ls cl (Conf p cx own) -> conf_inv bs ls cl (Conf (set_bds p (set_online (bds p) h n)) cx own).
Proof.
  intros Hc. apply (conf_kept bs ls cl p cx own); [exact Hc|apply (ci_boards _ _ _ _ Hc)|easy|]. destruct (ci_peer _ _ _ _ Hc) as [Hb Hl]. split.
  - destruct Hb as [B1 B2 B3 B4 B5 B6]. now split.
  - eapply links_ext; [exact Hl|easy..].
Qed.

Lemma add_conf bs ls cl p up mem ip port lp loc bi p' : conf_inv bs ls cl (Conf p [] (fun _ => None)) -> add_board cfg p up mem ip port lp loc = Some (Some bi, p') ->
  (exists bs' ls', conf_inv bs' ls' cl (Conf p' [] (fun _ => None))) /\ (bi ∉ bs) /\ 0 <= bi /\ (forall j, 0 <= j < bi -> j ∈ bs) /\ exists ses, joined bi ip port lp mem ses p p'.
Proof.
  intros Hc E. destruct (add_board_spec cfg bs _ ls cl p up mem ip port lp loc (ci_peer _ _ _ _ Hc)) as (r & q & E' & Hr). cbn [c_peer] in E'. rewrite E in E'. injection E' as <- <-.
  destruct Hr as (H1 & H2 & H3 & ses & Hj & _). split; [|split_and!; [auto|lia|auto|eauto]].
  destruct (add_board_step cfg bs ls cl p [] (fun _ => None) up mem ip port lp loc (Some bi) p' Hc E) as (bs' & ls' & H). exists bs', ls'.
  destruct (Some bi ≫= _) as [s|]; [now apply (own_none _ _ _ _ s)|exact H].
Qed.

Definition some_inv (c : mconf) : Prop := exists ps bs ls cl, mconf_inv ps bs ls cl c.

(** The processes change, the network does not. *)
Lemma mconf_procs ps ps' bs ls cl c m' g' pids' : mconf_inv ps bs ls cl c -> m_net m' = m_net (mc_mon c) -> mon_inv ps' g' m' -> NoDup pids' ->
  (forall q, q ∈ pids' -> 1 <= q < NR_MAX_USER_PID /\ bm_bit (pid_map m') q = true) -> (forall a, a ∈ ps' -> pid_at (m_procs m') a ∈ pids') ->
  mconf_inv ps' bs ls cl (MConf m' pids' g').
Proof.
  intros [H1 H2 H3 H4 H5 H6 H7] Hn Hm Hd Hp Hl. split; cbn [mc_mon mc_pids mc_given]; rewrite ?Hn; auto.
  destruct H4 as [?|(j & Hj)]; [auto|]. right. exists j. unfold is_memory_board in *. now rewrite Hn.
Qed.

Lemma ids_step ps bs ls cl c m' g' : mconf_inv ps bs ls cl c -> m_net m' = m_net (mc_mon c) -> mon_inv ps g' m' -> same_ids (mc_mon c) m' ->
  mconf_inv ps bs ls cl (MConf m' (mc_pids c) g').
Proof.
  intros Hc Hn Hm [I1 I2]. eapply mconf_procs; eauto; [apply Hc|intros q Hq; rewrite I1; now apply (mn_pids _ _ _ _ _ Hc)|].
  intros a Ha. rewrite I2. now apply (mn_live _ _ _ _ _ Hc).
Qed.

Lemma alloc_error_ret e : -4096 < e < 0 -> (ar_ret (alloc_error e) =? 0) = false.
Proof. intros He. apply Z.eqb_neq. cbn. unfold wrap32. replace e with (2 ^ 32 + e + (-1) * 2 ^ 32) by lia. rewrite Z.mod_add by lia. rewrite Z.mod_small; lia. Qed.

(** What an allocation request is answered with, and the history after it. *)
Lemma alloc_outcome ps bs ls cl c pid len : mconf_inv ps bs ls cl c ->
  exists resp r m', mon_handle_alloc tries fuel (mc_mon c) pid len = Some (resp, m') /\
    record_reply c m' (R_ALLOC pid len) (A_ALLOC resp) = MConf m' (mc_pids c) (give (mc_given c) pid r) /\
    mconf_inv ps bs ls cl (MConf m' (mc_pids c) (give (mc_given c) pid r)) /\
    ((forall a, a ∈ ps -> pid_at (m_procs (mc_mon c)) a <> pid) /\ resp = alloc_error (- ESRCH) /\ r = None \/
     (exists a, a ∈ ps /\ pid_at (m_procs (mc_mon c)) a = pid) /\ alloc_answer (mc_mon c) (mc_given c pid) len resp r).
Proof.
  intros Hc. pose proof (mn_mon _ _ _ _ _ Hc) as Hm. pose proof (max_board _ _ _ _ _ _ (mn_net _ _ _ _ _ Hc) ltac:(pose proof (mn_max _ _ _ _ _ Hc); lia)) as Hmax.
  destruct (mon_alloc_spec tries fuel Htries Hfuel ps (mc_given c) (mc_mon c) pid len Hm Hmax (mn_online _ _ _ _ _ Hc)) as (resp & r & m' & E & Hnet & Hids & Hinv & H).
  exists resp, r, m'. split; [exact E|]. split; [|split; [now apply ids_step|exact H]]. cbn [record_reply].
  destruct H as [(_ & -> & ->)|(_ & H)]; [now rewrite alloc_error_ret by (unfold ESRCH; lia)|].
  destruct H; rewrite ?alloc_error_ret by (unfold EINVAL, ENOMEM, ENODEV; lia); reflexivity.
Qed.

Lemma create_step ps bs ls cl c ip ret pid m' : mconf_inv ps bs ls cl c -> admissible (mc_mon c) (R_CREATE_PROC ip) ->
  mon_handle_create_proc (mc_mon c) ip = Some (ret, pid, m') -> some_inv (record_reply c m' (R_CREATE_PROC ip) (A_CREATE ret pid)).
Proof.
  intros Hc (q0 & Hq & Hz) E. destruct (mon_create_spec tries fuel ps (mc_given c) (mc_mon c) ip q0 (mn_mon _ _ _ _ _ Hc) Hq Hz) as (ret' & pid' & q & E' & Hn & H).
  rewrite E in E'. injection E' as <- <- <-. cbn [record_reply]. destruct H as [(-> & _ & Hinv & Hpr & Hb)|(-> & Hpid & Hbit & _ & Hb & a & Ha & Hinv & Hp & _ & Hoth)].
  - exists ps, bs, ls, cl. change (- ENOMEM =? 0) with false. eapply mconf_procs; eauto; [apply Hc| |intros x Hx; rewrite Hpr; now apply (mn_live _ _ _ _ _ Hc)].
    intros x Hx. pose proof (mn_pids _ _ _ _ _ Hc x Hx). rewrite Hb by lia. auto.
  - exists (a :: ps), bs, ls, cl. cbn [Z.eqb]. eapply mconf_procs; eauto.
    + constructor; [|apply Hc]. intros Hin. apply (mn_pids _ _ _ _ _ Hc) in Hin as [_ Hin]. congruence.
    + intros x [->|Hx]%elem_of_cons; [rewrite Hb, Z.eqb_refl by lia; split; [lia|easy]|]. pose proof (mn_pids _ _ _ _ _ Hc x Hx) as [? E']. rewrite Hb, E', orb_true_r by lia. auto.
    + intros x [->|Hx]%elem_of_cons; [rewrite Hp; left|]. rewrite Hoth by auto. right. now apply (mn_live _ _ _ _ _ Hc).
Qed.

Lemma release_step ps bs ls cl c pid ret m' : mconf_inv ps bs ls cl c -> mon_handle_free_proc fuel (mc_mon c) pid = Some (ret, m') ->
  some_inv (MConf m' (mc_pids c) (mc_given c)).
Proof.
  intros Hc E. destruct (mon_free_spec tries fuel Hfuel ps (mc_given c) (mc_mon c) pid (mn_mon _ _ _ _ _ Hc)) as (ret' & q & E' & Hn & Hmap & Hids & H). rewrite E in E'. injection E' as <- <-.
  assert (Hgo : forall ps', mon_inv ps' (mc_given c) m' -> (forall a, a ∈ ps' -> a ∈ ps) -> some_inv (MConf m' (mc_pids c) (mc_given c))).
  { intros ps' Hinv Hsub. exists ps', bs, ls, cl. eapply mconf_procs; eauto; [apply Hc|intros x; rewrite Hmap; apply (mn_pids _ _ _ _ _ Hc)|].
    intros a Ha. rewrite Hids by auto. apply (mn_live _ _ _ _ _ Hc). auto. }
  destruct H as [(_ & _ & Hinv)|(ps1 & a & ps2 & -> & _ & _ & H)]; [eauto|]. destruct (decide _); [|destruct H; eauto].
  eapply Hgo; [exact H|]. intros x Hx. apply elem_of_middle. auto.
Qed.

Lemma found_live ps bs ls cl c pid a : mconf_inv ps bs ls cl c -> find_proc MON_PID_HASH_BITS fuel (m_procs (mc_mon c)) pid = Some (Some a) ->
  a ∈ ps /\ pid_at (m_procs (mc_mon c)) a = pid.
Proof.
  intros Hc E. pose proof (mn_mon _ _ _ _ _ Hc) as Hm. destruct (find_proc_spec _ fuel mon_bits_ok _ ps pid (pt_rep _ _ _ (mi_procs _ _ _ Hm)) (live_bound tries fuel Hfuel _ _ _ Hm)) as (r & E' & H).
  rewrite E in E'. now injection E' as <-.
Qed.

Lemma migration_step ps bs ls cl c ask pid op ret sent m' : mconf_inv ps bs ls cl c -> admissible (mc_mon c) (R_MIGRATION_H2M pid op) ->
  handle_migration_h2m fuel (mc_mon c) ask pid op = Some (ret, sent, m') -> some_inv (MConf m' (mc_pids c) (mc_given c)).
Proof.
  intros Hc (Hidx & a & Ef & Hr) E. destruct (found_live _ _ _ _ _ _ _ Hc Ef) as [Ha Hp].
  destruct (mon_migration_spec tries fuel Hfuel ps (mc_given c) bs (mc_mon c) ask pid op a (mn_mon _ _ _ _ _ Hc) (pe_boards _ _ _ _ _ (ci_peer _ _ _ _ (mn_net _ _ _ _ _ Hc))) Ha Hp Hr Hidx) as (ret' & sent' & moved & q & E' & _ & Hids & Hinv & H).
  rewrite E in E'. injection E' as <- <- <-. exists ps, bs, ls, cl. apply ids_step; auto. destruct moved as [dst|]; [apply H|now subst].
Qed.

Lemma join_step ps bs ls cl c up mac type mem ip port ret sent m' : mconf_inv ps bs ls cl c ->
  handle_join_cluster cfg (mc_mon c) up mac type mem ip port = Some (ret, sent, m') -> some_inv (MConf m' (mc_pids c) (mc_given c)).
Proof.
  intros Hc E. pose proof (mn_net _ _ _ _ _ Hc) as Hnet. destruct (mon_join_spec cfg bs _ ls cl (mc_mon c) up mac type mem ip port (ci_peer _ _ _ _ Hnet)) as (ret' & sent' & q & E' & Hpr & Hmap & Hix & H).
  rewrite E in E'. injection E' as <- <- <-.
  assert (Hsame : forall g m2, mon_inv ps g m2 -> m_procs m2 = m_procs m' -> pid_map m2 = pid_map m' -> index_ok m' -> mon_inv ps g m').
  { intros g m2 [M1 M2 M3 M4 M5 M6 M7 _] E1 E2 Hi. rewrite E1 in *. rewrite E2 in *. now split. }
  destruct H as [(_ & _ & Hn & _)|(_ & bi & p & Ea & Hn & _)].
  - exists ps, bs, ls, cl. apply ids_step; auto; [|split; [auto|intros b; now rewrite Hpr]]. eapply Hsame; [apply Hc|auto..|]. pose proof (mi_index _ _ _ (mn_mon _ _ _ _ _ Hc)) as Hi. unfold index_ok in *. now rewrite Hn, Hix.
  - destruct (add_conf bs ls cl _ up mem ip port _ false bi p Hnet Ea) as ((bs' & ls' & Hc') & Hnew & H0 & Hlow & ses & Hj).
    destruct (joined_grow bs ls cl _ bi ip port _ mem ses p type Hnet Hnew H0 Hlow Hj) as (Hg & _ & _ & _ & Ho).
    pose proof (mconf_net ps bs ls cl c bs' ls' cl _ Hc (flags_conf _ _ _ _ _ _ bi type Hc') Hg Ho) as [C1 C2 C3 C4 C5 C6 C7].
    exists ps, bs', ls', cl. cbn [mc_mon mc_pids mc_given set_net m_net m_procs pid_map] in *. split; cbn [mc_mon mc_pids mc_given]; rewrite ?Hn, ?Hmap, ?Hpr; auto.
    + eapply Hsame; [exact C1|cbn; auto..|]. destruct C1 as [_ _ _ _ _ _ _ Hi]. unfold index_ok in *. rewrite Hn, Hix. exact Hi.
    + destruct C4 as [?|(j & Hjm)]; [auto|]. right. exists j. unfold is_memory_board in *. now rewrite Hn.
Qed.

Lemma manual_step ps bs ls cl c up ip port p' : mconf_inv ps bs ls cl c -> nr_max_board_id (bds (m_net (mc_mon c))) < NR_MAX_BOARDS - 1 ->
  manually_add_new_node cfg (m_net (mc_mon c)) up true ip port BOARD_INFO_FLAGS_BOARD = Some (0, p') ->
  some_inv (MConf (set_net (mc_mon c) p') (mc_pids c) (mc_given c)).
Proof.
  intros Hc Hroom E. unfold manually_add_new_node in E. change (BOARD_INFO_FLAGS_BOARD =? BOARD_INFO_FLAGS_BOARD) with true in E. set (p0 := set_bds _ _) in E.
  pose proof (mn_net _ _ _ _ _ Hc) as Hnet. assert (Hnet0 : conf_inv bs ls cl (Conf p0 [] (fun _ => None))) by now apply online_conf.
  unfold handle_new_node in E. cbn [negb] in E. destruct (add_board_spec cfg bs _ ls cl p0 up 0 ip (udp16 port) (global_base_udp_port p0) false (ci_peer _ _ _ _ Hnet0)) as (r & p & Ea & Hr).
  rewrite Ea in E. cbn [mbind option_bind] in E. destruct r as [bi|].
  2: { destruct Hr as [_ Hall]. pose proof (mn_max _ _ _ _ _ Hc). pose proof (pe_boards _ _ _ _ _ (ci_peer _ _ _ _ Hnet)) as Hb.
       pose proof (proj1 (bo_max _ _ Hb (NR_MAX_BOARDS - 1) (ci_boards _ _ _ _ Hnet)) (Hall (NR_MAX_BOARDS - 1) ltac:(unfold NR_MAX_BOARDS; lia))). cbn in *. lia. }
  change (Z.land BOARD_INFO_FLAGS_BOARD BOARD_INFO_FLAGS_HOST =? 0) with true in E. change (Z.land BOARD_INFO_FLAGS_BOARD BOARD_INFO_FLAGS_BOARD =? 0) with false in E. cbn [negb mbind option_bind] in E.
  injection E as <-. destruct (add_conf bs ls cl p0 up 0 ip _ _ false bi p Hnet0 Ea) as ((bs' & ls' & Hc') & Hnew & H0 & Hlow & ses & Hj).
  destruct (joined_grow bs ls cl p0 bi ip _ _ 0 ses p BOARD_INFO_FLAGS_BOARD Hnet0 Hnew H0 Hlow Hj) as ([G1 G2] & Hbi & Hat & Hmax & _).
  set (q := or_flags p bi BOARD_INFO_FLAGS_BOARD) in *. assert (Hbase : 1 <= nr_max_board_id (bds p0)) by apply (mn_max _ _ _ _ _ Hc).
  exists ps, bs', ls', cl. destruct Hc as [C1 C2 C3 C4 C5 C6 C7]. split; cbn [mc_mon mc_pids mc_given m_net set_net]; auto.
  - apply mon_inv_net; [auto|]. cbn in G1 |- *. lia.
  - now apply online_conf, flags_conf.
  - cbn. cbn in Hmax. rewrite Hmax. lia.
  - right. exists bi. split; [unfold nr_alloc_board_base; cbn in Hmax |- *; lia|]. cbn [m_net set_net]. change (bi_at (set_bds q _) bi) with (bi_at q bi). rewrite Hat. cbn. discriminate.
Qed.

Lemma mon_step_inv c c' : some_inv c -> mon_step c c' -> some_inv c'.
Proof.
  intros (ps & bs & ls & cl & Hc) Hs. pose proof (mn_net _ _ _ _ _ Hc) as Hnet. pose proof (ci_peer _ _ _ _ Hnet) as Hp. cbn [c_peer c_ctxs] in Hp.
  destruct Hs as [c e req reply m' Ha E|c up ip port p' Hroom E]; [|eapply manual_step; eauto].
  assert (Hsame : mconf_inv ps bs ls cl (MConf (mc_mon c) (mc_pids c) (mc_given c))) by (destruct Hc; now split).
  destruct req as [pid len| |ip|pid|ip port id|ip port id|pid op| |type mem ip port|]; cbn [mon_worker_handle_request] in E.
  - destruct (alloc_outcome ps bs ls cl c pid len Hc) as (resp & r & q & Eq & Er & Hi & _). rewrite Eq in E. cbn in E. injection E as <- <-. rewrite Er. now exists ps, bs, ls, cl.
  - injection E as <- <-. now exists ps, bs, ls, cl.
  - destruct (mon_handle_create_proc (mc_mon c) ip) as [[[ret pid] q]|] eqn:Eq; [|discriminate E]. cbn in E. injection E as <- <-. eapply create_step; eauto.
  - destruct (mon_handle_free_proc fuel (mc_mon c) pid) as [[ret q]|] eqn:Eq; [|discriminate E]. cbn in E. injection E as <- <-. eapply release_step; eauto.
  - destruct (host_handle_open_session _ _ _ _ _ _) as [[r p]|] eqn:Eq; [|discriminate E]. cbn in E. injection E as <- <-.
    destruct (accept_step _ _ _ _ _ _ _ _ _ _ _ _ _ Hnet Eq) as (ls' & Hc'). destruct (same_bds_grow _ _ (accept_bds _ _ _ _ _ _ _ _ _ _ _ _ Hp Eq)).
    exists ps, bs, ls', cl. eapply mconf_net; eauto. eapply own_none; exact Hc'.
  - destruct (host_handle_close_session _ _ _ _) as [[r p]|] eqn:Eq; [|discriminate E]. cbn in E. injection E as <- <-. destruct Ha as (H1 & H2 & H3).
    destruct (remote_close_step _ _ _ _ _ _ _ _ _ _ _ Hnet H1 H2 eq_refl H3 Eq) as (ls' & cl' & Hc'). destruct (same_bds_grow _ _ (remote_close_bds _ _ _ _ _ _ Eq)).
    exists ps, bs, ls', cl'. eapply mconf_net; eauto.
  - destruct (handle_migration_h2m _ _ _ _ _) as [[[ret sent] q]|] eqn:Eq; [|discriminate E]. cbn in E. injection E as <- <-. eapply migration_step; eauto.
  - injection E as <- <-. now exists ps, bs, ls, cl.
  - destruct (handle_join_cluster _ _ _ _ _ _ _ _) as [[[ret sent] q]|] eqn:Eq; [|discriminate E]. cbn in E. injection E as <- <-. eapply join_step; eauto.
  - injection E as <- <-. now exists ps, bs, ls, cl.
Qed.

Lemma zero_bit n i : 0 <= i -> bm_bit (repeat 0 n) i = false.
Proof.
  intros Hi. unfold bm_bit. replace (word_at (repeat 0 n) (i / BITS_PER_LONG)) with 0; [apply Z.testbit_0_l|]. unfold word_at. symmetry.
  generalize (Z.to_nat (i / BITS_PER_LONG)). induction n as [|n IH]; intros [|k]; cbn; auto.
Qed.

Lemma empty_monitor_inv p avail : NoDup avail -> 0 ∉ avail -> mon_inv [] (fun _ => []) (empty_monitor p avail).
Proof.
  intros Hd H0. assert (Hno : forall (x : Z) (P : Prop), x ∈ ([] : list Z) -> P) by (intros x P Hx; now apply not_elem_of_nil in Hx).
  split; cbn [m_procs empty_monitor pid_map]; try (intros a Ha; now apply (Hno a)); [split; cbn [phash pavail]| | | |].
  - apply (hash_init_rep proc_hash_array); apply mon_bits_ok.
  - intros a b Ha. now apply (Hno a).
  - intros a Ha. now apply (Hno a).
  - exact Hd.
  - intros a Ha. split; [intros Hx; now apply (Hno a)|congruence].
  - split; [|rewrite repeat_length; now vm_compute]. apply Forall_forall. intros x Hx%list_elem_of_In. apply repeat_spec in Hx as ->. unfold is_word. lia.
  - easy.
  - intros q. split; [constructor|]. intros i Hi. now apply (Hno i).
  - split; [cbn; lia|]. now left.
Qed.

Definition net_counts (m : monitor) : Z * Z := (nr_max_board_id (bds (m_net m)), nr_online_boards (bds (m_net m))).
Lemma boot_net port ip avail : option_map net_counts (mon_init cfg (start_peer port) port ip avail) = Some (1, 0).
Proof. clear. destruct cfg; vm_compute; reflexivity. Qed.

Lemma net_counts_of (o : option monitor) m : option_map net_counts o = Some (1, 0) -> o = Some m ->
  nr_max_board_id (bds (m_net m)) = 1 /\ nr_online_boards (bds (m_net m)) = 0.
Proof. clear. intros H ->. now injection H. Qed.

Lemma init_inv p0 port ip avail m : peer_inv [] (fun _ => False) (fun _ => []) (fun _ => []) p0 -> NoDup avail -> 0 ∉ avail -> mon_init cfg p0 port ip avail = Some m ->
  nr_max_board_id (bds (m_net m)) = 1 -> nr_online_boards (bds (m_net m)) = 0 -> some_inv (MConf m [] (fun _ => [])).
Proof.
  intros Hp0 Hd H0 E Hmax Hon. unfold mon_init in E. destruct (init_local_management_session cfg p0 true) as [[r p]|] eqn:Ei; [|discriminate E]. cbn [mbind option_bind] in E.
  destruct (Z.eqb_spec r 0) as [->|]; [|discriminate E]. cbn [negb] in E. destruct (init_conf cfg _ p Hp0 Ei) as (bs & ls & cl & Hc). clear Ei.
  unfold add_localhost_bi in E. destruct (add_board cfg p true 0 ip port port true) as [[r q]|] eqn:Ea; [|discriminate E]. cbn [mbind option_bind] in E.
  assert (Hq : exists bs' ls' p', conf_inv bs' ls' cl (Conf p' [] (fun _ => None)) /\ m = empty_monitor p' avail).
  { destruct r as [bi|]; cbn in E; injection E as <-.
    - destruct (add_conf bs ls cl p true 0 ip port port true bi q Hc Ea) as ((bs' & ls' & Hc') & _). eexists _, _, _. split; [|reflexivity]. apply flags_conf. exact Hc'.
    - destruct (add_board_step cfg bs ls cl p [] (fun _ => None) true 0 ip port port true None q Hc Ea) as (bs' & ls' & Hc'). eexists _, _, _. split; [exact Hc'|reflexivity]. }
  clear E Ea. destruct Hq as (bs' & ls' & p' & Hc' & ->). assert (Hno : forall (x : Z) (P : Prop), x ∈ ([] : list Z) -> P) by (intros x P Hx; now apply not_elem_of_nil in Hx).
  exists [], bs', ls', cl. split; cbn [mc_mon mc_pids mc_given].
  - now apply empty_monitor_inv.
  - exact Hc'.
  - lia.
  - auto.
  - constructor.
  - intros q' Hq'. now apply (Hno q').
  - intros a Ha. now apply (Hno a).
Qed.

Lemma boot_inv port ip avail m : NoDup avail -> 0 ∉ avail -> mon_boot cfg port ip avail = Some m -> some_inv (MConf m [] (fun _ => [])).
Proof.
  unfold mon_boot. intros Hd H0 E. destruct (net_counts_of _ m (boot_net port ip avail) E) as [Hmax Hon].
  exact (init_inv (start_peer port) port ip avail m (start_peer_inv port) Hd H0 E Hmax Hon).
Qed.
#[local] Opaque mon_boot.

Lemma mon_reachable_inv c : mon_reachable c -> some_inv c.
Proof.
  intros (port & ip & avail & m & Hd & H0 & E & Hr). pose proof (boot_inv port ip avail m Hd H0 E) as Hi. clear E.
  induction Hr as [|c1 c2 c3 Hs _ IH]; [auto|]. apply IH. eapply mon_step_inv; eauto.
Qed.

(** The process with an id, by the invariant. *)
Lemma find_proc_iff ps g m pid : mon_inv ps g m -> exists r, find_proc MON_PID_HASH_BITS fuel (m_procs m) pid = Some r /\
  match r with Some a => a ∈ ps /\ pid_at (m_procs m) a = pid | None => forall a, a ∈ ps -> pid_at (m_procs m) a <> pid end.
Proof. intros Hm. exact (find_proc_spec _ fuel mon_bits_ok _ ps pid (pt_rep _ _ _ (mi_procs _ _ _ Hm)) (live_bound tries fuel Hfuel _ _ _ Hm)). Qed.

(** ** Properties *)



(** C18: while an id is unused and memory is left, creating a process succeeds with
    the lowest id that was never given out; the process is then found.  Releasing it
    right away succeeds; it is not found any more, and every other process is found
    as before. *)
Theorem monitor_process_roundtrip c ip q : mon_reachable c -> 1 <= q < NR_MAX_USER_PID -> bm_bit (pid_map (mc_mon c)) q = false -> pavail (m_procs (mc_mon c)) <> [] ->
  exists pid m1 a, mon_handle_create_proc (mc_mon c) ip = Some (0, pid, m1) /\ 1 <= pid <= q /\ (pid ∉ mc_pids c) /\
    find_proc MON_PID_HASH_BITS fuel (m_procs m1) pid = Some (Some a) /\
    exists m2, mon_handle_free_proc fuel m1 pid = Some (0, m2) /\
      forall x, find_proc MON_PID_HASH_BITS fuel (m_procs m2) x = find_proc MON_PID_HASH_BITS fuel (m_procs (mc_mon c)) x.
Proof.
  intros Hr Hq Hz Hav. destruct (mon_reachable_inv c Hr) as (ps & bs & ls & cl & Hc). pose proof (mn_mon _ _ _ _ _ Hc) as Hm.
  destruct (mon_create_spec tries fuel ps (mc_given c) (mc_mon c) ip q Hm Hq Hz) as (ret & pid & m1 & E1 & _ & H). destruct H as [(_ & ? & _)|(-> & Hpid & Hbit & _ & _ & a & Ha & Hm1 & Hp & Hc1 & Hoth)]; [contradiction|].
  exists pid, m1, a. split; [exact E1|]. split; [auto|]. split; [intros Hin; apply (mn_pids _ _ _ _ _ Hc) in Hin as [_ Hin]; congruence|]. split.
  - destruct (find_proc_iff (a :: ps) _ _ pid Hm1) as (o & -> & Ho). destruct o as [b|]; [|now destruct (Ho a ltac:(left))]. destruct Ho as [Hb Eb].
    do 2 f_equal. apply (pt_pids _ _ _ (mi_procs _ _ _ Hm1)); [auto|left|congruence].
  - destruct (mon_free_spec tries fuel Hfuel (a :: ps) (mc_given c) m1 pid Hm1) as (ret & m2 & E2 & _ & _ & Hids & H). destruct H as [(Hno & _)|(ps1 & b & ps2 & El & Eb & -> & H)]; [now destruct (Hno a ltac:(left))|].
    assert (Hba : b = a) by (apply (pt_pids _ _ _ (mi_procs _ _ _ Hm1)); [rewrite El; apply elem_of_middle; auto|left|congruence]). subst b.
    assert (Hl : ps = ps1 ++ ps2).
    { destruct ps1 as [|x ps1]; [now injection El|]. injection El as <- El. destruct Ha. rewrite El. apply elem_of_middle. auto. }
    rewrite Hc1, decide_True, <- Hl in H by easy. exists m2. split; [exact E2|]. intros x.
    destruct (find_proc_iff ps _ _ x H) as (o2 & -> & Ho2), (find_proc_iff ps _ _ x Hm) as (o & -> & Ho). f_equal.
    assert (Hsame : forall b, b ∈ ps -> pid_at (m_procs m2) b = pid_at (m_procs (mc_mon c)) b) by (intros b Hb; rewrite Hids, Hoth; [easy|auto|now right]).
    destruct o2 as [b2|], o as [b|]; auto.
    + destruct Ho2 as [Hb2 E2'], Ho as [Hb E']. f_equal. rewrite Hsame in E2' by auto. apply (pt_pids _ _ _ (mi_procs _ _ _ Hm)); congruence.
    + destruct Ho2 as [Hb2 E2']. destruct (Ho b2 Hb2). now rewrite <- Hsame.
    + destruct Ho as [Hb E']. destruct (Ho2 b Hb). now rewrite Hsame.
Qed.


End reachability.

(** When all ids are in use, a process is still created, with the id [UINT_MAX]: the
    test for the failure of [alloc_pid] is on an unsigned value. *)
Lemma pid_exhaustion_succeeds ps g m ip : mon_inv ps g m -> (forall q, 1 <= q < NR_MAX_USER_PID -> bm_bit (pid_map m) q = true) -> pavail (m_procs m) <> [] ->
  exists m', mon_handle_create_proc m ip = Some (0, 2 ^ 32 - 1, m').
Proof.
  intros Hm Hall Hav. unfold mon_handle_create_proc. destruct (alloc_pid_spec 0 0 ps g m Hm) as [(pid & _ & Hp & Hz & _)|[-> _]]; [rewrite Hall in Hz by auto; discriminate|].
  change (wrap32 (-1)) with (2 ^ 32 - 1). change (2 ^ 32 - 1 <? 0) with false. cbv iota. unfold mon_new_proc, mon_alloc_proc. destruct (pavail (m_procs m)) as [|new l] eqn:E; [contradiction|].
  pose proof (pt_avail _ _ _ (mi_procs _ _ _ Hm) new ltac:(rewrite E; left)) as [_ Hn0]. rewrite (proj2 (Z.eqb_neq _ _) Hn0). generalize (init_proc_info (pmem (m_procs m) new)). intros q.
  rewrite (proj2 (Z.eqb_neq _ _) Hn0). eexists. reflexivity.
Qed.

(** ** Witnesses *)

Lemma init_shape cfg p port ip avail m : mon_init cfg p port ip avail = Some m -> pavail (m_procs m) = avail /\ pid_map m = repeat 0 938.
Proof.
  unfold mon_init. destruct (init_local_management_session _ _ _) as [[r q]|]; [|discriminate]. cbn [mbind option_bind]. destruct (negb (r =? 0)); [discriminate|].
  destruct (add_localhost_bi _ _ _ _ _) as [[r' p']|]; [|discriminate]. cbn [mbind option_bind]. intros E. injection E as <-. easy.
Qed.

Lemma boot_exists cfg port ip avail : exists m, mon_boot cfg port ip avail = Some m /\ pavail (m_procs m) = avail /\ pid_map m = repeat 0 938.
Proof.
  pose proof (boot_net cfg port ip avail) as H. unfold mon_boot. pose proof (init_shape cfg (start_peer port) port ip avail) as Hs.
  destruct (mon_init cfg (start_peer port) port ip avail) as [m|]; [|discriminate H]. exists m. split; [reflexivity|]. now apply Hs.
Qed.

Lemma ex_mon_reachable : exists m, mon_reachable TRANSPORT_RPC 128 (Z.to_nat NR_MAX_USER_PID) (MConf m [] (fun _ => [])) /\
  pavail (m_procs m) = [100] /\ (forall q, 1 <= q < NR_MAX_USER_PID -> bm_bit (pid_map m) q = false).
Proof.
  destruct (boot_exists TRANSPORT_RPC 8888 1 [100]) as (m & E & Hav & Hmap). exists m. split; [|split; [exact Hav|intros q Hq; rewrite Hmap; apply zero_bit; lia]].
  exists 8888, 1, [100], m. split; [apply NoDup_singleton|]. split; [intros H%list_elem_of_singleton; discriminate H|]. split; [exact E|constructor].
Qed.

Lemma ex_tries : NR_MAX_BOARDS <= Z.of_nat 128.
Proof. vm_compute. discriminate. Qed.
Lemma ex_fuel : NR_MAX_USER_PID <= Z.of_nat (Z.to_nat NR_MAX_USER_PID).
Proof. rewrite Z2Nat.id by (vm_compute; discriminate). lia. Qed.



Lemma monitor_process_roundtrip_witness : exists m m1, mon_handle_create_proc m 5 = Some (0, 1, m1).
Proof.
  destruct ex_mon_reachable as (m & Hr & Hav & Hz).
  destruct (monitor_process_roundtrip TRANSPORT_RPC 128 (Z.to_nat NR_MAX_USER_PID) ex_tries ex_fuel (MConf m [] (fun _ => [])) 5 1 Hr) as (pid & m1 & a & E & Hp & _).
  - split; [lia|reflexivity].
  - apply Hz. split; [lia|reflexivity].
  - cbn [mc_mon]. rewrite Hav. discriminate.
  - exists m, m1. assert (pid = 1) as -> by lia. exact E.
Defined.


(** A monitor with one process. *)
Lemma ex_with_process : exists c a, mon_reachable TRANSPORT_RPC 128 (Z.to_nat NR_MAX_USER_PID) c /\
  find_proc MON_PID_HASH_BITS (Z.to_nat NR_MAX_USER_PID) (m_procs (mc_mon c)) 1 = Some (Some a) /\ refcount (pmem (m_procs (mc_mon c)) a) = 1.
Proof.
  destruct ex_mon_reachable as (m & Hr & Hav & Hz). destruct (mon_reachable_inv TRANSPORT_RPC 128 (Z.to_nat NR_MAX_USER_PID) ex_tries ex_fuel _ Hr) as (ps & bs & ls & cl & Hc).
  assert (H1 : 1 <= 1 < NR_MAX_USER_PID) by (split; [lia|reflexivity]).
  destruct (mon_create_spec 0 0 ps _ _ 5 1 (mn_mon _ _ _ _ _ Hc) H1 (Hz 1 H1)) as (ret & pid & m1 & E1 & _ & H). cbn [mc_mon mc_given] in *.
  destruct H as [(_ & ? & _)|(-> & Hpid & _ & _ & _ & a & Ha & Hm1 & Hp & Hone & _)]; [congruence|]. assert (pid = 1) as -> by lia.
  exists (MConf m1 [1] (fun _ => [])), a. split.
  - destruct Hr as (port & ip & avail & m0 & A1 & A2 & A3 & A4). exists port, ip, avail, m0. split_and!; auto. eapply rtc_r; [exact A4|].
    apply (step_request TRANSPORT_RPC 128 (Z.to_nat NR_MAX_USER_PID) (MConf m [] (fun _ => [])) (Env true true true (fun _ => None)) (R_CREATE_PROC 5) (A_CREATE 0 1) m1).
    + exists 1. split; [exact H1|apply (Hz 1 H1)].
    + cbn [mon_worker_handle_request mc_mon]. rewrite E1. reflexivity.
  - cbn [mc_mon]. split; [|exact Hone]. destruct (find_proc_iff 128 (Z.to_nat NR_MAX_USER_PID) ex_fuel (a :: ps) _ _ 1 Hm1) as (o & -> & Ho).
    destruct o as [b|]; [|now destruct (Ho a ltac:(left))]. destruct Ho as [Hb Eb]. do 2 f_equal. apply (pt_pids _ _ _ (mi_procs _ _ _ Hm1)); [auto|left|congruence].
Qed.

