(* ===== verification/Host.v ===== *)
(** * The library of a host

    The contexts of an application and their vRegions (host/core.h, host/context.c)
    and the calls of host/api.c that work on them: opening and closing a context,
    allocating and freeing memory, finding the session for an access, the requests a
    read or a write is split into, and migration.  Boards and sessions are those of
    Peer.v; what the monitor and the boards answer are arguments. *)

From stdpp Require Import functions.
From S2P Require Import Prelude Bitops DList Hlist Vma Process Gbn Session Peer Monitor.

(** [HASH_BITS] of a table with [LEGOMEM_VREGION_HT_ENTRIES] = 6 buckets: the last
    two are never used. *)
Definition VREGION_SESSIONS_BITS : Z := 2.
Definition CONTEXT_HASH_ARRAY_BITS : Z := 4.
Definition V_allocated : Z := 0.
Definition V_migration : Z := 1.
Definition EBUSY : Z := 16.

(** ** State *)

Record legomem_vregion := LVregion { v_ip : Z; v_port : Z; v_flags : Z; avail_space : Z }.
Definition set_v_flags (v : legomem_vregion) (f : Z) : legomem_vregion := LVregion (v_ip v) (v_port v) f (avail_space v).
Definition set_avail_space (v : legomem_vregion) (a : Z) : legomem_vregion := LVregion (v_ip v) (v_port v) (v_flags v) a.
Definition set_v_board (v : legomem_vregion) (ip port : Z) : legomem_vregion := LVregion ip port (v_flags v) (avail_space v).

(** The location of [alloc_list_head]; region [j]'s [list] is at [j]. *)
Definition alloc_list_head : Z := -1.
Record legomem_context := LContext {
  x_pid : Z;
  vregion : Z -> legomem_vregion;
  alloc_list : heap Z;
  nr_nonzero_vregions : Z;
}.
Definition set_vregion (x : legomem_context) (i : Z) (v : legomem_vregion) : legomem_context :=
  LContext (x_pid x) (<[i := v]> (vregion x)) (alloc_list x) (nr_nonzero_vregions x).
Definition set_alloc_list (x : legomem_context) (l : heap Z) (n : Z) : legomem_context := LContext (x_pid x) (vregion x) l n.

(** The node, the table of contexts, their memory, and the addresses the allocator
    will return. *)
Record host := Host {
  net : peer;
  context_list : hheap Z Z;
  ctx_at : Z -> legomem_context;
  havail : list Z;
}.
Definition set_hnet (h : host) (p : peer) : host := Host p (context_list h) (ctx_at h) (havail h).
Definition set_ctx (h : host) (c : Z) (x : legomem_context) : host := Host (net h) (context_list h) (<[c := x]> (ctx_at h)) (havail h).
Definition set_context_list (h : host) (l : hheap Z Z) : host := Host (net h) l (ctx_at h) (havail h).
Definition region_at (h : host) (c v : Z) : legomem_vregion := vregion (ctx_at h c) v.
Definition set_region_at (h : host) (c v : Z) (x : legomem_vregion) : host := set_ctx h c (set_vregion (ctx_at h c) v x).

(** ** vRegions *)

Definition VregionAllocated (v : legomem_vregion) : bool := Z.testbit (v_flags v) V_allocated.
Definition TestSetVregionAllocated (v : legomem_vregion) : bool * legomem_vregion :=
  (Z.testbit (v_flags v) V_allocated, set_v_flags v (Z.setbit (v_flags v) V_allocated)).
Definition TestSetVregionMigration (v : legomem_vregion) : bool * legomem_vregion :=
  (Z.testbit (v_flags v) V_migration, set_v_flags v (Z.setbit (v_flags v) V_migration)).
Definition ClearVregionMigration (v : legomem_vregion) : legomem_vregion := set_v_flags v (Z.clearbit (v_flags v) V_migration).

Definition same_tid (p : peer) (tid x : Z) : bool := tid =? s_tid (ses_at p x).

Definition add_vregion_session (p : peer) (c v ses : Z) : peer :=
  set_link_vregion p (hash_add (link_vregion p) (pair (c, v)) VREGION_SESSIONS_BITS ses (s_tid (ses_at p ses))).
Definition find_vregion_session (p : peer) (c v tid : Z) : option (option Z) :=
  hash_for_each_possible chain_fuel (same_tid p tid) (link_vregion p) (pair (c, v)) VREGION_SESSIONS_BITS tid.
(** 0 or -1 *)
Definition remove_vregion_session (p : peer) (c v tid : Z) : option (Z * peer) :=
  r ← hash_for_each_possible chain_fuel (same_tid p tid) (link_vregion p) (pair (c, v)) VREGION_SESSIONS_BITS tid;
  match r with
  | Some ses => s ← hash_del (link_vregion p) ses; Some (0, set_link_vregion p s)
  | None => Some (-1, p)
  end.

Definition init_legomem_vregion (v : legomem_vregion) : legomem_vregion := set_avail_space v VREGION_SIZE.

Definition vregion_alloclist_enqueue_head (x : legomem_context) (v : Z) : legomem_context :=
  set_alloc_list x (list_add (alloc_list x) v alloc_list_head) (nr_nonzero_vregions x).
Definition vregion_alloclist_move_to_tail (x : legomem_context) (v : Z) : legomem_context :=
  set_alloc_list x (list_add_tail (list_del poison_list poison_list (alloc_list x) v) v alloc_list_head) (nr_nonzero_vregions x).

(** [None]: an index outside the array. *)
Definition va_to_legomem_vregion (va : Z) : option Z :=
  let idx := va_to_vregion_index va in if NR_VREGIONS <=? idx then None else Some idx.
(** [None] is [BUG]. *)
Definition index_to_legomem_vregion (index : Z) : option Z := if NR_VREGIONS <=? index then None else Some index.

(** ** Contexts *)

(** The memory is cleared: the buckets of the context and of its regions too. *)
Definition clear_vregion_sessions (s : hheap ((Z * Z) * Z) Z) (c : Z) : hheap ((Z * Z) * Z) Z :=
  HHeap (fun k => if decide (k.1.1 = c) then None else first s k) (hnext s) (pprev s).
Definition init_legomem_context (h : host) (c : Z) : host :=
  let p := init_context_sessions (net h) c in
  let p := set_link_vregion p (clear_vregion_sessions (link_vregion p) c) in
  let lists := INIT_LIST_HEAD (Heap (fun _ => 0) (fun _ => 0)) alloc_list_head in
  Host p (INIT_HLIST_NODE (context_list h) c)
    (<[c := LContext 0 (fun _ => init_legomem_vregion (LVregion 0 0 0 0)) lists 0]> (ctx_at h)) (havail h).

Definition add_legomem_context (h : host) (c : Z) : host :=
  set_context_list h (hash_add (context_list h) (fun j => j) CONTEXT_HASH_ARRAY_BITS c (x_pid (ctx_at h c))).
Definition has_pid (h : host) (pid c : Z) : bool := x_pid (ctx_at h c) =? pid.
Definition remove_legomem_context (fuel : nat) (h : host) (c : Z) : option (Z * host) :=
  r ← hash_for_each_possible fuel (has_pid h (x_pid (ctx_at h c))) (context_list h) (fun j => j) CONTEXT_HASH_ARRAY_BITS (x_pid (ctx_at h c));
  match r with
  | Some _ => s ← hash_del (context_list h) c; Some (0, set_context_list h s)
  | None => Some (- ESRCH, h)
  end.
Definition find_legomem_context (fuel : nat) (h : host) (pid : Z) : option (option Z) :=
  hash_for_each_possible fuel (has_pid h pid) (context_list h) (fun j => j) CONTEXT_HASH_ARRAY_BITS pid.

(** [answer]: the [ret] and the [pid] of the monitor's response, or [None] when it
    cannot be reached. *)
Definition legomem_open_context (h : host) (answer : option (Z * Z)) : option Z * host :=
  match havail h with
  | [] => (None, h)
  | c :: l =>
      let h := init_legomem_context (Host (net h) (context_list h) (ctx_at h) l) c in
      match answer with
      | None => (None, h)
      | Some (ret, pid) =>
          if negb (ret =? 0) then (None, h)
          else
            let x := ctx_at h c in
            (Some c, add_legomem_context (set_ctx h c (LContext pid (vregion x) (alloc_list x) (nr_nonzero_vregions x))) c)
      end
  end.

(** [answer]: the [ret] of the monitor. *)
Definition legomem_close_context (fuel : nat) (h : host) (c : option Z) (answer : option Z) : option (Z * host) :=
  match c with
  | None => Some (- EINVAL, h)
  | Some c =>
      match answer with
      | None => Some (- EIO, h)
      | Some ret =>
          if negb (ret =? 0) then Some (- EFAULT, h)
          else '(_, h) ← remove_legomem_context fuel h c; Some (0, h)
      end
  end.

(** ** Allocation *)

(** The answer of the monitor: the board and the region, or the error. *)
Definition ask_monitor_for_new_vregion (answer : option alloc_resp) : Z + (Z * Z * Z) :=
  match answer with
  | None => inl (- EIO)
  | Some r => if negb (ar_ret r =? 0) then inl (sint32 (ar_ret r)) else inr (ar_ip r, ar_port r, ar_idx r)
  end.

(** The comparison with [size] converts the [int] to [unsigned long]. *)
Fixpoint find_candidate (fuel : nat) (x : legomem_context) (v size : Z) : option (option Z) :=
  match fuel with
  | O => None
  | S fuel' =>
      if v =? alloc_list_head then Some None
      else
        let a := avail_space (vregion x v) in
        if size <=? wrap64 a then Some (Some v)
        else if a =? 0 then Some None
        else find_candidate fuel' x (next (alloc_list x) v) size
  end.
Definition find_vregion_candidate (fuel : nat) (x : legomem_context) (size : Z) : option (option Z) :=
  if nr_nonzero_vregions x =? 0 then Some None else find_candidate fuel x (next (alloc_list x) alloc_list_head) size.

(** [size] is an [unsigned int] here. *)
Definition adjust_vregion_avail_size (x : legomem_context) (v size : Z) : legomem_context :=
  let left := sint32 (avail_space (vregion x v) - wrap32 size) in
  let x := set_vregion x v (set_avail_space (vregion x v) left) in
  if 0 <? left then x
  else
    let x := if left <? 0 then set_vregion x v (set_avail_space (vregion x v) 0) else x in
    let x := set_alloc_list x (alloc_list x) (sint32 (nr_nonzero_vregions x - 1)) in
    vregion_alloclist_move_to_tail x v.

(** How an allocation ends: the errors the code reports, or the address. *)
Inductive alloc_end :=
  | E_MONITOR (ret : Z) | E_ALLOCATED_BEFORE | E_NO_BOARD | E_NO_SESSION | E_SESSION_MISMATCH | E_NET (ret : Z) | E_REMOTE (ret : Z)
  | ALLOCATED (addr : Z).
(** The value returned: 0 for an error, except that of the network. *)
Definition alloc_value (r : alloc_end) : Z :=
  match r with ALLOCATED addr => addr | E_NET ret => wrap64 ret | _ => 0 end.

Section operations.
Context (cfg : transport) (fuel : nat).

(** The region of the answer, recorded as allocated on the board. *)
Definition new_vregion (h : host) (c v ip port : Z) : host :=
  let x := set_vregion (ctx_at h c) v (set_v_board (init_legomem_vregion (region_at h c v)) ip port) in
  let x := vregion_alloclist_enqueue_head x v in
  set_ctx h c (set_alloc_list x (alloc_list x) (sint32 (nr_nonzero_vregions x + 1))).

(** The session of the thread with board [bi], opened when there is none. *)
Definition thread_session (p : peer) (net_up : bool) (ask : answer) (c bi tid ip port : Z) : option (option Z * peer) :=
  r ← context_find_session p c tid ip port;
  match r with
  | Some ses => Some (Some ses, p)
  | None => legomem_open_session cfg p net_up ask (Some c) (Some bi) tid
  end.

(** The request to the board; [reply] is what it answers, or the result of the
    network when that is not positive. *)
Definition alloc_request (h : host) (bi : Z) (reply : Z + (Z * Z)) : option (alloc_end * host) :=
  _ ← bi_mgmt_session (bi_at (net h) bi);
  match reply with
  | inl ret => Some (E_NET ret, h)
  | inr (ret, addr) => if negb (ret =? 0) then Some (E_REMOTE ret, h) else Some (ALLOCATED addr, h)
  end.

(** The session of the thread is put into the table of the region. *)
Definition attach_session (h : host) (reply : Z + (Z * Z)) (c v bi tid ses : Z) : option (alloc_end * host) :=
  f ← find_vregion_session (net h) c v tid;
  match f with
  | Some ses' => if negb (ses' =? ses) then Some (E_SESSION_MISMATCH, h) else alloc_request h bi reply
  | None => alloc_request (set_hnet h (add_vregion_session (net h) c v ses)) bi reply
  end.

(** [mon]: the monitor's answer to the request for a region. *)
Definition legomem_alloc (h : host) (net_up : bool) (ask : answer) (mon : option alloc_resp) (reply : Z + (Z * Z)) (c tid size : Z) : option (alloc_end * host) :=
  _ ← find_vregion_candidate fuel (ctx_at h c) size;
  match ask_monitor_for_new_vregion mon with
  | inl ret => Some (E_MONITOR ret, h)
  | inr (ip, port, idx) =>
      v ← index_to_legomem_vregion idx;
      let '(before, r) := TestSetVregionAllocated (region_at h c v) in
      let h := set_region_at h c v r in
      if before then Some (E_ALLOCATED_BEFORE, h)
      else
        let h := new_vregion h c v ip port in
        let h := set_ctx h c (adjust_vregion_avail_size (ctx_at h c) v size) in
        bi ← find_board (bds (net h)) ip port;
        match bi with
        | None => Some (E_NO_BOARD, h)
        | Some bi =>
            '(ses, p) ← thread_session (net h) net_up ask c bi tid ip port;
            let h := set_hnet h p in
            match ses with
            | None => Some (E_NO_SESSION, h)
            | Some ses => attach_session h reply c v bi tid ses
            end
        end
  end.

(** The result in the board's answer is not looked at. *)
Definition legomem_free (h : host) (reply : Z + (Z * Z)) (c addr size : Z) : option (Z * host) :=
  v ← va_to_legomem_vregion addr;
  let r := region_at h c v in
  bi ← find_board (bds (net h)) (v_ip r) (v_port r);
  match bi with
  | None => Some (- ENODEV, h)
  | Some bi =>
      _ ← bi_mgmt_session (bi_at (net h) bi);
      match reply with
      | inl _ => Some (- EIO, h)
      | inr _ => Some (0, set_region_at h c v (set_avail_space r (sint32 (avail_space r + size))))
      end
  end.

(** ** Access *)

Definition __find_or_alloc_vregion_session (h : host) (net_up : bool) (ask : answer) (c v tid : Z) : option (option Z * host) :=
  f ← find_vregion_session (net h) c v tid;
  match f with
  | Some ses => Some (Some ses, h)
  | None =>
      let r := region_at h c v in
      s ← context_find_session (net h) c tid (v_ip r) (v_port r);
      match s with
      | Some ses => Some (Some ses, set_hnet h (add_vregion_session (net h) c v ses))
      | None =>
          bi ← find_board (bds (net h)) (v_ip r) (v_port r);
          match bi with
          | None => Some (None, h)
          | Some bi =>
              '(s, p) ← legomem_open_session cfg (net h) net_up ask (Some c) (Some bi) tid;
              match s with
              | None => Some (None, set_hnet h p)
              | Some ses => Some (Some ses, set_hnet h (add_vregion_session p c v ses))
              end
          end
      end
  end.
Definition find_or_alloc_vregion_session (h : host) (net_up : bool) (ask : answer) (c addr tid : Z) : option (option Z * host) :=
  v ← va_to_legomem_vregion addr;
  if negb (VregionAllocated (region_at h c v)) then Some (None, h) else __find_or_alloc_vregion_session h net_up ask c v tid.

(** ** Migration *)

(** [mon]: the [ret] of the monitor.  [None] is the use of a board that is not known. *)
Definition legomem_migration_vregion (h : host) (net_up : bool) (ask : answer) (mon : option Z) (c dst_bi index tid : Z) : option (Z * host) :=
  v ← index_to_legomem_vregion index;
  if negb (VregionAllocated (region_at h c v)) then Some (- EINVAL, h)
  else
    let '(before, r) := TestSetVregionMigration (region_at h c v) in
    let h := set_region_at h c v r in
    if before then Some (- EBUSY, h)
    else
      match mon with
      | None => Some (- EIO, h)
      | Some ret =>
          if negb (ret =? 0) then
            src ← find_board (bds (net h)) (v_ip r) (v_port r);
            _ ← src;
            Some (ret, h)
          else
            f ← find_vregion_session (net h) c v tid;
            p ← match f with
                | None => Some (net h)
                | Some _ => '(_, p) ← remove_vregion_session (net h) c v tid; Some p
                end;
            let b := bi_at p dst_bi in
            '(s, p) ← thread_session p net_up ask c dst_bi tid (bi_ip b) (bi_port b);
            match s with
            | None => Some (0, set_hnet h p)
            | Some ses =>
                let h := set_hnet h (add_vregion_session p c v ses) in
                Some (0, set_region_at h c v (ClearVregionMigration (region_at h c v)))
            end
      end.
End operations.

(** ** The requests of a read and of a write *)

(** [sent k]: the [k]-th request can be sent.  The offset is computed in [int]. *)
Definition chunk_size (max_lego_payload total : Z) : Z := if max_lego_payload <=? total then max_lego_payload else total.
Definition chunk_shift (max_lego_payload nr_sent : Z) : Z := wrap64 (sint32 (nr_sent * max_lego_payload)).

(** The addresses and sizes asked for, in order. *)
Fixpoint read_requests (fuel : nat) (max_lego_payload : Z) (sent : Z -> bool) (addr total nr_sent : Z) : option (list (Z * Z)) :=
  match fuel with
  | O => None
  | S fuel' =>
      let sz := chunk_size max_lego_payload total in
      let total := total - sz in
      if negb (sent nr_sent) then Some []
      else
        l ← (if negb (total =? 0) then read_requests fuel' max_lego_payload sent addr total (nr_sent + 1) else Some []);
        Some ((addr +w chunk_shift max_lego_payload nr_sent, sz) :: l)
  end.

(** Bytes of the buffer. *)
Definition slice (buf : Z -> Z) (a n : Z) : list Z := map (fun i => buf (a + i)) (seqZ 0 n).
Definition write_bytes (buf : Z -> Z) (a : Z) (l : list Z) : Z -> Z :=
  fun j => if (a <=? j) && (j <? a + Z.of_nat (length l)) then nth (Z.to_nat (j - a)) l 0 else buf j.

(** The headers of a request are written into the buffer in front of its data, over
    data that was sent before; [header va sz] are their [hsz] bytes.  The result
    holds the address, and the bytes that follow the headers in each packet.  A
    packet is handed to the network before the next one is prepared. *)
Fixpoint write_requests (fuel : nat) (max_lego_payload hsz : Z) (header : Z -> Z -> list Z) (sent : Z -> bool)
    (buf : Z -> Z) (send_buf addr total nr_sent : Z) : option (list (Z * list Z)) :=
  match fuel with
  | O => None
  | S fuel' =>
      let sz := chunk_size max_lego_payload total in
      let total := total - sz in
      let shift := chunk_shift max_lego_payload nr_sent in
      let va := addr +w shift in
      let buf := write_bytes buf (send_buf + shift) (header va sz) in
      if negb (sent nr_sent) then Some []
      else
        l ← (if negb (total =? 0) then write_requests fuel' max_lego_payload hsz header sent buf send_buf addr total (nr_sent + 1) else Some []);
        Some ((va, slice buf (send_buf + shift + hsz) sz) :: l)
  end.
