(* ===== verification/HostProofs.v ===== *)
(** * The library of a host: invariant

    A session has one link for the tables of all regions, so that adding it to a
    second region changes the chain of the first.  [regions_ok] is what remains true:
    every chain ends, and holds sessions in use of the right context to the board of
    the region. *)

From stdpp Require Import functions.
From S2P Require Import Prelude Bitops DList Hlist HashFamily Vma Process Gbn Session Peer PeerProofs PeerSpec Monitor MonitorProofs MonitorSpec Host.

#[local] Set Warnings "-clear-no-such-hyp".

(** ** Chains, forwards only *)

Section chains.
Context {H : Type} `{EqDecision H}.
Implicit Types (s : hheap H Z) (l : list Z) (pos : option Z).

Fixpoint fchain s pos l : Prop :=
  match l with
  | [] => pos = None
  | x :: l => pos = Some x /\ fchain s (hnext s x) l
  end.

Lemma fchain_frame s s' pos l : (forall x, x ∈ l -> hnext s' x = hnext s x) -> fchain s pos l -> fchain s' pos l.
Proof.
  revert pos. induction l as [|x l IH]; intros pos Hs Hc; cbn in *; [auto|]. destruct Hc as [-> Hc]. split; [easy|].
  rewrite Hs by left. apply IH; [intros y Hy; apply Hs; now right|auto].
Qed.

Lemma fchain_app s pos l1 x l2 : fchain s pos (l1 ++ x :: l2) -> fchain s (hnext s x) l2.
Proof. revert pos. induction l1 as [|y l1 IH]; intros pos; cbn; [intros [_ Hc]; exact Hc|intros [_ Hc]; now apply (IH _ Hc)]. Qed.

Lemma fchain_unique s pos l l' : fchain s pos l -> fchain s pos l' -> l = l'.
Proof.
  revert pos l'. induction l as [|x l IH]; intros pos [|y l']; cbn; [easy|intros -> [? _]; discriminate|intros [-> _]; discriminate|].
  intros [-> Hc] [[= <-] Hc']. f_equal. now apply (IH (hnext s x)).
Qed.

(** Two chains that share a node share everything behind it. *)
Lemma fchain_shared s pos pos' l1 x l2 y l : fchain s pos (l1 ++ x :: l2) -> fchain s pos' l -> y ∈ l1 -> y ∈ l -> x ∈ l.
Proof.
  intros Hc Hl [a [b ->]]%list_elem_of_split [c [d ->]]%list_elem_of_split. rewrite <- app_assoc in Hc. cbn in Hc.
  apply fchain_app in Hc. apply fchain_app in Hl. rewrite <- (fchain_unique _ _ _ _ Hc Hl). set_solver.
Qed.

Lemma fchain_search fuel p s pos l : fchain s pos l -> (length l < fuel)%nat ->
  exists r, hlist_search fuel p s pos = Some r /\ match r with Some x => x ∈ l /\ p x = true | None => forall x, x ∈ l -> p x = false end.
Proof.
  revert fuel pos. induction l as [|x l IH]; intros [|fuel] pos Hc Hf; cbn [hlist_search length fchain] in *; try lia.
  - subst pos. exists None. split; [easy|]. now intros x Hx%not_elem_of_nil.
  - destruct Hc as [-> Hc]. destruct (p x) eqn:Ep; [exists (Some x); split; [easy|]; split; [left|auto]|].
    destruct (IH fuel _ Hc ltac:(lia)) as (r & -> & Hr). exists r. split; [easy|]. destruct r as [y|].
    + destruct Hr. split; [now right|auto].
    + intros y [->|Hy]%elem_of_cons; auto.
Qed.

(** Adding [x], which is not in the chain of the bucket: the chain of the bucket
    gets longer, any chain through [x] continues with that of the bucket. *)
Lemma add_head_first s x h k : first (hlist_add_head s x h) k = if decide (k = h) then Some x else first s k.
Proof.
  unfold hlist_add_head. cbn [first set_pprev set_first].
  destruct (decide (k = h)) as [->|]; [now rewrite fn_lookup_insert|rewrite fn_lookup_insert_ne by auto; now rewrite fix_pprev_first].
Qed.
Lemma add_head_next s x h y : hnext (hlist_add_head s x h) y = if decide (y = x) then first s h else hnext s y.
Proof.
  unfold hlist_add_head. cbn [hnext set_pprev set_first]. rewrite fix_pprev_hnext. cbn [hnext set_hnext].
  destruct (decide (y = x)) as [->|]; [now rewrite fn_lookup_insert|now rewrite fn_lookup_insert_ne by auto].
Qed.

Lemma fchain_prefix s s' pos l1 x l2 t : (forall y, y <> x -> hnext s' y = hnext s y) -> x ∉ l1 -> fchain s pos (l1 ++ x :: l2) ->
  fchain s' (hnext s' x) t -> fchain s' pos (l1 ++ x :: t).
Proof.
  intros Hs. revert pos. induction l1 as [|y l1 IH]; intros pos Hx Hc Ht; cbn in *; [split; [apply Hc|auto]|].
  destruct Hc as [-> Hc]. rewrite not_elem_of_cons in Hx. destruct Hx. split; [easy|]. rewrite Hs by auto. now apply IH.
Qed.

(** What is added when a chain is rerouted into [t]. *)
Lemma add_head_chain s x h t k l : fchain s (first s h) t -> x ∉ t -> fchain s (first s k) l -> NoDup l -> NoDup t ->
  exists l', fchain (hlist_add_head s x h) (first (hlist_add_head s x h) k) l' /\ NoDup l' /\
    (l' = l \/ l' = x :: t /\ k = h \/ exists l1 l2, l = l1 ++ x :: l2 /\ l' = l1 ++ x :: t).
Proof.
  intros Ht Hx Hl Hd Hdt. set (s' := hlist_add_head s x h). assert (Hn : forall y, y <> x -> hnext s' y = hnext s y) by (intros y Hy; unfold s'; now rewrite add_head_next, decide_False).
  assert (Ht' : fchain s' (hnext s' x) t).
  { unfold s' at 2. rewrite add_head_next, decide_True by easy. apply (fchain_frame s); [|auto]. intros y Hy. apply Hn. now intros ->. }
  unfold s' at 2. rewrite add_head_first. destruct (decide (k = h)) as [->|Hk].
  { exists (x :: t). split; [now split|]. split; [now constructor|auto]. }
  destruct (decide (x ∈ l)) as [[l1 [l2 ->]]%list_elem_of_split|Hxl].
  - exists (l1 ++ x :: t). split; [|split; [|right; right; now exists l1, l2]].
    + apply (fchain_prefix s _ _ _ _ l2); auto. apply NoDup_app in Hd as (_ & Hd & _). intros Hin. apply (Hd x Hin). left.
    + apply NoDup_app. apply NoDup_app in Hd as (Hd1 & Hd & _). split; [auto|]. split; [|now constructor].
      intros y Hy [->|Hyt]%elem_of_cons; [apply (Hd x Hy); left|]. apply Hx. eapply fchain_shared; [exact Hl|exact Ht|exact Hy|exact Hyt].
  - exists l. split; [|auto]. apply (fchain_frame s); [|auto]. intros y Hy. apply Hn. now intros ->.
Qed.
End chains.

(** ** Links of the regions and the other operations of a node *)

Lemma vregion_bits_ok : 0 <= VREGION_SESSIONS_BITS <= 32.
Proof. split; vm_compute; discriminate. Qed.

(** The link of a session that was not in use may be initialised. *)
Definition vlinks_kept (p p' : peer) : Prop :=
  link_vregion p' = link_vregion p \/ exists i, ~ in_use (tab p) i /\ link_vregion p' = INIT_HLIST_NODE (link_vregion p) i.

Lemma net_open_vlinks E B cs ls cl p up bi r p' : links_inv E B cs ls cl p -> net_open_session p up bi = (r, p') -> vlinks_kept p p'.
Proof.
  intros Hp E1. pose proof (alloc_links E B cs ls cl p Hp) as Ha. unfold net_open_session in E1.
  assert (Hv : forall q o, peer_alloc_session p = (o, q) -> match o with Some i => link_vregion q = INIT_HLIST_NODE (link_vregion p) i | None => q = p end).
  { intros q o. unfold peer_alloc_session. destruct (host_alloc_session (tab p)) as [[i|] t]; now intros [= <- <-]. }
  destruct (peer_alloc_session p) as [[i|] q]; specialize (Hv _ _ eq_refl); cbn in Hv.
  - destruct Ha as (_ & Hn & _). right. exists i. split; [auto|]. destruct up; cbn [negb] in E1; injection E1 as <- <-; exact Hv.
  - injection E1 as <- <-. subst. now left.
Qed.

Lemma open_vlinks E B cs ls cl cfg p up ask ctx bi tid lm rm r p' : links_inv E B cs ls cl p ->
  ____legomem_open_session cfg p up ask ctx bi tid lm rm = Some (r, p') -> vlinks_kept p p'.
Proof.
  intros Hp E1. unfold ____legomem_open_session in E1. destruct bi as [bi|]; [|injection E1 as <- <-; now left].
  destruct (lm && rm); [injection E1 as <- <-; now left|]. destruct (net_open_session p up bi) as [[i|] q] eqn:En; [|injection E1 as <- <-; eauto using net_open_vlinks].
  pose proof (net_open_vlinks _ _ _ _ _ _ _ _ _ _ Hp En) as Hk. assert (Hq : link_vregion p' = link_vregion q); [|unfold vlinks_kept in *; now rewrite Hq]. clear Hk En.
  destruct lm; [destruct ctx; injection E1 as <- <-; reflexivity|]. destruct rm; [destruct ctx; injection E1 as <- <-; reflexivity|].
  destruct cfg; [|destruct ctx; injection E1 as <- <-; reflexivity].
  destruct (bi_mgmt_session _); [|discriminate E1]. destruct (ask _) as [d|]; [|injection E1 as <- <-; reflexivity].
  destruct (d =? 0); [injection E1 as <- <-; reflexivity|]. destruct ctx; injection E1 as <- <-; reflexivity.
Qed.

Lemma accept_vlinks E B cs ls cl p up th ip port id ret p' : links_inv E B cs ls cl p ->
  host_handle_open_session p up th ip port id = Some (ret, p') -> vlinks_kept p p'.
Proof.
  intros Hp E1. unfold host_handle_open_session in E1. destruct (find_board (bds p) ip port) as [[bi|]|]; cbn in E1; [|injection E1 as <- <-; now left|discriminate].
  unfold generic_handle_open_session in E1. destruct (net_open_session p up bi) as [[i|] q] eqn:En; [|injection E1 as <- <-; eauto using net_open_vlinks].
  pose proof (net_open_vlinks _ _ _ _ _ _ _ _ _ _ Hp En) as Hk. assert (Hq : link_vregion p' = link_vregion q); [|unfold vlinks_kept in *; now rewrite Hq]. clear Hk En.
  destruct th; cbn [negb] in E1; [injection E1 as <- <-; reflexivity|]. unfold peer_board_remove in E1.
  destruct (board_remove_session _ _ _ _ _) as [[? ?]|]; [|discriminate E1]. cbn in E1. injection E1 as <- <-. reflexivity.
Qed.

Lemma add_board_vlinks cfg bs cs ls cl p up mem ip port lp loc r p' : peer_inv bs cs ls cl p ->
  add_board cfg p up mem ip port lp loc = Some (r, p') -> vlinks_kept p p'.
Proof.
  intros Hp E1. unfold add_board in E1. pose proof (alloc_board_spec bs (bds p) (pe_boards _ _ _ _ _ Hp)) as H.
  destruct (alloc_board_info (bds p)) as [[i|] b']; [|injection E1 as <- <-; now left]. destruct H as (Hi & Hn & Hlow & Hf & Hu & Hm & Hl & Hs & Hx & _).
  set (x := set_bi_addr _ ip port lp mem) in E1. set (p1 := update_bi _ i x) in E1. pose proof (new_board_links bs cs ls cl p i b' x Hp Hn Hs) as H1. fold p1 in H1.
  assert (E2 : (if loc then legomem_open_session_local_mgmt else legomem_open_session_remote_mgmt) cfg p1 up i =
    ____legomem_open_session cfg p1 up (fun _ => None) None (Some i) 0 loc (negb loc)) by now destruct loc.
  rewrite E2 in E1. destruct (____legomem_open_session _ _ _ _ _ _ _ _ _) as [[ses q]|] eqn:E3; [|discriminate E1]. cbn in E1. injection E1 as <- <-.
  exact (open_vlinks _ _ _ _ _ _ _ _ _ _ _ _ _ _ _ _ H1 E3).
Qed.

(** ** The tables of the regions *)

(** [reg c v]: the address of the board of region [v] of [c], if it is allocated. *)
Definition member (own : Z -> option Z) (c : Z) (e : option (Z * Z)) (p : peer) (x : Z) : Prop :=
  0 <= x < NR_MAX_SESSIONS_PER_NODE /\ in_use (tab p) x /\ own x = Some c /\ e = Some (s_board_ip (ses_at p x), s_udp_port (ses_at p x)).
Definition bucket_ok (own : Z -> option Z) (c : Z) (e : option (Z * Z)) (p : peer) (k : (Z * Z) * Z) (l : list Z) : Prop :=
  fchain (link_vregion p) (first (link_vregion p) k) l /\ NoDup l /\ forall x, x ∈ l -> member own c e p x.
Definition regions_ok (live : Z -> Prop) (reg : Z -> Z -> option (Z * Z)) (own : Z -> option Z) (p : peer) : Prop :=
  forall c v j, live c -> exists l, bucket_ok own c (reg c v) p ((c, v), j) l.

(** Sessions in use keep their fields. *)
Definition used_kept (p p' : peer) : Prop :=
  forall x, 0 <= x < NR_MAX_SESSIONS_PER_NODE -> in_use (tab p) x -> in_use (tab p') x /\ ses_at p' x = ses_at p x.

Lemma regions_kept live reg own own' p p' : regions_ok live reg own p -> vlinks_kept p p' -> used_kept p p' ->
  (forall x, 0 <= x < NR_MAX_SESSIONS_PER_NODE -> in_use (tab p) x -> own' x = own x) -> regions_ok live reg own' p'.
Proof.
  intros Hr Hv Hu Ho c v j Hc. destruct (Hr c v j Hc) as (l & Hl & Hd & Hm). exists l. split; [|split; [auto|]].
  - destruct Hv as [->|(i & Hi & ->)]; [auto|]. cbn [first INIT_HLIST_NODE set_pprev set_hnext]. eapply fchain_frame; [|exact Hl].
    intros x Hx. cbn. apply fn_lookup_insert_ne. intros ->. destruct (Hm x Hx) as (_ & H1 & _). contradiction.
  - intros x Hx. destruct (Hm x Hx) as (H1 & H2 & H3 & H4). destruct (Hu x H1 H2) as [H5 H6]. unfold member. rewrite H6, Ho; auto.
Qed.

Lemma regions_reg live reg reg' own p : regions_ok live reg own p -> (forall c v, live c -> reg' c v = reg c v \/ reg c v = None) -> regions_ok live reg' own p.
Proof.
  intros Hr He c v j Hc. destruct (Hr c v j Hc) as (l & Hl & Hd & Hm). exists l. destruct (He c v Hc) as [->|E]; [now split|].
  split; [auto|]. split; [auto|]. intros x Hx. destruct (Hm x Hx) as (_ & _ & _ & H4). congruence.
Qed.

Lemma region_find live reg own p c v tid : regions_ok live reg own p -> live c ->
  exists r, find_vregion_session p c v tid = Some r /\
    match r with
    | Some x => member own c (reg c v) p x /\ s_tid (ses_at p x) = tid
    | None => exists t, bucket_ok own c (reg c v) p ((c, v), hash_min tid VREGION_SESSIONS_BITS) t /\ forall x, x ∈ t -> s_tid (ses_at p x) <> tid
    end.
Proof.
  intros Hr Hc. destruct (Hr c v (hash_min tid VREGION_SESSIONS_BITS) Hc) as (l & Hl & Hd & Hm).
  assert (Hlen : (length l < chain_fuel)%nat) by (enough (S (length l) < chain_fuel)%nat by lia; apply sessions_bound; [auto|intros x Hx; apply (Hm x Hx)]).
  destruct (fchain_search chain_fuel (same_tid p tid) _ _ _ Hl Hlen) as (r & E & Hs). exists r. split; [exact E|]. destruct r as [x|].
  - destruct Hs as [Hx Ht]. split; [auto|]. unfold same_tid in Ht. apply Z.eqb_eq in Ht. auto.
  - exists l. split; [now split|]. intros x Hx Ht. specialize (Hs x Hx). unfold same_tid in Hs. apply Z.eqb_neq in Hs. auto.
Qed.

Lemma regions_add live reg own p c v x : regions_ok live reg own p -> live c -> member own c (reg c v) p x ->
  find_vregion_session p c v (s_tid (ses_at p x)) = Some None -> regions_ok live reg own (add_vregion_session p c v x).
Proof.
  intros Hr Hc Hx Hf. destruct (region_find live reg own p c v (s_tid (ses_at p x)) Hr Hc) as (r & E & Ht). rewrite Hf in E. injection E as <-.
  destruct Ht as (t & (Ht & Hdt & Hmt) & Hnt). assert (Hxt : x ∉ t) by (intros Hin; now apply (Hnt x)). intros c' v' j Hc'. destruct (Hr c' v' j Hc') as (l & Hl & Hd & Hm).
  destruct (add_head_chain _ x _ t ((c', v'), j) l Ht Hxt Hl Hd Hdt) as (l' & Hl' & Hd' & Hcase). exists l'. split; [exact Hl'|]. split; [auto|].
  intros y Hy. assert (Hsame : forall c0 e, member own c0 e p y -> member own c0 e (add_vregion_session p c v x) y) by auto. apply Hsame.
  destruct Hcase as [->|[[-> [= -> -> _]]|(l1 & l2 & -> & ->)]]; [auto|apply elem_of_cons in Hy as [->|Hy]; auto|].
  destruct (Hm x ltac:(set_solver)) as (_ & _ & Hox & Hex). destruct Hx as (Hx1 & Hx2 & Hx3 & Hx4). apply elem_of_app in Hy as [Hy|[->|Hy]%elem_of_cons]; [apply Hm; set_solver|apply Hm; set_solver|].
  assert (c' = c) as -> by congruence. destruct (Hmt y Hy) as (H1 & H2 & H3 & H4). split; [exact H1|]. split; [exact H2|]. split; [exact H3|]. rewrite Hex, <- Hx4. exact H4.
Qed.

(** ** The sessions of a thread *)

(** A thread has at most one session of a context with a board. *)
Definition unique_sessions (cx : list Z) (cl : Z -> list Z) (p : peer) : Prop :=
  forall c x y, c ∈ cx -> x ∈ cl c -> y ∈ cl c -> s_tid (ses_at p x) = s_tid (ses_at p y) ->
    s_board_ip (ses_at p x) = s_board_ip (ses_at p y) -> s_udp_port (ses_at p x) = s_udp_port (ses_at p y) -> x = y.

(** Who owns the sessions after an operation that opened sessions for [ctx]. *)
Definition owned_after (p p' : peer) (ctx : option Z) (own own' : Z -> option Z) : Prop :=
  forall x, 0 <= x < NR_MAX_SESSIONS_PER_NODE -> in_use (tab p') x -> (in_use (tab p) x -> own' x = own x) /\ (~ in_use (tab p) x -> own' x = ctx).

Lemma conf_own_used bs ls cl p cx own own' : conf_inv bs ls cl (Conf p cx own) ->
  (forall x, 0 <= x < NR_MAX_SESSIONS_PER_NODE -> in_use (tab p) x -> own' x = own x) -> conf_inv bs ls cl (Conf p cx own').
Proof.
  intros [H1 H2 H3 H4 H5 H6] He. cbn [c_peer c_ctxs c_own] in *. split; cbn [c_peer c_ctxs c_own]; auto.
  - now rewrite He by (auto using mgmt_range).
  - intros x y Hx Hy. destruct (li_ctx_used _ _ _ _ _ _ (pe_links _ _ _ _ _ H1) x y Hx Hy). rewrite He by auto. now apply H5.
  - intros x y Hy Hin. rewrite He by auto. now apply H6.
Qed.

Lemma context_lists_used bs ls cl p cx own c x : conf_inv bs ls cl (Conf p cx own) -> c ∈ cx -> x ∈ cl c -> 0 <= x < NR_MAX_SESSIONS_PER_NODE /\ in_use (tab p) x.
Proof. intros Hc. apply (li_ctx_used _ _ _ _ _ _ (pe_links _ _ _ _ _ (ci_peer _ _ _ _ Hc))). Qed.

Lemma unique_kept bs ls cl p cx own p' : conf_inv bs ls cl (Conf p cx own) -> unique_sessions cx cl p -> used_kept p p' -> unique_sessions cx cl p'.
Proof.
  intros Hc Hu Hk c x y Hcx Hx Hy. destruct (context_lists_used _ _ _ _ _ _ _ _ Hc Hcx Hx), (context_lists_used _ _ _ _ _ _ _ _ Hc Hcx Hy).
  destruct (Hk x), (Hk y); auto. intros. apply (Hu c x y); congruence.
Qed.

(** What finding or opening a session leaves. *)
Record extended (cx : list Z) (own : Z -> option Z) (ctx : option Z) (p p' : peer) (own' : Z -> option Z) (bs' : list Z) (ls' cl' : Z -> list Z) : Prop := {
  ex_conf : conf_inv bs' ls' cl' (Conf p' cx own');
  ex_links : vlinks_kept p p';
  ex_used : used_kept p p';
  ex_own : owned_after p p' ctx own own';
  ex_unique : unique_sessions cx cl' p';
}.

Lemma owned_refl p ctx own : owned_after p p ctx own own.
Proof. intros x Hx Hu. now split. Qed.
Lemma used_refl p : used_kept p p.
Proof. now split. Qed.
Lemma extended_refl cx own ctx p bs ls cl : conf_inv bs ls cl (Conf p cx own) -> unique_sessions cx cl p -> extended cx own ctx p p own bs ls cl.
Proof. intros Hc Hu. split; auto using owned_refl, used_refl. now left. Qed.

(** Any owners that [owned_after] allows will do. *)
Lemma extended_own cx own ctx p p' own1 own2 bs ls cl : extended cx own ctx p p' own1 bs ls cl -> owned_after p p' ctx own own2 -> extended cx own ctx p p' own2 bs ls cl.
Proof.
  intros [H1 H2 H3 H4 H5] Ho. split; auto. apply (conf_own_used _ _ _ _ _ own1); [auto|]. intros x Hx Hu. destruct (H4 x Hx Hu) as [A1 A2], (Ho x Hx Hu) as [B1 B2].
  destruct (in_use_dec (tab p) x) as [Hp|Hp]; [rewrite A1, B1|rewrite A2, B2]; auto.
Qed.

Lemma open_extended cfg bs ls cl p cx own up ask c bi tid : conf_inv bs ls cl (Conf p cx own) -> unique_sessions cx cl p -> c ∈ cx -> bi ∈ bs -> reachable_board cfg p bi ->
  context_find_session p c tid (bi_ip (bi_at p bi)) (bi_port (bi_at p bi)) = Some None ->
  exists r p' own' ls' cl', legomem_open_session cfg p up ask (Some c) (Some bi) tid = Some (r, p') /\ extended cx own (Some c) p p' own' bs ls' cl' /\ bds p' = bds p /\
    match r with
    | Some x => member own' c (Some (bi_ip (bi_at p bi), bi_port (bi_at p bi))) p' x /\ s_tid (ses_at p' x) = tid /\ x ∈ cl' c
    | None => refused cfg ask false up p
    end.
Proof.
  intros Hc Huq Hcx Hb Hrb Hnone. pose proof (ci_peer _ _ _ _ Hc) as Hp. cbn [c_peer c_ctxs] in Hp. pose proof (pe_links _ _ _ _ _ Hp) as Hl.
  destruct (open_session_links _ _ ls cl cfg p up ask (Some c) bi tid false false Hl Hb ltac:(now intros ? [= <-]) eq_refl) as (r & q & E & Hr); [unfold reachable_board in Hrb; tauto|].
  pose proof (open_vlinks _ _ _ _ _ _ _ _ _ _ _ _ _ _ _ _ Hl E) as Hv. destruct r as [s|].
  - destruct Hr as (_ & Ho & Hl' & Ht & _). destruct Ho as [Hs Hn Hu (Hsame & Hbd & Hgp)]. exists (Some s), q, (<[s := Some c]> own), (<[bi := s :: ls bi]> ls), (with_session cl (Some c) s).
    assert (Hk : used_kept p q) by (intros x Hx Hxu; split; [apply Hu; [lia|auto]|apply Hsame; congruence]).
    assert (Hconf : conf_inv bs (<[bi := s :: ls bi]> ls) (with_session cl (Some c) s) (Conf q cx (<[s := Some c]> own))).
    { apply (conf_opened bs ls cl p cx own _ _ s (Some c)); eauto using same_env_inv, ci_boards. now intros ? [= <-]. }
    destruct (li_linked _ _ _ _ _ _ Hl' bi s Hb ltac:(rewrite fn_lookup_insert; left)) as (_ & Hsu & _ & Hip & Hpo). unfold bi_at in Hip, Hpo. rewrite Hbd in Hip, Hpo. fold (bi_at p bi) in Hip, Hpo.
    split; [exact E|]. split; [|split; [auto|]]; [split; auto|split; [|split; [auto|cbn; rewrite fn_lookup_insert; left]]].
    + intros x Hx Hxu. split; intros Hpx; [apply fn_lookup_insert_ne; congruence|]. apply Hu in Hxu as [->|?]; [apply fn_lookup_insert|contradiction|lia].
    + intros c' x y Hc' Hx Hy H1 H2 H3. cbn in Hx, Hy. destruct (decide (c' = c)) as [->|Hne]; [|rewrite fn_lookup_insert_ne in Hx, Hy by auto; eapply (unique_kept _ _ _ _ _ _ _ Hc Huq Hk); eauto].
      destruct (context_find_spec _ _ _ ls cl p c tid (bi_ip (bi_at p bi)) (bi_port (bi_at p bi)) Hl Hc') as (r' & Ef & Hno). rewrite Hnone in Ef. injection Ef as <-. cbv zeta in Hno.
      assert (Hnew : forall z, z ∈ cl c -> s_tid (ses_at q z) = s_tid (ses_at q s) -> s_board_ip (ses_at q z) = s_board_ip (ses_at q s) -> s_udp_port (ses_at q z) = s_udp_port (ses_at q s) -> False).
      { intros z Hz K1 K2 K3. destruct (context_lists_used _ _ _ _ _ _ _ _ Hc Hc' Hz) as [Z1 Z2]. destruct (Hk z Z1 Z2) as [_ Ez]. rewrite Ez in K1, K2, K3. apply (Hno z Hz). split_and!; congruence. }
      rewrite fn_lookup_insert in Hx, Hy. apply elem_of_cons in Hx as [->|Hx], Hy as [->|Hy]; [easy|now destruct (Hnew y Hy)|now destruct (Hnew x Hx)|].
      eapply (unique_kept _ _ _ _ _ _ _ Hc Huq Hk); eauto.
    + split; [auto|]. split; [auto|]. split; [apply fn_lookup_insert|]. now rewrite Hip, Hpo.
  - destruct Hr as (Hl' & [Hbd _] & Hq & Href). destruct (Hq (ci_mgmt _ _ _ _ Hc)) as [Hu Hs]. exists None, q, own, ls, cl.
    assert (Hk : used_kept p q) by (intros x Hx Hxu; split; [now apply Hu|now apply Hs]). split; [exact E|]. split; [|auto]. split; eauto using unique_kept.
    + apply (conf_kept bs ls cl p cx own); eauto using same_env_inv, ci_boards.
    + intros x Hx Hxu. split; [easy|]. intros Hn. destruct Hn. now apply Hu.
Qed.

(** Finding the session of the thread, or opening it. *)
Lemma thread_session_spec cfg bs ls cl p cx own up ask c bi tid : conf_inv bs ls cl (Conf p cx own) -> unique_sessions cx cl p -> c ∈ cx -> bi ∈ bs -> reachable_board cfg p bi ->
  exists r p' own' ls' cl', thread_session cfg p up ask c bi tid (bi_ip (bi_at p bi)) (bi_port (bi_at p bi)) = Some (r, p') /\
    extended cx own (Some c) p p' own' bs ls' cl' /\ bds p' = bds p /\
    match r with
    | Some x => member own' c (Some (bi_ip (bi_at p bi), bi_port (bi_at p bi))) p' x /\ s_tid (ses_at p' x) = tid /\ x ∈ cl' c
    | None => refused cfg ask false up p
    end.
Proof.
  intros Hc Huq Hcx Hb Hrb. pose proof (pe_links _ _ _ _ _ (ci_peer _ _ _ _ Hc)) as Hl. cbn [c_peer c_ctxs] in Hl. unfold thread_session.
  destruct (context_find_spec _ _ _ ls cl p c tid (bi_ip (bi_at p bi)) (bi_port (bi_at p bi)) Hl Hcx) as (r & E & Hr). rewrite E. cbn [mbind option_bind]. cbv zeta in Hr. destruct r as [x|].
  - destruct Hr as (Hx & H1 & H2 & H3). exists (Some x), p, own, ls, cl. split; [easy|]. split; [now apply extended_refl|]. split; [easy|].
    destruct (context_lists_used _ _ _ _ _ _ _ _ Hc Hcx Hx). split; [|auto]. split; [auto|]. split; [auto|]. split; [now apply (ci_listed _ _ _ _ Hc)|congruence].
  - exact (open_extended cfg bs ls cl p cx own up ask c bi tid Hc Huq Hcx Hb Hrb E).
Qed.

(** ** The regions of a context *)

Definition reg_of (h : host) (c v : Z) : option (Z * Z) :=
  let r := region_at h c v in if VregionAllocated r then Some (v_ip r, v_port r) else None.

(** The list holds the regions that are allocated. *)
Definition alloc_list_ok (x : legomem_context) : Prop :=
  exists l, dlist (alloc_list x) alloc_list_head l /\ forall i, i ∈ l <-> VregionAllocated (vregion x i) = true.

Lemma candidate_ends fuel x size a l : chain (alloc_list x) a l alloc_list_head -> alloc_list_head ∉ l -> (length l < fuel)%nat ->
  exists r, find_candidate fuel x (next (alloc_list x) a) size = Some r.
Proof.
  revert fuel a. induction l as [|v l IH]; intros [|fuel] a Hc Hh Hf; cbn [length] in Hf; try lia.
  - destruct Hc as [E _]. cbn [find_candidate]. rewrite E, Z.eqb_refl. eauto.
  - destruct Hc as (E & _ & Hc). rewrite not_elem_of_cons in Hh. destruct Hh as [Hv Hh]. cbn [find_candidate]. rewrite E.
    destruct (v =? alloc_list_head); [eauto|]. destruct (size <=? _); [eauto|]. destruct (avail_space (vregion x v) =? 0); [eauto|]. apply IH; auto. lia.
Qed.

Lemma region_flag_set v : VregionAllocated (TestSetVregionAllocated v).2 = true.
Proof. unfold VregionAllocated, TestSetVregionAllocated, set_v_flags. cbn [snd v_flags]. now apply Z.setbit_eq. Qed.

(** Region [v] is allocated in [x'] at the address, everything else is as in [x]. *)
Record allocated_at (x x' : legomem_context) (v ip port : Z) : Prop := {
  al_pid : x_pid x' = x_pid x;
  al_flag : VregionAllocated (vregion x' v) = true;
  al_addr : v_ip (vregion x' v) = ip /\ v_port (vregion x' v) = port;
  al_others i : i <> v -> vregion x' i = vregion x i;
  al_list : alloc_list_ok x -> VregionAllocated (vregion x v) = false -> 0 <= v -> alloc_list_ok x';
}.

(** What an allocation does to its context. *)
Definition alloc_context (h : host) (c v ip port size : Z) : legomem_context :=
  adjust_vregion_avail_size (ctx_at (new_vregion (set_region_at h c v (TestSetVregionAllocated (region_at h c v)).2) c v ip port) c) v size.

Lemma ctx_set h c x : ctx_at (set_ctx h c x) c = x.
Proof. apply fn_lookup_insert. Qed.
Lemma ctx_set_other h c x c' : c' <> c -> ctx_at (set_ctx h c x) c' = ctx_at h c'.
Proof. intros Hc. now apply fn_lookup_insert_ne, not_eq_sym. Qed.

Lemma adjust_fields x v size : let x' := adjust_vregion_avail_size x v size in
  x_pid x' = x_pid x /\ (forall i, i <> v -> vregion x' i = vregion x i) /\
  v_ip (vregion x' v) = v_ip (vregion x v) /\ v_port (vregion x' v) = v_port (vregion x v) /\ v_flags (vregion x' v) = v_flags (vregion x v) /\
  (alloc_list x' = alloc_list x \/ alloc_list x' = list_add_tail (list_del poison_list poison_list (alloc_list x) v) v alloc_list_head).
Proof.
  cbv zeta. unfold adjust_vregion_avail_size. set (left := sint32 _). destruct (0 <? left); [|destruct (left <? 0)]; cbn;
    rewrite ?fn_lookup_insert; cbn; (split; [easy|]; split; [intros i Hi; now rewrite ?fn_lookup_insert_ne by auto|]); auto.
Qed.

Lemma moved_list h l v : dlist h alloc_list_head l -> v ∈ l ->
  exists l', dlist (list_add_tail (list_del poison_list poison_list h v) v alloc_list_head) alloc_list_head l' /\ forall i, i ∈ l' <-> i ∈ l.
Proof.
  intros Hl [l1 [l2 ->]]%list_elem_of_split. exists ((l1 ++ l2) ++ [v]). split; [|intros i; set_solver].
  apply dlist_list_add_tail; [now apply dlist_list_del|now apply (dlist_not_in h)].
Qed.

Lemma alloc_context_spec h c v ip port size : allocated_at (ctx_at h c) (alloc_context h c v ip port size) v ip port.
Proof.
  unfold alloc_context. set (x2 := ctx_at (new_vregion _ _ _ _ _) c).
  assert (E2 : x_pid x2 = x_pid (ctx_at h c) /\ (forall i, i <> v -> vregion x2 i = region_at h c i) /\ v_ip (vregion x2 v) = ip /\ v_port (vregion x2 v) = port /\
    VregionAllocated (vregion x2 v) = true /\ alloc_list x2 = list_add (alloc_list (ctx_at h c)) v alloc_list_head).
  { unfold x2, new_vregion, set_region_at, region_at. cbv zeta. rewrite !ctx_set. cbn [set_alloc_list vregion_alloclist_enqueue_head set_vregion x_pid vregion alloc_list]. rewrite !fn_lookup_insert. split_and!; auto.
    - intros i Hi. now rewrite !fn_lookup_insert_ne by auto.
    - apply (region_flag_set (vregion (ctx_at h c) v)). }
  destruct E2 as (H1 & H2 & H3 & H4 & H5 & H6). destruct (adjust_fields x2 v size) as (A1 & A2 & A3 & A4 & A5 & A6).
  assert (Hflag : VregionAllocated (vregion (adjust_vregion_avail_size x2 v size) v) = true) by (unfold VregionAllocated in *; now rewrite A5).
  split; [congruence|exact Hflag|split; congruence|intros i Hi; rewrite A2 by auto; now apply H2|]. intros (l & Hl & Hm) Hv Hv0.
  assert (Hvl : v ∉ alloc_list_head :: l) by (unfold alloc_list_head; rewrite not_elem_of_cons; split; [lia|rewrite Hm; congruence]).
  pose proof (dlist_list_add _ _ _ _ Hl Hvl) as Hl2. rewrite <- H6 in Hl2.
  assert (Hmem : forall i, i ∈ v :: l <-> VregionAllocated (vregion (adjust_vregion_avail_size x2 v size) i) = true).
  { intros i. rewrite elem_of_cons, Hm. destruct (decide (i = v)) as [->|Hi]; [tauto|]. rewrite A2, H2 by auto. unfold region_at. tauto. }
  destruct A6 as [A6|A6]; unfold alloc_list_ok; rewrite A6; [now exists (v :: l)|]. destruct (moved_list _ _ v Hl2 ltac:(left)) as (l' & Hl' & Hi').
  exists l'. split; [exact Hl'|]. intros i. now rewrite Hi'.
Qed.

(** ** A host *)

(** Not one of the addresses [find_board] treats as a wildcard. *)
Definition ordinary (ip : Z) : Prop := ip <> ANY_BOARD /\ ip <> ANY_NODE.

Lemma context_list_bits_ok : 0 <= CONTEXT_HASH_ARRAY_BITS <= 32.
Proof. split; vm_compute; discriminate. Qed.

Definition pid_of (h : host) (c : Z) : Z := x_pid (ctx_at h c).

(** [live] are the open contexts, [cx] all there ever were; [pids] and [given] are
    the ids and the regions the monitor gave out. *)
Record host_inv (live cx : list Z) (own : Z -> option Z) (pids : list Z) (given : Z -> list Z) (bs : list Z) (ls cl : Z -> list Z) (h : host) : Prop := {
  hi_conf : conf_inv bs ls cl (Conf (net h) cx own);
  hi_unique : unique_sessions cx cl (net h);
  hi_live c : c ∈ live -> c ∈ cx;
  hi_regions : regions_ok (fun c => c ∈ live) (reg_of h) own (net h);
  hi_lists c : c ∈ live -> alloc_list_ok (ctx_at h c);
  hi_pids c : c ∈ live -> pid_of h c ∈ pids;
  hi_distinct c c' : c ∈ live -> c' ∈ live -> pid_of h c = pid_of h c' -> c = c';
  hi_given c i : c ∈ live -> VregionAllocated (region_at h c i) = true -> i ∈ given (pid_of h c);
  hi_ordinary c v ip port : c ∈ live -> reg_of h c v = Some (ip, port) -> ordinary ip;
  hi_rep : hash_rep (fun j => j) CONTEXT_HASH_ARRAY_BITS (pid_of h) (context_list h) live;
  hi_avail : NoDup (havail h) /\ forall a, a ∈ havail h -> a ∉ cx;
}.

Lemma conf_vlinks bs ls cl p cx own s : conf_inv bs ls cl (Conf p cx own) -> conf_inv bs ls cl (Conf (set_link_vregion p s) cx own).
Proof.
  intros [[H1 [L1 L2 L3 L4 L5 L6]] H2 H3 H4 H5 H6].
  split; [split; [exact H1|split; [exact L1|exact L2|exact L3|exact L4|exact L5|exact L6]]|exact H2|exact H3|exact H4|exact H5|exact H6].
Qed.

Lemma host_inv_net live cx own pids given bs ls cl h ctx p' own' bs' ls' cl' : host_inv live cx own pids given bs ls cl h ->
  extended cx own ctx (net h) p' own' bs' ls' cl' -> host_inv live cx own' pids given bs' ls' cl' (set_hnet h p').
Proof.
  intros [H1 H2 H3 H4 H5 H6 H7 H8 H9 H10 H11] [E1 E2 E3 E4 E5]. split; auto.
  apply (regions_kept _ (reg_of h) own _ (net h)); auto. intros x Hx Hu. now apply (E4 x Hx), Hu; apply E3.
Qed.

Lemma host_inv_link live cx own pids given bs ls cl h c v x : host_inv live cx own pids given bs ls cl h -> c ∈ live -> member own c (reg_of h c v) (net h) x ->
  find_vregion_session (net h) c v (s_tid (ses_at (net h) x)) = Some None ->
  host_inv live cx own pids given bs ls cl (set_hnet h (add_vregion_session (net h) c v x)).
Proof.
  intros [H1 H2 H3 H4 H5 H6 H7 H8 H9 H10 H11] Hc Hx Hf. split; auto; [now apply conf_vlinks|]. now apply (regions_add (fun c => c ∈ live) (reg_of h)).
Qed.

(** The same host, with the memory of the contexts compared pointwise. *)
Definition same_host (h h' : host) : Prop :=
  net h' = net h /\ context_list h' = context_list h /\ havail h' = havail h /\ forall c, ctx_at h' c = ctx_at h c.

Lemma host_inv_ext live cx own pids given bs ls cl h h' : same_host h h' -> host_inv live cx own pids given bs ls cl h -> host_inv live cx own pids given bs ls cl h'.
Proof.
  intros (E1 & E2 & E3 & E4) [H1 H2 H3 H4 H5 H6 H7 H8 H9 H10 H11]. assert (Hp : forall c, pid_of h' c = pid_of h c) by (intros c; unfold pid_of; now rewrite E4).
  assert (Hr : forall c v, region_at h' c v = region_at h c v) by (intros c v; unfold region_at; now rewrite E4).
  assert (Hg : forall c v, reg_of h' c v = reg_of h c v) by (intros c v; unfold reg_of; now rewrite Hr). split; rewrite ?E1, ?E2, ?E3; auto.
  - apply (regions_reg _ (reg_of h)); auto.
  - intros c Hc. rewrite E4. auto.
  - intros c Hc. rewrite Hp. auto.
  - intros c c' Hc Hc'. rewrite !Hp. auto.
  - intros c i Hc. rewrite Hr, Hp. auto.
  - intros c v ip port Hc. rewrite Hg. now apply H9.
  - apply (hash_rep_key _ _ (pid_of h)); auto.
Qed.

(** The regions given may grow. *)
Lemma host_inv_given live cx own pids pids' given given' bs ls cl h : host_inv live cx own pids given bs ls cl h ->
  (forall x, x ∈ pids -> x ∈ pids') -> (forall x i, i ∈ given x -> i ∈ given' x) -> host_inv live cx own pids' given' bs ls cl h.
Proof. intros [H1 H2 H3 H4 H5 H6 H7 H8 H9 H10 H11] Hp Hg. split; auto. Qed.

Lemma reg_of_set h c x v : reg_of (set_ctx h c x) c v = if VregionAllocated (vregion x v) then Some (v_ip (vregion x v), v_port (vregion x v)) else None.
Proof. unfold reg_of, region_at. now rewrite ctx_set. Qed.

Lemma pid_of_set h c x c' : x_pid x = pid_of h c -> pid_of (set_ctx h c x) c' = pid_of h c'.
Proof. intros E. unfold pid_of. destruct (decide (c' = c)) as [->|Hc]; [now rewrite ctx_set|now rewrite ctx_set_other]. Qed.

(** Writing a context whose id stays, for the parts that depend on it. *)
Lemma host_inv_ctx live cx own pids given bs ls cl h c x : host_inv live cx own pids given bs ls cl h -> c ∈ live -> x_pid x = pid_of h c ->
  alloc_list_ok x -> (forall v, reg_of (set_ctx h c x) c v = reg_of h c v \/ reg_of h c v = None) ->
  (forall i, VregionAllocated (vregion x i) = true -> i ∈ given (pid_of h c)) ->
  (forall v ip port, reg_of (set_ctx h c x) c v = Some (ip, port) -> ordinary ip) -> host_inv live cx own pids given bs ls cl (set_ctx h c x).
Proof.
  intros [H1 H2 H3 H4 H5 H6 H7 H8 H9 H10 H11] Hc Hp Hl Hr Hg Hord.
  assert (Ho : forall c' v, c' <> c -> reg_of (set_ctx h c x) c' v = reg_of h c' v) by (intros c' v Hn; unfold reg_of, region_at; now rewrite ctx_set_other).
  split; auto.
  - apply (regions_reg _ (reg_of h)); [exact H4|]. intros c' v _. destruct (decide (c' = c)) as [->|Hn]; auto.
  - intros c' Hc'. destruct (decide (c' = c)) as [->|Hn]; [now rewrite ctx_set|rewrite ctx_set_other; auto].
  - intros c' Hc'. rewrite pid_of_set; auto.
  - intros c1 c2 K1 K2. rewrite !pid_of_set by auto. auto.
  - intros c' i Hc'. rewrite pid_of_set by auto. unfold region_at. destruct (decide (c' = c)) as [->|Hn]; [rewrite ctx_set; auto|rewrite ctx_set_other by auto; now apply H8].
  - intros c' v ip port Hc'. destruct (decide (c' = c)) as [->|Hn]; [apply Hord|rewrite Ho by auto; now apply H9].
  - apply (hash_rep_key _ _ (pid_of h)); [|exact H10]. intros c' _. now apply pid_of_set.
Qed.

(** Every real board has a management session. *)
Definition boards_up (p : peer) : Prop :=
  forall bi, known_board p bi -> special_board_info_type (bi_flags (bi_at p bi)) = false -> bi_mgmt_session (bi_at p bi) <> None.

(** A board found by an ordinary address. *)
Lemma ordinary_board bs ls cl p cx own ip port : conf_inv bs ls cl (Conf p cx own) -> ordinary ip ->
  exists r, find_board (bds p) ip port = Some r /\
    match r with
    | Some bi => bi ∈ bs /\ special_board_info_type (bi_flags (bi_at p bi)) = false /\ bi_ip (bi_at p bi) = ip /\ bi_port (bi_at p bi) = port
    | None => forall bi, known_board p bi -> special_board_info_type (bi_flags (bi_at p bi)) = false -> ~ (bi_ip (bi_at p bi) = ip /\ bi_port (bi_at p bi) = port)
    end.
Proof.
  intros Hc [H1 H2]. pose proof (ci_peer _ _ _ _ Hc) as Hp. cbn [c_peer] in Hp. destruct (find_board_spec bs (bds p) ip port (pe_boards _ _ _ _ _ Hp)) as (r & E & Hr).
  exists r. split; [exact E|]. cbv zeta in Hr. rewrite (proj2 (Z.eqb_neq _ _) H1), (proj2 (Z.eqb_neq _ _) H2) in Hr. destruct r as [bi|]; [unfold bi_at; tauto|].
  intros bi Hk Hs Ha. apply (known_board_in _ _ _ _ _ _ Hp) in Hk. apply (Hr bi). unfold bi_at in *. tauto.
Qed.

Lemma up_board cfg bs ls cl p cx own bi : conf_inv bs ls cl (Conf p cx own) -> boards_up p -> bi ∈ bs -> special_board_info_type (bi_flags (bi_at p bi)) = false ->
  bi_mgmt_session (bi_at p bi) <> None /\ reachable_board cfg p bi.
Proof.
  intros Hc Hup Hb Hs. assert (Hm : bi_mgmt_session (bi_at p bi) <> None) by (apply Hup; [|auto]; now apply (known_board_in _ _ _ _ _ _ (ci_peer _ _ _ _ Hc))).
  split; [auto|now right].
Qed.

(** The table of the region leads the thread to a session with the region's board. *)
Definition attached (h : host) (c v tid ip port : Z) : Prop :=
  exists x, find_vregion_session (net h) c v tid = Some (Some x) /\ s_tid (ses_at (net h) x) = tid /\ s_board_ip (ses_at (net h) x) = ip /\ s_udp_port (ses_at (net h) x) = port.

Lemma link_found p c v x : find_vregion_session (add_vregion_session p c v x) c v (s_tid (ses_at p x)) = Some (Some x).
Proof.
  unfold find_vregion_session, hash_for_each_possible, add_vregion_session. cbn [link_vregion set_link_vregion]. unfold hash_add.
  rewrite add_head_first, decide_True by easy. pose proof chain_fuel_val as Hf. destruct chain_fuel as [|n]; [discriminate Hf|]. cbn [hlist_search].
  unfold same_tid, ses_at. cbn. now rewrite Z.eqb_refl.
Qed.

(** The result of the request to the board. *)
Definition reply_end (reply : Z + (Z * Z)) : alloc_end :=
  match reply with inl ret => E_NET ret | inr (ret, addr) => if negb (ret =? 0) then E_REMOTE ret else ALLOCATED addr end.

Lemma board_request_spec h bi reply : bi_mgmt_session (bi_at (net h) bi) <> None -> alloc_request h bi reply = Some (reply_end reply, h).
Proof. intros Hm. unfold alloc_request. destruct (bi_mgmt_session _); [|contradiction]. cbn. destruct reply as [?|[ret addr]]; [easy|]. cbn. now destruct (negb (ret =? 0)). Qed.

(** The session found for a region is the one the context has for the thread. *)
Lemma region_session_unique live cx own pids given bs ls cl h c v tid x y : host_inv live cx own pids given bs ls cl h -> c ∈ live ->
  member own c (reg_of h c v) (net h) x -> member own c (reg_of h c v) (net h) y -> s_tid (ses_at (net h) x) = tid -> s_tid (ses_at (net h) y) = tid -> x = y.
Proof.
  intros Hh Hc (X1 & X2 & X3 & X4) (Y1 & Y2 & Y3 & Y4) Tx Ty. destruct (ci_owned _ _ _ _ (hi_conf _ _ _ _ _ _ _ _ _ Hh) c x X1 X2 X3) as [Hcx Hx].
  destruct (ci_owned _ _ _ _ (hi_conf _ _ _ _ _ _ _ _ _ Hh) c y Y1 Y2 Y3) as [_ Hy]. rewrite X4 in Y4. injection Y4 as E1 E2.
  apply (hi_unique _ _ _ _ _ _ _ _ _ Hh c x y); auto; congruence.
Qed.

Lemma attach_session_spec live cx own pids given bs ls cl h reply c v bi tid ses ip port : host_inv live cx own pids given bs ls cl h -> c ∈ live ->
  reg_of h c v = Some (ip, port) -> member own c (Some (ip, port)) (net h) ses -> s_tid (ses_at (net h) ses) = tid -> bi_mgmt_session (bi_at (net h) bi) <> None ->
  exists h', attach_session h reply c v bi tid ses = Some (reply_end reply, h') /\ host_inv live cx own pids given bs ls cl h' /\ attached h' c v tid ip port /\
    tab (net h') = tab (net h) /\ bds (net h') = bds (net h) /\ ctx_at h' = ctx_at h.
Proof.
  intros Hh Hc Hreg Hs Ht Hm. unfold attach_session. destruct (region_find _ _ _ _ c v tid (hi_regions _ _ _ _ _ _ _ _ _ Hh) Hc) as (r & E & Hr). rewrite E. cbn [mbind option_bind].
  destruct r as [x|].
  - destruct Hr as [Hx Htx]. assert (x = ses) as ->.
    { eapply region_session_unique; [exact Hh|exact Hc|exact Hx| |exact Htx|exact Ht]. now rewrite Hreg. }
    rewrite Z.eqb_refl. cbn [negb]. exists h. rewrite board_request_spec by auto. split_and!; auto. exists ses. rewrite Hreg in Hx. destruct Hx as (_ & _ & _ & [= -> ->]). auto.
  - exists (set_hnet h (add_vregion_session (net h) c v ses)). rewrite board_request_spec by auto. split; [easy|].
    split; [apply host_inv_link; [exact Hh|exact Hc|rewrite Hreg; exact Hs|rewrite Ht; exact E]|]. split; [|auto]. destruct Hs as (_ & _ & _ & [= -> ->]). exists ses. subst tid. split; [apply link_found|auto].
Qed.

Lemma candidate_found fuel x size (given : list Z) : alloc_list_ok x -> (forall i, VregionAllocated (vregion x i) = true -> i ∈ given) -> (forall i, i ∈ given -> 1 <= i < NR_VREGIONS) ->
  NR_VREGIONS <= Z.of_nat fuel -> exists r, find_vregion_candidate fuel x size = Some r.
Proof.
  intros (l & [Hd Hc] & Hm) Hg Hr Hf. apply NoDup_cons in Hd as [Hh Hd]. unfold find_vregion_candidate. destruct (nr_nonzero_vregions x =? 0); [eauto|].
  apply (candidate_ends fuel x size _ l Hc Hh). assert (length l <= length (seqZ 1 (NR_VREGIONS - 1)))%nat as Hlen.
  { apply submseteq_length, NoDup_submseteq; [auto|]. intros i Hi. apply elem_of_seqZ. apply Hm, Hg, Hr in Hi. lia. }
  rewrite length_seqZ in Hlen. assert (0 < NR_VREGIONS) by (now vm_compute). lia.
Qed.

(** How an allocation with a region from the monitor ends. *)
Definition alloc_ends (cfg : transport) (h h' : host) (up : bool) (ask : answer) (reply : Z + (Z * Z)) (c v tid ip port : Z) (e : alloc_end) : Prop :=
  match e with
  | E_NO_BOARD => forall bi, known_board (net h) bi -> special_board_info_type (bi_flags (bi_at (net h) bi)) = false -> ~ (bi_ip (bi_at (net h) bi) = ip /\ bi_port (bi_at (net h) bi) = port)
  | E_NO_SESSION => refused cfg ask false up (net h)
  | _ => e = reply_end reply /\ attached h' c v tid ip port
  end.

Section allocation.
Context (cfg : transport) (fuel : nat) (Hfuel : NR_VREGIONS <= Z.of_nat fuel).
Context (live cx : list Z) (own : Z -> option Z) (pids : list Z) (given : Z -> list Z) (bs : list Z) (ls cl : Z -> list Z) (h : host).
Context (Hh : host_inv live cx own pids given bs ls cl h) (Hup : boards_up (net h)).

(** The context after the region was recorded. *)
Lemma recorded_inv c v ip port size : c ∈ live -> 1 <= v < NR_VREGIONS -> v ∉ given (pid_of h c) -> ordinary ip ->
  let h1 := set_ctx h c (alloc_context h c v ip port size) in
  host_inv live cx own pids (give given (pid_of h c) (Some v)) bs ls cl h1 /\ reg_of h1 c v = Some (ip, port) /\
  (forall c' i, (c', i) <> (c, v) -> region_at h1 c' i = region_at h c' i) /\ forall c', pid_of h1 c' = pid_of h c'.
Proof.
  intros Hc Hv Hg Hip h1. destruct (alloc_context_spec h c v ip port size) as [A1 A2 [A3 A4] A5 A6]. set (x := alloc_context h c v ip port size) in *.
  assert (Hnew : VregionAllocated (region_at h c v) = false).
  { destruct (VregionAllocated (region_at h c v)) eqn:E; [|easy]. destruct Hg. apply (hi_given _ _ _ _ _ _ _ _ _ Hh); [exact Hc|exact E]. }
  assert (Hreg : reg_of h1 c v = Some (ip, port)) by (unfold h1; now rewrite reg_of_set, A2, A3, A4).
  assert (Hoth : forall i, i <> v -> reg_of h1 c i = reg_of h c i) by (intros i Hi; unfold h1; rewrite reg_of_set, A5 by auto; easy).
  split; [|split; [exact Hreg|split]].
  - apply host_inv_ctx; auto.
    + apply (host_inv_given live cx own pids pids given); auto. intros y i Hi. cbn. destruct (decide (y = pid_of h c)) as [->|Hn]; [rewrite fn_lookup_insert; now right|now rewrite fn_lookup_insert_ne by auto].
    + apply A6; [now apply (hi_lists _ _ _ _ _ _ _ _ _ Hh)|exact Hnew|lia].
    + intros i. destruct (decide (i = v)) as [->|Hi]; [right; unfold reg_of; now rewrite Hnew|left; now apply Hoth].
    + intros i Hi. cbn. rewrite fn_lookup_insert. destruct (decide (i = v)) as [->|Hn]; [left|right]. rewrite A5 in Hi by auto. now apply (hi_given _ _ _ _ _ _ _ _ _ Hh).
    + intros i ip' port' Hi. destruct (decide (i = v)) as [->|Hn]; [fold h1 in Hi; rewrite Hreg in Hi; now injection Hi as <- _|]. fold h1 in Hi. rewrite Hoth in Hi by auto. now apply (hi_ordinary _ _ _ _ _ _ _ _ _ Hh c i _ port').
  - intros c' i Hne. unfold region_at, h1. destruct (decide (c' = c)) as [->|Hn]; [|now rewrite ctx_set_other]. rewrite ctx_set. apply A5. congruence.
  - intros c'. now apply pid_of_set.
Qed.

Lemma legomem_alloc_spec up ask mon reply c tid size : c ∈ live -> (forall i, i ∈ given (pid_of h c) -> 1 <= i < NR_VREGIONS) ->
  match ask_monitor_for_new_vregion mon with
  | inl ret => legomem_alloc cfg fuel h up ask mon reply c tid size = Some (E_MONITOR ret, h)
  | inr (ip, port, v) => 1 <= v < NR_VREGIONS -> v ∉ given (pid_of h c) -> ordinary ip ->
      exists e h' own' ls' cl', legomem_alloc cfg fuel h up ask mon reply c tid size = Some (e, h') /\
        host_inv live cx own' pids (give given (pid_of h c) (Some v)) bs ls' cl' h' /\ owned_after (net h) (net h') (Some c) own own' /\ bds (net h') = bds (net h) /\
        reg_of h' c v = Some (ip, port) /\ (forall c' i, (c', i) <> (c, v) -> region_at h' c' i = region_at h c' i) /\ alloc_ends cfg h h' up ask reply c v tid ip port e
  end.
Proof.
  intros Hc Hrange. unfold legomem_alloc. destruct (candidate_found fuel (ctx_at h c) size (given (pid_of h c))) as (r0 & E0); auto; [now apply (hi_lists _ _ _ _ _ _ _ _ _ Hh)|intros i; now apply (hi_given _ _ _ _ _ _ _ _ _ Hh)|].
  rewrite E0. cbn [mbind option_bind]. destruct (ask_monitor_for_new_vregion mon) as [ret|[[ip port] v]]; [easy|]. intros Hv Hg Hip.
  unfold index_to_legomem_vregion. rewrite (proj2 (Z.leb_gt _ _)) by lia. cbn [mbind option_bind]. destruct (TestSetVregionAllocated (region_at h c v)) as [before r] eqn:Et.
  assert (Hb : before = false).
  { destruct before; [|easy]. destruct Hg. apply (hi_given _ _ _ _ _ _ _ _ _ Hh); [auto|]. unfold TestSetVregionAllocated in Et. now injection Et. }
  subst before. cbv zeta. set (h0 := set_ctx _ c (adjust_vregion_avail_size _ _ _)).
  destruct (recorded_inv c v ip port size Hc Hv Hg Hip) as (Hi & Hreg & Hoth & Hpid). set (h1 := set_ctx h c (alloc_context h c v ip port size)) in *.
  assert (Hsame : same_host h1 h0).
  { split_and!; auto. intros c'. unfold h0, h1, alloc_context. rewrite Et. cbn [snd]. destruct (decide (c' = c)) as [->|Hn]; [now rewrite !ctx_set|].
    rewrite !ctx_set_other by auto. unfold new_vregion, set_region_at. cbv zeta. now rewrite !ctx_set_other by auto. }
  apply (host_inv_ext _ _ _ _ _ _ _ _ _ _ Hsame) in Hi. destruct Hsame as (E1 & _ & _ & E4).
  assert (Hreg0 : reg_of h0 c v = Some (ip, port)) by (unfold reg_of, region_at in *; now rewrite E4). assert (Hoth0 : forall c' i, (c', i) <> (c, v) -> region_at h0 c' i = region_at h c' i) by (intros c' i Hn; rewrite <- Hoth by auto; unfold region_at; now rewrite E4).
  assert (Hnet : net h0 = net h) by exact E1. clearbody h0. clear E1 E4 Hreg Hoth Hpid h1 Et r E0 r0. rewrite Hnet.
  destruct (ordinary_board _ _ _ _ _ _ ip port (hi_conf _ _ _ _ _ _ _ _ _ Hh) Hip) as (rb & -> & Hrb). cbn [mbind option_bind]. destruct rb as [bi|].
  2: { exists E_NO_BOARD, h0, own, ls, cl. rewrite Hnet. split_and!; auto using owned_refl. }
  destruct Hrb as (Hb & Hsp & <- & <-). destruct (up_board cfg _ _ _ _ _ _ bi (hi_conf _ _ _ _ _ _ _ _ _ Hh) Hup Hb Hsp) as [Hm Hrb].
  destruct (thread_session_spec cfg bs ls cl (net h) cx own up ask c bi tid (hi_conf _ _ _ _ _ _ _ _ _ Hh) (hi_unique _ _ _ _ _ _ _ _ _ Hh) (hi_live _ _ _ _ _ _ _ _ _ Hh c Hc) Hb Hrb)
    as (r & p' & own' & ls' & cl' & Es & Hx & Hbd & Hr). rewrite Es. cbn [mbind option_bind].
  assert (Hi' : host_inv live cx own' pids (give given (pid_of h c) (Some v)) bs ls' cl' (set_hnet h0 p')) by (eapply host_inv_net; [exact Hi|rewrite Hnet; exact Hx]).
  destruct r as [ses|].
  2: { exists E_NO_SESSION, (set_hnet h0 p'), own', ls', cl'. split_and!; auto. apply Hx. }
  destruct Hr as (Hmem & Ht & _). assert (Hm' : bi_mgmt_session (bi_at (net (set_hnet h0 p')) bi) <> None) by (unfold bi_at; cbn [net set_hnet]; rewrite Hbd; exact Hm).
  destruct (attach_session_spec _ _ _ _ _ _ _ _ (set_hnet h0 p') reply c v bi tid ses _ _ Hi' Hc Hreg0 Hmem Ht Hm') as (h' & E & Hfin & Hatt & Htab & Hbds & Hctx).
  exists (reply_end reply), h', own', ls', cl'. split; [exact E|]. split; [exact Hfin|]. split; [|split; [cbn in Hbds; congruence|split; [|split]]].
  - intros x Hxr. rewrite Htab. apply (ex_own _ _ _ _ _ _ _ _ _ Hx x Hxr).
  - unfold reg_of, region_at in *. now rewrite Hctx.
  - intros c' i Hn. unfold region_at in *. rewrite Hctx. now apply Hoth0.
  - destruct reply as [?|[ret addr]]; unfold alloc_ends, reply_end; [split; [easy|exact Hatt]|]. destruct (negb (ret =? 0)); (split; [easy|exact Hatt]).
Qed.
End allocation.

(** ** Access, release and contexts *)

Section access.
Context (cfg : transport) (live cx : list Z) (own : Z -> option Z) (pids : list Z) (given : Z -> list Z) (bs : list Z) (ls cl : Z -> list Z) (h : host).
Context (Hh : host_inv live cx own pids given bs ls cl h) (Hup : boards_up (net h)).

Definition access_ends (h' : host) (up : bool) (ask : answer) (c v tid : Z) (r : option Z) : Prop :=
  match r with
  | Some x => exists ip port, reg_of h c v = Some (ip, port) /\ find_vregion_session (net h') c v tid = Some (Some x) /\
      s_tid (ses_at (net h') x) = tid /\ s_board_ip (ses_at (net h') x) = ip /\ s_udp_port (ses_at (net h') x) = port
  | None => reg_of h c v = None \/ refused cfg ask false up (net h) \/ exists ip port, reg_of h c v = Some (ip, port) /\
      forall bi, known_board (net h) bi -> special_board_info_type (bi_flags (bi_at (net h) bi)) = false -> ~ (bi_ip (bi_at (net h) bi) = ip /\ bi_port (bi_at (net h) bi) = port)
  end.

(** A session of the thread is put into the table of a region that had none. *)
Lemma access_link p' own' ls' cl' c v tid ses ip port : c ∈ live -> extended cx own (Some c) (net h) p' own' bs ls' cl' -> reg_of h c v = Some (ip, port) ->
  member own' c (Some (ip, port)) p' ses -> s_tid (ses_at p' ses) = tid -> find_vregion_session p' c v tid = Some None ->
  let h' := set_hnet h (add_vregion_session p' c v ses) in
  host_inv live cx own' pids given bs ls' cl' h' /\ owned_after (net h) (net h') (Some c) own own' /\
  find_vregion_session (net h') c v tid = Some (Some ses) /\ s_tid (ses_at (net h') ses) = tid /\ s_board_ip (ses_at (net h') ses) = ip /\ s_udp_port (ses_at (net h') ses) = port.
Proof.
  intros Hc Hx Hreg Hm Ht Hf h'. pose proof (host_inv_net _ _ _ _ _ _ _ _ _ _ _ _ _ _ _ Hh Hx) as Hi. pose proof (ex_own _ _ _ _ _ _ _ _ _ Hx) as Ho.
  split; [apply (host_inv_link _ _ _ _ _ _ _ _ (set_hnet h p') c v ses Hi Hc); [change (reg_of (set_hnet h p') c v) with (reg_of h c v); rewrite Hreg; exact Hm|cbn; rewrite Ht; exact Hf]|].
  split; [exact Ho|]. destruct Hm as (_ & _ & _ & [= -> ->]). subst tid. split; [apply link_found|auto].
Qed.

Lemma chain_none_kept p p' own' cl' ls' c v tid : c ∈ live -> extended cx own (Some c) (net h) p' own' bs ls' cl' -> p = net h ->
  find_vregion_session p c v tid = Some None -> find_vregion_session p' c v tid = Some None.
Proof.
  intros Hc Hx -> Hf. destruct (region_find _ _ _ _ c v tid (hi_regions _ _ _ _ _ _ _ _ _ Hh) Hc) as (r & E & Ht). rewrite Hf in E. injection E as <-.
  destruct Ht as (t & (Ht & Hd & Hm) & Hn). pose proof (host_inv_net _ _ _ _ _ _ _ _ _ _ _ _ _ _ _ Hh Hx) as Hi.
  assert (Ht' : fchain (link_vregion p') (first (link_vregion p') ((c, v), hash_min tid VREGION_SESSIONS_BITS)) t).
  { destruct (ex_links _ _ _ _ _ _ _ _ _ Hx) as [->|(i & Hni & ->)]; [exact Ht|]. cbn [first INIT_HLIST_NODE set_pprev set_hnext]. eapply fchain_frame; [|exact Ht].
    intros x Hxt. cbn. apply fn_lookup_insert_ne. intros ->. now destruct (Hm x Hxt) as (_ & ? & _). }
  assert (Hlen : (length t < chain_fuel)%nat) by (enough (S (length t) < chain_fuel)%nat by lia; apply sessions_bound; [auto|intros x Hxt; apply (Hm x Hxt)]).
  destruct (fchain_search chain_fuel (same_tid p' tid) _ _ _ Ht' Hlen) as (r & E & Hr). unfold find_vregion_session, hash_for_each_possible. rewrite E. f_equal. destruct r as [x|]; [|easy].
  destruct Hr as [Hxt Hst]. destruct (Hm x Hxt) as (K1 & K2 & _). destruct (ex_used _ _ _ _ _ _ _ _ _ Hx x K1 K2) as [_ Es]. unfold same_tid in Hst. rewrite Es in Hst. apply Z.eqb_eq in Hst. now destruct (Hn x Hxt).
Qed.

Lemma access_spec up ask c addr tid : c ∈ live -> va_to_vregion_index addr < NR_VREGIONS ->
  let v := va_to_vregion_index addr in
  exists r h' own' ls' cl', find_or_alloc_vregion_session cfg h up ask c addr tid = Some (r, h') /\ host_inv live cx own' pids given bs ls' cl' h' /\
    owned_after (net h) (net h') (Some c) own own' /\ ctx_at h' = ctx_at h /\ access_ends h' up ask c v tid r.
Proof.
  intros Hc Hv v. unfold find_or_alloc_vregion_session, va_to_legomem_vregion. fold v. rewrite (proj2 (Z.leb_gt _ _)) by (unfold v; lia). cbn [mbind option_bind].
  destruct (VregionAllocated (region_at h c v)) eqn:Ea; cbn [negb].
  2: { exists None, h, own, ls, cl. split_and!; auto using owned_refl. left. unfold reg_of. now rewrite Ea. }
  set (ip := v_ip (region_at h c v)). set (port := v_port (region_at h c v)). assert (Hreg : reg_of h c v = Some (ip, port)) by (unfold reg_of; now rewrite Ea).
  pose proof (hi_conf _ _ _ _ _ _ _ _ _ Hh) as Hcf. pose proof (hi_live _ _ _ _ _ _ _ _ _ Hh c Hc) as Hcx. pose proof (hi_unique _ _ _ _ _ _ _ _ _ Hh) as Huq.
  unfold __find_or_alloc_vregion_session. destruct (region_find _ _ _ _ c v tid (hi_regions _ _ _ _ _ _ _ _ _ Hh) Hc) as (rf & Ef & Hf). rewrite Ef. cbn [mbind option_bind]. destruct rf as [x|].
  { exists (Some x), h, own, ls, cl. split_and!; auto using owned_refl. exists ip, port. destruct Hf as [(_ & _ & _ & Hm) Ht]. rewrite Hreg in Hm. injection Hm as E1 E2. auto. }
  fold ip port. destruct (context_find_spec _ _ _ ls cl (net h) c tid ip port (pe_links _ _ _ _ _ (ci_peer _ _ _ _ Hcf)) Hcx) as (rc & Ec & Hrc). rewrite Ec. cbn [mbind option_bind]. cbv zeta in Hrc. destruct rc as [ses|].
  { destruct Hrc as (Hin & H1 & H2 & H3). destruct (context_lists_used _ _ _ _ _ _ _ _ Hcf Hcx Hin) as [Hr Hu].
    destruct (access_link (net h) own ls cl c v tid ses ip port Hc) as (K1 & K2 & K3 & K4); auto; [now apply extended_refl| |].
    - split; [auto|]. split; [auto|]. split; [now apply (ci_listed _ _ _ _ Hcf)|congruence].
    - eexists _, _, own, ls, cl. split; [reflexivity|]. split; [exact K1|]. split; [exact K2|]. split; [easy|]. exists ip, port. auto. }
  destruct (ordinary_board _ _ _ _ _ _ ip port Hcf (hi_ordinary _ _ _ _ _ _ _ _ _ Hh c v ip port Hc Hreg)) as (rb & -> & Hrb). cbn [mbind option_bind]. destruct rb as [bi|].
  2: { exists None, h, own, ls, cl. split_and!; auto using owned_refl. right. right. eauto. }
  destruct Hrb as (Hb & Hsp & Eip & Epo). destruct (up_board cfg _ _ _ _ _ _ bi Hcf Hup Hb Hsp) as [_ Hrb].
  destruct (open_extended cfg bs ls cl (net h) cx own up ask c bi tid Hcf Huq Hcx Hb Hrb) as (r & p' & own' & ls' & cl' & Eo & Hx & Hbd & Hr); [now rewrite Eip, Epo|].
  rewrite Eo. cbn [mbind option_bind]. destruct r as [ses|].
  - destruct Hr as (Hm & Ht & _). rewrite Eip, Epo in Hm. pose proof (chain_none_kept _ _ _ _ _ c v tid Hc Hx eq_refl Ef) as Hn.
    destruct (access_link p' own' ls' cl' c v tid ses ip port Hc Hx Hreg Hm Ht Hn) as (K1 & K2 & K3 & K4).
    eexists _, _, own', ls', cl'. split; [reflexivity|]. split; [exact K1|]. split; [exact K2|]. split; [easy|]. exists ip, port. auto.
  - exists None, (set_hnet h p'), own', ls', cl'. split; [easy|]. split; [eapply host_inv_net; eauto|]. split; [apply Hx|]. split; [easy|]. right. now left.
Qed.
End access.

Section contexts.
Context (live cx : list Z) (own : Z -> option Z) (pids : list Z) (given : Z -> list Z) (bs : list Z) (ls cl : Z -> list Z) (h : host).
Context (Hh : host_inv live cx own pids given bs ls cl h).

Lemma rep_init_node key (s : hheap Z Z) ns n : hash_rep (fun j => j) CONTEXT_HASH_ARRAY_BITS key s ns -> n ∉ ns -> hash_rep (fun j => j) CONTEXT_HASH_ARRAY_BITS key (INIT_HLIST_NODE s n) ns.
Proof.
  intros [Hd Hr] Hn. split; [auto|]. intros i Hi. destruct (Hr i Hi) as (l & Hl & Hm). exists l. split; [|auto]. apply hlist_set_other; [|auto]. rewrite Hm. tauto.
Qed.

(** A context whose memory was just initialised is not open yet. *)
Lemma fresh_context_inv c l : havail h = c :: l ->
  let h1 := init_legomem_context (Host (net h) (context_list h) (ctx_at h) l) c in
  host_inv live (c :: cx) own pids given bs ls (<[c := []]> cl) h1 /\ (c ∉ live) /\ havail h1 = l.
Proof.
  intros Ha h1. destruct Hh as [H1 H2 H3 H4 H5 H6 H7 H8 H9 H10 [Hd Hav]]. rewrite Ha in Hd, Hav. apply NoDup_cons in Hd as [Hcl Hd].
  assert (Hc : c ∉ cx) by (apply Hav; left). assert (Hcl' : c ∉ live) by (intros Hin; now apply Hc, H3). split; [|now split].
  assert (Hne : forall c', c' ∈ live -> c' <> c) by (intros c' Hc' ->; contradiction).
  assert (Hctx : forall c', c' ∈ live -> ctx_at h1 c' = ctx_at h c') by (intros c' Hc'; apply fn_lookup_insert_ne; symmetry; auto).
  assert (Hp : forall c', c' ∈ live -> pid_of h1 c' = pid_of h c') by (intros c' Hc'; unfold pid_of; now rewrite Hctx).
  assert (Hr : forall c' v, c' ∈ live -> region_at h1 c' v = region_at h c' v) by (intros c' v Hc'; unfold region_at; now rewrite Hctx).
  assert (Hg : forall c' v, c' ∈ live -> reg_of h1 c' v = reg_of h c' v) by (intros c' v Hc'; unfold reg_of; now rewrite Hr).
  split.
  - apply conf_vlinks. now apply context_step.
  - intros c' x y [->|Hc']%elem_of_cons Hx Hy; [rewrite fn_lookup_insert in Hx; now apply not_elem_of_nil in Hx|]. rewrite fn_lookup_insert_ne in Hx, Hy by congruence. now apply (H2 c').
  - intros c' Hc'. right. auto.
  - intros c' v j Hc'. destruct (H4 c' v j Hc') as (k & Hk & Hdk & Hm). exists k. rewrite Hg by auto. split; [|auto].
    cbn [link_vregion net h1 init_legomem_context set_link_vregion clear_vregion_sessions first fst]. rewrite decide_False by auto. apply (fchain_frame (link_vregion (net h))); auto.
  - intros c' Hc'. rewrite Hctx; auto.
  - intros c' Hc'. rewrite Hp; auto.
  - intros c1 c2 K1 K2. rewrite !Hp; auto.
  - intros c' i Hc'. rewrite Hr, Hp; auto.
  - intros c' v ip port Hc'. rewrite Hg by auto. now apply H9.
  - apply (hash_rep_key _ _ (pid_of h)); [intros n Hn; now apply Hp|]. now apply rep_init_node.
  - split; [exact Hd|]. intros a Hin. rewrite not_elem_of_cons. split; [intros ->; contradiction|]. apply Hav. now right.
Qed.

Lemma opened_context_inv c pid : c ∉ live -> c ∈ cx -> (forall c', c' ∈ live -> pid_of h c' <> pid) -> pid ∈ pids ->
  (forall v j, first (link_vregion (net h)) ((c, v), j) = None) ->
  vregion (ctx_at h c) = (fun _ => init_legomem_vregion (LVregion 0 0 0 0)) -> dlist (alloc_list (ctx_at h c)) alloc_list_head [] ->
  let x := ctx_at h c in
  host_inv (c :: live) cx own pids given bs ls cl (add_legomem_context (set_ctx h c (LContext pid (vregion x) (alloc_list x) (nr_nonzero_vregions x))) c).
Proof.
  intros Hc Hcx Hpid Hin Hfirst Hv Hl x. destruct Hh as [H1 H2 H3 H4 H5 H6 H7 H8 H9 H10 H11]. set (y := LContext pid _ _ _). set (h1 := set_ctx h c y).
  assert (Hne : forall c', c' ∈ live -> c' <> c) by (intros c' Hc' ->; contradiction).
  assert (Hctx : forall c', c' ∈ live -> ctx_at h1 c' = ctx_at h c') by (intros c' Hc'; apply ctx_set_other; auto).
  assert (Hnew : ctx_at h1 c = y) by apply ctx_set.
  assert (Hp : forall c', c' ∈ live -> pid_of h1 c' = pid_of h c') by (intros c' Hc'; unfold pid_of; now rewrite Hctx).
  assert (Hpc : pid_of h1 c = pid) by (unfold pid_of; now rewrite Hnew).
  assert (Hr : forall c' v, c' ∈ live -> region_at h1 c' v = region_at h c' v) by (intros c' v Hc'; unfold region_at; now rewrite Hctx).
  assert (Hg : forall c' v, c' ∈ live -> reg_of h1 c' v = reg_of h c' v) by (intros c' v Hc'; unfold reg_of; now rewrite Hr).
  assert (Hun : forall v, VregionAllocated (region_at h1 c v) = false) by (intros v; unfold region_at; rewrite Hnew; unfold y, x; cbn [vregion]; now rewrite Hv).
  assert (Hgc : forall v, reg_of h1 c v = None) by (intros v; unfold reg_of; now rewrite Hun).
  split; cbn [add_legomem_context set_context_list net]; auto.
  - intros c' [->|Hc']%elem_of_cons; auto.
  - intros c' v j [->|Hc']%elem_of_cons.
    + exists []. split; [exact (Hfirst v j)|]. split; [constructor|]. now intros z Hz%not_elem_of_nil.
    + change (reg_of _ c' v) with (reg_of h1 c' v). rewrite Hg by auto. now apply H4.
  - intros c' [->|Hc']%elem_of_cons; cbn [ctx_at]; fold h1; [|change (alloc_list_ok (ctx_at h1 c')); rewrite Hctx; auto].
    change (alloc_list_ok (ctx_at h1 c)). rewrite Hnew. exists []. split; [exact Hl|]. intros i. split; [now intros Hi%not_elem_of_nil|]. pose proof (Hun i) as Hi. unfold region_at in Hi. rewrite Hnew in Hi. congruence.
  - intros c' [->|Hc']%elem_of_cons; [change (pid_of h1 c ∈ pids); now rewrite Hpc|]. change (pid_of h1 c' ∈ pids). rewrite Hp; auto.
  - intros c1 c2 K1 K2. change (pid_of h1 c1 = pid_of h1 c2 -> c1 = c2). apply elem_of_cons in K1 as [->|K1], K2 as [->|K2]; rewrite ?Hpc, ?Hp by auto; auto.
    + intros E. now destruct (Hpid c2 K2).
    + intros E. now destruct (Hpid c1 K1).
  - intros c' i K. change (VregionAllocated (region_at h1 c' i) = true -> i ∈ given (pid_of h1 c')). apply elem_of_cons in K as [->|K]; [rewrite Hun; discriminate|]. rewrite Hr, Hp by auto. auto.
  - intros c' v ip port K. change (reg_of h1 c' v = Some (ip, port) -> ordinary ip). apply elem_of_cons in K as [->|K]; [rewrite Hgc; discriminate|]. rewrite Hg by auto. now apply H9.
  - change (hash_rep (fun j => j) CONTEXT_HASH_ARRAY_BITS (pid_of h1) (hash_add (context_list h) (fun j => j) CONTEXT_HASH_ARRAY_BITS c (pid_of h1 c)) (c :: live)).
    apply (hash_add_rep (fun j : Z => j) _ context_list_bits_ok (fun i j _ _ E => E)); [|auto]. apply (hash_rep_key _ _ (pid_of h)); auto.
Qed.

End contexts.

(** The id is one the monitor has just given out. *)
Lemma open_context_spec live cx own pids given bs ls cl h answer : host_inv live cx own pids given bs ls cl h ->
  (forall pid, answer = Some (0, pid) -> (pid ∈ pids) /\ forall c, c ∈ live -> pid_of h c <> pid) ->
  match legomem_open_context h answer with
  | (Some c, h') => (c ∉ live) /\ (exists pid, answer = Some (0, pid) /\ pid_of h' c = pid) /\ (forall v, reg_of h' c v = None) /\
      exists cx' cl', host_inv (c :: live) cx' own pids given bs ls cl' h'
  | (None, h') => exists cx' cl', host_inv live cx' own pids given bs ls cl' h'
  end.
Proof.
  intros Hh Hans. unfold legomem_open_context. destruct (havail h) as [|c l] eqn:Ha; [now exists cx, cl|].
  destruct (fresh_context_inv _ _ _ _ _ _ _ _ _ Hh c l Ha) as (Hi & Hc & _). set (h1 := init_legomem_context _ c) in *.
  destruct answer as [[ret pid]|]; [|eauto]. destruct (Z.eqb_spec ret 0) as [->|]; cbn [negb]; [|eauto]. destruct (Hans pid eq_refl) as [Hp Hd].
  assert (Hnew : ctx_at h1 c = LContext 0 (fun _ => init_legomem_vregion (LVregion 0 0 0 0)) (INIT_LIST_HEAD (Heap (fun _ => 0) (fun _ => 0)) alloc_list_head) 0) by apply fn_lookup_insert.
  split; [exact Hc|]. split; [exists pid; split; [easy|exact (f_equal x_pid (ctx_set h1 c _))]|]. split.
  - intros v. unfold reg_of, region_at. cbn [add_legomem_context set_context_list ctx_at]. rewrite ctx_set. cbn [vregion]. now rewrite Hnew.
  - exists (c :: cx), (<[c := []]> cl). apply (opened_context_inv _ _ _ _ _ _ _ _ h1 Hi); auto; [left| | |now rewrite Hnew|rewrite Hnew; apply dlist_init].
    + intros c' Hc'. unfold pid_of. replace (ctx_at h1 c') with (ctx_at h c'); [now apply Hd|]. symmetry. apply fn_lookup_insert_ne. now intros ->.
    + intros v j. cbn. now rewrite decide_True.
Qed.

Lemma live_length live cx own pids given bs ls cl h : host_inv live cx own pids given bs ls cl h -> (forall x, x ∈ pids -> 1 <= x < NR_MAX_USER_PID) ->
  Z.of_nat (length live) < NR_MAX_USER_PID.
Proof.
  intros Hh Hr. assert (Hd : NoDup (map (pid_of h) live)).
  { apply NoDup_fmap_2_strong; [|apply (hi_rep _ _ _ _ _ _ _ _ _ Hh)]. intros c c' Hc Hc'. now apply (hi_distinct _ _ _ _ _ _ _ _ _ Hh). }
  assert (length (map (pid_of h) live) <= length (seqZ 1 (NR_MAX_USER_PID - 1)))%nat as Hn.
  { apply submseteq_length, NoDup_submseteq; [auto|]. intros y (c & -> & Hc)%list_elem_of_fmap. apply elem_of_seqZ. pose proof (Hr _ (hi_pids _ _ _ _ _ _ _ _ _ Hh c Hc)). lia. }
  rewrite length_map, length_seqZ in Hn. unfold NR_MAX_USER_PID in *. lia.
Qed.

(** Look-ups by id find exactly the open contexts. *)
Lemma find_context_spec fuel live cx own pids given bs ls cl h pid : host_inv live cx own pids given bs ls cl h -> (forall x, x ∈ pids -> 1 <= x < NR_MAX_USER_PID) ->
  NR_MAX_USER_PID <= Z.of_nat fuel ->
  exists r, find_legomem_context fuel h pid = Some r /\ match r with Some c => c ∈ live /\ pid_of h c = pid | None => forall c, c ∈ live -> pid_of h c <> pid end.
Proof.
  intros Hh Hr Hf. pose proof (live_length _ _ _ _ _ _ _ _ _ Hh Hr). apply (hash_lookup_spec (fun j : Z => j) _ context_list_bits_ok fuel (pid_of h)); [apply (hi_rep _ _ _ _ _ _ _ _ _ Hh)|lia].
Qed.

Lemma close_context_spec fuel live cx own pids given bs ls cl h c answer : host_inv live cx own pids given bs ls cl h -> (forall x, x ∈ pids -> 1 <= x < NR_MAX_USER_PID) ->
  NR_MAX_USER_PID <= Z.of_nat fuel -> c ∈ live ->
  exists ret h', legomem_close_context fuel h (Some c) answer = Some (ret, h') /\
    ((ret <> 0 /\ answer <> Some 0 /\ h' = h) \/
     (ret = 0 /\ answer = Some 0 /\ net h' = net h /\ ctx_at h' = ctx_at h /\ host_inv (without c live) cx own pids given bs ls cl h')).
Proof.
  intros Hh Hr Hf Hc. unfold legomem_close_context. destruct answer as [ret|]; [|exists (- EIO), h; split; [easy|left; split; [now vm_compute|easy]]].
  destruct (Z.eqb_spec ret 0) as [->|Hret]; cbn [negb]; [|exists (- EFAULT), h; split; [easy|left; split; [now vm_compute|split; [congruence|easy]]]].
  pose proof (live_length _ _ _ _ _ _ _ _ _ Hh Hr) as Hlen. pose proof (hi_rep _ _ _ _ _ _ _ _ _ Hh) as Hrep. unfold remove_legomem_context. fold (pid_of h c).
  destruct (hash_lookup_spec (fun j : Z => j) _ context_list_bits_ok fuel (pid_of h) (context_list h) live (pid_of h c) Hrep ltac:(lia)) as (r & E & Hrr).
  change (hash_for_each_possible fuel (has_pid h (pid_of h c)) (context_list h) (fun j => j) CONTEXT_HASH_ARRAY_BITS (pid_of h c) = Some r) in E. rewrite E. cbn [mbind option_bind].
  destruct r as [c0|]; [|now destruct (Hrr c Hc)]. pose proof Hc as [l1 [l2 El]]%list_elem_of_split.
  destruct (hash_del_rep (fun j : Z => j) _ context_list_bits_ok (fun i j _ _ E => E) (pid_of h) (context_list h) live c l1 l2 El Hrep) as (s & -> & Hrep' & _). cbn [mbind option_bind].
  eexists _, _. split; [reflexivity|]. right. split; [easy|]. split; [easy|]. split; [easy|]. split; [easy|].
  assert (Hw : without c live = l1 ++ l2) by (rewrite El; apply without_middle; rewrite <- El; apply Hrep).
  destruct Hh as [H1 H2 H3 H4 H5 H6 H7 H8 H9 H10 H11]. assert (Hsub : forall c', c' ∈ without c live -> c' ∈ live) by (intros c'; rewrite without_spec; tauto).
  split; [exact H1|exact H2|auto|intros c' v j Hc'; exact (H4 c' v j (Hsub c' Hc'))|intros c' Hc'; exact (H5 c' (Hsub c' Hc'))|intros c' Hc'; exact (H6 c' (Hsub c' Hc'))|
    intros c1 c2 K1 K2; exact (H7 c1 c2 (Hsub c1 K1) (Hsub c2 K2))|intros c' i Hc'; exact (H8 c' i (Hsub c' Hc'))|intros c' v ip port Hc'; exact (H9 c' v ip port (Hsub c' Hc'))| |exact H11].
  rewrite Hw. exact Hrep'.
Qed.

(** Freeing changes the space left in a region only. *)
Lemma free_spec live cx own pids given bs ls cl h reply c addr size ret h' : host_inv live cx own pids given bs ls cl h -> c ∈ live ->
  legomem_free h reply c addr size = Some (ret, h') -> host_inv live cx own pids given bs ls cl h' /\ net h' = net h /\ forall c' v, reg_of h' c' v = reg_of h c' v.
Proof.
  intros Hh Hc E. unfold legomem_free in E. destruct (va_to_legomem_vregion addr) as [v|]; [|discriminate]. cbn [mbind option_bind] in E.
  destruct (find_board _ _ _) as [[bi|]|]; [|now injection E as <- <-|discriminate]. cbn [mbind option_bind] in E. destruct (bi_mgmt_session _); [|discriminate]. cbn [mbind option_bind] in E.
  destruct reply as [?|?]; injection E as <- <-; [easy|]. set (r := region_at h c v). set (r' := set_avail_space r _).
  assert (Hreg : forall i, VregionAllocated (vregion (set_vregion (ctx_at h c) v r') i) = VregionAllocated (region_at h c i) /\
    v_ip (vregion (set_vregion (ctx_at h c) v r') i) = v_ip (region_at h c i) /\ v_port (vregion (set_vregion (ctx_at h c) v r') i) = v_port (region_at h c i)).
  { intros i. cbn [set_vregion vregion]. destruct (decide (i = v)) as [->|Hi]; [rewrite fn_lookup_insert|rewrite fn_lookup_insert_ne by auto]; easy. }
  assert (Heq : forall i, reg_of (set_ctx h c (set_vregion (ctx_at h c) v r')) c i = reg_of h c i) by (intros i; rewrite reg_of_set; destruct (Hreg i) as (-> & -> & ->); easy).
  split; [|split; [easy|]].
  - apply host_inv_ctx; auto.
    + destruct (hi_lists _ _ _ _ _ _ _ _ _ Hh c Hc) as (l & Hl & Hm). exists l. split; [exact Hl|]. intros i. destruct (Hreg i) as (-> & _). apply Hm.
    + intros i. destruct (Hreg i) as (-> & _). now apply (hi_given _ _ _ _ _ _ _ _ _ Hh).
    + intros i ip port. rewrite Heq. now apply (hi_ordinary _ _ _ _ _ _ _ _ _ Hh).
  - intros c' i. destruct (decide (c' = c)) as [->|Hn]; [apply Heq|]. unfold reg_of, region_at, set_region_at. now rewrite ctx_set_other.
Qed.
