(* ===== verification/HostSpec.v ===== *)
(** * Hosts and the monitor: properties

    A host and the monitor together: the states they reach when the host opens and
    closes contexts, allocates, frees and accesses memory, nodes join and sessions are
    accepted, while the monitor serves other nodes too and answers can get lost; and
    the requests that reads and writes are split into. *)

From stdpp Require Import functions.
From S2P Require Import Prelude Bitops DList Hlist HashFamily Vma Process Gbn Session Peer PeerProofs PeerSpec Monitor MonitorProofs MonitorSpec Host HostProofs.

#[local] Set Warnings "-clear-no-such-hyp".

(** ** Nodes that join, sessions that are accepted *)

Lemma flags_extended cx own ctx p p' own' bs ls cl bi f : extended cx own ctx p p' own' bs ls cl -> extended cx own ctx p (or_flags p' bi f) own' bs ls cl.
Proof. intros [H1 H2 H3 H4 H5]. split; [now apply flags_conf|exact H2|exact H3|exact H4|exact H5]. Qed.
Lemma online_extended cx own ctx p p' own' bs ls cl hn bn : extended cx own ctx p p' own' bs ls cl -> extended cx own ctx p (set_bds p' (set_online (bds p') hn bn)) own' bs ls cl.
Proof. intros [H1 H2 H3 H4 H5]. split; [now apply online_conf|exact H2|exact H3|exact H4|exact H5]. Qed.

Lemma add_board_extended cfg bs ls cl p cx own up mem ip port lp loc r p' : conf_inv bs ls cl (Conf p cx own) -> unique_sessions cx cl p ->
  add_board cfg p up mem ip port lp loc = Some (r, p') -> exists own' bs' ls', extended cx own None p p' own' bs' ls' cl.
Proof.
  intros Hc Hu E. destruct (add_board_step cfg bs ls cl p cx own up mem ip port lp loc r p' Hc E) as (bs' & ls' & Hc').
  pose proof (ci_peer _ _ _ _ Hc) as Hp. cbn [c_peer c_ctxs] in Hp. pose proof (add_board_vlinks _ _ _ _ _ _ _ _ _ _ _ _ _ _ Hp E) as Hv.
  destruct (add_board_spec cfg bs _ ls cl p up mem ip port lp loc Hp) as (r' & q & E' & Hr). rewrite E in E'. injection E' as <- <-.
  destruct r as [bi|]; [|destruct Hr as [-> _]; exists own, bs, ls; now apply extended_refl]. destruct Hr as (_ & _ & _ & ses & Hj & _ & Hs).
  cbn [mbind option_bind] in Hc'. rewrite (jo_new _ _ _ _ _ _ _ _ Hj) in Hc'. cbn [bi_mgmt_session] in Hc'. destruct ses as [s|].
  - destruct Hs as (_ & Hsr & Hn & Hus & Hsame). assert (Hk : used_kept p p') by (intros x Hx Hxu; split; [apply Hus; [lia|auto]|apply Hsame; congruence]).
    exists (<[s := None]> own), bs', ls'. split; auto; [|exact (unique_kept bs ls cl p cx own _ Hc Hu Hk)]. intros x Hx Hxu. split; intros Hpx; [apply fn_lookup_insert_ne; congruence|].
    apply Hus in Hxu as [->|?]; [apply fn_lookup_insert|contradiction|lia].
  - specialize (Hs (ci_mgmt _ _ _ _ Hc)). assert (Hk : used_kept p p') by (intros x Hx Hxu; destruct (Hs x Hx) as [H1 H2]; split; [now apply H1|now apply H2]).
    exists own, bs', ls'. split; auto; [|exact (unique_kept bs ls cl p cx own _ Hc Hu Hk)]. intros x Hx Hxu. split; [easy|]. intros Hn. destruct Hn. now apply (Hs x Hx).
Qed.

Lemma join_extended cfg bs ls cl p cx own up mac type mem ip port p' : conf_inv bs ls cl (Conf p cx own) -> unique_sessions cx cl p ->
  handle_new_node cfg p up mac type mem ip port = Some p' -> exists own' bs' ls', extended cx own None p p' own' bs' ls' cl.
Proof.
  intros Hc Hu E. unfold handle_new_node in E. destruct mac; cbn [negb] in E; [|injection E as <-; exists own, bs, ls; now apply extended_refl].
  destruct (add_board _ _ _ _ _ _ _ _) as [[r q]|] eqn:Ea; [|discriminate E]. cbn [mbind option_bind] in E. destruct (add_board_extended _ _ _ _ _ _ _ _ _ _ _ _ _ _ _ Hc Hu Ea) as (own' & bs' & ls' & Hx).
  exists own', bs', ls'. destruct r as [bi|]; [|now injection E as <-].
  destruct (negb _); [injection E as <-; now apply online_extended, flags_extended|]. destruct (negb _); injection E as <-; [now apply online_extended, flags_extended|now apply flags_extended].
Qed.

Lemma accept_extended bs ls cl p cx own up th ip port id ret p' : conf_inv bs ls cl (Conf p cx own) -> unique_sessions cx cl p ->
  host_handle_open_session p up th ip port id = Some (ret, p') -> exists own' ls', extended cx own None p p' own' bs ls' cl.
Proof.
  intros Hc Hu E. destruct (accept_step bs ls cl p cx own up th ip port id ret p' Hc E) as (ls' & Hc'). pose proof (ci_peer _ _ _ _ Hc) as Hp. cbn [c_peer c_ctxs] in Hp.
  pose proof (accept_vlinks _ _ _ _ _ _ _ _ _ _ _ _ _ (pe_links _ _ _ _ _ Hp) E) as Hv. unfold host_handle_open_session in E.
  destruct (find_board_spec bs (bds p) ip port (pe_boards _ _ _ _ _ Hp)) as (r & Er & Hr). rewrite Er in E. cbn [mbind option_bind] in E.
  destruct r as [bi|]; [|injection E as <- <-; exists own, ls; now apply extended_refl]. destruct Hr as [[Hb _] _].
  destruct (accept_session_links _ _ ls cl p up th bi id (pe_links _ _ _ _ _ Hp) Hb) as (r & q & Ea & Ha). rewrite Ea in E. cbn [mbind option_bind] in E. destruct r as [i|].
  - destruct Ha as ([Hi Hn Hus (Hsame & _)] & _ & Hid & _). injection E as <- <-. rewrite Hid in Hc'.
    assert (Hk : used_kept p (patch_udp_ports q i port)) by (intros x Hx Hxu; split; [apply Hus; [lia|auto]|apply Hsame; congruence]).
    exists (<[i := None]> own), ls'. split; auto; [|exact (unique_kept bs ls cl p cx own _ Hc Hu Hk)]. intros x Hx Hxu. split; intros Hpx; [apply fn_lookup_insert_ne; congruence|].
    apply Hus in Hxu as [->|?]; [apply fn_lookup_insert|contradiction|lia].
  - destruct Ha as (_ & _ & Hq & _). injection E as <- <-. destruct (Hq (ci_mgmt _ _ _ _ Hc)) as [Hq1 Hq2].
    assert (Hk : used_kept p q) by (intros x Hx Hxu; split; [now apply Hq1|now apply Hq2]). exists (<[0 := None]> own), ls'. split; auto; [|exact (unique_kept bs ls cl p cx own _ Hc Hu Hk)].
    intros x Hx Hxu. split; intros Hpx; [|destruct Hpx; now apply Hq1]. destruct (decide (x = 0)) as [->|]; [rewrite fn_lookup_insert; symmetry; apply (ci_own_mgmt _ _ _ _ Hc)|now rewrite fn_lookup_insert_ne by auto].
Qed.

(** ** A host and the monitor *)

(** A host after start-up, with [avail] the addresses its allocator will return. *)
Definition start_host (p : peer) (avail : list Z) : host :=
  Host p no_links (fun _ => LContext 0 (fun _ => LVregion 0 0 0 0) (Heap (fun _ => 0) (fun _ => 0)) 0) avail.

(** The host with its open contexts, and the monitor with its history. *)
Record sys := Sys { y_host : host; y_live : list Z; y_mon : mconf }.

Section system.
Context (cfg : transport) (tries fuel hfuel : nat).
Context (Htries : NR_MAX_BOARDS <= Z.of_nat tries) (Hfuel : NR_MAX_USER_PID <= Z.of_nat fuel) (Hhfuel : NR_VREGIONS <= Z.of_nat hfuel).

(** Answers of the monitor may be lost.  [ordinary]: memory boards do not have the
    addresses that [find_board] takes as wildcards. *)
Inductive sys_step : sys -> sys -> Prop :=
  | ss_monitor h live m m' : mon_step cfg tries fuel m m' -> sys_step (Sys h live m) (Sys h live m')
  | ss_open_lost h live m r h' : legomem_open_context h None = (r, h') -> sys_step (Sys h live m) (Sys h' live m)
  | ss_open h live m ip ret pid mm r h' :
      admissible fuel (mc_mon m) (R_CREATE_PROC ip) -> mon_handle_create_proc (mc_mon m) ip = Some (ret, pid, mm) ->
      legomem_open_context h (Some (ret, pid)) = (r, h') ->
      sys_step (Sys h live m) (Sys h' (option_list r ++ live) (record_reply m mm (R_CREATE_PROC ip) (A_CREATE ret pid)))
  | ss_alloc h live m up ask resp mm reply c tid size e h' :
      c ∈ live -> boards_up (net h) -> mon_handle_alloc tries fuel (mc_mon m) (pid_of h c) size = Some (resp, mm) -> ordinary (ar_ip resp) ->
      legomem_alloc cfg hfuel h up ask (Some resp) reply c tid size = Some (e, h') ->
      sys_step (Sys h live m) (Sys h' live (record_reply m mm (R_ALLOC (pid_of h c) size) (A_ALLOC resp)))
  | ss_alloc_lost h live m up ask reply c tid size e h' :
      c ∈ live -> legomem_alloc cfg hfuel h up ask None reply c tid size = Some (e, h') -> sys_step (Sys h live m) (Sys h' live m)
  | ss_access h live m up ask c addr tid r h' :
      c ∈ live -> boards_up (net h) -> va_to_vregion_index addr < NR_VREGIONS ->
      find_or_alloc_vregion_session cfg h up ask c addr tid = Some (r, h') -> sys_step (Sys h live m) (Sys h' live m)
  | ss_free h live m reply c addr size ret h' :
      c ∈ live -> legomem_free h reply c addr size = Some (ret, h') -> sys_step (Sys h live m) (Sys h' live m)
  | ss_close h live m c ret mm ret' h' :
      c ∈ live -> mon_handle_free_proc fuel (mc_mon m) (pid_of h c) = Some (ret, mm) -> legomem_close_context fuel h (Some c) (Some ret) = Some (ret', h') ->
      sys_step (Sys h live m) (Sys h' (if ret' =? 0 then without c live else live) (MConf mm (mc_pids m) (mc_given m)))
  | ss_join h live m up mac type mem ip port p' :
      handle_new_node cfg (net h) up mac type mem ip port = Some p' -> sys_step (Sys h live m) (Sys (set_hnet h p') live m)
  | ss_accept h live m up th ip port id ret p' :
      host_handle_open_session (net h) up th ip port id = Some (ret, p') -> sys_step (Sys h live m) (Sys (set_hnet h p') live m).

Definition sys_reachable (s : sys) : Prop :=
  exists port p0 avail m, NoDup avail /\ init_local_management_session cfg (start_peer port) true = Some (0, p0) /\ mon_reachable cfg tries fuel m /\
    rtc sys_step (Sys (start_host p0 avail) [] m) s.

(** ** Invariant *)

Definition sys_inv (s : sys) : Prop :=
  mon_reachable cfg tries fuel (y_mon s) /\ exists cx own bs ls cl, host_inv (y_live s) cx own (mc_pids (y_mon s)) (mc_given (y_mon s)) bs ls cl (y_host s).

Lemma mon_step_reachable m m' : mon_reachable cfg tries fuel m -> mon_step cfg tries fuel m m' -> mon_reachable cfg tries fuel m'.
Proof. intros (port & ip & avail & m0 & H1 & H2 & H3 & Hr) Hs. exists port, ip, avail, m0. split_and!; auto. eapply rtc_r; eauto. Qed.

(** What the history of the monitor says about the ids and regions. *)
Lemma history m : mon_reachable cfg tries fuel m ->
  (forall x, x ∈ mc_pids m -> 1 <= x < NR_MAX_USER_PID) /\ forall pid i, i ∈ mc_given m pid -> 1 <= i < NR_VREGIONS.
Proof.
  intros Hm. destruct (mon_reachable_inv cfg tries fuel Htries Hfuel m Hm) as (ps & bs & ls & cl & Hc). split.
  - intros x Hx. apply (mn_pids _ _ _ _ _ Hc x Hx).
  - intros pid i Hi. apply all_regions_spec. now apply (mi_given _ _ _ (mn_mon _ _ _ _ _ Hc) pid).
Qed.

(** A new id is none that was given out before. *)
Lemma create_fresh m ip pid mm : mon_reachable cfg tries fuel m -> admissible fuel (mc_mon m) (R_CREATE_PROC ip) -> mon_handle_create_proc (mc_mon m) ip = Some (0, pid, mm) -> pid ∉ mc_pids m.
Proof.
  intros Hm (q0 & Hq & Hz) E Hin. destruct (mon_reachable_inv cfg tries fuel Htries Hfuel m Hm) as (ps & bs & ls & cl & Hc).
  destruct (mon_create_spec tries fuel ps (mc_given m) (mc_mon m) ip q0 (mn_mon _ _ _ _ _ Hc) Hq Hz) as (ret' & pid' & q & E' & _ & H). rewrite E in E'. injection E' as <- <- <-.
  destruct H as [(H0 & _)|(_ & _ & Hbit & _)]; [discriminate H0|]. apply (mn_pids _ _ _ _ _ Hc) in Hin as [_ Hin]. congruence.
Qed.

(** The answer of the monitor and the regions given after it. *)
Lemma monitor_answer m pid size resp mm : mon_reachable cfg tries fuel m -> mon_handle_alloc tries fuel (mc_mon m) pid size = Some (resp, mm) ->
  mon_reachable cfg tries fuel (record_reply m mm (R_ALLOC pid size) (A_ALLOC resp)) /\
  match ask_monitor_for_new_vregion (Some resp) with
  | inl ret => ret = sint32 (ar_ret resp) /\ ar_ret resp <> 0 /\ record_reply m mm (R_ALLOC pid size) (A_ALLOC resp) = MConf mm (mc_pids m) (mc_given m)
  | inr (ip, port, v) => ar_ret resp = 0 /\ ip = ar_ip resp /\ port = ar_port resp /\ v = ar_idx resp /\ 1 <= v < NR_VREGIONS /\ (v ∉ mc_given m pid) /\
      record_reply m mm (R_ALLOC pid size) (A_ALLOC resp) = MConf mm (mc_pids m) (give (mc_given m) pid (Some v))
  end.
Proof.
  intros Hm E. split.
  - apply (mon_step_reachable m); [auto|]. apply (step_request cfg tries fuel m (Env true true true (fun _ => None)) (R_ALLOC pid size) (A_ALLOC resp)); [easy|]. cbn. now rewrite E.
  - destruct (mon_reachable_inv cfg tries fuel Htries Hfuel m Hm) as (ps & bs & ls & cl & Hc). destruct (alloc_outcome tries fuel Htries Hfuel ps bs ls cl m pid size Hc) as (resp' & r & mm' & E' & Hrec & _ & H).
    rewrite E in E'. injection E' as <- <-. unfold ask_monitor_for_new_vregion. destruct (Z.eqb_spec (ar_ret resp) 0) as [Hz|Hz]; cbn [negb].
    + destruct H as [(_ & -> & _)|(_ & H)]; [exfalso; revert Hz; now vm_compute|]. destruct H as [| | |bi i Hl Hi Hg _ _]; try (exfalso; revert Hz; now vm_compute). apply all_regions_spec in Hi.
      split; [easy|]. split; [easy|]. split; [easy|]. split; [easy|]. split; [exact Hi|]. split; [exact Hg|exact Hrec].
    + split; [easy|]. split; [auto|]. cbn [record_reply]. now rewrite (proj2 (Z.eqb_neq _ _) Hz).
Qed.

(** The history only grows. *)
Lemma mon_grows m m' : mon_step cfg tries fuel m m' -> (forall x, x ∈ mc_pids m -> x ∈ mc_pids m') /\ forall pid i, i ∈ mc_given m pid -> i ∈ mc_given m' pid.
Proof.
  intros [c e req reply q _ _|c up ip port p' _ _]; [|easy]. destruct req; try easy; destruct reply; try easy; cbn [record_reply].
  - destruct (ar_ret r =? 0); [|easy]. split; [easy|]. intros x i Hi. cbn. destruct (decide (x = pid)) as [->|Hn]; [rewrite fn_lookup_insert; now right|now rewrite fn_lookup_insert_ne by auto].
  - destruct (ret =? 0); [|easy]. split; [now right|easy].
Qed.

Lemma open_step_inv h live m ip ret pid mm r h' : sys_inv (Sys h live m) -> admissible fuel (mc_mon m) (R_CREATE_PROC ip) -> mon_handle_create_proc (mc_mon m) ip = Some (ret, pid, mm) ->
  legomem_open_context h (Some (ret, pid)) = (r, h') -> sys_inv (Sys h' (option_list r ++ live) (record_reply m mm (R_CREATE_PROC ip) (A_CREATE ret pid))).
Proof.
  intros [Hm (cx & own & bs & ls & cl & Hh)] Ha E Eo. cbn [y_host y_live y_mon] in *. split.
  { apply (mon_step_reachable m); [auto|]. apply (step_request cfg tries fuel m (Env true true true (fun _ => None)) (R_CREATE_PROC ip) (A_CREATE ret pid)); [exact Ha|]. cbn. now rewrite E. }
  set (m' := record_reply _ _ _ _).
  assert (Hh' : host_inv live cx own (mc_pids m') (mc_given m') bs ls cl h) by (apply (host_inv_given live cx own (mc_pids m) _ (mc_given m)); auto; unfold m'; cbn [record_reply]; destruct (ret =? 0); [now right|easy|easy|easy]).
  pose proof (open_context_spec _ _ _ _ _ _ _ _ h (Some (ret, pid)) Hh') as Ho. rewrite Eo in Ho.
  destruct r as [c|]; [destruct Ho as (_ & _ & _ & cx' & cl' & Ho)|destruct Ho as (cx' & cl' & Ho)]; cbn [option_list app]; eauto 10; intros pid' [= -> ->].
  all: split; [unfold m'; left|]; intros c' Hc' Ep; apply (create_fresh m ip pid' mm Hm Ha E); rewrite <- Ep; now apply (hi_pids _ _ _ _ _ _ _ _ _ Hh).
Qed.

Lemma alloc_step_inv h live m up ask resp mm reply c tid size e h' : sys_inv (Sys h live m) -> c ∈ live -> boards_up (net h) ->
  mon_handle_alloc tries fuel (mc_mon m) (pid_of h c) size = Some (resp, mm) -> ordinary (ar_ip resp) -> legomem_alloc cfg hfuel h up ask (Some resp) reply c tid size = Some (e, h') ->
  sys_inv (Sys h' live (record_reply m mm (R_ALLOC (pid_of h c) size) (A_ALLOC resp))).
Proof.
  intros [Hm (cx & own & bs & ls & cl & Hh)] Hc Hup E Hip Ea. cbn [y_host y_live y_mon] in *. destruct (monitor_answer m (pid_of h c) size resp mm Hm E) as [Hm' Hans]. split; [exact Hm'|].
  pose proof (legomem_alloc_spec cfg hfuel Hhfuel _ _ _ _ _ _ _ _ h Hh Hup up ask (Some resp) reply c tid size Hc (proj2 (history m Hm) _)) as Hs.
  destruct (ask_monitor_for_new_vregion (Some resp)) as [ret|[[ip port] v]].
  - destruct Hans as (_ & _ & Hrec). rewrite Ea in Hs. injection Hs as _ ->. cbn [y_host y_live y_mon]. rewrite Hrec. eauto 10.
  - destruct Hans as (_ & -> & -> & _ & Hv & Hg & Hrec). destruct (Hs Hv Hg Hip) as (e' & q & own' & ls' & cl' & Eq & Hh' & _). rewrite Ea in Eq. injection Eq as <- <-.
    cbn [y_host y_live y_mon]. rewrite Hrec. eauto 10.
Qed.

Lemma sys_step_inv s s' : sys_inv s -> sys_step s s' -> sys_inv s'.
Proof.
  intros Hi Hs. pose proof Hi as [Hm (cx & own & bs & ls & cl & Hh)].
  destruct Hs as [h live m m' Hst|h live m r h' E|h live m ip ret pid mm r h' Ha E Eo|h live m up ask resp mm reply c tid size e h' Hc Hup E Hip Ea|h live m up ask reply c tid size e h' Hc Ea|
    h live m up ask c addr tid r h' Hc Hup Hv E|h live m reply c addr size ret h' Hc E|h live m c ret mm ret' h' Hc E Ec|h live m up mac type mem ip port p' E|h live m up th ip port id ret p' E];
    cbn [y_host y_live y_mon] in *.
  - split; [now apply (mon_step_reachable m)|]. exists cx, own, bs, ls, cl. apply (host_inv_given live cx own (mc_pids m) _ (mc_given m)); [auto| |]; destruct (mon_grows m m' Hst); auto.
  - pose proof (open_context_spec _ _ _ _ _ _ _ _ h None Hh) as Ho. rewrite E in Ho. destruct r as [c|].
    + destruct Ho as (_ & (pid & Hp & _) & _); discriminate.
    + destruct Ho as (cx' & cl' & Ho); [discriminate|]. split; [exact Hm|]. eauto 10.
  - eapply open_step_inv; eauto.
  - eapply alloc_step_inv; eauto.
  - unfold legomem_alloc in Ea. destruct (find_vregion_candidate _ _ _); [|discriminate Ea]. cbn in Ea. injection Ea as _ <-. exact Hi.
  - destruct (access_spec cfg _ _ _ _ _ _ _ _ h Hh Hup up ask c addr tid Hc Hv) as (r' & q & own' & ls' & cl' & Eq & Hh' & _). rewrite E in Eq. injection Eq as <- <-. split; [exact Hm|]. eauto 10.
  - destruct (free_spec _ _ _ _ _ _ _ _ h reply c addr size ret h' Hh Hc E) as [Hh' _]. split; [exact Hm|]. eauto 10.
  - split.
    { apply (mon_step_reachable m); [auto|]. apply (step_request cfg tries fuel m (Env true true true (fun _ => None)) (R_FREE_PROC (pid_of h c)) (A_RET ret)); [easy|]. cbn. now rewrite E. }
    destruct (close_context_spec fuel _ _ _ _ _ _ _ _ h c (Some ret) Hh (proj1 (history m Hm)) Hfuel Hc) as (ret1 & q & Eq & Hq). rewrite Ec in Eq. injection Eq as <- <-.
    cbn [y_host y_live y_mon mc_pids mc_given]. destruct Hq as [(Hr & _ & ->)|(-> & _ & _ & _ & Hh')]; [rewrite (proj2 (Z.eqb_neq _ _) Hr)|cbn [Z.eqb]]; eauto 10.
  - destruct (join_extended _ _ _ _ _ _ _ _ _ _ _ _ _ _ (hi_conf _ _ _ _ _ _ _ _ _ Hh) (hi_unique _ _ _ _ _ _ _ _ _ Hh) E) as (own' & bs' & ls' & Hx).
    split; [exact Hm|]. exists cx, own', bs', ls', cl. eapply host_inv_net; eauto.
  - destruct (accept_extended _ _ _ _ _ _ _ _ _ _ _ _ _ (hi_conf _ _ _ _ _ _ _ _ _ Hh) (hi_unique _ _ _ _ _ _ _ _ _ Hh) E) as (own' & ls' & Hx).
    split; [exact Hm|]. exists cx, own', bs, ls', cl. eapply host_inv_net; eauto.
Qed.

Lemma start_host_inv bs ls cl p0 avail pids given : conf_inv bs ls cl (Conf p0 [] (fun _ => None)) -> NoDup avail -> host_inv [] [] (fun _ => None) pids given bs ls cl (start_host p0 avail).
Proof.
  intros Hc Hd. assert (Hno : forall (x : Z) (P : Prop), x ∈ ([] : list Z) -> P) by (intros x P Hx; now apply not_elem_of_nil in Hx).
  split; try (intros c; intros; eapply Hno; eassumption); [exact Hc|apply empty_rep|]. split; [exact Hd|]. intros a _. apply not_elem_of_nil.
Qed.

Lemma sys_reachable_inv s : sys_reachable s -> sys_inv s.
Proof.
  intros (port & p0 & avail & m & Hd & E0 & Hm & Hr). assert (Hi : sys_inv (Sys (start_host p0 avail) [] m)).
  { split; [exact Hm|]. destruct (init_conf cfg _ p0 (start_peer_inv port) E0) as (bs & ls & cl & Hc). exists [], (fun _ => None), bs, ls, cl. now apply start_host_inv. }
  clear E0 Hm Hd. remember (Sys (start_host p0 avail) [] m) as s0 eqn:Es0. clear Es0. induction Hr as [|s1 s2 s3 Hs _ IH]; [auto|]. apply IH. eapply sys_step_inv; eauto.
Qed.

(** ** Properties *)



End system.

(** ** Reads and writes *)

(** The requests follow each other from [a] on, over [n] bytes, none longer than
    [max]. *)
Fixpoint covers (max a n : Z) (l : list (Z * Z)) : Prop :=
  match l with
  | [] => n = 0
  | (va, sz) :: l => va = a /\ 0 <= sz <= max /\ covers max (a + sz) (n - sz) l
  end.

Lemma slice_app buf a n m : 0 <= n -> 0 <= m -> slice buf a (n + m) = slice buf a n ++ slice buf (a + n) m.
Proof.
  intros Hn Hm. unfold slice. rewrite seqZ_app, map_app by lia. f_equal. replace (0 + n) with (n + 0) by lia.
  rewrite <- (Z.add_0_l n) at 1. rewrite <- fmap_add_seqZ. change (fmap (Z.add n)) with (map (Z.add n)). rewrite map_map. apply map_ext. intros i. f_equal. lia.
Qed.

Lemma slice_length buf a n : 0 <= n -> Z.of_nat (length (slice buf a n)) = n.
Proof. intros Hn. unfold slice. rewrite length_map, length_seqZ. lia. Qed.

Lemma slice_ext buf buf' a n : (forall j, a <= j -> buf j = buf' j) -> slice buf a n = slice buf' a n.
Proof. intros H. unfold slice. apply map_ext_in. intros i Hi. apply list_elem_of_In, elem_of_seqZ in Hi. apply H. lia. Qed.

Lemma chunk_bounds max total : 0 < max -> 0 <= total -> 0 <= chunk_size max total <= max /\ chunk_size max total <= total /\ (total - chunk_size max total <> 0 -> chunk_size max total = max).
Proof. intros Hm Ht. unfold chunk_size. destruct (Z.leb_spec max total); lia. Qed.

Lemma shift_small max k : 0 <= k * max < 2 ^ 31 -> chunk_shift max k = k * max.
Proof. intros H. unfold chunk_shift, sint32, wrap64. rewrite (Z.mod_small (k * max + 2 ^ 31)) by lia. rewrite Z.mod_small; lia. Qed.

Section transfer.
Context (max addr T : Z) (sent : Z -> bool) (Hmax : 0 < max) (HT : 0 <= T < 2 ^ 31) (Haddr : 0 <= addr) (Hend : addr + T < 2 ^ 64).

(** One more iteration is left than whole chunks. *)
Lemma fuel_left fuel total : 0 <= total -> total < Z.of_nat (S fuel) * max -> total - chunk_size max total <> 0 -> total - chunk_size max total < Z.of_nat fuel * max.
Proof. intros Ht Hf Hn. destruct (chunk_bounds max total Hmax Ht) as (_ & _ & H). rewrite H by auto. lia. Qed.

Lemma request_address k : 0 <= k * max <= T -> addr +w chunk_shift max k = addr + k * max.
Proof. intros Hk. rewrite shift_small by lia. unfold wrap64. apply Z.mod_small. lia. Qed.

Lemma read_loop fuel k total : 0 <= k -> 0 <= total -> k * max + total = T -> total < Z.of_nat fuel * max \/ (total = 0 /\ (0 < fuel)%nat) ->
  exists l n, read_requests fuel max sent addr total k = Some l /\ 0 <= n <= total /\ covers max (addr + k * max) n l /\ ((forall j, sent j = true) -> n = total).
Proof.
  revert k total. induction fuel as [|fuel IH]; intros k total Hk Ht Hsum Hf; [lia|]. cbn [read_requests]. rewrite request_address by lia.
  destruct (chunk_bounds max total Hmax Ht) as (H1 & H2 & H3). set (sz := chunk_size max total) in *. destruct (sent k) eqn:Es; cbn [negb].
  2: { exists [], 0. split; [easy|]. split; [lia|]. split; [easy|]. intros Ha. specialize (Ha k). congruence. }
  destruct (Z.eqb_spec (total - sz) 0) as [Hz|Hz]; cbn [negb mbind option_bind].
  - exists [(addr + k * max, sz)], sz. split; [easy|]. split; [lia|]. split; [cbn; lia|]. lia.
  - destruct (IH (k + 1) (total - sz)) as (l & n & -> & Hn & Hc & Ha); [lia|lia|rewrite H3 by auto; lia|left; apply fuel_left; auto; destruct Hf; lia|]. cbn [mbind option_bind].
    exists ((addr + k * max, sz) :: l), (sz + n). split; [easy|]. split; [lia|]. split; [|intros Hall; rewrite (Ha Hall); lia]. cbn. split; [easy|]. split; [lia|].
    replace (sz + n - sz) with n by lia. rewrite H3 by auto. replace (addr + k * max + max) with (addr + (k + 1) * max) by lia. exact Hc.
Qed.

Lemma write_loop hsz header buf0 send_buf fuel k total buf : 0 <= hsz -> (forall va sz, Z.of_nat (length (header va sz)) = hsz) -> 0 <= k -> 0 <= total -> k * max + total = T ->
  (forall j, send_buf + k * max + hsz <= j -> buf j = buf0 j) -> total < Z.of_nat fuel * max \/ (total = 0 /\ (0 < fuel)%nat) ->
  exists l n, write_requests fuel max hsz header sent buf send_buf addr total k = Some l /\ 0 <= n <= total /\
    covers max (addr + k * max) n (map (fun r => (r.1, Z.of_nat (length r.2))) l) /\ concat (map snd l) = slice buf0 (send_buf + hsz + k * max) n /\ ((forall j, sent j = true) -> n = total).
Proof.
  intros Hh Hhd. revert k total buf. induction fuel as [|fuel IH]; intros k total buf Hk Ht Hsum Hb Hf; [lia|]. cbn [write_requests]. rewrite request_address by lia. rewrite shift_small by lia.
  destruct (chunk_bounds max total Hmax Ht) as (H1 & H2 & H3). set (sz := chunk_size max total) in *. set (buf1 := write_bytes _ _ _). destruct (sent k) eqn:Es; cbn [negb].
  2: { exists [], 0. split; [easy|]. split; [lia|]. split; [easy|]. split; [easy|]. intros Ha. specialize (Ha k). congruence. }
  assert (Hb1 : forall j, send_buf + k * max + hsz <= j -> buf1 j = buf0 j).
  { intros j Hj. unfold buf1, write_bytes. rewrite Hhd. destruct (Z.ltb_spec j (send_buf + k * max + hsz)); [lia|]. rewrite andb_false_r. now apply Hb. }
  assert (Hdata : slice buf1 (send_buf + k * max + hsz) sz = slice buf0 (send_buf + hsz + k * max) sz).
  { replace (send_buf + hsz + k * max) with (send_buf + k * max + hsz) by lia. now apply slice_ext. }
  destruct (Z.eqb_spec (total - sz) 0) as [Hz|Hz]; cbn [negb mbind option_bind].
  - eexists _, sz. split; [reflexivity|]. split; [lia|]. cbn [map covers fst snd concat]. rewrite slice_length by lia. split; [lia|]. split; [now rewrite app_nil_r|lia].
  - destruct (IH (k + 1) (total - sz) buf1) as (l & n & -> & Hn & Hc & Hd & Ha); [lia|lia|rewrite H3 by auto; lia|intros j Hj; apply Hb1; lia|left; apply fuel_left; auto; destruct Hf; lia|]. cbn [mbind option_bind].
    eexists _, (sz + n). split; [reflexivity|]. split; [lia|]. cbn [map covers fst snd concat]. rewrite slice_length by lia. split; [|split; [|intros Hall; rewrite (Ha Hall); lia]].
    + split; [easy|]. split; [lia|]. replace (sz + n - sz) with n by lia. rewrite H3 by auto. replace (addr + k * max + max) with (addr + (k + 1) * max) by lia. exact Hc.
    + rewrite slice_app by lia. rewrite Hdata, Hd. do 2 f_equal. rewrite H3 by auto. lia.
Qed.
End transfer.

(** C10: a write is split into requests that cover the range from its start without
    gaps or overlap, none with more data than a packet holds, and the data in the
    packets is the data of the caller, in order, although the headers of each request
    are written over data in the buffer.  When a request cannot be sent, this holds
    of those before it; otherwise of the whole range.  The sizes are below 2^31,
    where the offsets do not overflow. *)
Theorem write_requests_correct fuel max hsz header sent buf send_buf addr total : 0 < max -> 0 <= total < 2 ^ 31 -> 0 <= addr -> addr + total < 2 ^ 64 -> 0 <= hsz ->
  (forall va sz, Z.of_nat (length (header va sz)) = hsz) -> total < Z.of_nat fuel * max ->
  exists l n, write_requests fuel max hsz header sent buf send_buf addr total 0 = Some l /\ 0 <= n <= total /\
    covers max addr n (map (fun r => (r.1, Z.of_nat (length r.2))) l) /\ concat (map snd l) = slice buf (send_buf + hsz) n /\ ((forall j, sent j = true) -> n = total).
Proof.
  intros Hm Ht Ha He Hh Hhd Hf. destruct (write_loop max addr total sent Hm Ht Ha He hsz header buf send_buf fuel 0 total buf) as (l & n & E & H); auto; [lia..|].
  exists l, n. split; [exact E|]. rewrite Z.mul_0_l, !Z.add_0_r in H. exact H.
Qed.

(** A read is split into requests that cover the range from its start without
    gaps or overlap, none longer than a packet holds; all of it, unless a request
    cannot be sent. *)
Theorem read_requests_correct fuel max sent addr total : 0 < max -> 0 <= total < 2 ^ 31 -> 0 <= addr -> addr + total < 2 ^ 64 -> total < Z.of_nat fuel * max ->
  exists l n, read_requests fuel max sent addr total 0 = Some l /\ 0 <= n <= total /\ covers max addr n l /\ ((forall j, sent j = true) -> n = total).
Proof.
  intros Hm Ht Ha He Hf. destruct (read_loop max addr total sent Hm Ht Ha He fuel 0 total) as (l & n & E & H); auto; [lia..|].
  exists l, n. split; [exact E|]. rewrite Z.mul_0_l, !Z.add_0_r in H. exact H.
Qed.

(** ** Migration *)

(** Writing the flags of a region keeps the boards of all regions. *)
Definition same_boards (h h' : host) : Prop :=
  forall c i, v_ip (region_at h' c i) = v_ip (region_at h c i) /\ v_port (region_at h' c i) = v_port (region_at h c i).

Lemma set_region_boards h c v r : v_ip r = v_ip (region_at h c v) -> v_port r = v_port (region_at h c v) -> same_boards h (set_region_at h c v r).
Proof.
  intros H1 H2 c' i. unfold region_at, set_region_at. destruct (decide (c' = c)) as [->|Hc]; [rewrite ctx_set|now rewrite ctx_set_other].
  cbn [set_vregion vregion]. destruct (decide (i = v)) as [->|Hi]; [now rewrite fn_lookup_insert|now rewrite fn_lookup_insert_ne by auto].
Qed.

Lemma region_set h c v r : region_at (set_region_at h c v r) c v = r.
Proof. unfold region_at, set_region_at. rewrite ctx_set. apply fn_lookup_insert. Qed.

(** C12: a migration never changes the board the host has recorded for a region, not
    even when the monitor has moved the region to another one; and after a migration
    that the monitor refused, or whose answer was lost, every further migration of
    the region is refused with [-EBUSY]. *)
Theorem migration_keeps_board cfg h up ask mon c dst v tid ret h' : legomem_migration_vregion cfg h up ask mon c dst v tid = Some (ret, h') ->
  same_boards h h' /\
  (mon <> Some 0 -> v < NR_VREGIONS -> VregionAllocated (region_at h c v) = true ->
   forall up' ask' mon' dst' tid', exists h2, legomem_migration_vregion cfg h' up' ask' mon' c dst' v tid' = Some (- EBUSY, h2)).
Proof.
  unfold legomem_migration_vregion at 1. unfold index_to_legomem_vregion at 1. destruct (Z.leb_spec NR_VREGIONS v) as [Hv|Hv]; [discriminate|]. cbn [mbind option_bind].
  destruct (VregionAllocated (region_at h c v)) eqn:Ea; cbn [negb]; [|intros [= <- <-]; split; [easy|intros _ _; discriminate]].
  destruct (TestSetVregionMigration (region_at h c v)) as [before r] eqn:Et. unfold TestSetVregionMigration in Et. injection Et as Eb <-. set (r := set_v_flags _ _). set (h1 := set_region_at h c v r).
  assert (Hs : same_boards h h1) by now apply set_region_boards.
  assert (Hbusy : forall up' ask' mon' dst' tid', exists h2, legomem_migration_vregion cfg h1 up' ask' mon' c dst' v tid' = Some (- EBUSY, h2)).
  { intros up' ask' mon' dst' tid'. unfold legomem_migration_vregion, index_to_legomem_vregion. rewrite (proj2 (Z.leb_gt _ _)) by lia. cbn [mbind option_bind]. unfold h1. rewrite region_set.
    unfold VregionAllocated, TestSetVregionMigration, r, set_v_flags in *. cbn [v_flags]. rewrite Z.setbit_neq, Ea by (unfold V_allocated, V_migration; lia). cbn [negb]. rewrite Z.setbit_eq by (unfold V_migration; lia). eauto. }
  destruct before; [intros [= <- <-]; auto|]. destruct mon as [ret0|]; [|intros [= <- <-]; auto]. destruct (Z.eqb_spec ret0 0) as [->|Hret]; cbn [negb].
  - intros E. split; [|now intros []]. destruct (find_vregion_session (net h1) c v tid) as [f|]; [|discriminate E]. cbn [mbind option_bind] in E.
    destruct (match f with None => _ | Some _ => _ end) as [p|]; [|discriminate E]. cbn [mbind option_bind] in E. destruct (thread_session _ _ _ _ _ _ _ _ _) as [[s p']|]; [|discriminate E]. cbn [mbind option_bind] in E.
    destruct s as [ses|]; injection E as <- <-; [|exact Hs]. set (h2 := set_hnet h1 _). intros c' i. destruct (set_region_boards h2 c v (ClearVregionMigration (region_at h2 c v)) eq_refl eq_refl c' i) as [-> ->]. exact (Hs c' i).
  - destruct (find_board _ _ _) as [src|]; [|discriminate]. cbn [mbind option_bind]. destruct src; [|discriminate]. cbn [mbind option_bind]. intros [= <- <-]. auto.
Qed.

(** ** Examples *)

(** The boards of a node, after its own entries, with the memory board at 9:77. *)
Definition ex_monitor_net (p0 : peer) : option peer :=
  '(r, p) ← init_local_management_session TRANSPORT_RPC p0 true;
  if negb (r =? 0) then None
  else
    '(_, p) ← add_localhost_bi TRANSPORT_RPC p true 1 8888;
    '(r, p) ← manually_add_new_node TRANSPORT_RPC p true true 9 77 BOARD_INFO_FLAGS_BOARD;
    if negb (r =? 0) then None else Some p.
Definition ex_host_net (p0 : peer) : option (peer * peer) :=
  '(r, p) ← init_local_management_session TRANSPORT_RPC p0 true;
  if negb (r =? 0) then None
  else
    p' ← handle_new_node TRANSPORT_RPC p true true BOARD_INFO_FLAGS_BOARD 4096 9 77;
    Some (p, p').
Definition ex_view (p : peer) (i : Z) : Z * bool * Z * Z * Z :=
  (nr_max_board_id (bds p), bool_decide (nr_online_boards (bds p) = 0), bi_flags (bi_at p i), bi_ip (bi_at p i), bi_port (bi_at p i)).

Lemma ex_monitor_view : option_map (fun p => ex_view p 2) (ex_monitor_net (start_peer 8888)) = Some (2, false, 0x21, 9, 77).
Proof. vm_compute. reflexivity. Qed.
Lemma ex_host_view : option_map (fun q => (ex_view q.2 1, bool_decide (bi_mgmt_session (bi_at q.2 1) = None), special_board_info_type (bi_flags (bi_at q.2 0)))) (ex_host_net (start_peer 8889)) = Some ((1, false, 0x21, 9, 77), false, true).
Proof. vm_compute. reflexivity. Qed.

Lemma ex_monitor_board p0 m v : mon_init TRANSPORT_RPC p0 8888 1 [100] = Some m -> option_map (fun p => ex_view p 2) (ex_monitor_net p0) = Some v ->
  exists p, manually_add_new_node TRANSPORT_RPC (m_net m) true true 9 77 BOARD_INFO_FLAGS_BOARD = Some (0, p) /\ ex_view p 2 = v.
Proof.
  unfold mon_init, ex_monitor_net. destruct (init_local_management_session _ _ _) as [[r p]|]; [|discriminate]. cbn [mbind option_bind]. destruct (negb (r =? 0)); [discriminate|].
  destruct (add_localhost_bi _ _ _ _ _) as [[r' p']|]; [|discriminate]. cbn [mbind option_bind]. intros [= <-]. cbn [m_net empty_monitor].
  destruct (manually_add_new_node _ _ _ _ _ _ _) as [[r2 p2]|]; [|discriminate]. cbn [mbind option_bind]. destruct (Z.eqb_spec r2 0) as [->|]; [|discriminate]. cbn [negb option_map]. intros Hv%(inj Some). eauto.
Qed.

Lemma ex_monitor_step m p v : mon_reachable TRANSPORT_RPC 128 (Z.to_nat NR_MAX_USER_PID) (MConf m [] (fun _ => [])) -> nr_max_board_id (bds (m_net m)) = 1 -> pavail (m_procs m) = [100] -> pid_map m = repeat 0 938 ->
  manually_add_new_node TRANSPORT_RPC (m_net m) true true 9 77 BOARD_INFO_FLAGS_BOARD = Some (0, p) -> ex_view p 2 = v ->
  exists m', mon_reachable TRANSPORT_RPC 128 (Z.to_nat NR_MAX_USER_PID) (MConf m' [] (fun _ => [])) /\
    pavail (m_procs m') = [100] /\ (forall q, 1 <= q < NR_MAX_USER_PID -> bm_bit (pid_map m') q = false) /\ ex_view (m_net m') 2 = v.
Proof.
  intros Hr Hmax Hav Hmap Em Hv. exists (set_net m p). split; [|split; [exact Hav|split; [intros q Hq; cbn [pid_map set_net]; rewrite Hmap; apply zero_bit; lia|exact Hv]]].
  eapply mon_step_reachable; [exact Hr|]. apply (step_manual TRANSPORT_RPC 128 (Z.to_nat NR_MAX_USER_PID) (MConf m [] (fun _ => [])) true 9 77 p); [|exact Em]. cbn [mc_mon]. rewrite Hmax. reflexivity.
Qed.

#[local] Opaque mon_init.
Lemma boot_is_init cfg port ip avail m : mon_boot cfg port ip avail = Some m -> mon_init cfg (start_peer port) port ip avail = Some m.
Proof. unfold mon_boot. intros E. exact E. Qed.

Lemma ex_monitor : exists m, mon_reachable TRANSPORT_RPC 128 (Z.to_nat NR_MAX_USER_PID) (MConf m [] (fun _ => [])) /\
  pavail (m_procs m) = [100] /\ (forall q, 1 <= q < NR_MAX_USER_PID -> bm_bit (pid_map m) q = false) /\ ex_view (m_net m) 2 = (2, false, 0x21, 9, 77).
Proof.
  destruct (boot_exists TRANSPORT_RPC 8888 1 [100]) as (m & E & Hav & Hmap). pose proof (boot_is_init _ _ _ _ _ E) as E'. pose proof (ex_monitor_board _ m _ E' ex_monitor_view) as (p & Em & Hv).
  pose proof (net_counts_of _ m (boot_net TRANSPORT_RPC 8888 1 [100]) E') as [Hmax _]. clear E'. refine (ex_monitor_step m p _ _ Hmax Hav Hmap Em Hv).
  exists 8888, 1, [100], m. split; [apply NoDup_singleton|]. split; [intros H%list_elem_of_singleton; discriminate H|]. split; [exact E|constructor].
Qed.

Lemma ex_host_parts p00 v :
  option_map (fun q => (ex_view q.2 1, bool_decide (bi_mgmt_session (bi_at q.2 1) = None), special_board_info_type (bi_flags (bi_at q.2 0)))) (ex_host_net p00) = Some v ->
  exists p0 p', init_local_management_session TRANSPORT_RPC p00 true = Some (0, p0) /\ handle_new_node TRANSPORT_RPC p0 true true BOARD_INFO_FLAGS_BOARD 4096 9 77 = Some p' /\
    (ex_view p' 1, bool_decide (bi_mgmt_session (bi_at p' 1) = None), special_board_info_type (bi_flags (bi_at p' 0))) = v.
Proof.
  unfold ex_host_net. destruct (init_local_management_session _ _ _) as [[r p]|]; [|discriminate]. cbn [mbind option_bind]. destruct (Z.eqb_spec r 0) as [->|]; [|discriminate]. cbn [negb].
  destruct (handle_new_node _ _ _ _ _ _ _ _) as [p'|] eqn:E; [|discriminate]. cbn [mbind option_bind option_map fst snd]. intros Hv%(inj Some). eauto.
Qed.

(** Its two boards are its own entry and the memory board. *)
Lemma ex_boards_up bs ls cl p cx own : conf_inv bs ls cl (Conf p cx own) ->
  (ex_view p 1, bool_decide (bi_mgmt_session (bi_at p 1) = None), special_board_info_type (bi_flags (bi_at p 0))) = ((1, false, 0x21, 9, 77), false, true) -> boards_up p.
Proof.
  intros Hc Hv. unfold ex_view in Hv. injection Hv as Hmax _ _ _ _ Hm Hs. apply bool_decide_eq_false in Hm. intros bi Hk Hsp. pose proof (ci_peer _ _ _ _ Hc) as Hp. cbn [c_peer] in Hp.
  apply (known_board_in _ _ _ _ _ _ Hp) in Hk. apply (bo_max _ _ (pe_boards _ _ _ _ _ Hp) bi (ci_boards _ _ _ _ Hc)) in Hk. assert (bi = 0 \/ bi = 1) as [->| ->] by lia; [congruence|exact Hm].
Qed.

Definition ex_reach : sys -> Prop := sys_reachable TRANSPORT_RPC 128 (Z.to_nat NR_MAX_USER_PID) (Z.to_nat NR_VREGIONS).

Lemma ex_hfuel : NR_VREGIONS <= Z.of_nat (Z.to_nat NR_VREGIONS).
Proof. rewrite Z2Nat.id by (vm_compute; discriminate). lia. Qed.

(** The host opens a context. *)
Lemma ex_sys_of port p0 p' m : init_local_management_session TRANSPORT_RPC (start_peer port) true = Some (0, p0) ->
  handle_new_node TRANSPORT_RPC p0 true true BOARD_INFO_FLAGS_BOARD 4096 9 77 = Some p' -> mon_reachable TRANSPORT_RPC 128 (Z.to_nat NR_MAX_USER_PID) (MConf m [] (fun _ => [])) ->
  pavail (m_procs m) = [100] -> (forall q, 1 <= q < NR_MAX_USER_PID -> bm_bit (pid_map m) q = false) ->
  exists h m', ex_reach (Sys h [50] (MConf m' [1] (fun _ => []))) /\ bds (net h) = bds p' /\ m_net m' = m_net m.
Proof.
  intros E0 Ej Hm Hav Hz. destruct (mon_reachable_inv TRANSPORT_RPC 128 (Z.to_nat NR_MAX_USER_PID) ex_tries ex_fuel _ Hm) as (ps & bs & ls & cl & Hc).
  assert (H1 : 1 <= 1 < NR_MAX_USER_PID) by (split; [lia|reflexivity]).
  destruct (mon_create_spec 0 0 ps _ _ 5 1 (mn_mon _ _ _ _ _ Hc) H1 (Hz 1 H1)) as (ret & pid & m1 & E1 & Hn & H). cbn [mc_mon mc_given] in *.
  destruct H as [(_ & ? & _)|(-> & Hpid & _)]; [congruence|]. assert (pid = 1) as -> by lia. set (h1 := set_hnet (start_host p0 [50]) p').
  assert (Eo : legomem_open_context h1 (Some (0, 1)) = (Some 50, (legomem_open_context h1 (Some (0, 1))).2)) by reflexivity.
  exists (legomem_open_context h1 (Some (0, 1))).2, m1. split; [|split; [reflexivity|exact Hn]].
  exists port, p0, [50], (MConf m [] (fun _ => [])). split; [apply NoDup_singleton|]. split; [exact E0|]. split; [exact Hm|]. eapply rtc_l; [eapply ss_join; exact Ej|]. apply rtc_once.
  refine (ss_open TRANSPORT_RPC 128 _ _ h1 [] (MConf m [] (fun _ => [])) 5 0 1 m1 (Some 50) _ _ E1 Eo). exists 1. split; [exact H1|apply (Hz 1 H1)].
Qed.

Lemma ex_sys : exists h m, ex_reach (Sys h [50] (MConf m [1] (fun _ => []))) /\ boards_up (net h) /\ ex_view (m_net m) 2 = (2, false, 0x21, 9, 77).
Proof.
  pose proof (ex_host_parts _ _ ex_host_view) as (p0 & p' & E0 & Ej & Hv). destruct ex_monitor as (m & Hm & Hav & Hz & Hmv).
  destruct (ex_sys_of 8889 p0 p' m E0 Ej Hm Hav Hz) as (h & m' & Hr & Hb & Hn). exists h, m'. split; [exact Hr|]. split; [|now rewrite Hn].
  destruct (sys_reachable_inv TRANSPORT_RPC 128 (Z.to_nat NR_MAX_USER_PID) (Z.to_nat NR_VREGIONS) ex_tries ex_fuel ex_hfuel _ Hr) as [_ (cx & own & bs & ls & cl & Hh)].
  apply (ex_boards_up bs ls cl (net h) cx own); [apply (hi_conf _ _ _ _ _ _ _ _ _ Hh)|]. unfold ex_view, bi_at in *. rewrite Hb. exact Hv.
Qed.

(** The board the monitor chooses is the one at 9:77. *)
Lemma ex_ordinary mc pid size resp mm : mon_reachable TRANSPORT_RPC 128 (Z.to_nat NR_MAX_USER_PID) mc -> ex_view (m_net (mc_mon mc)) 2 = (2, false, 0x21, 9, 77) ->
  mon_handle_alloc 128 (Z.to_nat NR_MAX_USER_PID) (mc_mon mc) pid size = Some (resp, mm) -> ordinary (ar_ip resp).
Proof.
  intros Hm Hv E. destruct (mon_reachable_inv TRANSPORT_RPC 128 (Z.to_nat NR_MAX_USER_PID) ex_tries ex_fuel _ Hm) as (ps & bs & ls & cl & Hc).
  destruct (alloc_outcome 128 (Z.to_nat NR_MAX_USER_PID) ex_tries ex_fuel _ _ _ _ _ pid size Hc) as (resp' & r & m' & E' & _ & _ & H). rewrite E in E'. injection E' as <- <-.
  unfold ex_view in Hv. injection Hv as Hmax _ _ Hip _. destruct H as [(_ & -> & _)|(_ & H)]; [now split|]. destruct H as [| | |bi i _ _ _ [Hb _] _]; [now split|now split|now split|].
  rewrite Hmax in Hb. unfold nr_alloc_board_base in Hb. assert (bi = 2) as -> by lia. cbn [ar_ip]. rewrite Hip. now split.
Qed.




Lemma write_requests_correct_witness : exists l, write_requests 4 4 2 (fun _ _ => [91; 92]) (fun _ => true) (fun j => j) 0 4096 10 0 = Some l /\ concat (map snd l) = [2; 3; 4; 5; 6; 7; 8; 9; 10; 11].
Proof.
  destruct (write_requests_correct 4 4 2 (fun _ _ => [91; 92]) (fun _ => true) (fun j => j) 0 4096 10 ltac:(lia) ltac:(lia) ltac:(lia) ltac:(lia) ltac:(lia) ltac:(reflexivity) ltac:(lia)) as (l & n & E & _ & _ & Hd & Hn).
  exists l. split; [exact E|]. rewrite Hd, (Hn (fun _ => eq_refl)). reflexivity.
Defined.

Lemma read_requests_correct_witness : exists l, read_requests 4 4 (fun _ => true) 4096 10 0 = Some l /\ covers 4 4096 10 l.
Proof.
  destruct (read_requests_correct 4 4 (fun _ => true) 4096 10 ltac:(lia) ltac:(lia) ltac:(lia) ltac:(lia) ltac:(lia)) as (l & n & E & _ & Hc & Hn). exists l. split; [exact E|]. rewrite <- (Hn (fun _ => eq_refl)). exact Hc.
Defined.

(** A context with region 1 at 9:77, whose migration the monitor refuses to answer. *)
Definition ex_migration_host (p : peer) : host := set_region_at (start_host p []) 50 1 (LVregion 9 77 1 0).

Lemma migration_keeps_board_witness : exists h', legomem_migration_vregion TRANSPORT_RPC (ex_migration_host (start_peer 8889)) true (fun _ => None) None 50 2 1 7 = Some (- EIO, h') /\
  same_boards (ex_migration_host (start_peer 8889)) h'.
Proof.
  generalize (start_peer 8889). intros p. eexists. assert (E : legomem_migration_vregion TRANSPORT_RPC (ex_migration_host p) true (fun _ => None) None 50 2 1 7 = Some (- EIO, _)) by reflexivity.
  split; [exact E|apply (migration_keeps_board _ _ _ _ _ _ _ _ _ _ _ E)].
Defined.
